(** * Operit GitHub tools: a shallow embedding of
      [tools/github/import_anthropic_skills.py] and [tools/github/list_issues.py]

    The two programs are HTTP orchestration written in Python.  They are
    embedded here as Rocq functions:

    - a Python [str] is a list of Unicode code points ([str := list N]);
    - a decoded JSON document is the inductive type [json];
    - effects (HTTP exchanges, [time.sleep], [print], the wall clock) are
      threaded through an explicit [World]; a computation is a function
      [World -> res A * World], where [res] is either a value or a raised
      Python exception;
    - library results whose exact text is outside the model (Unicode case
      tables, [repr] of floats and containers, wording of interpreter error
      messages, URL quoting, the dedented prompt template) are left
      uninterpreted: they are read from a record [Interp], and every general
      theorem holds for every such record. *)

From Stdlib Require Import String Ascii.
From Stdlib Require Import List ZArith NArith Lia Bool Sorted Permutation.
Import ListNotations.

Set Implicit Arguments.
Set Warnings "-register-all,-abstract-large-number".

(* ================================================================= *)
(** * Python strings *)
(* ================================================================= *)

Module Py.

(** A Python [str]: a sequence of code points. *)
Definition str := list N.

Fixpoint bytes_of_string (s : string) : list N :=
  match s with
  | EmptyString => []
  | String a r => N_of_ascii a :: bytes_of_string r
  end.

(** UTF-8 decoding of the bytes of a source literal (literals of the
    development are well-formed, a malformed tail decodes to U+FFFD). *)
Fixpoint utf8_decode (bs : list N) : str :=
  match bs with
  | [] => []
  | b0 :: r0 =>
      if (b0 <? 128)%N then b0 :: utf8_decode r0
      else if (b0 <? 224)%N then
        match r0 with
        | b1 :: r1 => ((b0 - 192) * 64 + (b1 - 128))%N :: utf8_decode r1
        | _ => [65533%N]
        end
      else if (b0 <? 240)%N then
        match r0 with
        | b1 :: b2 :: r2 =>
            ((b0 - 224) * 4096 + (b1 - 128) * 64 + (b2 - 128))%N :: utf8_decode r2
        | _ => [65533%N]
        end
      else
        match r0 with
        | b1 :: b2 :: b3 :: r3 =>
            ((b0 - 240) * 262144 + (b1 - 128) * 4096 + (b2 - 128) * 64 + (b3 - 128))%N
              :: utf8_decode r3
        | _ => [65533%N]
        end
  end.

(** A string literal of the source. *)
Definition lit (s : string) : str := utf8_decode (bytes_of_string s).

(** A literal in which the source has double quotes: written here with
    apostrophes, which [qlit] turns into U+0022. *)
Definition qlit (s : string) : str :=
  map (fun c => if (c =? 39)%N then 34%N else c) (lit s).

Definition chr_quote : N := 34.
Definition chr_backslash : N := 92.
Definition chr_newline : N := 10.
Definition chr_cr : N := 13.
Definition chr_space : N := 32.
Definition chr_slash : N := 47.
Definition chr_comma : N := 44.

Fixpoint str_eqb (a b : str) : bool :=
  match a, b with
  | [], [] => true
  | x :: a', y :: b' => (x =? y)%N && str_eqb a' b'
  | _, _ => false
  end.

(** [a < b] and [a <= b] on [str]: lexicographic on code points. *)
Fixpoint str_ltb (a b : str) : bool :=
  match a, b with
  | _, [] => false
  | [], _ :: _ => true
  | x :: a', y :: b' => (x <? y)%N || ((x =? y)%N && str_ltb a' b')
  end.

Definition str_leb (a b : str) : bool := negb (str_ltb b a).

(** [str.isspace] of one code point; the same class is the [\s] of [re] on
    [str] patterns. *)
Definition is_space (c : N) : bool :=
  ((9 <=? c) && (c <=? 13) || (28 <=? c) && (c <=? 32)
   || (c =? 133) || (c =? 160) || (c =? 5760)
   || (8192 <=? c) && (c <=? 8202)
   || (c =? 8232) || (c =? 8233) || (c =? 8239) || (c =? 8287)
   || (c =? 12288))%N.

Fixpoint drop_while (p : N -> bool) (s : str) : str :=
  match s with
  | [] => []
  | c :: r => if p c then drop_while p r else s
  end.

Definition lstrip_by (p : N -> bool) (s : str) : str := drop_while p s.
Definition rstrip_by (p : N -> bool) (s : str) : str :=
  rev (drop_while p (rev s)).
Definition strip_by (p : N -> bool) (s : str) : str :=
  rstrip_by p (lstrip_by p s).

(** [s.strip()], [s.lstrip()], [s.rstrip()]. *)
Definition lstrip (s : str) : str := lstrip_by is_space s.
Definition rstrip (s : str) : str := rstrip_by is_space s.
Definition strip (s : str) : str := strip_by is_space s.

(** [s.strip(chars)] and its one-sided forms. *)
Definition in_chars (chars : str) (c : N) : bool := existsb (N.eqb c) chars.
Definition lstrip_chars (chars s : str) : str := lstrip_by (in_chars chars) s.
Definition rstrip_chars (chars s : str) : str := rstrip_by (in_chars chars) s.
Definition strip_chars (chars s : str) : str := strip_by (in_chars chars) s.

(** [s.startswith(p)], and the remainder after the prefix. *)
Fixpoint startswith (s p : str) : bool :=
  match p, s with
  | [], _ => true
  | x :: p', y :: s' => (x =? y)%N && startswith s' p'
  | _ :: _, [] => false
  end.

Fixpoint strip_prefix (p s : str) : option str :=
  match p, s with
  | [], _ => Some s
  | x :: p', y :: s' => if (x =? y)%N then strip_prefix p' s' else None
  | _ :: _, [] => None
  end.

Definition endswith (s p : str) : bool := startswith (rev s) (rev p).

(** [needle in hay]. *)
Fixpoint contains (needle hay : str) : bool :=
  startswith hay needle
  || match hay with
     | [] => false
     | _ :: r => contains needle r
     end.

(** [s.split(sep)] for a one-character separator. *)
Fixpoint split (sep : N) (s : str) : list str :=
  match s with
  | [] => [[]]
  | c :: r =>
      if (c =? sep)%N then [] :: split sep r
      else match split sep r with
           | [] => [[c]]
           | h :: t => (c :: h) :: t
           end
  end.

(** [s.split(sep, 1)]: [None] when the separator does not occur (the
    result then has one element only). *)
Fixpoint split_once (sep : N) (s : str) : option (str * str) :=
  match s with
  | [] => None
  | c :: r =>
      if (c =? sep)%N then Some ([], r)
      else match split_once sep r with
           | Some (a, b) => Some (c :: a, b)
           | None => None
           end
  end.

(** [s.splitlines()]: the lines of [s], without their ends.  A line ends
    at LF, CR, CR LF, VT, FF, FS, GS, RS, NEL, LS or PS; a line end at the
    very end of [s] opens no further line. *)
Definition is_linebreak (c : N) : bool :=
  ((c =? 10) || (c =? 13) || (c =? 11) || (c =? 12) || (c =? 28) || (c =? 29)
   || (c =? 30) || (c =? 133) || (c =? 8232) || (c =? 8233))%N.

Fixpoint splitlines (s : str) : list str :=
  match s with
  | [] => []
  | c :: r =>
      if is_linebreak c then
        [] :: (if (c =? 13)%N then
                 match r with
                 | d :: r' => if (d =? 10)%N then splitlines r' else splitlines r
                 | [] => splitlines r
                 end
               else splitlines r)
      else match splitlines r with
           | [] => [[c]]
           | h :: t => (c :: h) :: t
           end
  end.

(** [sep.join(parts)]. *)
Fixpoint join (sep : str) (parts : list str) : str :=
  match parts with
  | [] => []
  | [p] => p
  | p :: rest => p ++ sep ++ join sep rest
  end.

(** [s.replace(a, b)] for one-character [a] and [b]. *)
Definition replace_chr (a b : N) (s : str) : str :=
  map (fun c => if (c =? a)%N then b else c) s.

(** [re.sub(r"\s+", " ", s)]: every maximal run of white space becomes one
    space. *)
Fixpoint collapse_ws_from (in_run : bool) (s : str) : str :=
  match s with
  | [] => []
  | c :: r =>
      if is_space c then
        if in_run then collapse_ws_from true r
        else chr_space :: collapse_ws_from true r
      else c :: collapse_ws_from false r
  end.

Definition collapse_ws (s : str) : str := collapse_ws_from false s.

Definition is_empty (s : str) : bool :=
  match s with [] => true | _ :: _ => false end.

Definition is_empty_list {A : Type} (l : list A) : bool :=
  match l with [] => true | _ :: _ => false end.

(** A [dict] with [str] keys: an association list with distinct keys, in
    insertion order. *)
Fixpoint assoc_get {V : Type} (k : str) (d : list (str * V)) : option V :=
  match d with
  | [] => None
  | (k', v) :: r => if str_eqb k k' then Some v else assoc_get k r
  end.

(** [d[k] = v]: an existing key keeps its position. *)
Fixpoint assoc_set {V : Type} (k : str) (v : V) (d : list (str * V))
  : list (str * V) :=
  match d with
  | [] => [(k, v)]
  | (k', v') :: r =>
      if str_eqb k k' then (k', v) :: r else (k', v') :: assoc_set k v r
  end.

(** [x in xs] for a list or a set of strings. *)
Definition str_mem (x : str) (xs : list str) : bool := existsb (str_eqb x) xs.

(** [sorted(xs, key=...)] and [xs.sort(key=...)]: a stable sort, here by
    insertion; [key] values are compared as strings. *)
Fixpoint insert_by {A : Type} (key : A -> str) (x : A) (l : list A) : list A :=
  match l with
  | [] => [x]
  | y :: r => if str_leb (key x) (key y) then x :: l else y :: insert_by key x r
  end.

Fixpoint sort_by {A : Type} (key : A -> str) (l : list A) : list A :=
  match l with
  | [] => []
  | x :: r => insert_by key x (sort_by key r)
  end.

Definition sorted (l : list str) : list str := sort_by (fun x => x) l.

(** The elements of a [set] built by successive [add]. *)
Fixpoint set_of (l : list str) : list str :=
  match l with
  | [] => []
  | x :: r => if str_mem x r then set_of r else x :: set_of r
  end.

End Py.

Import Py.

(* ================================================================= *)
(** * Decoded JSON values and the Python operations on them *)
(* ================================================================= *)

Module Json.

(** What [json.loads] returns: [None], [bool], [int], [float] (kept as the
    text it was read from), [str], [list], [dict].  A [dict] is an
    association list with distinct keys in insertion order. *)
Inductive json : Type :=
| JNull
| JBool (b : bool)
| JInt (z : Z)
| JFloat (lexeme : str)
| JStr (s : str)
| JArr (items : list json)
| JObj (members : list (str * json)).

Definition dict := list (str * json).

Definition dict_get (k : str) (d : dict) : option json := assoc_get k d.
Definition dict_set (k : str) (v : json) (d : dict) : dict := assoc_set k v d.

(** [k in d]. *)
Definition dict_has (k : str) (d : dict) : bool :=
  match dict_get k d with Some _ => true | None => false end.

(** [d.get(k)]. *)
Definition py_get (k : str) (d : dict) : json :=
  match dict_get k d with Some v => v | None => JNull end.

Definition isinstance_dict (v : json) : bool :=
  match v with JObj _ => true | _ => false end.

Definition isinstance_list (v : json) : bool :=
  match v with JArr _ => true | _ => false end.

(** [type(v).__name__]. *)
Definition type_name (v : json) : str :=
  match v with
  | JNull => lit "NoneType"
  | JBool _ => lit "bool"
  | JInt _ => lit "int"
  | JFloat _ => lit "float"
  | JStr _ => lit "str"
  | JArr _ => lit "list"
  | JObj _ => lit "dict"
  end.

(** Texts that the interpreter and its libraries produce and whose wording
    is outside the model; [text_of] gives each one its value. *)
Inductive PyText : Type :=
| TLower (s : str)                  (* s.lower(), s not pure ASCII *)
| TUpper (s : str)                  (* s.upper(), s not pure ASCII *)
| TStr (v : json)                   (* str(v) of a float, list or dict *)
| TFloatRepr (lexeme : str)         (* repr of the float read from lexeme *)
| TJsonDumps (v : json)             (* json.dumps(v, ensure_ascii=False) *)
| TJsonError (text : str)           (* str(JSONDecodeError) of json.loads(text) *)
| TDecodeError (text : str)         (* str(UnicodeDecodeError) of a strict decode *)
| TIntError (v : json)              (* str(e) of a failed int(v) *)
| TLookupError (v : json)           (* str(e) of the failed v["choices"][0]["message"]["content"] *)
| TQuote (s : str)                  (* urllib.parse.quote(s) *)
| TUrlencode (params : list (str * str)) (* urllib.parse.urlencode(params) *)
| TPrompt (skill_name source_repo_url md_file_name md : str).
                                    (* the dedented user prompt *)

Record Interp : Type := {
  text_of : PyText -> str;
  (** [bool(float(lexeme))] *)
  float_nonzero : str -> bool;
  (** [float(s)] succeeds *)
  float_ok : str -> bool;
  (** [int(v)] of a [str] or a [float]; [None] when it raises *)
  int_of : json -> option Z
}.

Fixpoint str_of_uint (d : Decimal.uint) : str :=
  match d with
  | Decimal.Nil => []
  | Decimal.D0 r => 48%N :: str_of_uint r
  | Decimal.D1 r => 49%N :: str_of_uint r
  | Decimal.D2 r => 50%N :: str_of_uint r
  | Decimal.D3 r => 51%N :: str_of_uint r
  | Decimal.D4 r => 52%N :: str_of_uint r
  | Decimal.D5 r => 53%N :: str_of_uint r
  | Decimal.D6 r => 54%N :: str_of_uint r
  | Decimal.D7 r => 55%N :: str_of_uint r
  | Decimal.D8 r => 56%N :: str_of_uint r
  | Decimal.D9 r => 57%N :: str_of_uint r
  end.

(** [str(n)] of an [int]. *)
Definition dec_of_N (n : N) : str := str_of_uint (N.to_uint n).
Definition dec_of_Z (z : Z) : str :=
  if (z <? 0)%Z then 45%N :: dec_of_N (Z.abs_N z) else dec_of_N (Z.to_N z).
Definition dec_of_nat (n : nat) : str := dec_of_N (N.of_nat n).

Section WithInterp.
Variable I : Interp.

Definition is_ascii (c : N) : bool := (c <? 128)%N.
Definition ascii_lower (c : N) : N :=
  if ((65 <=? c) && (c <=? 90))%N then (c + 32)%N else c.
Definition ascii_upper (c : N) : N :=
  if ((97 <=? c) && (c <=? 122))%N then (c - 32)%N else c.

(** [s.lower()] and [s.upper()]: computed on ASCII strings, read from the
    interpreter's tables otherwise. *)
Definition lower (s : str) : str :=
  if forallb is_ascii s then map ascii_lower s else text_of I (TLower s).
Definition upper (s : str) : str :=
  if forallb is_ascii s then map ascii_upper s else text_of I (TUpper s).

(** [bool(v)]. *)
Definition truthy (v : json) : bool :=
  match v with
  | JNull => false
  | JBool b => b
  | JInt z => negb (z =? 0)%Z
  | JFloat lx => float_nonzero I lx
  | JStr s => match s with [] => false | _ => true end
  | JArr l => match l with [] => false | _ => true end
  | JObj m => match m with [] => false | _ => true end
  end.

(** [a or b]. *)
Definition py_or (a b : json) : json := if truthy a then a else b.

(** [str(v)]. *)
Definition py_str (v : json) : str :=
  match v with
  | JStr s => s
  | JNull => lit "None"
  | JBool true => lit "True"
  | JBool false => lit "False"
  | JInt z => dec_of_Z z
  | _ => text_of I (TStr v)
  end.

(** ** [json.dumps(v, ensure_ascii=False, separators=(',', ':'))] *)

Definition hex_digit (n : N) : N :=
  if (n <? 10)%N then (48 + n)%N else (87 + n)%N.

Definition escape_chr (c : N) : str :=
  if (c =? 34)%N then [92; 34]%N
  else if (c =? 92)%N then [92; 92]%N
  else if (c =? 10)%N then [92; 110]%N
  else if (c =? 13)%N then [92; 114]%N
  else if (c =? 9)%N then [92; 116]%N
  else if (c =? 8)%N then [92; 98]%N
  else if (c =? 12)%N then [92; 102]%N
  else if (c <? 32)%N then
    [92; 117; 48; 48; hex_digit (c / 16); hex_digit (c mod 16)]%N
  else [c].

Definition encode_basestring (s : str) : str :=
  chr_quote :: flat_map escape_chr s ++ [chr_quote].

Fixpoint json_dumps_compact (v : json) : str :=
  match v with
  | JNull => lit "null"
  | JBool true => lit "true"
  | JBool false => lit "false"
  | JInt z => dec_of_Z z
  | JFloat lx => text_of I (TFloatRepr lx)
  | JStr s => encode_basestring s
  | JArr l =>
      lit "["
      ++ join (lit ",") (map json_dumps_compact l)
      ++ lit "]"
  | JObj m =>
      lit "{"
      ++ join (lit ",")
           (map (fun kv => encode_basestring (fst kv) ++ lit ":"
                           ++ json_dumps_compact (snd kv)) m)
      ++ lit "}"
  end.

End WithInterp.

(** ** [json.loads] *)

Definition is_json_ws (c : N) : bool :=
  ((c =? 32) || (c =? 9) || (c =? 10) || (c =? 13))%N.
Definition skip_ws (s : str) : str := drop_while is_json_ws s.

Definition hex_val (c : N) : option N :=
  if ((48 <=? c) && (c <=? 57))%N then Some (c - 48)%N
  else if ((97 <=? c) && (c <=? 102))%N then Some (c - 87)%N
  else if ((65 <=? c) && (c <=? 70))%N then Some (c - 55)%N
  else None.

Definition hex4 (a b c d : N) : option N :=
  match hex_val a, hex_val b, hex_val c, hex_val d with
  | Some x, Some y, Some z, Some w => Some (((x * 16 + y) * 16 + z) * 16 + w)%N
  | _, _, _, _ => None
  end.

(** The character an escape letter stands for ([BACKSLASH] of the decoder). *)
Definition unescape (e : N) : option N :=
  if (e =? 34)%N then Some 34%N
  else if (e =? 92)%N then Some 92%N
  else if (e =? 47)%N then Some 47%N
  else if (e =? 98)%N then Some 8%N
  else if (e =? 102)%N then Some 12%N
  else if (e =? 110)%N then Some 10%N
  else if (e =? 114)%N then Some 13%N
  else if (e =? 116)%N then Some 9%N
  else None.

Definition push_chr (c : N) (r : option (str * str)) : option (str * str) :=
  match r with
  | Some (t, rest) => Some (c :: t, rest)
  | None => None
  end.

(** [scanstring] (strict): the input starts just after the opening quote;
    the result is the decoded string and what follows the closing quote. *)
Fixpoint scanstring (s : str) : option (str * str) :=
  match s with
  | [] => None
  | c :: r =>
      if (c =? 34)%N then Some ([], r)
      else if (c =? 92)%N then
        match r with
        | [] => None
        | e :: r1 =>
            if (e =? 117)%N then
              match r1 with
              | h1 :: h2 :: h3 :: h4 :: r2 =>
                  match hex4 h1 h2 h3 h4 with
                  | None => None
                  | Some uni =>
                      if ((55296 <=? uni) && (uni <=? 56319))%N then
                        match r2 with
                        | b :: u :: g1 :: g2 :: g3 :: g4 :: r3 =>
                            if ((b =? 92) && (u =? 117))%N then
                              match hex4 g1 g2 g3 g4 with
                              | None => None
                              | Some uni2 =>
                                  if ((56320 <=? uni2) && (uni2 <=? 57343))%N then
                                    push_chr
                                      (65536 + ((uni - 55296) * 1024
                                                + (uni2 - 56320)))%N
                                      (scanstring r3)
                                  else push_chr uni (scanstring r2)
                              end
                            else push_chr uni (scanstring r2)
                        | _ => push_chr uni (scanstring r2)
                        end
                      else push_chr uni (scanstring r2)
                  end
              | _ => None
              end
            else
              match unescape e with
              | Some ch => push_chr ch (scanstring r1)
              | None => None
              end
        end
      else if (c <? 32)%N then None
      else push_chr c (scanstring r)
  end.

Definition is_digit (c : N) : bool := ((48 <=? c) && (c <=? 57))%N.

Fixpoint take_digits (s : str) : str * str :=
  match s with
  | [] => ([], [])
  | c :: r =>
      if is_digit c then let '(ds, r') := take_digits r in (c :: ds, r')
      else ([], s)
  end.

Definition digits_value (ds : str) : Z :=
  fold_left (fun acc c => (acc * 10 + Z.of_N (c - 48)%N)%Z) ds 0%Z.

(** [NUMBER_RE.match]: an optional minus sign, then 0 or a nonzero digit
    followed by digits; then optionally a dot and one or more digits; then
    optionally e or E, an optional sign and one or more digits.  The result
    is an integer when there is neither fraction nor exponent, a float
    otherwise. *)
Definition parse_number (s : str) : option (json * str) :=
  let '(sign, s1) :=
    match s with
    | c :: r => if (c =? 45)%N then ([45%N], r) else ([], s)
    | [] => ([], s)
    end in
  match s1 with
  | [] => None
  | d :: r =>
      if is_digit d then
        let '(ip, r1) :=
          if (d =? 48)%N then ([d], r)
          else let '(ds, r') := take_digits r in (d :: ds, r') in
        let '(frac, r2) :=
          match r1 with
          | dot :: r' =>
              if (dot =? 46)%N then
                match take_digits r' with
                | ([], _) => ([], r1)
                | (fs, r'') => (dot :: fs, r'')
                end
              else ([], r1)
          | [] => ([], r1)
          end in
        let '(ex, r3) :=
          match r2 with
          | e :: r' =>
              if ((e =? 101) || (e =? 69))%N then
                let '(sg, r'') :=
                  match r' with
                  | c :: t =>
                      if ((c =? 43) || (c =? 45))%N then ([c], t) else ([], r')
                  | [] => ([], r')
                  end in
                match take_digits r'' with
                | ([], _) => ([], r2)
                | (es, r''') => (e :: sg ++ es, r''')
                end
              else ([], r2)
          | [] => ([], r2)
          end in
        match frac, ex with
        | [], [] =>
            Some (JInt (match sign with
                        | [] => digits_value ip
                        | _ => - digits_value ip
                        end)%Z, r3)
        | _, _ => Some (JFloat (sign ++ ip ++ frac ++ ex), r3)
        end
      else None
  end.

(** The constants of the scanner, tried in its order around the numbers. *)
Definition parse_atom (s : str) : option (json * str) :=
  match strip_prefix (lit "null") s with
  | Some r => Some (JNull, r)
  | None =>
  match strip_prefix (lit "true") s with
  | Some r => Some (JBool true, r)
  | None =>
  match strip_prefix (lit "false") s with
  | Some r => Some (JBool false, r)
  | None =>
  match parse_number s with
  | Some res => Some res
  | None =>
  match strip_prefix (lit "NaN") s with
  | Some r => Some (JFloat (lit "NaN"), r)
  | None =>
  match strip_prefix (lit "Infinity") s with
  | Some r => Some (JFloat (lit "Infinity"), r)
  | None =>
  match strip_prefix (lit "-Infinity") s with
  | Some r => Some (JFloat (lit "-Infinity"), r)
  | None => None
  end end end end end end end.

(** [scan_once]; [parse_members] is the loop of [JSONObject] entered just
    after the opening quote of a key, [parse_elems] the loop of [JSONArray]
    entered at the first character of an element.  Every call consumes input
    before it calls again, so a fuel above the length of the text is never
    exhausted. *)
Fixpoint parse_value (fuel : nat) (s : str) {struct fuel} : option (json * str) :=
  match fuel with
  | O => None
  | S f =>
      match s with
      | [] => None
      | c :: r =>
          if (c =? 34)%N then
            match scanstring r with
            | Some (t, r') => Some (JStr t, r')
            | None => None
            end
          else if (c =? 123)%N then
            match skip_ws r with
            | c1 :: r2 =>
                if (c1 =? 125)%N then Some (JObj [], r2)
                else if (c1 =? 34)%N then parse_members f [] r2
                else None
            | [] => None
            end
          else if (c =? 91)%N then
            match skip_ws r with
            | c1 :: r2 =>
                if (c1 =? 93)%N then Some (JArr [], r2)
                else parse_elems f [] (c1 :: r2)
            | [] => None
            end
          else parse_atom s
      end
  end
with parse_members (fuel : nat) (acc : dict) (s : str) {struct fuel}
  : option (json * str) :=
  match fuel with
  | O => None
  | S f =>
      match scanstring s with
      | None => None
      | Some (key, r) =>
          match skip_ws r with
          | colon :: r1 =>
              if (colon =? 58)%N then
                match parse_value f (skip_ws r1) with
                | None => None
                | Some (v, r2) =>
                    let acc' := dict_set key v acc in
                    match skip_ws r2 with
                    | c :: r3 =>
                        if (c =? 125)%N then Some (JObj acc', r3)
                        else if (c =? 44)%N then
                          match skip_ws r3 with
                          | q :: r4 =>
                              if (q =? 34)%N then parse_members f acc' r4
                              else None
                          | [] => None
                          end
                        else None
                    | [] => None
                    end
                end
              else None
          | [] => None
          end
      end
  end
with parse_elems (fuel : nat) (acc : list json) (s : str) {struct fuel}
  : option (json * str) :=
  match fuel with
  | O => None
  | S f =>
      match parse_value f s with
      | None => None
      | Some (v, r) =>
          match skip_ws r with
          | c :: r1 =>
              if (c =? 93)%N then Some (JArr (acc ++ [v]), r1)
              else if (c =? 44)%N then parse_elems f (acc ++ [v]) (skip_ws r1)
              else None
          | [] => None
          end
      end
  end.

(** [json.loads(text)]: [None] stands for a raised [JSONDecodeError].
    Resource limits of the interpreter (recursion depth, the digit limit of
    [int]) are not part of the model. *)
Definition json_loads (text : str) : option json :=
  match parse_value (S (length text)) (skip_ws text) with
  | Some (v, r) =>
      match skip_ws r with
      | [] => Some v
      | _ :: _ => None
      end
  | None => None
  end.

End Json.

Import Json.

(* ================================================================= *)
(** * The world: HTTP exchanges, sleeping, printing, the clock *)
(* ================================================================= *)

Module Net.

(** A raised exception: its class and [str(e)]. *)
Record exn : Type := { exn_class : str; exn_text : str }.

Definition RuntimeError (msg : str) : exn :=
  {| exn_class := lit "RuntimeError"; exn_text := msg |}.

Inductive res (A : Type) : Type :=
| Ok (a : A)
| Raise (e : exn).
Arguments Ok {A} a.
Arguments Raise {A} e.

(** The two switches [_build_ssl_context] is built from. *)
Record SSLContext : Type := { force_tls12 : bool; insecure : bool }.

(** What is handed to [urllib.request.urlopen].  [rq_data] is the payload
    whose [json.dumps(...).encode("utf-8")] is the body sent. *)
Record Request : Type := {
  rq_url : str;
  rq_method : str;
  rq_headers : list (str * str);
  rq_data : option json;
  rq_timeout : Z;
  rq_context : option SSLContext
}.

(** An HTTP answer.  [text] is the body decoded as UTF-8 with replacement
    (the empty string for an empty or unreadable body); [utf8] tells
    whether the body is well-formed UTF-8, in which case a strict decoding
    gives [text] too. *)
Record Answer : Type := {
  status : Z;
  reason : str;
  headers : list (str * str);
  text : str;
  utf8 : bool
}.

(** The outcome of one [urlopen] and of reading its body. *)
Inductive Outcome : Type :=
| Answered (a : Answer)
    (* an HTTP answer; urllib raises HTTPError unless 200 <= status < 300 *)
| NetFail (e : exn) (e_repr : str)
    (* URLError, ssl.SSLError or OSError, with its repr *)
| OtherFail (e : exn).
    (* any other exception *)

Inductive Event : Type :=
| EvRequest (r : Request)
| EvSleep (seconds : Z)
| EvPrint (line : str).

(** The environment of one run: the outcomes of the successive [urlopen]
    calls (once they are used up, connections are refused), the events so
    far (newest first), and the wall clock ([clock n] is the formatted time
    of the [n]-th reading). *)
Record World : Type := {
  script : list Outcome;
  log : list Event;
  clock : nat -> str;
  ticks : nat
}.

Definition M (A : Type) : Type := World -> res A * World.

Definition ret {A : Type} (a : A) : M A := fun w => (Ok a, w).
Definition raise {A : Type} (e : exn) : M A := fun w => (Raise e, w).

Definition bind {A B : Type} (c : M A) (k : A -> M B) : M B :=
  fun w =>
    match c w with
    | (Ok a, w') => k a w'
    | (Raise e, w') => (Raise e, w')
    end.

(** [try: c  except Exception as e: h e]. *)
Definition try_except {A : Type} (c : M A) (h : exn -> M A) : M A :=
  fun w =>
    match c w with
    | (Ok a, w') => (Ok a, w')
    | (Raise e, w') => h e w'
    end.

Definition lift {A : Type} (r : res A) : M A := fun w => (r, w).

Definition emit (e : Event) : M unit :=
  fun w => (Ok tt, {| script := script w; log := e :: log w;
                      clock := clock w; ticks := ticks w |}).

Definition print (line : str) : M unit := emit (EvPrint line).

Definition when (b : bool) (c : M unit) : M unit := if b then c else ret tt.

Definition refused : Outcome :=
  NetFail {| exn_class := lit "URLError";
             exn_text := lit "<urlopen error [Errno 111] Connection refused>" |}
          (lit "URLError(ConnectionRefusedError(111, 'Connection refused'))").

(** [urllib.request.urlopen(req, ...)] followed by [read()]. *)
Definition urlopen (req : Request) : M Outcome :=
  fun w =>
    match script w with
    | o :: rest =>
        (Ok o, {| script := rest; log := EvRequest req :: log w;
                  clock := clock w; ticks := ticks w |})
    | [] =>
        (Ok refused, {| script := []; log := EvRequest req :: log w;
                        clock := clock w; ticks := ticks w |})
    end.

(** [datetime.now().strftime("%Y-%m-%d %H:%M:%S")]. *)
Definition now_str : M str :=
  fun w => (Ok (clock w (ticks w)),
            {| script := script w; log := log w;
               clock := clock w; ticks := S (ticks w) |}).

(** The world after the events [evs] (oldest first) have happened and the
    script has been consumed down to [rest]. *)
Definition logged (evs : list Event) (rest : list Outcome) (w : World) : World :=
  {| script := rest; log := rev evs ++ log w; clock := clock w; ticks := ticks w |}.

(** The events of a run, oldest first, and its projections. *)
Definition trace (w : World) : list Event := rev (log w).

Definition sleeps_of (evs : list Event) : list Z :=
  flat_map (fun e => match e with EvSleep s => [s] | _ => [] end) evs.

Definition requests_of (evs : list Event) : list Request :=
  flat_map (fun e => match e with EvRequest r => [r] | _ => [] end) evs.

Definition prints_of (evs : list Event) : list str :=
  flat_map (fun e => match e with EvPrint l => [l] | _ => [] end) evs.

(** The exit status of a program whose [main] is run by
    [raise SystemExit(main())]: the returned integer, or 1 after an
    uncaught exception. *)
Definition exit_status (r : res Z) : Z :=
  match r with
  | Ok code => code
  | Raise _ => 1%Z
  end.

End Net.

Import Net.

Declare Scope py_scope.
Delimit Scope py_scope with py.
Notation "x <- c ;; k" := (bind c (fun x => k))
  (at level 61, c at next level, right associativity) : py_scope.
Notation "c ;;; k" := (bind c (fun _ => k))
  (at level 61, right associativity) : py_scope.
Open Scope py_scope.

(* ================================================================= *)
(** * tools/github/import_anthropic_skills.py *)
(* ================================================================= *)

Module Import_anthropic_skills.

Definition nl : str := [chr_newline].

Definition str_headers := list (str * str).

(** [headers.get(k, default)] on a [dict] of strings. *)
Definition headers_get (k default : str) (h : str_headers) : str :=
  match assoc_get k h with Some v => v | None => default end.

(** [urllib] raises [HTTPError] for every answer outside 2xx. *)
Definition is_success (code : Z) : bool := ((200 <=? code) && (code <? 300))%Z.

(** [urllib.error.HTTPError] left uncaught. *)
Definition HTTPError (code : Z) (reason : str) : exn :=
  {| exn_class := lit "HTTPError";
     exn_text := lit "HTTP Error " ++ dec_of_Z code ++ lit ": " ++ reason |}.

(** [owner, name = repo.split("/", 1)]. *)
Definition split_repo (repo : str) : res (str * str) :=
  match split_once chr_slash repo with
  | Some p => Ok p
  | None =>
      Raise {| exn_class := lit "ValueError";
               exn_text := lit "not enough values to unpack (expected 2, got 1)" |}
  end.

(** The object a [SourceSkill] dataclass instance holds. *)
Record SourceSkill : Type := { name : str; path : str; html_url : str }.

(** The parsed command line ([args] of [main]; [--env] is the file the
    environment was completed from). *)
Record Args : Type := {
  arg_source_repo : str;
  arg_source_ref : str;
  arg_source_root : str;
  arg_recursive : bool;
  arg_allow_duplicate_ids : bool;
  arg_target_repo : str;
  arg_labels : str;
  arg_limit : Z;
  arg_only_skill : str;
  arg_skip_existing : bool;
  arg_dry_run : bool;
  arg_print_description : bool;
  arg_print_body : bool;
  arg_verbose : bool;
  arg_github_tls12 : bool;
  arg_github_insecure : bool;
  arg_title_suffix : str;
  arg_version : str
}.

(** The command line with every option at its default. *)
Definition default_args : Args :=
  {| arg_source_repo := lit "anthropics/skills";
     arg_source_ref := lit "main";
     arg_source_root := lit "skills";
     arg_recursive := false;
     arg_allow_duplicate_ids := false;
     arg_target_repo := lit "AAswordman/OperitSkillMarket";
     arg_labels := lit "skill-plugin";
     arg_limit := 0;
     arg_only_skill := [];
     arg_skip_existing := false;
     arg_dry_run := false;
     arg_print_description := false;
     arg_print_body := false;
     arg_verbose := false;
     arg_github_tls12 := false;
     arg_github_insecure := false;
     arg_title_suffix := [];
     arg_version := lit "v1" |}.

(** [os.environ] once [_load_env] has run. *)
Definition Environ := list (str * str).

(** [os.environ.get(k, default)] *)
Definition environ_get (environ : Environ) (k default : str) : str :=
  match assoc_get k environ with Some v => v | None => default end.

(** The counters of the main loop. *)
Record Counts : Type := { created : nat; skipped : nat; failed : nat }.

(** The local variables of [main] that the main loop reads. *)
Record Run : Type := {
  run_args : Args;
  github_token : str;
  github_api_base : str;
  ai_base_url : str;
  ai_api_key : str;
  ai_model : str;
  ai_temperature : json;
  github_ctx : SSLContext;
  labels : list str;
  existing_repo_urls : list str
}.

(** ** [_load_env] (lines 17-30) *)

(** The file named by [--env]: absent, unreadable ([read_text] raises), or
    present with the given text. *)
Inductive EnvFile : Type :=
| EnvAbsent
| EnvUnreadable (e : exn)
| EnvText (text : str).

(** [os.environ[k] = v] refuses a NUL character in the name or the value. *)
Definition embedded_null : exn :=
  {| exn_class := lit "ValueError"; exn_text := lit "embedded null byte" |}.

Definition has_null (s : str) : bool := existsb (N.eqb 0) s.

(** One iteration of the loop over the lines: the environment after it. *)
Definition env_line (environ : Environ) (raw_line : str) : res Environ :=
  let line := strip raw_line in
  if (is_empty line || startswith line (lit "#"))%bool then Ok environ
  else
    match split_once 61 line with
    | None => Ok environ
    | Some (k, v) =>
        let k := strip k in
        let v := strip_chars (lit "'") (strip_chars (qlit "'") (strip v)) in
        if is_empty k then Ok environ
        else
          match assoc_get k environ with
          | Some _ => Ok environ
          | None =>
              if (has_null k || has_null v)%bool then Raise embedded_null
              else Ok (assoc_set k v environ)
          end
    end.

Fixpoint env_lines (lines : list str) (environ : Environ) : res Environ :=
  match lines with
  | [] => Ok environ
  | raw_line :: rest =>
      match env_line environ raw_line with
      | Ok environ' => env_lines rest environ'
      | Raise e => Raise e
      end
  end.

(** [os.environ] after [_load_env(env_path)]. *)
Definition _load_env (env_path : EnvFile) (environ : Environ) : res Environ :=
  match env_path with
  | EnvAbsent => Ok environ
  | EnvUnreadable e => Raise e
  | EnvText text => env_lines (splitlines text) environ
  end.

Section WithInterp.
Variable I : Interp.

Definition quote (s : str) : str := text_of I (TQuote s).
Definition urlencode (params : list (str * str)) : str :=
  text_of I (TUrlencode params).

Definition JSONDecodeError (text : str) : exn :=
  {| exn_class := lit "JSONDecodeError"; exn_text := text_of I (TJsonError text) |}.

Definition UnicodeDecodeError (text : str) : exn :=
  {| exn_class := lit "UnicodeDecodeError";
     exn_text := text_of I (TDecodeError text) |}.

(** ** [_build_ssl_context] (lines 33-43) *)
Definition _build_ssl_context (force_tls12 insecure : bool) : SSLContext :=
  {| Net.force_tls12 := force_tls12; Net.insecure := insecure |}.

(** ** [_decode_output] (lines 46-49), on the body of an answer *)
Definition _decode_output (a : Answer) : str := text a.

(** ** [_http_json] (lines 52-129) *)

Definition pat_marker : str :=
  lit "Resource not accessible by personal access token".

Definition pat_hint : str :=
  nl ++ nl
  ++ lit "Hint: Your GITHUB_TOKEN likely lacks permission to create issues in the target repo." ++ nl
  ++ lit "- If you use a Fine-grained PAT: grant repository access to the target repo and enable 'Issues: Read and write'." ++ nl
  ++ lit "- If you use a Classic PAT: ensure it has 'public_repo' (for public repos) or 'repo' (for private repos) scope." ++ nl
  ++ lit "- Also ensure the token belongs to an account that has access to the target repo." ++ nl.

(** [e.code in (403, 429, 500, 502, 503, 504)] *)
Definition retryable (code : Z) : bool :=
  existsb (Z.eqb code) [403; 429; 500; 502; 503; 504]%Z.

(** The headers of the request (lines 66-77). *)
Definition request_headers (token : str) (payload : option json)
    (extra_headers : option str_headers) : str_headers :=
  let h0 := [ (lit "Accept", lit "application/vnd.github+json");
              (lit "X-GitHub-Api-Version", lit "2022-11-28");
              (lit "User-Agent", lit "OperitTools/1.0 (import_anthropic_skills.py)") ] in
  let h1 := if is_empty token then h0
            else assoc_set (lit "Authorization") (lit "Bearer " ++ token) h0 in
  let h2 := match payload with
            | Some _ => assoc_set (lit "Content-Type") (lit "application/json") h1
            | None => h1
            end in
  match extra_headers with
  | Some extra => fold_left (fun h kv => assoc_set (fst kv) (snd kv) h) extra h2
  | None => h2
  end.

(** [{k.lower(): v for k, v in resp.headers.items()}] *)
Definition lower_keys (h : str_headers) : str_headers :=
  fold_left (fun d kv => assoc_set (lower I (fst kv)) (snd kv) d) h [].

(** [time.sleep(backoff_s * (2**attempt))] with [backoff_s = 1.0]: the
    product is the float with the exact value [2^attempt]; from
    [attempt = 1024] on the conversion of the integer overflows. *)
Definition backoff (attempt : nat) : M unit :=
  if (1024 <=? attempt)%nat then
    raise {| exn_class := lit "OverflowError";
             exn_text := lit "int too large to convert to float" |}
  else emit (EvSleep (2 ^ Z.of_nat attempt)%Z).

Definition api_error (a : Answer) (body : str) : exn :=
  RuntimeError (lit "GitHub API error: HTTP " ++ dec_of_Z (status a) ++ lit " "
                ++ reason a ++ nl ++ body).

(** Lines 96-109: the body of an error answer, with the hint appended for
    a 403 that names the personal access token. *)
Definition error_body (a : Answer) : str :=
  let body := _decode_output a in
  if ((status a =? 403)%Z && contains pat_marker body)%bool
  then body ++ pat_hint else body.

(** The final [raise] of the function; [last_error] is [repr] of the last
    network exception, if any. *)
Definition network_error (last_error : option str) : exn :=
  RuntimeError
    (lit "Request failed (network/SSL). "
     ++ lit "If you are behind a proxy, set HTTPS_PROXY/HTTP_PROXY. "
     ++ lit "If TLS handshake keeps failing, try --github-tls12. As a last resort, try --github-insecure. "
     ++ lit "Original: "
     ++ match last_error with Some r => r | None => lit "None" end).

(** The loop [for attempt in range(retries)] from its iteration [attempt]
    on, [remaining] iterations being left. *)
Fixpoint http_attempts (req : Request) (retries : Z) (remaining attempt : nat)
    (last_error : option str) {struct remaining} : M (json * str_headers) :=
  match remaining with
  | O => raise (network_error last_error)
  | S remaining' =>
      o <- urlopen req ;;
      match o with
      | Answered a =>
          if is_success (status a) then
            let text := _decode_output a in
            let resp_headers := lower_keys (headers a) in
            if is_empty (strip text) then ret (JNull, resp_headers)
            else match json_loads text with
                 | Some v => ret (v, resp_headers)
                 | None => raise (JSONDecodeError text)
                 end
          else
            let body := error_body a in
            if (retryable (status a) && (Z.of_nat attempt + 1 <? retries)%Z)%bool
            then backoff attempt ;;;
                 http_attempts req retries remaining' (S attempt) last_error
            else raise (api_error a body)
      | NetFail e e_repr =>
          if (Z.of_nat attempt + 1 <? retries)%Z
          then backoff attempt ;;;
               http_attempts req retries remaining' (S attempt) (Some e_repr)
          else raise (network_error (Some e_repr))
      | OtherFail e => raise e
      end
  end.

Definition default_timeout_s : Z := 60.
Definition default_retries : Z := 5.

(** The request every attempt sends (lines 83-85). *)
Definition github_request (url method token : str) (ctx : SSLContext)
    (payload : option json) (extra_headers : option str_headers)
    (timeout_s : Z) : Request :=
  {| rq_url := url;
     rq_method := upper I method;
     rq_headers := request_headers token payload extra_headers;
     rq_data := payload;
     rq_timeout := timeout_s;
     rq_context := Some ctx |}.

Definition _http_json (url method token : str) (ctx : SSLContext)
    (payload : option json) (extra_headers : option str_headers)
    (timeout_s retries : Z) : M (json * str_headers) :=
  http_attempts
    (github_request url method token ctx payload extra_headers timeout_s)
    retries (Z.to_nat retries) 0 None.

(** ** [_openai_chat_completion] (lines 132-150) *)
Definition _openai_chat_completion (base_url api_key : str) (payload : json)
  : M json :=
  let url := rstrip_chars (lit "/") base_url ++ lit "/v1/chat/completions" in
  let req := {| rq_url := url;
                rq_method := lit "POST";
                rq_headers := [ (lit "Content-Type", lit "application/json");
                                (lit "Authorization", lit "Bearer " ++ api_key) ];
                rq_data := Some payload;
                rq_timeout := 120;
                rq_context := None |} in
  o <- urlopen req ;;
  match o with
  | Answered a =>
      if is_success (status a) then
        if utf8 a then
          match json_loads (text a) with
          | Some v => ret v
          | None => raise (JSONDecodeError (text a))
          end
        else raise (UnicodeDecodeError (text a))
      else
        raise (RuntimeError (lit "AI request failed: HTTP " ++ dec_of_Z (status a)
                             ++ lit " " ++ reason a ++ nl ++ text a))
  | NetFail e _ => raise e
  | OtherFail e => raise e
  end.

(** ** [_extract_ai_text] (lines 153-158) *)

(** [v[k]] for a string key and [v[0]]; [None] when the subscript raises. *)
Definition getitem_key (v : json) (k : str) : option json :=
  match v with
  | JObj d => dict_get k d
  | _ => None
  end.

Definition getitem_0 (v : json) : option json :=
  match v with
  | JArr (x :: _) => Some x
  | JStr (c :: _) => Some (JStr [c])
  | _ => None
  end.

Definition lookup_content (resp : json) : option json :=
  match getitem_key resp (lit "choices") with
  | Some choices =>
      match getitem_0 choices with
      | Some first =>
          match getitem_key first (lit "message") with
          | Some message => getitem_key message (lit "content")
          | None => None
          end
      | None => None
      end
  | None => None
  end.

Definition no_strip_attribute (v : json) : exn :=
  {| exn_class := lit "AttributeError";
     exn_text := lit "'" ++ type_name v ++ lit "' object has no attribute 'strip'" |}.

Definition _extract_ai_text (resp : json) : res str :=
  match lookup_content resp with
  | None =>
      Raise (RuntimeError (lit "Unexpected AI response: "
                           ++ text_of I (TLookupError resp) ++ nl
                           ++ firstn 2000 (text_of I (TJsonDumps resp))))
  | Some msg =>
      match py_or I msg (JStr []) with
      | JStr s => Ok (strip s)
      | v => Raise (no_strip_attribute v)
      end
  end.

(** ** [_parse_link_next] (lines 168-177) *)

(** The text up to the first ['>'] and what follows it. *)
Fixpoint until_gt (s : str) : option (str * str) :=
  match s with
  | [] => None
  | c :: r =>
      if (c =? 62)%N then Some ([], r)
      else match until_gt r with
           | Some (g, rest) => Some (c :: g, rest)
           | None => None
           end
  end.

(** Group 1 of [re.search(r"<([^>]+)>", part)]: at the leftmost ['<'] that
    is followed by at least one character other than ['>'] and then by
    ['>']. *)
Fixpoint search_angle (s : str) : option str :=
  match s with
  | [] => None
  | c :: r =>
      if (c =? 60)%N then
        match until_gt r with
        | Some ((_ :: _) as g, _) => Some g
        | _ => search_angle r
        end
      else search_angle r
  end.

Definition rel_next_quoted : str := qlit "rel='next'".
Definition rel_next_bare : str := lit "rel=next".

Fixpoint first_next (parts : list str) : str :=
  match parts with
  | [] => []
  | part :: rest =>
      if (contains rel_next_quoted part || contains rel_next_bare part)%bool then
        match search_angle part with
        | Some u => u
        | None => first_next rest
        end
      else first_next rest
  end.

Definition _parse_link_next (link_header : str) : str :=
  if is_empty link_header then []
  else first_next (map strip (split chr_comma link_header)).

(** ** [_iter_issues] (lines 180-211) *)

Definition issues_url (api_base owner name state labels : str) : str :=
  let params := [ (lit "state", state); (lit "per_page", lit "100");
                  (lit "sort", lit "updated"); (lit "direction", lit "desc") ] in
  let params := if is_empty labels then params
                else assoc_set (lit "labels") labels params in
  rstrip_chars (lit "/") api_base
  ++ lit "/repos/" ++ quote owner ++ lit "/" ++ quote name ++ lit "/issues"
  ++ lit "?" ++ urlencode params.

(** The items of one page that are appended to [out]. *)
Definition keep_issue (it : json) : bool :=
  match it with
  | JObj d => negb (dict_has (lit "pull_request") d)
  | _ => false
  end.

Definition not_a_list (data : json) : exn :=
  RuntimeError (lit "Unexpected GitHub response (expected list): "
                ++ firstn 500 (py_str I data)).

(** Raised by the model only, when a loop is cut short by its fuel; the
    loops below are run with a fuel that is never used up
    (see [iter_pages_fuel]). *)
Definition out_of_fuel : exn :=
  {| exn_class := lit "<fuel>"; exn_text := [] |}.

(** The loop [while url:]. *)
Fixpoint iter_pages (fuel : nat) (token : str) (ctx : SSLContext)
    (url : str) (out : list json) {struct fuel} : M (list json) :=
  if is_empty url then ret out
  else
    match fuel with
    | O => raise out_of_fuel
    | S fuel' =>
        r <- _http_json url (lit "GET") token ctx None None
                        default_timeout_s default_retries ;;
        match fst r with
        | JArr data =>
            iter_pages fuel' token ctx
              (_parse_link_next (headers_get (lit "link") [] (snd r)))
              (out ++ filter keep_issue data)
        | data => raise (not_a_list data)
        end
    end.

Definition _iter_issues (api_base repo token : str) (ctx : SSLContext)
    (state labels : str) : M (list json) :=
  p <- lift (split_repo repo) ;;
  let url := issues_url api_base (fst p) (snd p) state labels in
  fun w => iter_pages (S (length (script w))) token ctx url [] w.

(** ** [_get_tree_sha_for_ref] (lines 214-226) *)
Definition _get_tree_sha_for_ref (api_base repo token : str) (ctx : SSLContext)
    (ref : str) : M str :=
  p <- lift (split_repo repo) ;;
  let url := rstrip_chars (lit "/") api_base
             ++ lit "/repos/" ++ quote (fst p) ++ lit "/" ++ quote (snd p)
             ++ lit "/commits/" ++ quote ref in
  r <- _http_json url (lit "GET") token ctx None None
                  default_timeout_s default_retries ;;
  match fst r with
  | JObj data =>
      match py_get (lit "commit") data with
      | JObj commit =>
          match py_get (lit "tree") commit with
          | JObj tree =>
              ret (strip (py_str I (py_or I (py_get (lit "sha") tree) (JStr []))))
          | _ => ret []
          end
      | _ => ret []
      end
  | _ => ret []
  end.

(** ** [_list_source_skills_recursive] (lines 229-285) *)

Definition skill_md_suffix : str := lit "/SKILL.md".

(** The directory a tree entry contributes to [skill_dirs], if any. *)
Definition skill_dir_of (root_prefix : str) (it : json) : list str :=
  match it with
  | JObj d =>
      if negb (str_eqb (py_str I (py_or I (py_get (lit "type") d) (JStr [])))
                       (lit "blob")) then []
      else
        let p := py_str I (py_or I (py_get (lit "path") d) (JStr [])) in
        if negb (endswith p skill_md_suffix) then []
        else if (negb (is_empty root_prefix) && negb (startswith p root_prefix))%bool
        then []
        else
          let dir_path := firstn (length p - length skill_md_suffix) p in
          if is_empty dir_path then [] else [dir_path]
  | _ => []
  end.

Definition skill_of_dir (repo ref dir_path : str) : SourceSkill :=
  {| name := last (split chr_slash dir_path) [];
     path := dir_path;
     html_url := lit "https://github.com/" ++ repo ++ lit "/tree/" ++ ref
                 ++ lit "/" ++ dir_path |}.

Definition _list_source_skills_recursive (api_base repo ref root_path token : str)
    (ctx : SSLContext) : M (list SourceSkill * bool) :=
  p <- lift (split_repo repo) ;;
  tree_sha <- _get_tree_sha_for_ref api_base repo token ctx ref ;;
  if is_empty tree_sha then
    raise (RuntimeError (lit "Failed to resolve tree sha for ref: " ++ ref))
  else
    let url := rstrip_chars (lit "/") api_base
               ++ lit "/repos/" ++ quote (fst p) ++ lit "/" ++ quote (snd p)
               ++ lit "/git/trees/" ++ quote tree_sha ++ lit "?recursive=1" in
    r <- _http_json url (lit "GET") token ctx None None 120 default_retries ;;
    match fst r with
    | JObj data =>
        let truncated := truthy I (py_get (lit "truncated") data) in
        match py_get (lit "tree") data with
        | JArr tree =>
            let root := strip_chars (lit "/") (strip root_path) in
            let root := if (str_eqb root (lit ".") || str_eqb root (lit "./"))%bool
                        then [] else root in
            let root_prefix := if is_empty root then [] else root ++ lit "/" in
            let skill_dirs := set_of (flat_map (skill_dir_of root_prefix) tree) in
            let skills := map (skill_of_dir repo ref) (sorted skill_dirs) in
            ret (sort_by name skills, truncated)
        | _ =>
            raise (RuntimeError
                     (lit "Unexpected git tree response (missing tree): "
                      ++ firstn 500 (py_str I (JObj data))))
        end
    | data =>
        raise (RuntimeError (lit "Unexpected git tree response: "
                             ++ firstn 500 (py_str I data)))
    end.

(** ** [_extract_skill_metadata_repo_url] (lines 288-302) *)

Definition html_comment_open : str := lit "<!--".
Definition html_comment_close : str := lit "-->".
Definition skill_json_tag : str := lit "operit-skill-json:".

(** [\s*] followed by the literal [l], which does not start with white
    space: the white space is skipped and [l] must follow. *)
Definition after_ws (l s : str) : option str := strip_prefix l (lstrip s).

(** [\s*-->] matches at the head of [s]. *)
Definition closes (s : str) : bool :=
  match after_ws html_comment_close s with Some _ => true | None => false end.

(** [.*?\}\s*-->] with DOTALL: the shortest text that is followed by a
    closing brace, optional white space and the end of the comment. *)
Fixpoint lazy_body (s : str) : option str :=
  match s with
  | [] => None
  | c :: r =>
      if ((c =? 125)%N && closes r)%bool then Some []
      else match lazy_body r with
           | Some t => Some (c :: t)
           | None => None
           end
  end.

(** A match of the whole pattern that starts at the head of [s]; the result
    is group 1. *)
Definition match_skill_json (s : str) : option str :=
  match strip_prefix html_comment_open s with
  | None => None
  | Some s1 =>
      match after_ws skill_json_tag s1 with
      | None => None
      | Some s2 =>
          match after_ws (lit "{") s2 with
          | None => None
          | Some s3 =>
              match lazy_body s3 with
              | Some t => Some (lit "{" ++ t ++ lit "}")
              | None => None
              end
          end
      end
  end.

(** Group 1 of
    [re.search(r"<!--\s*operit-skill-json:\s*(\{.*?\})\s*-->", body, re.DOTALL)]:
    the match at the leftmost position that has one. *)
Fixpoint search_skill_json (s : str) : option str :=
  match match_skill_json s with
  | Some g => Some g
  | None =>
      match s with
      | [] => None
      | _ :: r => search_skill_json r
      end
  end.

Definition _extract_skill_metadata_repo_url (issue_body : str) : str :=
  if is_empty issue_body then []
  else
    match search_skill_json issue_body with
    | None => []
    | Some raw =>
        match json_loads raw with
        | None => []
        | Some (JObj meta) =>
            let v := py_or I (py_or I (py_get (lit "repositoryUrl") meta)
                                      (py_get (lit "repoUrl") meta))
                             (JStr []) in
            strip (py_str I v)
        | Some _ => []
        end
    end.

(** ** [_list_source_skills] (lines 305-341) *)

(** [v == s] and [v != s] for a string [s]. *)
Definition json_eq_str (v : json) (s : str) : bool :=
  match v with
  | JStr t => str_eqb t s
  | _ => false
  end.

Definition contents_url (api_base owner name path ref : str) : str :=
  rstrip_chars (lit "/") api_base
  ++ lit "/repos/" ++ quote owner ++ lit "/" ++ quote name
  ++ lit "/contents/" ++ quote (strip_chars (lit "/") path)
  ++ lit "?" ++ urlencode [(lit "ref", ref)].

Definition skill_of_entry (it : json) : list SourceSkill :=
  match it with
  | JObj d =>
      if negb (json_eq_str (py_get (lit "type") d) (lit "dir")) then []
      else
        [ {| name := strip (py_str I (py_or I (py_get (lit "name") d) (JStr [])));
             path := strip (py_str I (py_or I (py_get (lit "path") d) (JStr [])));
             html_url :=
               strip (py_str I (py_or I (py_get (lit "html_url") d) (JStr []))) |} ]
  | _ => []
  end.

Definition _list_source_skills (api_base repo ref root_path token : str)
    (ctx : SSLContext) : M (list SourceSkill) :=
  p <- lift (split_repo repo) ;;
  let url := contents_url api_base (fst p) (snd p) root_path ref in
  r <- _http_json url (lit "GET") token ctx None None
                  default_timeout_s default_retries ;;
  match fst r with
  | JArr data =>
      let skills := flat_map skill_of_entry data in
      let skills := filter (fun s => negb (is_empty (name s))) skills in
      ret (sort_by name skills)
  | data =>
      raise (RuntimeError (lit "Unexpected source contents response: "
                           ++ firstn 500 (py_str I data)))
  end.

(** ** [_pick_skill_markdown] (lines 344-393) *)

(** [str(it.get("name") or "").lower()] *)
Definition lower_name (it : dict) : str :=
  lower I (py_str I (py_or I (py_get (lit "name") it) (JStr []))).

(** The inner function [find_name]. *)
Fixpoint first_known (lower_map : list (str * dict)) (names : list str)
  : option dict :=
  match names with
  | [] => None
  | n :: rest =>
      match assoc_get (lower I n) lower_map with
      | Some it => Some it
      | None => first_known lower_map rest
      end
  end.

Definition find_name (files : list dict) (names : list str) : option dict :=
  let lower_map :=
    fold_left (fun m it => assoc_set (lower_name it) it m) files [] in
  first_known lower_map names.

(** Lines 372-376: the file that is summarized, if any. *)
Definition pick_candidate (files : list dict) : option dict :=
  match find_name files [lit "SKILL.md"; lit "README.md"; lit "readme.md"] with
  | Some it => Some it
  | None =>
      let md_files :=
        filter (fun it => endswith (lower_name it) (lit ".md")) files in
      hd_error (sort_by lower_name md_files)
  end.

(** Line 363: the entries of the listing that are files. *)
Definition files_of (data : list json) : list dict :=
  flat_map (fun it => match it with
                      | JObj d =>
                          if json_eq_str (py_get (lit "type") d) (lit "file")
                          then [d] else []
                      | _ => []
                      end) data.

Definition _pick_skill_markdown (api_base repo ref skill_path token : str)
    (ctx : SSLContext) : M (str * str) :=
  p <- lift (split_repo repo) ;;
  let url := contents_url api_base (fst p) (snd p) skill_path ref in
  r <- _http_json url (lit "GET") token ctx None None
                  default_timeout_s default_retries ;;
  match fst r with
  | JArr data =>
      match pick_candidate (files_of data) with
      | None => ret ([], [])
      | Some candidate =>
          if negb (truthy I (JObj candidate)) then ret ([], [])
          else
            let download_url :=
              strip (py_str I (py_or I (py_get (lit "download_url") candidate)
                                       (JStr []))) in
            let file_name :=
              strip (py_str I (py_or I (py_get (lit "name") candidate) (JStr []))) in
            if is_empty download_url then ret ([], [])
            else
              let req := {| rq_url := download_url;
                            rq_method := lit "GET";
                            rq_headers :=
                              if is_empty token then []
                              else [(lit "Authorization", lit "Bearer " ++ token)];
                            rq_data := None;
                            rq_timeout := 60;
                            rq_context := Some ctx |} in
              o <- urlopen req ;;
              match o with
              | Answered a =>
                  if is_success (status a) then ret (file_name, _decode_output a)
                  else raise (HTTPError (status a) (reason a))
              | NetFail e _ => raise e
              | OtherFail e => raise e
              end
      end
  | _ => ret ([], [])
  end.

(** ** [_extract_first_heading] (lines 396-405) *)

Fixpoint first_heading (lines : list str) : str :=
  match lines with
  | [] => []
  | raw :: rest =>
      let line := strip raw in
      if is_empty line then first_heading rest
      else if startswith line (lit "#")
           then strip (lstrip_chars (lit "#") line)
           else first_heading rest
  end.

Definition _extract_first_heading (md : str) : str :=
  if is_empty md then [] else first_heading (splitlines md).

(** ** [_ai_generate_description] (lines 408-459) *)

Definition system_prompt : str :=
  lit "You write concise marketplace descriptions for software skills. "
  ++ lit "You must only use the given source content. "
  ++ lit "Do not invent capabilities not supported by the text.".

Definition _ai_generate_description (ai_base_url ai_api_key ai_model : str)
    (ai_temperature : json)
    (skill_name source_repo_url md_file_name md_content : str) : M str :=
  let md := strip md_content in
  let md := if (6000 <? length md)%nat
            then rstrip (firstn 6000 md) ++ nl ++ nl ++ lit "[truncated]" ++ nl
            else md in
  let user_prompt :=
    strip (text_of I (TPrompt skill_name source_repo_url md_file_name md)) in
  let payload :=
    JObj [ (lit "model", JStr ai_model);
           (lit "temperature", ai_temperature);
           (lit "messages",
            JArr [ JObj [(lit "role", JStr (lit "system"));
                         (lit "content", JStr system_prompt)];
                   JObj [(lit "role", JStr (lit "user"));
                         (lit "content", JStr user_prompt)] ]) ] in
  resp <- _openai_chat_completion ai_base_url ai_api_key payload ;;
  out <- lift (_extract_ai_text resp) ;;
  let out := strip (replace_chr chr_newline chr_space
                      (replace_chr chr_cr chr_space out)) in
  ret (collapse_ws out).

(** ** [_build_operit_issue_body] (lines 462-506) *)

Definition metadata_of (repository_url version : str) : json :=
  JObj [ (lit "repositoryUrl", JStr repository_url);
         (lit "category", JStr []);
         (lit "tags", JStr []);
         (lit "version", JStr version) ].

Definition issue_body_lines (description repository_url version now_str : str)
  : list str :=
  [ lit "<!-- operit-skill-json: "
      ++ json_dumps_compact I (metadata_of repository_url version) ++ lit " -->";
    lit "<!-- operit-parser-version: " ++ version ++ lit " -->";
    [];
    lit "## ðŸ“‹ Skill ä¿¡æ¯";
    [];
    lit "**æè¿°:** " ++ description;
    [] ]
  ++ (if is_empty repository_url then []
      else [ lit "## ðŸ”— ä»“åº“ä¿¡æ¯";
             [];
             lit "**ä»“åº“åœ°å€:** " ++ repository_url;
             [] ])
  ++ (if is_empty repository_url then []
      else [ lit "## ðŸ“¦ å®‰è£…æ–¹å¼";
             [];
             lit "1. æ‰“å¼€ Operit â†’ åŒ…ç®¡ç† â†’ Skills";
             lit "2. ç‚¹å‡»ã€Œå¯¼å…¥ Skillã€â†’ ã€Œä»Žä»“åº“å¯¼å…¥ã€";
             lit "3. è¾“å…¥ä»“åº“åœ°å€ï¼š`" ++ repository_url ++ lit "`";
             lit "4. ç¡®è®¤å¯¼å…¥";
             [] ])
  ++ [ lit "## ðŸ› ï¸ æŠ€æœ¯ä¿¡æ¯";
       [];
       lit "| é¡¹ç›® | å€¼ |";
       lit "|------|-----|";
       lit "| å‘å¸ƒå¹³å° | Operit Skill å¸‚åœº |";
       lit "| è§£æžç‰ˆæœ¬ | 1.0 |";
       lit "| å‘å¸ƒæ—¶é—´ | " ++ now_str ++ lit " |";
       lit "| çŠ¶æ€ | â³ Pending Review |";
       [] ].

Definition _build_operit_issue_body (description repository_url version : str)
  : M str :=
  now <- now_str ;;
  ret (join nl (issue_body_lines description repository_url version now)).

(** ** [_create_issue] (lines 509-522) *)
Definition _create_issue (api_base repo token : str) (ctx : SSLContext)
    (title body : str) (labels : list str) : M dict :=
  p <- lift (split_repo repo) ;;
  let url := rstrip_chars (lit "/") api_base
             ++ lit "/repos/" ++ quote (fst p) ++ lit "/" ++ quote (snd p)
             ++ lit "/issues" in
  let payload := JObj [ (lit "title", JStr title);
                        (lit "body", JStr body);
                        (lit "labels", JArr (map JStr labels)) ] in
  r <- _http_json url (lit "POST") token ctx (Some payload) None
                  120 default_retries ;;
  match fst r with
  | JObj data => ret data
  | data =>
      raise (RuntimeError (lit "Unexpected create issue response: "
                           ++ firstn 500 (py_str I data)))
  end.

(** ** [_safe_title] (lines 525-536) *)
Definition _safe_title (base suffix : str) : str :=
  let t := strip base in
  let t := if is_empty t then lit "Untitled Skill" else t in
  let t := if is_empty suffix then t
           else if endswith t suffix then t else t ++ suffix in
  let t := strip (replace_chr chr_newline chr_space
                    (replace_chr chr_cr chr_space t)) in
  let t := collapse_ws t in
  if (120 <? length t)%nat then rstrip (firstn 120 t) else t.

(** ** [main] (lines 539-836) *)

Definition default_api_base : str := lit "https://api.github.com".

Definition missing_ai_message : str :=
  lit "Missing AI_BASE_URL/AI_API_KEY. Fill tools/github/.env (gitignored) or set env vars.".
Definition missing_token_message : str :=
  lit "Missing GITHUB_TOKEN. Creating issues requires a GitHub token.".
Definition invalid_target_message : str :=
  lit "Invalid --target-repo. Expect owner/name.".

(** Lines 676-690: the repository URLs found in the existing issues. *)
Definition existing_urls_of (issues : list json) : list str :=
  flat_map (fun it =>
              match it with
              | JObj d =>
                  let body := py_str I (py_or I (py_get (lit "body") d) (JStr [])) in
                  let repo_url := _extract_skill_metadata_repo_url body in
                  if is_empty repo_url then [] else [repo_url]
              | _ => []
              end) issues.

(** Lines 719-722: the names that occur more than once, sorted. *)
Definition count_step (counts : list (str * nat)) (s : SourceSkill)
  : list (str * nat) :=
  assoc_set (name s)
    (match assoc_get (name s) counts with Some n => n | None => 0 end + 1)%nat
    counts.

Definition name_counts_of (skills : list SourceSkill) : list (str * nat) :=
  fold_left count_step skills [].

Definition duplicate_names (skills : list SourceSkill) : list str :=
  sorted (map fst (filter (fun kv => (1 <? snd kv)%nat) (name_counts_of skills))).

(** Lines 724-731: the message printed for the duplicates. *)
Definition duplicates_message (dups : list str) : str :=
  lit "Duplicate skill IDs found (same folder name under different paths). "
  ++ lit "Since issue title is the ID, this would create ambiguous entries. "
  ++ lit "Use --allow-duplicate-ids to proceed anyway, or narrow --source-root." ++ nl
  ++ lit "Duplicates: "
  ++ join (lit ", ") (firstn 50 dups)
  ++ (if (50 <? length dups)%nat then lit " ..." else []).

(** Line 752 *)
Definition repo_url_of (args : Args) (skill : SourceSkill) : str :=
  lit "https://github.com/" ++ arg_source_repo args ++ lit "/tree/"
  ++ arg_source_ref args ++ lit "/" ++ lstrip_chars (lit "/") (path skill).

Definition count_created (c : Counts) : Counts :=
  {| created := S (created c); skipped := skipped c; failed := failed c |}.
Definition count_skipped (c : Counts) : Counts :=
  {| created := created c; skipped := S (skipped c); failed := failed c |}.
Definition count_failed (c : Counts) : Counts :=
  {| created := created c; skipped := skipped c; failed := S (failed c) |}.

(** Lines 801-824: creation, tried once more without labels after an
    error whose text contains 422. *)
Definition create_with_fallback (r : Run) (title body : str) : M dict :=
  try_except
    (_create_issue (github_api_base r) (arg_target_repo (run_args r))
                   (github_token r) (github_ctx r) title body (labels r))
    (fun e =>
       if contains (lit "422") (exn_text e) then
         _create_issue (github_api_base r) (arg_target_repo (run_args r))
                       (github_token r) (github_ctx r) title body []
       else raise e).

(** Lines 774-829: the body of the [try] statement. *)
Definition summarize_and_create (r : Run) (skill : SourceSkill)
    (repo_url md_file_name md_content title : str) (c : Counts) : M Counts :=
  let args := run_args r in
  description <- _ai_generate_description (ai_base_url r) (ai_api_key r)
                   (ai_model r) (ai_temperature r)
                   (name skill) repo_url md_file_name md_content ;;
  when (arg_print_description args)
       (print (lit "[description] " ++ name skill ++ lit ": " ++ description)) ;;;
  if is_empty description then
    raise (RuntimeError (lit "AI returned empty description"))
  else
    body <- _build_operit_issue_body description repo_url (arg_version args) ;;
    when (arg_print_body args)
         (print (lit "[body] " ++ name skill ++ lit ":" ++ nl ++ body)) ;;;
    if arg_dry_run args then
      print (lit "[dry-run] create issue: " ++ title ++ lit " | " ++ repo_url) ;;;
      ret (count_created c)
    else
      issue <- create_with_fallback r title body ;;
      let issue_url := py_str I (py_or I (py_get (lit "html_url") issue) (JStr [])) in
      let number := py_get (lit "number") issue in
      print (lit "[ok] #" ++ py_str I number ++ lit " " ++ issue_url) ;;;
      ret (count_created c).

(** Lines 749-833: one iteration of the main loop. *)
Definition process_skill (r : Run) (idx total : nat) (skill : SourceSkill)
    (c : Counts) : M Counts :=
  let args := run_args r in
  when (arg_verbose args)
       (print (lit "[info] (" ++ dec_of_nat idx ++ lit "/" ++ dec_of_nat total
               ++ lit ") processing skill: " ++ name skill)) ;;;
  let repo_url := repo_url_of args skill in
  if (arg_skip_existing args && str_mem repo_url (existing_repo_urls r))%bool then
    print (lit "[skip] " ++ name skill ++ lit " already exists: " ++ repo_url) ;;;
    ret (count_skipped c)
  else
    md <- _pick_skill_markdown (github_api_base r) (arg_source_repo args)
            (arg_source_ref args) (path skill) (github_token r) (github_ctx r) ;;
    when (arg_verbose args)
         (print (lit "[info] source markdown: "
                 ++ (if is_empty (fst md) then lit "(none)" else fst md))) ;;;
    let title := _safe_title (name skill) [] in
    try_except
      (summarize_and_create r skill repo_url (fst md) (snd md) title c)
      (fun e =>
         print (lit "[fail] " ++ name skill ++ lit ": " ++ exn_text e) ;;;
         ret (count_failed c)).

(** The loop [for idx, skill in enumerate(skills, start=1)]. *)
Fixpoint main_loop (r : Run) (idx total : nat) (skills : list SourceSkill)
    (c : Counts) {struct skills} : M Counts :=
  match skills with
  | [] => ret c
  | skill :: rest =>
      c' <- process_skill r idx total skill c ;;
      main_loop r (S idx) total rest c'
  end.

(** Lines 744-836: the loop, the summary line and the returned status. *)
Definition run_skills (r : Run) (skills : list SourceSkill) : M Z :=
  c <- main_loop r 1 (length skills) skills
         {| created := 0; skipped := 0; failed := 0 |} ;;
  print (lit "Done. created=" ++ dec_of_nat (created c)
         ++ lit " skipped=" ++ dec_of_nat (skipped c)
         ++ lit " failed=" ++ dec_of_nat (failed c)) ;;;
  ret (if (failed c =? 0)%nat then 0 else 1)%Z.

(** Lines 692-710: the discovery of the source items. *)
Definition find_skills (r : Run) : M (list SourceSkill * bool) :=
  let args := run_args r in
  if arg_recursive args then
    _list_source_skills_recursive (github_api_base r) (arg_source_repo args)
      (arg_source_ref args) (arg_source_root args) (github_token r) (github_ctx r)
  else
    skills <- _list_source_skills (github_api_base r) (arg_source_repo args)
                (arg_source_ref args) (arg_source_root args)
                (github_token r) (github_ctx r) ;;
    ret (skills, false).

(** Lines 712-716 *)
Definition warn_truncated (args : Args) (truncated_tree : bool) : M unit :=
  when (arg_verbose args && arg_recursive args && truncated_tree)%bool
       (print (lit "[warn] Git tree API returned truncated results; some skills may be missing. "
               ++ lit "Try narrowing --source-root to a smaller subdirectory.")).

(** Lines 734-742: the two filters; [inr code] is an early [return code]. *)
Definition filter_skills (args : Args) (skills : list SourceSkill)
  : M (list SourceSkill + Z) :=
  let only := strip (arg_only_skill args) in
  let filtered := if is_empty only then skills
                  else filter (fun s => str_eqb (name s) only) skills in
  if (negb (is_empty only) && is_empty_list filtered)%bool then
    print (lit "No such skill folder under " ++ arg_source_repo args ++ lit "/"
           ++ arg_source_root args ++ lit "@" ++ arg_source_ref args
           ++ lit ": " ++ only) ;;;
    ret (inr 2%Z)
  else
    ret (inl (if (0 <? arg_limit args)%Z
              then firstn (Z.to_nat (arg_limit args)) filtered
              else filtered)).

(** Lines 718-742: the duplicate check, then the filters. *)
Definition select_skills (args : Args) (skills : list SourceSkill)
  : M (list SourceSkill + Z) :=
  if negb (arg_allow_duplicate_ids args) then
    let dups := duplicate_names skills in
    if negb (is_empty_list dups) then
      print (duplicates_message dups) ;;; ret (inr 2%Z)
    else filter_skills args skills
  else filter_skills args skills.

(** Lines 692-742 *)
Definition discover (r : Run) : M (list SourceSkill + Z) :=
  found <- find_skills r ;;
  warn_truncated (run_args r) (snd found) ;;;
  select_skills (run_args r) (fst found).

(** Line 669: the labels given on the command line. *)
Definition labels_of (args : Args) : list str :=
  filter (fun x => negb (is_empty x))
         (map strip (split chr_comma (arg_labels args))).

(** Lines 672-674 *)
Definition announce (args : Args) : M unit :=
  let labels_csv := join (lit ",") (labels_of args) in
  when (arg_verbose args)
       (print (lit "[info] target repo: " ++ arg_target_repo args) ;;;
        print (lit "[info] labels: "
               ++ (if is_empty labels_csv then lit "(none)" else labels_csv))).

(** Lines 667-690: the context, the labels and the existing issues. *)
Definition prepare (args : Args) (token api_base ai_url ai_key model : str)
    (temperature : json) : M Run :=
  let ctx := _build_ssl_context (arg_github_tls12 args) (arg_github_insecure args) in
  let labels := labels_of args in
  announce args ;;;
  existing <-
    (if arg_skip_existing args then
       issues <- _iter_issues api_base (arg_target_repo args) token ctx
                   (lit "all") [] ;;
       ret (set_of (existing_urls_of issues))
     else ret []) ;;
  ret {| run_args := args;
         github_token := token;
         github_api_base := api_base;
         ai_base_url := ai_url;
         ai_api_key := ai_key;
         ai_model := model;
         ai_temperature := temperature;
         github_ctx := ctx;
         labels := labels;
         existing_repo_urls := existing |}.

(** Lines 663-836: the run once the credentials have been checked. *)
Definition run_configured (args : Args)
    (github_token github_api_base ai_base_url ai_api_key ai_model : str)
    (ai_temperature : json) : M Z :=
  if (is_empty (arg_target_repo args)
      || negb (contains (lit "/") (arg_target_repo args)))%bool then
    print invalid_target_message ;;; ret 2%Z
  else
    r <- prepare args github_token github_api_base ai_base_url ai_api_key
           ai_model ai_temperature ;;
    found <- discover r ;;
    match found with
    | inr code => ret code
    | inl skills => run_skills r skills
    end.

(** Lines 644-653: the settings read from the environment. *)
Definition env_github_token (environ : Environ) : str :=
  strip (environ_get environ (lit "GITHUB_TOKEN") []).
Definition env_github_api_base (environ : Environ) : str :=
  let b := strip (environ_get environ (lit "GITHUB_API_URL") default_api_base) in
  if is_empty b then default_api_base else b.
Definition env_ai_base_url (environ : Environ) : str :=
  strip (environ_get environ (lit "AI_BASE_URL") []).
Definition env_ai_api_key (environ : Environ) : str :=
  strip (environ_get environ (lit "AI_API_KEY") []).
Definition env_ai_model (environ : Environ) : str :=
  let m := strip (environ_get environ (lit "AI_MODEL") []) in
  if is_empty m then lit "gpt-4o-mini" else m.
Definition env_ai_temperature (environ : Environ) : json :=
  let t := environ_get environ (lit "AI_TEMPERATURE") (lit "0.2") in
  if (negb (is_empty t) && float_ok I t)%bool then JFloat t
  else JFloat (lit "0.2").

Definition main (args : Args) (environ : Environ) : M Z :=
  let github_token := env_github_token environ in
  let github_api_base := env_github_api_base environ in
  let ai_base_url := env_ai_base_url environ in
  let ai_api_key := env_ai_api_key environ in
  let ai_model := env_ai_model environ in
  let ai_temperature := env_ai_temperature environ in
  if (is_empty ai_base_url || is_empty ai_api_key)%bool then
    print missing_ai_message ;;; ret 2%Z
  else if (is_empty github_token && negb (arg_dry_run args))%bool then
    print missing_token_message ;;; ret 2%Z
  else
    run_configured args github_token github_api_base ai_base_url ai_api_key
      ai_model ai_temperature.

End WithInterp.
End Import_anthropic_skills.

(* ================================================================= *)
(** * tools/github/list_issues.py: the issue listing *)
(* ================================================================= *)

Module List_issues.

(** The dataclass [IssueItem]. *)
Record IssueItem : Type := {
  number : Z;
  title : str;
  html_url : str;
  state : str;
  created_at : str;
  updated_at : str;
  labels : list str;
  assignees : list str;
  comments : Z
}.

Section WithInterp.
Variable I : Interp.

Definition str_headers := list (str * str).

(** ** [_load_env] (lines 14-27): the same text as in the importer *)
Definition _load_env (env_path : Import_anthropic_skills.EnvFile)
    (environ : Import_anthropic_skills.Environ)
  : res Import_anthropic_skills.Environ :=
  Import_anthropic_skills._load_env env_path environ.

(** ** [_infer_repo_from_origin] (lines 59-74) *)

(** [$] without MULTILINE: the end of the text, or just before a line feed
    that ends it. *)
Definition at_end (s : str) : bool :=
  match s with
  | [] => true
  | [c] => (c =? 10)%N
  | _ => false
  end.

(** [/?$] when [slash] is set, [$] otherwise. *)
Definition opt_slash_end (slash : bool) (s : str) : bool :=
  (at_end s
   || (slash && match s with
                | c :: r => (c =? 47)%N && at_end r
                | [] => false
                end))%bool.

(** [(?:\.git)?$] or [(?:\.git)?/?$] at the head of [s]. *)
Definition git_tail (slash : bool) (s : str) : bool :=
  (opt_slash_end slash s
   || match strip_prefix (lit ".git") s with
      | Some r => opt_slash_end slash r
      | None => false
      end)%bool.

(** Group 2, [([^/]+?)] followed by the tail: the shortest nonempty text
    without ['/'] after which the tail matches. *)
Fixpoint lazy_name (slash : bool) (s : str) : option str :=
  match s with
  | [] => None
  | c :: r =>
      if (c =? 47)%N then None
      else if git_tail slash r then Some [c]
      else match lazy_name slash r with
           | Some t => Some (c :: t)
           | None => None
           end
  end.

(** [re.match] of a literal prefix, [([^/]+)/], group 2 and the tail: the
    two groups. *)
Definition match_remote (prefix : str) (slash : bool) (s : str)
  : option (str * str) :=
  match strip_prefix prefix s with
  | None => None
  | Some r =>
      match split_once chr_slash r with
      | Some ((_ :: _) as owner, rest) =>
          match lazy_name slash rest with
          | Some name => Some (owner, name)
          | None => None
          end
      | _ => None
      end
  end.

Definition _infer_repo_from_origin (origin_url : str) : str :=
  let origin_url := strip origin_url in
  if is_empty origin_url then []
  else
    match match_remote (lit "git@github.com:") false origin_url with
    | Some (owner, name) => owner ++ lit "/" ++ name
    | None =>
        match match match_remote (lit "https://github.com/") true origin_url with
              | Some g => Some g
              | None => match_remote (lit "http://github.com/") true origin_url
              end with
        | Some (owner, name) => owner ++ lit "/" ++ name
        | None => []
        end
    end.

(** ** [_request_json] (lines 77-98) *)
Definition listing_request (url token : str) : Request :=
  let h0 := [ (lit "Accept", lit "application/vnd.github+json");
              (lit "X-GitHub-Api-Version", lit "2022-11-28") ] in
  {| rq_url := url;
     rq_method := lit "GET";
     rq_headers := if is_empty token then h0
                   else h0 ++ [(lit "Authorization", lit "Bearer " ++ token)];
     rq_data := None;
     rq_timeout := 60;
     rq_context := None |}.

Definition _request_json (url token : str) : M (list json * str_headers) :=
  o <- urlopen (listing_request url token) ;;
  match o with
  | Answered a =>
      if Import_anthropic_skills.is_success (status a) then
        if utf8 a then
          match json_loads (text a) with
          | None => raise (Import_anthropic_skills.JSONDecodeError I (text a))
          | Some data =>
              let headers := Import_anthropic_skills.lower_keys I (headers a) in
              match data with
              | JArr items => ret (items, headers)
              | _ =>
                  raise (RuntimeError
                           (lit "Unexpected GitHub response (expected list): "
                            ++ firstn 500 (text a)))
              end
          end
        else raise (Import_anthropic_skills.UnicodeDecodeError I (text a))
      else
        raise (RuntimeError (lit "GitHub API error: HTTP " ++ dec_of_Z (status a)
                             ++ lit " " ++ reason a
                             ++ Import_anthropic_skills.nl ++ text a))
  | NetFail e _ => raise e
  | OtherFail e => raise e
  end.

(** ** [_parse_link_next] (lines 101-111): the same text as in the importer *)
Definition _parse_link_next (link_header : str) : str :=
  if is_empty link_header then []
  else Import_anthropic_skills.first_next
         (map strip (split chr_comma link_header)).

(** ** [_iter_issues] (lines 127-166) *)

(** [int(v)] *)
Definition py_int (v : json) : res Z :=
  match v with
  | JInt z => Ok z
  | JBool b => Ok (if b then 1 else 0)%Z
  | JStr _ | JFloat _ =>
      match int_of I v with
      | Some z => Ok z
      | None => Raise {| exn_class := lit "ValueError";
                         exn_text := text_of I (TIntError v) |}
      end
  | _ => Raise {| exn_class := lit "TypeError";
                  exn_text := text_of I (TIntError v) |}
  end.

(** The elements a [for] clause draws from [v]. *)
Definition py_iter (v : json) : res (list json) :=
  match v with
  | JArr l => Ok l
  | JStr s => Ok (map (fun c => JStr [c]) s)
  | JObj d => Ok (map (fun kv => JStr (fst kv)) d)
  | _ => Raise {| exn_class := lit "TypeError";
                  exn_text := lit "'" ++ type_name v ++ lit "' object is not iterable" |}
  end.

(** [[str(x.get(field)) for x in (it.get(key) or []) if isinstance(x, dict)]] *)
Definition names_in (it : dict) (key field : str) : res (list str) :=
  match py_iter (py_or I (py_get key it) (JArr [])) with
  | Ok xs =>
      Ok (flat_map (fun x => match x with
                             | JObj d => [py_str I (py_get field d)]
                             | _ => []
                             end) xs)
  | Raise e => Raise e
  end.

Definition str_field (it : dict) (key : str) : str :=
  py_str I (py_or I (py_get key it) (JStr [])).

Definition int_field (it : dict) (key : str) : res Z :=
  py_int (py_or I (py_get key it) (JInt 0)).

(** The [IssueItem] yielded for one object of a page. *)
Definition issue_item_of (it : dict) : res IssueItem :=
  match int_field it (lit "number") with
  | Raise e => Raise e
  | Ok n =>
      match names_in it (lit "labels") (lit "name") with
      | Raise e => Raise e
      | Ok ls =>
          match names_in it (lit "assignees") (lit "login") with
          | Raise e => Raise e
          | Ok asg =>
              match int_field it (lit "comments") with
              | Raise e => Raise e
              | Ok c =>
                  Ok {| number := n;
                        title := str_field it (lit "title");
                        html_url := str_field it (lit "html_url");
                        state := str_field it (lit "state");
                        created_at := str_field it (lit "created_at");
                        updated_at := str_field it (lit "updated_at");
                        labels := ls;
                        assignees := asg;
                        comments := c |}
              end
          end
      end
  end.

(** The items yielded for one page, in order, up to the first conversion
    that raises. *)
Fixpoint yield_page (data : list json) : res (list IssueItem) :=
  match data with
  | [] => Ok []
  | it :: rest =>
      match it with
      | JObj d =>
          if dict_has (lit "pull_request") d then yield_page rest
          else
            match issue_item_of d with
            | Raise e => Raise e
            | Ok item =>
                match yield_page rest with
                | Ok items => Ok (item :: items)
                | Raise e => Raise e
                end
            end
      | _ => yield_page rest
      end
  end.

Definition issues_url (api_base owner name state : str) : str :=
  rstrip_chars (lit "/") api_base
  ++ lit "/repos/" ++ Import_anthropic_skills.quote I owner ++ lit "/"
  ++ Import_anthropic_skills.quote I name ++ lit "/issues" ++ lit "?"
  ++ Import_anthropic_skills.urlencode I
       [ (lit "state", state); (lit "per_page", lit "100");
         (lit "sort", lit "updated"); (lit "direction", lit "desc") ].

(** The loop [while url:] of the generator, as consumed by [list(...)]. *)
Fixpoint iter_pages (fuel : nat) (token url : str) (out : list IssueItem)
    {struct fuel} : M (list IssueItem) :=
  if is_empty url then ret out
  else
    match fuel with
    | O => raise Import_anthropic_skills.out_of_fuel
    | S fuel' =>
        r <- _request_json url token ;;
        items <- lift (yield_page (fst r)) ;;
        iter_pages fuel' token
          (_parse_link_next
             (Import_anthropic_skills.headers_get (lit "link") [] (snd r)))
          (out ++ items)
    end.

(** [list(_iter_issues(api_base, repo, token, state))] *)
Definition _iter_issues (api_base repo token state : str) : M (list IssueItem) :=
  p <- lift (Import_anthropic_skills.split_repo repo) ;;
  let url := issues_url api_base (fst p) (snd p) state in
  fun w => iter_pages (S (length (script w))) token url [] w.

(** ** [_to_markdown] (lines 169-195) *)

(** The two lines written for one issue. *)
Definition issue_lines (it : IssueItem) : list str :=
  let labels := if is_empty_list (labels it) then []
                else join (lit ", ") (labels it) in
  let assignees := if is_empty_list (assignees it) then []
                   else join (lit ", ") (assignees it) in
  let meta_parts :=
    (if is_empty labels then [] else [lit "labels: " ++ labels])
    ++ (if is_empty assignees then [] else [lit "assignees: " ++ assignees])
    ++ [ lit "comments: " ++ dec_of_Z (comments it);
         lit "updated: " ++ updated_at it ] in
  let meta := join (lit " | ") meta_parts in
  let title := strip (replace_chr chr_newline chr_space
                        (replace_chr chr_cr chr_space (title it))) in
  [ lit "- #" ++ dec_of_Z (number it) ++ lit " [" ++ title ++ lit "]("
      ++ html_url it ++ lit ") (" ++ state it ++ lit ")";
    lit "  - " ++ meta ].

Definition report_lines (issues : list IssueItem) (repo state : str) : list str :=
  [ lit "# GitHub Issues (" ++ repo ++ lit ")";
    [];
    lit "State: `" ++ state ++ lit "`";
    lit "Count: `" ++ dec_of_nat (length issues) ++ lit "`";
    [] ]
  ++ flat_map issue_lines issues
  ++ [ [] ].

Definition _to_markdown (issues : list IssueItem) (repo state : str) : str :=
  join Import_anthropic_skills.nl (report_lines issues repo state).

End WithInterp.
End List_issues.

Import Import_anthropic_skills.

(* ================================================================= *)
(** * Vocabulary of the statements *)
(* ================================================================= *)

(** An interpretation used for closed examples.  It agrees with CPython on
    the inputs of those examples: [quote] leaves letters, digits and
    ['/'] unchanged, [urlencode] joins [k=v] pairs of such text with ['&'];
    the other texts are never inspected there. *)
Definition ascii_interp : Interp :=
  {| text_of := fun t =>
       match t with
       | TQuote s => s
       | TUrlencode ps =>
           join (lit "&") (map (fun kv => fst kv ++ lit "=" ++ snd kv) ps)
       | _ => lit "<text>"
       end;
     float_nonzero := fun _ => true;
     float_ok := fun _ => true;
     int_of := fun _ => None |}.

(** What [_http_json] returns for the body of a 2xx answer, when it
    returns: [None] for a blank body, the decoded document otherwise. *)
Definition body_value (a : Answer) : option json :=
  if is_empty (strip (text a)) then Some JNull else json_loads (text a).

(** Each delay is twice the one before it, hence larger. *)
Fixpoint doubling (delays : list Z) : Prop :=
  match delays with
  | a :: (b :: _) as rest => (b = 2 * a /\ a < b)%Z /\ doubling rest
  | _ => True
  end.

(** The events of [n] successive attempts of [req], the first one being
    attempt number [attempt]: the request each time and, between two
    attempts, the back-off sleep. *)
Fixpoint retry_events (req : Request) (attempt n : nat) : list Event :=
  match n with
  | O => []
  | S O => [EvRequest req]
  | S n' =>
      EvRequest req :: EvSleep (2 ^ Z.of_nat attempt) :: retry_events req (S attempt) n'
  end.

(** The same command line without [--skip-existing], and a run with it. *)
Definition without_skip_existing (args : Args) : Args :=
  {| arg_source_repo := arg_source_repo args;
     arg_source_ref := arg_source_ref args;
     arg_source_root := arg_source_root args;
     arg_recursive := arg_recursive args;
     arg_allow_duplicate_ids := arg_allow_duplicate_ids args;
     arg_target_repo := arg_target_repo args;
     arg_labels := arg_labels args;
     arg_limit := arg_limit args;
     arg_only_skill := arg_only_skill args;
     arg_skip_existing := false;
     arg_dry_run := arg_dry_run args;
     arg_print_description := arg_print_description args;
     arg_print_body := arg_print_body args;
     arg_verbose := arg_verbose args;
     arg_github_tls12 := arg_github_tls12 args;
     arg_github_insecure := arg_github_insecure args;
     arg_title_suffix := arg_title_suffix args;
     arg_version := arg_version args |}.

Definition run_without_skip_existing (r : Run) : Run :=
  {| run_args := without_skip_existing (run_args r);
     github_token := github_token r;
     github_api_base := github_api_base r;
     ai_base_url := ai_base_url r;
     ai_api_key := ai_api_key r;
     ai_model := ai_model r;
     ai_temperature := ai_temperature r;
     github_ctx := github_ctx r;
     labels := labels r;
     existing_repo_urls := existing_repo_urls r |}.

(** The events of the verbose progress line of an item, if any. *)
Definition progress_events (args : Args) (idx total : nat) (skill : SourceSkill)
  : list Event :=
  if arg_verbose args then
    [EvPrint (lit "[info] (" ++ dec_of_nat idx ++ lit "/" ++ dec_of_nat total
              ++ lit ") processing skill: " ++ name skill)]
  else [].

(** The world in which the content of an item is picked: after the
    progress line, if any. *)
Definition at_pick (args : Args) (idx total : nat) (skill : SourceSkill) (w : World)
  : World :=
  if arg_verbose args then
    logged [EvPrint (lit "[info] (" ++ dec_of_nat idx ++ lit "/" ++ dec_of_nat total
                     ++ lit ") processing skill: " ++ name skill)] (script w) w
  else w.

(** The next-page URL that [_iter_issues] reads from an answer. *)
Definition page_next (I : Interp) (a : Answer) : str :=
  _parse_link_next (headers_get (lit "link") [] (lower_keys I (headers a))).

(** One or more pages chained by their next links: every page but the
    last one names a next page, the last one does not. *)
Fixpoint linked_pages (I : Interp) (pages : list Answer) : Prop :=
  match pages with
  | [] => False
  | a :: rest =>
      match rest with
      | [] => page_next I a = []
      | _ :: _ => page_next I a <> [] /\ linked_pages I rest
      end
  end.

(** The URLs requested for those pages, from [url] on. *)
Fixpoint page_urls (I : Interp) (url : str) (pages : list Answer) : list str :=
  match pages with
  | [] => []
  | a :: rest => url :: page_urls I (page_next I a) rest
  end.

(** The items of a page that are issues proper: objects without a
    [pull_request] field. *)
Definition without_pull_requests (items : list json) : list json :=
  filter keep_issue items.

(** A page of the importer's listing: a 2xx answer whose body decodes to
    the list [items]. *)
Definition page_ok (a : Answer) (items : list json) : Prop :=
  is_success (status a) = true /\ body_value a = Some (JArr items).

(** A page of the lister: a 2xx answer in well-formed UTF-8 whose body
    decodes to the list [fst c], from which the generator yields [snd c]. *)
Definition lister_page_ok (I : Interp) (a : Answer)
    (c : list json * list List_issues.IssueItem) : Prop :=
  is_success (status a) = true /\ utf8 a = true
  /\ json_loads (text a) = Some (JArr (fst c))
  /\ List_issues.yield_page I (fst c) = Ok (snd c).

(** [y] is the [IssueItem] made from the object [it]. *)
Definition item_of (I : Interp) (it : json) (y : List_issues.IssueItem) : Prop :=
  exists d, it = JObj d /\ List_issues.issue_item_of I d = Ok y.

(** [x] is not above [y] in the order of the keys. *)
Definition key_le {A : Type} (key : A -> str) (x y : A) : Prop :=
  str_leb (key x) (key y) = true.

(** A file entry of a contents listing. *)
Definition file_named (n : str) : dict :=
  [ (lit "type", JStr (lit "file"));
    (lit "name", JStr n);
    (lit "download_url", JStr (lit "https://raw.example/" ++ n)) ].

(** The name of the file picked among [files]. *)
Definition picked_name (I : Interp) (files : list dict) : option str :=
  option_map (fun it => py_str I (py_get (lit "name") it)) (pick_candidate I files).

(** Some file of the listing has the lower-cased name [k]. *)
Definition has_name (I : Interp) (files : list dict) (k : str) : Prop :=
  exists f, In f files /\ lower_name I f = k.

(** The lower-cased name of the file ends in [.md]. *)
Definition is_markdown (I : Interp) (f : dict) : Prop :=
  endswith (lower_name I f) (lit ".md") = true.

(** How many of the items are named [n]. *)
Definition occurrences (n : str) (skills : list SourceSkill) : nat :=
  length (filter (fun s => str_eqb (name s) n) skills).

(** The first lines of the message about duplicates. *)
Definition duplicates_header : str :=
  lit "Duplicate skill IDs found (same folder name under different paths). "
  ++ lit "Since issue title is the ID, this would create ambiguous entries. "
  ++ lit "Use --allow-duplicate-ids to proceed anyway, or narrow --source-root." ++ nl
  ++ lit "Duplicates: ".

(** The events of the warning about a truncated tree, if any. *)
Definition warning_events (args : Args) (truncated_tree : bool) : list Event :=
  if (arg_verbose args && arg_recursive args && truncated_tree)%bool then
    [EvPrint (lit "[warn] Git tree API returned truncated results; some skills may be missing. "
              ++ lit "Try narrowing --source-root to a smaller subdirectory.")]
  else [].

(** An item with the given name, in a folder of its own. *)
Definition skill_named (folder n : str) : SourceSkill :=
  {| name := n; path := folder ++ lit "/" ++ n; html_url := [] |}.

(** Fifty-one names, [s10] to [s60], each used in two folders. *)
Definition many_duplicates : list SourceSkill :=
  let names := map (fun i => lit "s" ++ dec_of_nat i) (seq 10 51) in
  map (skill_named (lit "a")) names ++ map (skill_named (lit "b")) names.

(** The settings that let [main] pass its checks (lines 655-665). *)
Definition configured (args : Args) (environ : Environ) : Prop :=
  env_ai_base_url environ <> [] /\ env_ai_api_key environ <> []
  /\ (env_github_token environ <> [] \/ arg_dry_run args = true)
  /\ arg_target_repo args <> []
  /\ contains (lit "/") (arg_target_repo args) = true.

(** [prepare] as [main] calls it. *)
Definition prepare_of (I : Interp) (args : Args) (environ : Environ) : M Run :=
  prepare I args (env_github_token environ) (env_github_api_base environ)
    (env_ai_base_url environ) (env_ai_api_key environ) (env_ai_model environ)
    (env_ai_temperature I environ).

(** [s] holds a closing brace followed by optional white space and the
    end of an HTML comment: the text that ends group 1 of the metadata
    pattern. *)
Fixpoint has_close (s : str) : bool :=
  match s with
  | [] => false
  | c :: r => ((c =? 125)%N && closes r) || has_close r
  end.

(** How [json.dumps] writes a character: as itself, or as an escape that
    starts with a backslash and holds no brace. *)
Inductive escape_shape (c : N) : Prop :=
| shape_plain :
    escape_chr c = [c] -> c <> 34%N -> c <> 92%N -> (32 <= c)%N -> escape_shape c
| shape_escaped :
    forall x r, escape_chr c = 92%N :: x :: r ->
                Forall (fun y => y <> 125%N) (escape_chr c) -> escape_shape c.

(** The members of an object from the first character of a key on (its
    opening quote has been read), as the loop of the decoder meets them. *)
Fixpoint members_tail (k v : str) (more : list (str * str)) : str :=
  flat_map escape_chr k
  ++ chr_quote :: 58%N :: chr_quote :: flat_map escape_chr v
  ++ chr_quote :: match more with
                  | [] => []
                  | (k', v') :: more' => 44%N :: chr_quote :: members_tail k' v' more'
                  end.

(** The URL read back from the body built for [url]: [None] if the body
    could not be built. *)
Definition read_back (I : Interp) (description url version : str) (w : World)
  : option str :=
  match fst (_build_operit_issue_body I description url version w) with
  | Ok body => Some (_extract_skill_metadata_repo_url I body)
  | Raise _ => None
  end.

(** The delays of [k] successive back-offs from attempt number [attempt]
    on: [2^attempt], [2^(attempt+1)], ... seconds. *)
Definition backoff_delays (attempt k : nat) : list Z :=
  map (fun i => (2 ^ Z.of_nat i)%Z) (seq attempt k).

(** [x] is a run of consecutive characters of [s]. *)
Definition infix_of (x s : str) : Prop := exists a b, s = a ++ x ++ b.

(** The entry [<url>; rel="next"] of a link header. *)
Definition next_entry (url : str) : str :=
  60%N :: url ++ 62%N :: lit "; " ++ rel_next_quoted.

(** The object whose members are the given strings, and its members as
    [json.dumps] with separators [(',', ':')] writes them. *)
Definition string_object (ms : list (str * str)) : json :=
  JObj (map (fun kv => (fst kv, JStr (snd kv))) ms).

Definition member_text (kv : str * str) : str :=
  encode_basestring (fst kv) ++ lit ":" ++ encode_basestring (snd kv).

Definition members_text (ms : list (str * str)) : str :=
  join (lit ",") (map member_text ms).

(** The picker as the specification words it: the exact names [SKILL.md],
    [README.md], [readme.md] in this order, else the smallest name that
    ends in [.md]. *)
Definition claimed_pick (names : list str) : option str :=
  if str_mem (lit "SKILL.md") names then Some (lit "SKILL.md")
  else if str_mem (lit "README.md") names then Some (lit "README.md")
  else if str_mem (lit "readme.md") names then Some (lit "readme.md")
  else hd_error (sorted (filter (fun n => endswith n (lit ".md")) names)).

(** A world that starts with the given script. *)
Definition world_of (sc : list Outcome) : World :=
  {| script := sc; log := []; clock := fun _ => lit "2024-01-01 00:00:00"; ticks := 0 |}.

(** An HTTP answer with a well-formed UTF-8 body and no headers. *)
Definition answer (code : Z) (reason_phrase body : str) : Answer :=
  {| status := code; reason := reason_phrase; headers := []; text := body; utf8 := true |}.

(** ** Values used in the concrete runs *)

(** The default command line with [--skip-existing] and [--dry-run]. *)
Definition skip_dry_args : Args :=
  {| arg_source_repo := lit "anthropics/skills";
     arg_source_ref := lit "main";
     arg_source_root := lit "skills";
     arg_recursive := false;
     arg_allow_duplicate_ids := false;
     arg_target_repo := lit "AAswordman/OperitSkillMarket";
     arg_labels := lit "skill-plugin";
     arg_limit := 0;
     arg_only_skill := [];
     arg_skip_existing := true;
     arg_dry_run := true;
     arg_print_description := false;
     arg_print_body := false;
     arg_verbose := false;
     arg_github_tls12 := false;
     arg_github_insecure := false;
     arg_title_suffix := [];
     arg_version := lit "v1" |}.

(** [--dry-run --limit n] on the default command line. *)
Definition dry_limit_args (n : Z) : Args :=
  {| arg_source_repo := lit "anthropics/skills";
     arg_source_ref := lit "main";
     arg_source_root := lit "skills";
     arg_recursive := false;
     arg_allow_duplicate_ids := false;
     arg_target_repo := lit "AAswordman/OperitSkillMarket";
     arg_labels := lit "skill-plugin";
     arg_limit := n;
     arg_only_skill := [];
     arg_skip_existing := false;
     arg_dry_run := true;
     arg_print_description := false;
     arg_print_body := false;
     arg_verbose := false;
     arg_github_tls12 := false;
     arg_github_insecure := false;
     arg_title_suffix := [];
     arg_version := lit "v1" |}.

Definition example_environ : Environ :=
  [ (lit "GITHUB_TOKEN", lit "t0ken");
    (lit "AI_BASE_URL", lit "https://ai.example");
    (lit "AI_API_KEY", lit "k3y") ].

Definition example_run (args : Args) (existing : list str) : Run :=
  {| run_args := args;
     github_token := lit "t0ken";
     github_api_base := default_api_base;
     ai_base_url := lit "https://ai.example";
     ai_api_key := lit "k3y";
     ai_model := lit "gpt-4o-mini";
     ai_temperature := JFloat (lit "0.2");
     github_ctx := {| force_tls12 := false; insecure := false |};
     labels := [lit "skill-plugin"];
     existing_repo_urls := existing |}.

Definition pdf_skill : SourceSkill :=
  {| name := lit "pdf"; path := lit "skills/pdf"; html_url := [] |}.
Definition xlsx_skill : SourceSkill :=
  {| name := lit "xlsx"; path := lit "skills/xlsx"; html_url := [] |}.

Definition pdf_url : str := lit "https://github.com/anthropics/skills/tree/main/skills/pdf".

(** Answers of the servers: the listing of the source root, the listing of
    a skill folder, a raw file, a chat completion, and an issue of the
    target repository whose body carries the metadata of [pdf]. *)
Definition ok_answer (body : str) : Outcome := Answered (answer 200 (lit "OK") body).

Definition root_listing : Outcome :=
  ok_answer (qlit "[{'type':'dir','name':'xlsx','path':'skills/xlsx'},{'type':'dir','name':'pdf','path':'skills/pdf'}]").
Definition folder_listing : Outcome :=
  ok_answer (qlit "[{'type':'file','name':'SKILL.md','download_url':'https://raw.example/SKILL.md'}]").
Definition raw_file : Outcome := ok_answer (lit "# A skill").
Definition completion : Outcome :=
  ok_answer (qlit "{'choices':[{'message':{'content':' Reads   tables. '}}]}").
Definition existing_issues : Outcome :=
  ok_answer (qlit "[{'number':3,'body':'<!-- operit-skill-json: {\'repositoryUrl\':\'https://github.com/anthropics/skills/tree/main/skills/pdf\'} -->'},{'number':4,'pull_request':{}}]").
Definition not_found : Outcome :=
  Answered (answer 404 (lit "Not Found") (qlit "{'message':'Not Found'}")).

(** Answers of the source repository in recursive mode: the commit of the
    ref, and a tree in which the name [a] is used by two folders. *)
Definition commit_answer : Outcome :=
  ok_answer (qlit "{'commit':{'tree':{'sha':'abc123'}}}").
Definition tree_answer : Outcome :=
  ok_answer (qlit "{'truncated':false,'tree':[{'type':'blob','path':'skills/x/a/SKILL.md'},{'type':'blob','path':'skills/y/b/SKILL.md'},{'type':'blob','path':'skills/z/a/SKILL.md'},{'type':'tree','path':'skills/x'}]}").

(** The default command line with [--recursive], and with
    [--allow-duplicate-ids] and [--dry-run] too. *)
Definition recursive_args (allow dry : bool) : Args :=
  {| arg_source_repo := lit "anthropics/skills";
     arg_source_ref := lit "main";
     arg_source_root := lit "skills";
     arg_recursive := true;
     arg_allow_duplicate_ids := allow;
     arg_target_repo := lit "AAswordman/OperitSkillMarket";
     arg_labels := lit "skill-plugin";
     arg_limit := 0;
     arg_only_skill := [];
     arg_skip_existing := false;
     arg_dry_run := dry;
     arg_print_description := false;
     arg_print_body := false;
     arg_verbose := false;
     arg_github_tls12 := false;
     arg_github_insecure := false;
     arg_title_suffix := [];
     arg_version := lit "v1" |}.


(* ================================================================= *)
(** * Vocabulary of the further properties *)
(* ================================================================= *)

(** White space occurs in [s] only as single U+0020 characters, each
    between two other characters: [prev_space] tells whether the character
    before [s] is white space (or [s] starts the text). *)
Fixpoint spaced_from (prev_space : bool) (s : str) : bool :=
  match s with
  | [] => negb prev_space
  | c :: r =>
      if is_space c then ((c =? 32)%N && negb prev_space && spaced_from true r)%bool
      else spaced_from false r
  end.

(** A text without white space at its ends, in which every run of white
    space is one U+0020; the empty text is one. *)
Definition evenly_spaced (s : str) : bool :=
  match s with
  | [] => true
  | _ :: _ => spaced_from true s
  end.

(** The request [_openai_chat_completion] sends for a summary, the user
    prompt being [user_prompt]. *)
Definition summary_request (ai_base_url ai_api_key ai_model : str)
    (ai_temperature : json) (user_prompt : str) : Request :=
  {| rq_url := rstrip_chars (lit "/") ai_base_url ++ lit "/v1/chat/completions";
     rq_method := lit "POST";
     rq_headers := [ (lit "Content-Type", lit "application/json");
                     (lit "Authorization", lit "Bearer " ++ ai_api_key) ];
     rq_data :=
       Some (JObj [ (lit "model", JStr ai_model);
                    (lit "temperature", ai_temperature);
                    (lit "messages",
                     JArr [ JObj [(lit "role", JStr (lit "system"));
                                  (lit "content", JStr system_prompt)];
                            JObj [(lit "role", JStr (lit "user"));
                                  (lit "content", JStr user_prompt)] ]) ]);
     rq_timeout := 120;
     rq_context := None |}.

(** The request [_create_issue] sends. *)
Definition create_request (I : Interp) (r : Run) (owner name title body : str)
    (labels : list str) : Request :=
  github_request I
    (rstrip_chars (lit "/") (github_api_base r)
     ++ lit "/repos/" ++ quote I owner ++ lit "/" ++ quote I name ++ lit "/issues")
    (lit "POST") (github_token r) (github_ctx r)
    (Some (JObj [ (lit "title", JStr title);
                  (lit "body", JStr body);
                  (lit "labels", JArr (map JStr labels)) ]))
    None 120.

(** The request of the contents listing of [path]. *)
Definition contents_request (I : Interp) (api_base owner name path ref token : str)
    (ctx : SSLContext) : Request :=
  github_request I (contents_url I api_base owner name path ref) (lit "GET")
    token ctx None None default_timeout_s.

(** The request that resolves [ref] to its commit. *)
Definition commit_request (I : Interp) (api_base owner name ref token : str)
    (ctx : SSLContext) : Request :=
  github_request I
    (rstrip_chars (lit "/") api_base
     ++ lit "/repos/" ++ quote I owner ++ lit "/" ++ quote I name
     ++ lit "/commits/" ++ quote I ref)
    (lit "GET") token ctx None None default_timeout_s.

(** The document names no commit object. *)
Definition names_no_commit (v : json) : Prop :=
  match v with
  | JObj d => match py_get (lit "commit") d with
              | JObj _ => False
              | _ => True
              end
  | _ => True
  end.

(** The request of the recursive tree listing of [tree_sha]. *)
Definition tree_request (I : Interp) (api_base owner name tree_sha token : str)
    (ctx : SSLContext) : Request :=
  github_request I
    (rstrip_chars (lit "/") api_base
     ++ lit "/repos/" ++ quote I owner ++ lit "/" ++ quote I name
     ++ lit "/git/trees/" ++ quote I tree_sha ++ lit "?recursive=1")
    (lit "GET") token ctx None None 120.

(** The prefix that the paths of a recursive scan must have: the root
    path without white space and slashes at its ends, followed by a slash;
    empty for the root of the repository. *)
Definition root_prefix_of (root_path : str) : str :=
  let root := strip_chars (lit "/") (strip root_path) in
  let root := if (str_eqb root (lit ".") || str_eqb root (lit "./"))%bool
              then [] else root in
  if is_empty root then [] else root ++ lit "/".

(** The tree entry [it] is the blob [dir/SKILL.md], with [dir] not empty
    and the path under [root_prefix]. *)
Definition marks_skill_dir (I : Interp) (root_prefix dir : str) (it : json) : Prop :=
  exists d,
    it = JObj d
    /\ py_str I (py_or I (py_get (lit "type") d) (JStr [])) = lit "blob"
    /\ py_str I (py_or I (py_get (lit "path") d) (JStr [])) = dir ++ skill_md_suffix
    /\ dir <> []
    /\ (root_prefix = [] \/ startswith (dir ++ skill_md_suffix) root_prefix = true).

(** The entry of a contents listing is a folder. *)
Definition is_dir_entry (it : json) : Prop :=
  exists d, it = JObj d /\ py_get (lit "type") d = JStr (lit "dir").

(** The line printed after the loop. *)
Definition done_line (c : Counts) : str :=
  lit "Done. created=" ++ dec_of_nat (created c)
  ++ lit " skipped=" ++ dec_of_nat (skipped c)
  ++ lit " failed=" ++ dec_of_nat (failed c).

(** The line printed when [--only-skill] names no folder. *)
Definition no_such_skill_line (args : Args) : str :=
  lit "No such skill folder under " ++ arg_source_repo args ++ lit "/"
  ++ arg_source_root args ++ lit "@" ++ arg_source_ref args
  ++ lit ": " ++ strip (arg_only_skill args).

(** The default command line with [--only-skill] and [--limit]. *)
Definition only_limit_args (only : str) (n : Z) : Args :=
  {| arg_source_repo := lit "anthropics/skills";
     arg_source_ref := lit "main";
     arg_source_root := lit "skills";
     arg_recursive := false;
     arg_allow_duplicate_ids := true;
     arg_target_repo := lit "AAswordman/OperitSkillMarket";
     arg_labels := lit " skill-plugin ,, imported";
     arg_limit := n;
     arg_only_skill := only;
     arg_skip_existing := false;
     arg_dry_run := true;
     arg_print_description := false;
     arg_print_body := false;
     arg_verbose := false;
     arg_github_tls12 := false;
     arg_github_insecure := false;
     arg_title_suffix := [];
     arg_version := lit "v1" |}.

(** Whatever the world, [c] adds to the log only events that satisfy [P],
    and a value it returns satisfies [Q]. *)
Definition run_adds {A : Type} (P : Event -> Prop) (Q : A -> Prop) (c : M A) : Prop :=
  forall w,
    exists evs,
      log (snd (c w)) = rev evs ++ log w
      /\ Forall P evs
      /\ forall a, fst (c w) = Ok a -> Q a.

(** An event that creates nothing on GitHub: no request at all, a GET
    request, or the request of a summary, sent to [chat_url]. *)
Definition creates_nothing (chat_url : str) (e : Event) : Prop :=
  match e with
  | EvRequest r => rq_method r = lit "GET" \/ rq_url r = chat_url
  | _ => True
  end.

(** The address the summaries are asked from. *)
Definition chat_url_of (ai_base_url : str) : str :=
  rstrip_chars (lit "/") ai_base_url ++ lit "/v1/chat/completions".

(** A character that [_load_env] removes at the ends of a value: white
    space or a quote. *)
Definition is_edge (c : N) : bool := (is_space c || (c =? 34)%N || (c =? 39)%N)%bool.

(** A text whose first and last characters, if any, are kept by
    [_load_env]. *)
Definition bare_ends (s : str) : bool :=
  match s with
  | [] => true
  | c :: _ => (negb (is_edge c) && negb (is_edge (last s 0%N)))%bool
  end.

(** A name as [_load_env] takes it: not empty, without white space, ['=']
    or NUL, and not starting a comment. *)
Definition plain_name (k : str) : bool :=
  (negb (is_empty k)
   && forallb (fun c => negb (is_space c || (c =? 61)%N || (c =? 0)%N)) k
   && negb (startswith k (lit "#")))%bool.

(** A value that fits on a line: no line break, no NUL, and ends that are
    kept. *)
Definition plain_value (v : str) : bool :=
  (forallb (fun c => negb (is_linebreak c || (c =? 0)%N)) v && bare_ends v)%bool.

(** The quotes a value may be written in: none, double or single. *)
Definition is_quoting (q : str) : Prop := q = [] \/ q = [34%N] \/ q = [39%N].

(** White space that does not end a line. *)
Definition is_blank (pad : str) : bool :=
  forallb (fun c => is_space c && negb (is_linebreak c))%bool pad.

(** The owner or the name of a repository: not empty, without ['/'] and
    without white space. *)
Definition repo_segment (s : str) : bool :=
  (negb (is_empty s) && forallb (fun c => negb ((c =? 47)%N || is_space c)) s)%bool.

(** The three ways a GitHub remote starts. *)
Definition ssh_prefix : str := lit "git@github.com:".
Definition https_prefix : str := lit "https://github.com/".
Definition http_prefix : str := lit "http://github.com/".

(** The usual URLs of the repository [owner/name]: over SSH, with or
    without [.git]; over HTTPS or HTTP, with or without [.git] and a final
    slash. *)
Definition remote_forms (owner name : str) : list str :=
  map (fun tail => ssh_prefix ++ owner ++ lit "/" ++ name ++ tail)
      [ []; lit ".git" ]
  ++ map (fun tail => https_prefix ++ owner ++ lit "/" ++ name ++ tail)
         [ []; lit ".git"; lit "/"; lit ".git/" ]
  ++ map (fun tail => http_prefix ++ owner ++ lit "/" ++ name ++ tail)
         [ []; lit ".git"; lit "/"; lit ".git/" ].

(** A text without a line feed. *)
Definition one_line (s : str) : Prop := ~ In chr_newline s.

(** An issue whose fields other than the title hold no line feed. *)
Definition one_line_issue (it : List_issues.IssueItem) : Prop :=
  one_line (List_issues.html_url it) /\ one_line (List_issues.state it)
  /\ one_line (List_issues.updated_at it)
  /\ Forall one_line (List_issues.labels it)
  /\ Forall one_line (List_issues.assignees it).

(** A value that [int(v or 0)] accepts without consulting the text of a
    string or a float: absent, null or an integer. *)
Definition int_or_absent (v : json) : Prop :=
  v = JNull \/ exists z, v = JInt z.

(** A value that is absent, null or a list. *)
Definition list_or_absent (v : json) : Prop :=
  v = JNull \/ exists l, v = JArr l.

(** The integer read from a value that is absent, null or an integer. *)
Definition int_or_zero (v : json) : Z :=
  match v with JInt z => z | _ => 0%Z end.

(** The texts of [field] in the objects of a list; nothing for a value that
    is absent or null. *)
Definition names_of (I : Interp) (field : str) (v : json) : list str :=
  match v with
  | JArr l => flat_map (fun x => match x with
                                 | JObj d => [py_str I (py_get field d)]
                                 | _ => []
                                 end) l
  | _ => []
  end.

(** What may follow an entry of a link header: nothing, or a comma and
    further entries. *)
Definition ends_entry (rest : str) : Prop :=
  match rest with
  | [] => True
  | c :: _ => c = chr_comma
  end.

(** A text that holds neither [rel="next"] nor [rel=next]. *)
Definition names_no_next (s : str) : Prop :=
  contains rel_next_quoted s = false /\ contains rel_next_bare s = false.

(** ** The run with [--skip-existing] *)

(** The events of lines 672-674: two lines when verbose. *)
Definition announce_events (args : Args) : list Event :=
  if arg_verbose args then
    [ EvPrint (lit "[info] target repo: " ++ arg_target_repo args);
      EvPrint (lit "[info] labels: "
               ++ (if is_empty (join (lit ",") (labels_of args)) then lit "(none)"
                   else join (lit ",") (labels_of args))) ]
  else [].

(** The requests that list the issues of the target repository, page after
    page: state [all], no label filter. *)
Definition fetch_events (I : Interp) (args : Args) (environ : Environ)
    (owner name : str) (pages : list Answer) : list Event :=
  map (fun u => EvRequest
                  (github_request I u (lit "GET") (env_github_token environ)
                     (_build_ssl_context (arg_github_tls12 args)
                                         (arg_github_insecure args))
                     None None default_timeout_s))
      (page_urls I (issues_url I (env_github_api_base environ) owner name
                      (lit "all") [])
                 pages).

(** The local variables of [main] once the issues [issues] of the target
    repository have been listed. *)
Definition run_with (I : Interp) (args : Args) (environ : Environ)
    (issues : list json) : Run :=
  {| run_args := args;
     github_token := env_github_token environ;
     github_api_base := env_github_api_base environ;
     ai_base_url := env_ai_base_url environ;
     ai_api_key := env_ai_api_key environ;
     ai_model := env_ai_model environ;
     ai_temperature := env_ai_temperature I environ;
     github_ctx := _build_ssl_context (arg_github_tls12 args)
                                      (arg_github_insecure args);
     labels := labels_of args;
     existing_repo_urls := set_of (existing_urls_of I issues) |}.

(** The item already has an issue: its repository URL is among those of
    the run. *)
Definition is_known (r : Run) (skill : SourceSkill) : bool :=
  str_mem (repo_url_of (run_args r) skill) (existing_repo_urls r).

(** What is printed for an item that is skipped: the progress line when
    verbose, then the skip line. *)
Definition skip_events (r : Run) (idx total : nat) (skill : SourceSkill)
  : list Event :=
  progress_events (run_args r) idx total skill
  ++ [EvPrint (lit "[skip] " ++ name skill ++ lit " already exists: "
               ++ repo_url_of (run_args r) skill)].

Unset Implicit Arguments.

(* ================================================================= *)
(** * The retrying HTTP client *)
(* ================================================================= *)

Section HttpClient.
Variable I : Interp.

Lemma trace_logged (evs : list Event) (rest : list Outcome) (w : World) :
  trace (logged evs rest w) = trace w ++ evs.
Proof.
  unfold trace, logged; simpl. now rewrite rev_app_distr, rev_involutive.
Qed.

Lemma script_logged (evs : list Event) (rest : list Outcome) (w : World) :
  script (logged evs rest w) = rest.
Proof. reflexivity. Qed.

Lemma logged_logged (e1 e2 : list Event) (r1 r2 : list Outcome) (w : World) :
  logged e2 r2 (logged e1 r1 w) = logged (e1 ++ e2) r2 w.
Proof.
  unfold logged; simpl. now rewrite rev_app_distr, app_assoc.
Qed.

(** One call of [urlopen] on a script that is not used up. *)
Lemma urlopen_next (req : Request) (o : Outcome) (rest : list Outcome) (w : World) :
  script w = o :: rest ->
  urlopen req w = (Ok o, logged [EvRequest req] rest w).
Proof. intros H. unfold urlopen, logged. now rewrite H. Qed.

Lemma urlopen_refused (req : Request) (w : World) :
  script w = [] ->
  urlopen req w = (Ok refused, logged [EvRequest req] [] w).
Proof. intros H. unfold urlopen, logged. now rewrite H. Qed.

Lemma backoff_sleeps (attempt : nat) (w : World) :
  (attempt < 1024)%nat ->
  backoff attempt w = (Ok tt, logged [EvSleep (2 ^ Z.of_nat attempt)] (script w) w).
Proof.
  intros H. unfold backoff.
  destruct (Nat.leb_spec 1024 attempt) as [Hle|_]; [lia|reflexivity].
Qed.

(** A 2xx answer ends the loop: the decoded body and the lower-cased
    headers are returned. *)
Lemma http_attempts_success req retries remaining attempt last_error a v rest w :
  script w = Answered a :: rest ->
  is_success (status a) = true ->
  body_value a = Some v ->
  http_attempts I req retries (S remaining) attempt last_error w
  = (Ok (v, lower_keys I (headers a)), logged [EvRequest req] rest w).
Proof.
  intros Hs Hok Hv. simpl. unfold bind at 1.
  rewrite (urlopen_next req _ _ _ Hs), Hok.
  unfold body_value in Hv. unfold _decode_output.
  destruct (is_empty (strip (text a))).
  - now inversion Hv.
  - now rewrite Hv.
Qed.

(** A retryable error answer, with attempts left, sleeps [2^attempt]
    seconds and goes on with the next attempt. *)
Lemma http_attempts_retry req retries remaining attempt last_error a rest w :
  script w = Answered a :: rest ->
  is_success (status a) = false ->
  retryable (status a) = true ->
  (Z.of_nat attempt + 1 < retries)%Z ->
  (attempt < 1024)%nat ->
  http_attempts I req retries (S remaining) attempt last_error w
  = http_attempts I req retries remaining (S attempt) last_error
      (logged [EvRequest req; EvSleep (2 ^ Z.of_nat attempt)] rest w).
Proof.
  intros Hs Hok Hr Hlt Hat. simpl. unfold bind at 1.
  rewrite (urlopen_next req _ _ _ Hs), Hok, Hr.
  destruct (Z.ltb_spec (Z.of_nat attempt + 1) retries) as [_|Hge]; [|lia].
  simpl. unfold bind at 1. rewrite (backoff_sleeps _ _ Hat).
  now rewrite logged_logged.
Qed.

(** An error answer that is not retried is raised at once, with its code,
    reason and body. *)
Lemma http_attempts_raise req retries remaining attempt last_error a rest w :
  script w = Answered a :: rest ->
  is_success (status a) = false ->
  (retryable (status a) && (Z.of_nat attempt + 1 <? retries)%Z)%bool = false ->
  http_attempts I req retries (S remaining) attempt last_error w
  = (Raise (api_error a (error_body a)), logged [EvRequest req] rest w).
Proof.
  intros Hs Hok Hr. simpl. unfold bind at 1.
  rewrite (urlopen_next req _ _ _ Hs), Hok, Hr. reflexivity.
Qed.


(** A network failure with attempts left is retried after the same
    back-off; its [repr] becomes [last_error]. *)
Lemma http_attempts_retry_net req retries remaining attempt last_error e e_repr rest w :
  script w = NetFail e e_repr :: rest ->
  (Z.of_nat attempt + 1 < retries)%Z ->
  (attempt < 1024)%nat ->
  http_attempts I req retries (S remaining) attempt last_error w
  = http_attempts I req retries remaining (S attempt) (Some e_repr)
      (logged [EvRequest req; EvSleep (2 ^ Z.of_nat attempt)] rest w).
Proof.
  intros Hs Hlt Hat. simpl. unfold bind at 1.
  rewrite (urlopen_next req _ _ _ Hs).
  destruct (Z.ltb_spec (Z.of_nat attempt + 1) retries) as [_|Hge]; [|lia].
  simpl. unfold bind at 1. rewrite (backoff_sleeps _ _ Hat).
  now rewrite logged_logged.
Qed.

Lemma status_503_retried (a : Answer) :
  status a = 503%Z -> is_success (status a) = false /\ retryable (status a) = true.
Proof. intros ->. split; reflexivity. Qed.

(** C1.  When the first three attempts are answered 503 and the fourth is
    answered 200 with a body that decodes to [v], [_http_json] with the
    default budget of 5 returns [v] with the headers of the fourth answer;
    it has sent the request four times and slept 1, 2 and 4 seconds in
    between: each delay is twice the previous one. *)
Theorem http_json_retries_503_then_200 :
  forall url method token ctx payload extra timeout_s a1 a2 a3 a4 v rest w,
    status a1 = 503%Z -> status a2 = 503%Z -> status a3 = 503%Z ->
    status a4 = 200%Z ->
    body_value a4 = Some v ->
    script w = [Answered a1; Answered a2; Answered a3; Answered a4] ++ rest ->
    let req := github_request I url method token ctx payload extra timeout_s in
    let w' := logged [EvRequest req; EvSleep 1; EvRequest req; EvSleep 2;
                      EvRequest req; EvSleep 4; EvRequest req] rest w in
    _http_json I url method token ctx payload extra timeout_s default_retries w
    = (Ok (v, lower_keys I (headers a4)), w')
    /\ sleeps_of (trace w') = sleeps_of (trace w) ++ [1; 2; 4]%Z
    /\ doubling [1; 2; 4]%Z.
Proof.
  intros url method token ctx payload extra timeout_s a1 a2 a3 a4 v rest w
         H1 H2 H3 H4 Hv Hs req w'.
  destruct (status_503_retried _ H1) as [N1 R1].
  destruct (status_503_retried _ H2) as [N2 R2].
  destruct (status_503_retried _ H3) as [N3 R3].
  split; [|split].
  - unfold _http_json. fold req.
    change (Z.to_nat default_retries) with 5%nat.
    rewrite (http_attempts_retry req default_retries 4 0 None a1 _ w Hs N1 R1);
      [|reflexivity|lia].
    rewrite (http_attempts_retry req default_retries 3 1 None a2
               ([Answered a3; Answered a4] ++ rest) _ (script_logged _ _ _) N2 R2);
      [|reflexivity|lia].
    rewrite (http_attempts_retry req default_retries 2 2 None a3
               ([Answered a4] ++ rest) _ (script_logged _ _ _) N3 R3);
      [|reflexivity|lia].
    rewrite (http_attempts_success req default_retries 1 3 None a4 v rest _ (script_logged _ _ _));
      [|now rewrite H4|exact Hv].
    now rewrite !logged_logged.
  - unfold w'. rewrite trace_logged. unfold sleeps_of.
    now rewrite flat_map_app.
  - simpl. lia.
Qed.


Lemma error_body_plain (a : Answer) :
  retryable (status a) = false -> error_body a = text a.
Proof.
  intros H. unfold error_body, _decode_output.
  destruct (Z.eqb_spec (status a) 403) as [E|_]; [|reflexivity].
  rewrite E in H. discriminate.
Qed.

Lemma error_body_hint (a : Answer) :
  status a = 403%Z -> contains pat_marker (text a) = true ->
  error_body a = text a ++ pat_hint.
Proof.
  intros E C. unfold error_body, _decode_output. now rewrite E, C.
Qed.

(** When every answer of the budget is a retryable error, all attempts
    are made, with the back-off between them, and the last error is
    raised. *)
Lemma http_attempts_exhausted req retries :
  forall answers attempt last_error rest w,
    answers <> [] ->
    Forall (fun a => is_success (status a) = false /\ retryable (status a) = true)
           answers ->
    Z.of_nat (attempt + length answers) = retries ->
    (attempt + length answers <= 1024)%nat ->
    script w = map Answered answers ++ rest ->
    http_attempts I req retries (length answers) attempt last_error w
    = (Raise (api_error (last answers (answer 0 [] [])) (error_body (last answers (answer 0 [] [])))),
       logged (retry_events req attempt (length answers)) rest w).
Proof.
  induction answers as [|a answers IH]; intros attempt last_error rest w Hne Hall Hn Hb Hs.
  - congruence.
  - apply Forall_cons_iff in Hall. destruct Hall as [[Ha Hr] Hall'].
    destruct answers as [|a' answers'].
    + change (length [a]) with 1%nat. simpl in Hs, Hn, Hb.
      rewrite (http_attempts_raise req _ 0 attempt last_error a rest w Hs Ha).
      * reflexivity.
      * rewrite Hr. simpl. apply Z.ltb_ge. lia.
    + change (length (a :: a' :: answers')) with (S (length (a' :: answers'))).
      rewrite (http_attempts_retry req _ _ attempt last_error a
                 (map Answered (a' :: answers') ++ rest) w Hs Ha Hr).
      * rewrite (IH (S attempt) last_error rest).
        -- rewrite logged_logged. reflexivity.
        -- discriminate.
        -- exact Hall'.
        -- simpl in *. lia.
        -- simpl in *. lia.
        -- apply script_logged.
      * simpl in *. lia.
      * simpl in *. lia.
Qed.

(** C4, as amended.  (a) An error answer whose status is outside
    (403, 429, 500, 502, 503, 504) makes [_http_json] fail at once: one
    request, no sleep, and a [RuntimeError] whose text carries the status
    code, the reason phrase and the body.  (b) Status 403 is in the
    retryable set: when all the attempts of the budget are answered 403
    with the personal-access-token text in the body, every attempt is made
    with the back-off in between, and the error raised at the end has the
    permission hint appended to the body of the last answer. *)
Theorem http_json_error_answers :
  forall url method token ctx payload extra timeout_s retries rest w,
    let req := github_request I url method token ctx payload extra timeout_s in
    (forall a,
        (0 < retries)%Z ->
        is_success (status a) = false ->
        retryable (status a) = false ->
        script w = Answered a :: rest ->
        _http_json I url method token ctx payload extra timeout_s retries w
        = (Raise (RuntimeError (lit "GitHub API error: HTTP " ++ dec_of_Z (status a)
                                ++ lit " " ++ reason a ++ nl ++ text a)),
           logged [EvRequest req] rest w))
    /\
    (forall answers,
        (0 < retries <= 1024)%Z ->
        length answers = Z.to_nat retries ->
        Forall (fun a => status a = 403%Z /\ contains pat_marker (text a) = true)
               answers ->
        script w = map Answered answers ++ rest ->
        let a := last answers (answer 0 [] []) in
        _http_json I url method token ctx payload extra timeout_s retries w
        = (Raise (RuntimeError (lit "GitHub API error: HTTP " ++ dec_of_Z (status a)
                                ++ lit " " ++ reason a ++ nl ++ text a ++ pat_hint)),
           logged (retry_events req 0 (length answers)) rest w)).
Proof.
  intros url method token ctx payload extra timeout_s retries rest w req. split.
  - intros a Hpos Hok Hr Hs. unfold _http_json. fold req.
    destruct (Z.to_nat retries) as [|n] eqn:En; [lia|].
    rewrite (http_attempts_raise req retries n 0 None a rest w Hs Hok).
    + now rewrite (error_body_plain a Hr).
    + now rewrite Hr.
  - intros answers Hpos Hlen Hall Hs a. unfold _http_json. fold req.
    rewrite <- Hlen.
    assert (Hne : answers <> []) by (intros ->; simpl in Hlen; lia).
    rewrite (http_attempts_exhausted req retries answers 0 None rest w Hne).
    + assert (Hlast : status a = 403%Z /\ contains pat_marker (text a) = true).
      { unfold a. rewrite Forall_forall in Hall. apply Hall.
        destruct (exists_last Hne) as [l [x ->]].
        rewrite last_last. apply in_or_app. right. now left. }
      destruct Hlast as [E C]. fold a.
      now rewrite (error_body_hint a E C).
    + eapply Forall_impl; [|exact Hall]. intros x [E _]. now rewrite E.
    + simpl. lia.
    + simpl. lia.
    + exact Hs.
Qed.

End HttpClient.

(** A run of C1 on concrete answers. *)
Lemma http_json_retries_503_then_200_witness :
  let busy := answer 503 (lit "Service Unavailable") (lit "busy") in
  let ok := answer 200 (lit "OK") (qlit "{'n': 1}") in
  let w := world_of [Answered busy; Answered busy; Answered busy; Answered ok] in
  let ctx := _build_ssl_context false false in
  let req := github_request ascii_interp (lit "https://api.github.com/x") (lit "GET")
               (lit "t") ctx None None 60 in
  let w' := logged [EvRequest req; EvSleep 1; EvRequest req; EvSleep 2;
                    EvRequest req; EvSleep 4; EvRequest req] [] w in
  _http_json ascii_interp (lit "https://api.github.com/x") (lit "GET") (lit "t")
             ctx None None 60 default_retries w
  = (Ok (JObj [(lit "n", JInt 1)], []), w')
  /\ sleeps_of (trace w') = sleeps_of (trace w) ++ [1; 2; 4]%Z
  /\ doubling [1; 2; 4]%Z.
Proof.
  intros busy ok w ctx req w'.
  exact (http_json_retries_503_then_200 ascii_interp
           (lit "https://api.github.com/x") (lit "GET") (lit "t") ctx None None 60
           busy busy busy ok (JObj [(lit "n", JInt 1)]) [] w
           eq_refl eq_refl eq_refl eq_refl eq_refl eq_refl).
Defined.

(** C4 as stated fails: a 403 whose body names the personal access token
    is not an immediate failure.  Here the request is sent again after one
    second, and the call returns the second answer. *)
Lemma http_json_403_token_is_retried :
  let denied := answer 403 (lit "Forbidden")
                  (qlit "{'message':'Resource not accessible by personal access token'}") in
  let ok := answer 200 (lit "OK") (lit "[]") in
  let w := world_of [Answered denied; Answered ok] in
  let ctx := _build_ssl_context false false in
  let r := _http_json ascii_interp (lit "https://api.github.com/x") (lit "POST")
             (lit "t") ctx None None 60 default_retries w in
  status denied = 403%Z
  /\ contains pat_marker (text denied) = true
  /\ fst r = Ok (JArr [], [])
  /\ sleeps_of (trace (snd r)) = [1%Z]
  /\ length (requests_of (trace (snd r))) = 2%nat.
Proof.
  vm_compute. repeat split; reflexivity.
Qed.

(** Runs of C4 (amended) on concrete answers: a 404 is raised at once; five
    403 answers about the token use up the budget of 5. *)
Lemma http_json_error_answers_witness :
  let nf := answer 404 (lit "Not Found") (lit "{}") in
  let denied := answer 403 (lit "Forbidden")
                  (lit "Resource not accessible by personal access token") in
  let ctx := _build_ssl_context false false in
  let url := lit "https://api.github.com/x" in
  let req := github_request ascii_interp url (lit "GET") (lit "t") ctx None None 60 in
  let w1 := world_of [Answered nf] in
  let five := [denied; denied; denied; denied; denied] in
  let w2 := world_of (map Answered five) in
  _http_json ascii_interp url (lit "GET") (lit "t") ctx None None 60 5 w1
  = (Raise (RuntimeError (lit "GitHub API error: HTTP " ++ dec_of_Z 404
                          ++ lit " " ++ lit "Not Found" ++ nl ++ lit "{}")),
     logged [EvRequest req] [] w1)
  /\ (let a := last five (answer 0 [] []) in
      _http_json ascii_interp url (lit "GET") (lit "t") ctx None None 60 5 w2
      = (Raise (RuntimeError (lit "GitHub API error: HTTP " ++ dec_of_Z (status a)
                              ++ lit " " ++ reason a ++ nl ++ text a ++ pat_hint)),
         logged (retry_events req 0 (length five)) [] w2)).
Proof.
  intros nf denied ctx url req w1 five w2. split.
  - apply (proj1 (http_json_error_answers ascii_interp url (lit "GET") (lit "t")
                    ctx None None 60 5 [] w1) nf);
      [lia | reflexivity | reflexivity | reflexivity].
  - apply (proj2 (http_json_error_answers ascii_interp url (lit "GET") (lit "t")
                    ctx None None 60 5 [] w2) five);
      [lia | reflexivity | repeat constructor | reflexivity].
Defined.

(* ================================================================= *)
(** * Configuration checks of the importer *)
(* ================================================================= *)

Section Configuration.
Variable I : Interp.

Lemma print_logged (line : str) (w : World) :
  print line w = (Ok tt, logged [EvPrint line] (script w) w).
Proof. reflexivity. Qed.

Lemma print_then_ret {A : Type} (line : str) (a : A) (w : World) :
  (print line ;;; ret a) w = (Ok a, logged [EvPrint line] (script w) w).
Proof. reflexivity. Qed.

Lemma is_empty_true (s : str) : is_empty s = true <-> s = [].
Proof. destruct s; simpl; split; congruence. Qed.

Lemma is_empty_false (s : str) : is_empty s = false <-> s <> [].
Proof. destruct s; simpl; split; congruence. Qed.

(** C10.  Whatever the command line - dry run included - a missing
    [AI_BASE_URL] or [AI_API_KEY] makes [main] print one message and return
    2 with no request sent.  With the AI settings present, a missing
    [GITHUB_TOKEN] does the same unless the run is a dry run, in which case
    the run goes on exactly as [run_configured] with the empty token. *)
Theorem main_checks_configuration :
  forall args environ w,
    let ai_url := env_ai_base_url environ in
    let ai_key := env_ai_api_key environ in
    let token := env_github_token environ in
    ((ai_url = [] \/ ai_key = []) ->
     main I args environ w
     = (Ok 2%Z, logged [EvPrint missing_ai_message] (script w) w))
    /\
    (ai_url <> [] -> ai_key <> [] -> token = [] -> arg_dry_run args = false ->
     main I args environ w
     = (Ok 2%Z, logged [EvPrint missing_token_message] (script w) w))
    /\
    (ai_url <> [] -> ai_key <> [] -> token = [] -> arg_dry_run args = true ->
     main I args environ w
     = run_configured I args [] (env_github_api_base environ) ai_url ai_key
         (env_ai_model environ) (env_ai_temperature I environ) w).
Proof.
  intros args environ w ai_url ai_key token. unfold main.
  fold ai_url ai_key token. repeat split.
  - intros [H|H]; rewrite H; simpl; [|rewrite orb_true_r]; apply print_then_ret.
  - intros Hu Hk Ht Hd.
    apply is_empty_false in Hu, Hk. rewrite Hu, Hk, Ht, Hd. simpl.
    apply print_then_ret.
  - intros Hu Hk Ht Hd.
    apply is_empty_false in Hu, Hk. rewrite Hu, Hk, Ht, Hd. reflexivity.
Qed.

End Configuration.

(** C10 on a concrete run: a dry run with no AI settings. *)
Lemma main_checks_configuration_witness :
  let args := {| arg_source_repo := lit "anthropics/skills";
                 arg_source_ref := lit "main";
                 arg_source_root := lit "skills";
                 arg_recursive := false;
                 arg_allow_duplicate_ids := false;
                 arg_target_repo := lit "AAswordman/OperitSkillMarket";
                 arg_labels := lit "skill-plugin";
                 arg_limit := 0;
                 arg_only_skill := [];
                 arg_skip_existing := false;
                 arg_dry_run := true;
                 arg_print_description := false;
                 arg_print_body := false;
                 arg_verbose := false;
                 arg_github_tls12 := false;
                 arg_github_insecure := false;
                 arg_title_suffix := [];
                 arg_version := lit "v1" |} in
  let environ := [(lit "GITHUB_TOKEN", lit "t"); (lit "AI_BASE_URL", lit "  ")] in
  let w := world_of [] in
  main ascii_interp args environ w
  = (Ok 2%Z, logged [EvPrint missing_ai_message] (script w) w).
Proof.
  intros args environ w.
  apply (proj1 (main_checks_configuration ascii_interp args environ w)).
  left. reflexivity.
Defined.

(* ================================================================= *)
(** * The metadata extractor *)
(* ================================================================= *)

Section Extractor.
Variable I : Interp.

Lemma search_skill_json_nonempty (body raw : str) :
  search_skill_json body = Some raw -> body <> [].
Proof. intros H ->. discriminate. Qed.

Lemma extract_unfold (body raw : str) :
  search_skill_json body = Some raw ->
  _extract_skill_metadata_repo_url I body
  = match json_loads raw with
    | Some (JObj meta) =>
        strip (py_str I (py_or I (py_or I (py_get (lit "repositoryUrl") meta)
                                          (py_get (lit "repoUrl") meta))
                                 (JStr [])))
    | _ => []
    end.
Proof.
  intros H. unfold _extract_skill_metadata_repo_url.
  destruct body as [|c body']; [discriminate|].
  change (is_empty (c :: body')) with false. cbv iota.
  rewrite H. destruct (json_loads raw) as [[]|]; reflexivity.
Qed.

(** A key that is absent, or mapped to [null], [""], [0], [false], [[]]
    or [{}], does not yield a value. *)
Lemma absent_key_is_falsy (k : str) (meta : dict) :
  dict_get k meta = None -> truthy I (py_get k meta) = false.
Proof. intros H. unfold py_get. now rewrite H. Qed.

Lemma empty_value_is_falsy (k : str) (meta : dict) :
  dict_get k meta = Some (JStr []) -> truthy I (py_get k meta) = false.
Proof. intros H. unfold py_get. now rewrite H. Qed.

(** C9.  Let the body hold an [operit-skill-json] comment whose text is
    [raw].  If [raw] decodes to an object in which [repositoryUrl] yields
    no value (absent, or empty), the extractor returns the stripped text of
    [repoUrl]; if [repoUrl] yields no value either, it returns the empty
    string; and if [raw] is not well-formed JSON it returns the empty
    string too.  The extractor is a total function: it never raises. *)
Theorem extract_repo_url_falls_back :
  forall body raw,
    search_skill_json body = Some raw ->
    (forall meta,
        json_loads raw = Some (JObj meta) ->
        truthy I (py_get (lit "repositoryUrl") meta) = false ->
        (forall u, py_get (lit "repoUrl") meta = JStr u ->
                   _extract_skill_metadata_repo_url I body = strip u)
        /\ (truthy I (py_get (lit "repoUrl") meta) = false ->
            _extract_skill_metadata_repo_url I body = []))
    /\ (json_loads raw = None -> _extract_skill_metadata_repo_url I body = []).
Proof.
  intros body raw Hs. rewrite (extract_unfold body raw Hs). split.
  - intros meta Hm Hf. rewrite Hm. split.
    + intros u Hu. unfold py_or. rewrite Hf, Hu. simpl.
      destruct u; reflexivity.
    + intros Hf2. unfold py_or. rewrite Hf, Hf2. reflexivity.
  - intros Hn. now rewrite Hn.
Qed.

End Extractor.

(** C9 on concrete bodies: the legacy key alone, and a comment that is not
    JSON. *)
Lemma extract_repo_url_falls_back_witness :
  let body1 := qlit "<!-- operit-skill-json: {'repoUrl':' https://github.com/o/r ','version':'v1'} -->" in
  let raw1 := qlit "{'repoUrl':' https://github.com/o/r ','version':'v1'}" in
  let meta1 := [(lit "repoUrl", JStr (lit " https://github.com/o/r "));
                (lit "version", JStr (lit "v1"))] in
  let body2 := qlit "<!-- operit-skill-json: {'repoUrl': oops} -->" in
  let raw2 := qlit "{'repoUrl': oops}" in
  _extract_skill_metadata_repo_url ascii_interp body1
  = strip (lit " https://github.com/o/r ")
  /\ _extract_skill_metadata_repo_url ascii_interp body2 = [].
Proof.
  intros body1 raw1 meta1 body2 raw2. split.
  - assert (Hs : search_skill_json body1 = Some raw1) by (vm_compute; reflexivity).
    assert (Hm : json_loads raw1 = Some (JObj meta1)) by (vm_compute; reflexivity).
    assert (Hf : truthy ascii_interp (py_get (lit "repositoryUrl") meta1) = false)
      by (vm_compute; reflexivity).
    assert (Hu : py_get (lit "repoUrl") meta1 = JStr (lit " https://github.com/o/r "))
      by (vm_compute; reflexivity).
    exact (proj1 (proj1 (extract_repo_url_falls_back ascii_interp body1 raw1 Hs)
                    meta1 Hm Hf) _ Hu).
  - assert (Hs : search_skill_json body2 = Some raw2) by (vm_compute; reflexivity).
    assert (Hn : json_loads raw2 = None) by (vm_compute; reflexivity).
    exact (proj2 (extract_repo_url_falls_back ascii_interp body2 raw2 Hs) Hn).
Defined.

(* ================================================================= *)
(** * Strings as keys *)
(* ================================================================= *)

Lemma str_eqb_refl (a : str) : str_eqb a a = true.
Proof. induction a as [|x a IH]; simpl; [reflexivity|]. now rewrite N.eqb_refl. Qed.

Lemma str_eqb_eq (a b : str) : str_eqb a b = true <-> a = b.
Proof.
  split.
  - revert b. induction a as [|x a IH]; intros [|y b] H; simpl in H;
      try reflexivity; try discriminate.
    apply andb_true_iff in H. destruct H as [H1 H2].
    apply N.eqb_eq in H1. apply IH in H2. congruence.
  - intros ->. apply str_eqb_refl.
Qed.

Lemma str_eqb_neq (a b : str) : str_eqb a b = false <-> a <> b.
Proof.
  split.
  - intros H E. apply str_eqb_eq in E. congruence.
  - intros H. destruct (str_eqb a b) eqn:E; [|reflexivity].
    apply str_eqb_eq in E. contradiction.
Qed.

Lemma str_mem_In (x : str) (xs : list str) : str_mem x xs = true <-> In x xs.
Proof.
  unfold str_mem. rewrite existsb_exists. split.
  - intros [y [Hy E]]. apply str_eqb_eq in E. now subst.
  - intros H. exists x. split; [exact H|apply str_eqb_refl].
Qed.

Lemma set_of_In (x : str) (l : list str) : In x (set_of l) <-> In x l.
Proof.
  induction l as [|y l IH]; simpl; [tauto|].
  destruct (str_mem y l) eqn:E.
  - rewrite IH. split; [tauto|]. intros [<-|H]; [|exact H].
    now apply str_mem_In.
  - simpl. rewrite IH. tauto.
Qed.

(* ================================================================= *)
(** * Skipping the items that already have an issue *)
(* ================================================================= *)

Section SkipExisting.
Variable I : Interp.

(** The URLs collected from the existing issues are those the extractor
    finds in their bodies, the empty ones left out. *)
Lemma existing_urls_of_In (u : str) (issues : list json) :
  In u (existing_urls_of I issues) <->
  exists d, In (JObj d) issues
            /\ u = _extract_skill_metadata_repo_url I
                     (py_str I (py_or I (py_get (lit "body") d) (JStr [])))
            /\ u <> [].
Proof.
  unfold existing_urls_of. rewrite in_flat_map. split.
  - intros [it [Hin Hu]]. destruct it as [| | | | | |d]; try contradiction.
    destruct (_extract_skill_metadata_repo_url I _) as [|c r] eqn:E; simpl in Hu;
      [contradiction|].
    destruct Hu as [<-|[]]. exists d. rewrite E. repeat split; [exact Hin|discriminate].
  - intros [d [Hin [Hu Hne]]]. exists (JObj d). split; [exact Hin|].
    rewrite <- Hu. destruct u; [congruence|]. now left.
Qed.

(** The set [main] keeps holds the same URLs. *)
Lemma known_urls_In (u : str) (issues : list json) :
  In u (set_of (existing_urls_of I issues)) <->
  exists d, In (JObj d) issues
            /\ u = _extract_skill_metadata_repo_url I
                     (py_str I (py_or I (py_get (lit "body") d) (JStr [])))
            /\ u <> [].
Proof. rewrite set_of_In. apply existing_urls_of_In. Qed.

(** With [--skip-existing], an item whose URL is in the set is counted as
    skipped: the only events are the progress line (when verbose) and the
    skip line. *)
Lemma process_skill_known r idx total skill c w :
  arg_skip_existing (run_args r) = true ->
  In (repo_url_of (run_args r) skill) (existing_repo_urls r) ->
  process_skill I r idx total skill c w
  = (Ok (count_skipped c),
     logged (progress_events (run_args r) idx total skill
             ++ [EvPrint (lit "[skip] " ++ name skill ++ lit " already exists: "
                          ++ repo_url_of (run_args r) skill)])
            (script w) w).
Proof.
  intros Hs Hin.
  apply str_mem_In in Hin. unfold process_skill, progress_events.
  rewrite Hs, Hin. destruct (arg_verbose (run_args r)); reflexivity.
Qed.

(** An item whose URL is not in the set is processed as it is without the
    flag. *)
Lemma process_skill_unknown r idx total skill c w :
  ~ In (repo_url_of (run_args r) skill) (existing_repo_urls r) ->
  process_skill I r idx total skill c w
  = process_skill I (run_without_skip_existing r) idx total skill c w.
Proof.
  intros Hnot.
  assert (Hm : str_mem (repo_url_of (run_args r) skill) (existing_repo_urls r) = false).
  { destruct (str_mem _ _) eqn:E; [|reflexivity].
    apply str_mem_In in E. contradiction. }
  unfold process_skill. simpl run_args. simpl existing_repo_urls.
  change (repo_url_of (without_skip_existing (run_args r)) skill)
    with (repo_url_of (run_args r) skill).
  rewrite Hm, andb_false_r. reflexivity.
Qed.

End SkipExisting.

(** A whole dry run with [--skip-existing]: the issues of the target are
    listed first; [pdf], whose URL is in an existing issue, is skipped
    without any request; [xlsx] is summarized. *)
Example skip_existing_run :
  let w := world_of [existing_issues; root_listing; folder_listing; raw_file; completion] in
  let r := main ascii_interp skip_dry_args example_environ w in
  fst r = Ok 0%Z
  /\ map rq_url (requests_of (trace (snd r)))
     = [ lit "https://api.github.com/repos/AAswordman/OperitSkillMarket/issues?state=all&per_page=100&sort=updated&direction=desc";
         lit "https://api.github.com/repos/anthropics/skills/contents/skills?ref=main";
         lit "https://api.github.com/repos/anthropics/skills/contents/skills/xlsx?ref=main";
         lit "https://raw.example/SKILL.md";
         lit "https://ai.example/v1/chat/completions" ]
  /\ prints_of (trace (snd r))
     = [ lit "[skip] pdf already exists: https://github.com/anthropics/skills/tree/main/skills/pdf";
         lit "[dry-run] create issue: xlsx | https://github.com/anthropics/skills/tree/main/skills/xlsx";
         lit "Done. created=1 skipped=1 failed=0" ].
Proof. vm_compute. repeat split; reflexivity. Qed.

(* ================================================================= *)
(** * Failures inside the main loop *)
(* ================================================================= *)

Section MainLoop.
Variable I : Interp.

Lemma when_logged (b : bool) (line : str) (w : World) :
  when b (print line) w
  = (Ok tt, if b then logged [EvPrint line] (script w) w else w).
Proof. destruct b; reflexivity. Qed.

(** An exception out of [_pick_skill_markdown] is not caught: it leaves
    [process_skill] as it is, nothing is printed or counted for the item. *)
Lemma process_skill_pick_raises r idx total skill c w e w1 :
  (arg_skip_existing (run_args r)
   && str_mem (repo_url_of (run_args r) skill) (existing_repo_urls r))%bool = false ->
  _pick_skill_markdown I (github_api_base r) (arg_source_repo (run_args r))
    (arg_source_ref (run_args r)) (path skill) (github_token r) (github_ctx r)
    (at_pick (run_args r) idx total skill w) = (Raise e, w1) ->
  process_skill I r idx total skill c w = (Raise e, w1).
Proof.
  intros Hskip Hpick. unfold process_skill. unfold bind at 1.
  rewrite when_logged. rewrite Hskip. unfold bind at 1.
  unfold at_pick in Hpick. rewrite Hpick. reflexivity.
Qed.

(** ... and it ends the loop: the items that follow are not processed. *)
Lemma main_loop_pick_raises r idx total skill rest c w e w1 :
  (arg_skip_existing (run_args r)
   && str_mem (repo_url_of (run_args r) skill) (existing_repo_urls r))%bool = false ->
  _pick_skill_markdown I (github_api_base r) (arg_source_repo (run_args r))
    (arg_source_ref (run_args r)) (path skill) (github_token r) (github_ctx r)
    (at_pick (run_args r) idx total skill w) = (Raise e, w1) ->
  main_loop I r idx total (skill :: rest) c w = (Raise e, w1).
Proof.
  intros Hskip Hpick. simpl. unfold bind at 1.
  now rewrite (process_skill_pick_raises r idx total skill c w e w1 Hskip Hpick).
Qed.

(** Once the content has been picked, nothing raised by the summary or by
    the creation of the issue leaves [process_skill]: the item is counted
    as created or as failed, and the loop goes on. *)
Lemma process_skill_after_pick r idx total skill c w md w1 :
  (arg_skip_existing (run_args r)
   && str_mem (repo_url_of (run_args r) skill) (existing_repo_urls r))%bool = false ->
  _pick_skill_markdown I (github_api_base r) (arg_source_repo (run_args r))
    (arg_source_ref (run_args r)) (path skill) (github_token r) (github_ctx r)
    (at_pick (run_args r) idx total skill w) = (Ok md, w1) ->
  exists c' w',
    process_skill I r idx total skill c w = (Ok c', w')
    /\ (c' = count_created c \/ c' = count_failed c).
Proof.
  intros Hskip Hpick. unfold process_skill. unfold bind at 1.
  rewrite when_logged. rewrite Hskip. unfold bind at 1.
  unfold at_pick in Hpick. rewrite Hpick. unfold bind at 1.
  rewrite when_logged. unfold try_except.
  match goal with
  | |- context [summarize_and_create I r skill ?u ?f ?m ?t c ?w0] =>
      destruct (summarize_and_create I r skill u f m t c w0) as [[c1|e1] w2] eqn:E
  end.
  - exists c1, w2. split; [reflexivity|]. left.
    revert E. unfold summarize_and_create, bind.
    repeat match goal with
           | |- context [match ?x with _ => _ end] => destruct x eqn:?
           end; intros E; try discriminate; inversion E; reflexivity.
  - eexists _, _. split; [reflexivity|]. now right.
Qed.

(** The status returned after the loop is 1 exactly when an item failed. *)
Lemma run_skills_status r skills w c w1 :
  main_loop I r 1 (length skills) skills {| created := 0; skipped := 0; failed := 0 |} w
  = (Ok c, w1) ->
  exists w2,
    run_skills I r skills w = (Ok (if (failed c =? 0)%nat then 0 else 1)%Z, w2)
    /\ ((if (failed c =? 0)%nat then 0 else 1)%Z = 1%Z <-> (0 < failed c)%nat).
Proof.
  intros H. unfold run_skills. unfold bind at 1. rewrite H.
  eexists. split; [reflexivity|].
  destruct (failed c); simpl; split; intros; try lia; discriminate.
Qed.

End MainLoop.

(** C3 fails on the code: an error while the content of an item is picked
    is not a per-item failure.  Here the listing of the folder of [pdf] is
    answered 404; the [RuntimeError] leaves [main], no line is printed (no
    [[fail]] line, no summary), and [xlsx] is never processed: only the
    two listings were requested and three answers are left unused. *)
Theorem pick_failure_aborts_the_run :
  let w := world_of [root_listing; not_found; folder_listing; raw_file; completion] in
  let r := main ascii_interp default_args example_environ w in
  fst r = Raise (RuntimeError (lit "GitHub API error: HTTP 404 Not Found" ++ nl
                               ++ qlit "{'message':'Not Found'}"))
  /\ prints_of (trace (snd r)) = []
  /\ map rq_url (requests_of (trace (snd r)))
     = [ lit "https://api.github.com/repos/anthropics/skills/contents/skills?ref=main";
         lit "https://api.github.com/repos/anthropics/skills/contents/skills/pdf?ref=main" ]
  /\ script (snd r) = [folder_listing; raw_file; completion].
Proof. vm_compute. repeat split; reflexivity. Qed.

(** The same 404 met by the summary request of [pdf] is a per-item failure:
    it is printed and counted, [xlsx] is processed, and the status is 1. *)
Example summary_failure_is_counted :
  let w := world_of [root_listing; folder_listing; raw_file; not_found;
                     folder_listing; raw_file; completion] in
  let r := main ascii_interp (without_skip_existing skip_dry_args) example_environ w in
  fst r = Ok 1%Z
  /\ prints_of (trace (snd r))
     = [ lit "[fail] pdf: AI request failed: HTTP 404 Not Found" ++ nl
           ++ qlit "{'message':'Not Found'}";
         lit "[dry-run] create issue: xlsx | https://github.com/anthropics/skills/tree/main/skills/xlsx";
         lit "Done. created=1 skipped=0 failed=1" ].
Proof. vm_compute. repeat split; reflexivity. Qed.

(* ================================================================= *)
(** * Pagination *)
(* ================================================================= *)

Section Pagination.
Variable I : Interp.

Lemma is_empty_app_r (a b : str) : is_empty b = false -> is_empty (a ++ b) = false.
Proof. destruct a; simpl; [tauto|reflexivity]. Qed.

Lemma issues_url_nonempty api owner name state labels :
  is_empty (issues_url I api owner name state labels) = false.
Proof. unfold issues_url. apply is_empty_app_r. reflexivity. Qed.

Lemma iter_pages_done fuel token ctx out w :
  iter_pages I fuel token ctx [] out w = (Ok out, w).
Proof. destruct fuel; reflexivity. Qed.

(** One successful page of the importer's listing. *)
Lemma http_json_page url token ctx a v rest w :
  script w = Answered a :: rest ->
  is_success (status a) = true ->
  body_value a = Some v ->
  _http_json I url (lit "GET") token ctx None None default_timeout_s default_retries w
  = (Ok (v, lower_keys I (headers a)),
     logged [EvRequest (github_request I url (lit "GET") token ctx None None
                          default_timeout_s)] rest w).
Proof.
  intros Hs Hok Hv. unfold _http_json.
  change (Z.to_nat default_retries) with 5%nat.
  now apply http_attempts_success.
Qed.

Lemma iter_pages_linked token ctx :
  forall pages items fuel url out rest w,
    is_empty url = false ->
    (length pages <= fuel)%nat ->
    Forall2 page_ok pages items ->
    linked_pages I pages ->
    script w = map Answered pages ++ rest ->
    iter_pages I fuel token ctx url out w
    = (Ok (out ++ flat_map without_pull_requests items),
       logged (map (fun u => EvRequest (github_request I u (lit "GET") token ctx
                                          None None default_timeout_s))
                   (page_urls I url pages)) rest w).
Proof.
  induction pages as [|a pages IH]; intros items fuel url out rest w Hu Hf Hok Hl Hs.
  - contradiction.
  - inversion Hok as [|? its ? items' [Ha Hv] Hok']; subst.
    destruct fuel as [|fuel]; [simpl in Hf; lia|].
    simpl iter_pages. rewrite Hu. unfold bind at 1.
    rewrite (http_json_page url token ctx a (JArr its) (map Answered pages ++ rest) w Hs Ha Hv).
    cbn [fst snd]. fold (page_next I a).
    destruct pages as [|b pages'].
    + inversion Hok'; subst. simpl in Hl. rewrite Hl.
      rewrite iter_pages_done. simpl. now rewrite app_nil_r.
    + destruct Hl as [Hn Hl].
      rewrite (IH items' fuel (page_next I a) (out ++ filter keep_issue its) rest).
      * rewrite logged_logged. simpl flat_map. unfold without_pull_requests at 2.
        now rewrite app_assoc.
      * now apply is_empty_false.
      * simpl in Hf |- *. lia.
      * exact Hok'.
      * exact Hl.
      * apply script_logged.
Qed.


(** ** The lister *)

Lemma lister_iter_pages_done fuel token out w :
  List_issues.iter_pages I fuel token [] out w = (Ok out, w).
Proof. destruct fuel; reflexivity. Qed.

Lemma request_json_page url token a items rest w :
  script w = Answered a :: rest ->
  is_success (status a) = true ->
  utf8 a = true ->
  json_loads (text a) = Some (JArr items) ->
  List_issues._request_json I url token w
  = (Ok (items, lower_keys I (headers a)),
     logged [EvRequest (List_issues.listing_request url token)] rest w).
Proof.
  intros Hs Hok Hu Hv. unfold List_issues._request_json. unfold bind at 1.
  rewrite (urlopen_next _ _ _ _ Hs), Hok, Hu, Hv. reflexivity.
Qed.

(** What the generator yields for a page: the items made from its objects
    that have no [pull_request] field, in order. *)
Lemma yield_page_items items :
  forall ys, List_issues.yield_page I items = Ok ys ->
             Forall2 (item_of I) (without_pull_requests items) ys.
Proof.
  induction items as [|it items IH]; intros ys H; simpl in H.
  - inversion H. constructor.
  - unfold without_pull_requests in *. simpl.
    destruct it as [| | | | | |d]; simpl; try (now apply IH).
    destruct (dict_has (lit "pull_request") d); simpl; [now apply IH|].
    destruct (List_issues.issue_item_of I d) as [y|e] eqn:Ey; [|discriminate].
    destruct (List_issues.yield_page I items) as [ys'|e]; [|discriminate].
    inversion H; subst. constructor; [|now apply IH].
    exists d. now split.
Qed.

Lemma lister_iter_pages_linked token :
  forall pages contents fuel url out rest w,
    is_empty url = false ->
    (length pages <= fuel)%nat ->
    Forall2 (lister_page_ok I) pages contents ->
    linked_pages I pages ->
    script w = map Answered pages ++ rest ->
    List_issues.iter_pages I fuel token url out w
    = (Ok (out ++ flat_map snd contents),
       logged (map (fun u => EvRequest (List_issues.listing_request u token))
                   (page_urls I url pages)) rest w).
Proof.
  induction pages as [|a pages IH]; intros contents fuel url out rest w Hu Hf Hok Hl Hs.
  - contradiction.
  - inversion Hok as [|? c ? contents' [Ha [H8 [Hv Hy]]] Hok']; subst.
    destruct fuel as [|fuel]; [simpl in Hf; lia|].
    simpl List_issues.iter_pages. rewrite Hu. unfold bind at 1.
    rewrite (request_json_page url token a (fst c) (map Answered pages ++ rest) w
               Hs Ha H8 Hv).
    cbn [fst snd]. unfold bind at 1. unfold lift. rewrite Hy.
    change (List_issues._parse_link_next
              (headers_get (lit "link") [] (lower_keys I (headers a))))
      with (page_next I a).
    destruct pages as [|b pages'].
    + inversion Hok'; subst. simpl in Hl. rewrite Hl.
      rewrite lister_iter_pages_done. simpl. now rewrite app_nil_r.
    + destruct Hl as [Hn Hl].
      rewrite (IH contents' fuel (page_next I a) (out ++ snd c) rest).
      * rewrite logged_logged. simpl flat_map. now rewrite app_assoc.
      * now apply is_empty_false.
      * simpl in Hf |- *. lia.
      * exact Hok'.
      * exact Hl.
      * apply script_logged.
Qed.

Lemma lister_issues_url_nonempty api owner name state :
  is_empty (List_issues.issues_url I api owner name state) = false.
Proof. unfold List_issues.issues_url. apply is_empty_app_r. reflexivity. Qed.

(** C2.  Let the answers to come be [N >= 1] pages chained by their next
    links.  The importer's [_iter_issues] returns the concatenation, in
    order, of the items of the pages that are objects without a
    [pull_request] field; it requests the [N] pages, one after the other,
    and nothing else, so the loop stops at the first page that names no
    next page.  The lister's [_iter_issues] requests the same pages and
    yields, in order, the [IssueItem] of each of those same items. *)
Theorem iter_issues_concatenates_pages :
  forall api repo owner name token pages rest w,
    split_repo repo = Ok (owner, name) ->
    linked_pages I pages ->
    script w = map Answered pages ++ rest ->
    (forall ctx state labels items,
        Forall2 page_ok pages items ->
        _iter_issues I api repo token ctx state labels w
        = (Ok (flat_map without_pull_requests items),
           logged (map (fun u => EvRequest (github_request I u (lit "GET") token ctx
                                              None None default_timeout_s))
                       (page_urls I (issues_url I api owner name state labels) pages))
                  rest w))
    /\
    (forall state contents,
        Forall2 (lister_page_ok I) pages contents ->
        List_issues._iter_issues I api repo token state w
        = (Ok (flat_map snd contents),
           logged (map (fun u => EvRequest (List_issues.listing_request u token))
                       (page_urls I (List_issues.issues_url I api owner name state) pages))
                  rest w)
        /\ Forall (fun c => Forall2 (item_of I) (without_pull_requests (fst c)) (snd c))
                  contents).
Proof.
  intros api repo owner name token pages rest w Hr Hl Hs.
  assert (Hlen : (length pages <= S (length (script w)))%nat).
  { rewrite Hs, length_app, length_map. lia. }
  split.
  - intros ctx state labels items Hok.
    unfold _iter_issues. unfold bind at 1. unfold lift. rewrite Hr. cbn [fst snd].
    apply (iter_pages_linked token ctx pages items _ _ [] rest w
             (issues_url_nonempty _ _ _ _ _) Hlen Hok Hl Hs).
  - intros state contents Hok. split.
    + unfold List_issues._iter_issues. unfold bind at 1. unfold lift. rewrite Hr.
      cbn [fst snd].
      apply (lister_iter_pages_linked token pages contents _ _ [] rest w
               (lister_issues_url_nonempty _ _ _ _) Hlen Hok Hl Hs).
    + clear - Hok. induction Hok as [|a c pages contents [_ [_ [_ Hy]]] _ IH];
        constructor; [|exact IH].
      now apply yield_page_items.
Qed.

End Pagination.

(** C2 on two concrete pages: the first one names the second one as next
    and holds a pull request, the second one names no next page. *)
Lemma iter_issues_concatenates_pages_witness :
  let page1 :=
    {| status := 200; reason := lit "OK";
       headers := [(lit "Link",
                    qlit "<https://api.github.com/repositories/1/issues?page=2>; rel='next', <https://api.github.com/repositories/1/issues?page=2>; rel='last'")];
       text := qlit "[{'number':1},{'number':2,'pull_request':{}}]";
       utf8 := true |} in
  let page2 :=
    {| status := 200; reason := lit "OK";
       headers := [(lit "Link",
                    qlit "<https://api.github.com/repositories/1/issues?page=1>; rel='first'")];
       text := qlit "[{'number':3}]";
       utf8 := true |} in
  let w := world_of [Answered page1; Answered page2] in
  let ctx := _build_ssl_context false false in
  let importer := _iter_issues ascii_interp default_api_base (lit "o/r") (lit "t")
                    ctx (lit "all") [] w in
  let lister := List_issues._iter_issues ascii_interp default_api_base (lit "o/r")
                  (lit "t") (lit "all") w in
  fst importer = Ok [JObj [(lit "number", JInt 1)]; JObj [(lit "number", JInt 3)]]
  /\ map rq_url (requests_of (trace (snd importer)))
     = [ lit "https://api.github.com/repos/o/r/issues?state=all&per_page=100&sort=updated&direction=desc";
         lit "https://api.github.com/repositories/1/issues?page=2" ]
  /\ match fst lister with
     | Ok ys => map List_issues.number ys = [1; 3]%Z
     | Raise _ => False
     end.
Proof.
  intros page1 page2 w ctx importer lister.
  assert (Hl : linked_pages ascii_interp [page1; page2]).
  { split; [vm_compute; discriminate | vm_compute; reflexivity]. }
  destruct (iter_issues_concatenates_pages ascii_interp default_api_base (lit "o/r")
              (lit "o") (lit "r") (lit "t") [page1; page2] [] w
              eq_refl Hl eq_refl) as [H1 H2].
  assert (Hp : Forall2 page_ok [page1; page2]
                 [ [JObj [(lit "number", JInt 1)];
                    JObj [(lit "number", JInt 2); (lit "pull_request", JObj [])]];
                   [JObj [(lit "number", JInt 3)]] ]).
  { repeat constructor; vm_compute; reflexivity. }
  specialize (H1 ctx (lit "all") [] _ Hp).
  destruct (List_issues.yield_page ascii_interp
              [JObj [(lit "number", JInt 1)];
               JObj [(lit "number", JInt 2); (lit "pull_request", JObj [])]])
    as [ys1|e1] eqn:E1; [|vm_compute in E1; discriminate].
  destruct (List_issues.yield_page ascii_interp [JObj [(lit "number", JInt 3)]])
    as [ys2|e2] eqn:E2; [|vm_compute in E2; discriminate].
  assert (Hq : Forall2 (lister_page_ok ascii_interp) [page1; page2]
                 [ ([JObj [(lit "number", JInt 1)];
                     JObj [(lit "number", JInt 2); (lit "pull_request", JObj [])]], ys1);
                   ([JObj [(lit "number", JInt 3)]], ys2) ]).
  { repeat constructor; try exact E1; try exact E2; vm_compute; reflexivity. }
  destruct (H2 (lit "all") _ Hq) as [H3 _].
  unfold importer, lister. rewrite H1, H3.
  split; [reflexivity|split].
  - cbn [snd]. rewrite trace_logged. vm_compute. reflexivity.
  - cbn [fst]. vm_compute in E1. vm_compute in E2.
    inversion E1; inversion E2; subst. reflexivity.
Defined.

(* ================================================================= *)
(** * The order of strings and the stable sort *)
(* ================================================================= *)

Lemma str_ltb_irrefl (a : str) : str_ltb a a = false.
Proof.
  induction a as [|x a IH]; simpl; [reflexivity|].
  now rewrite N.ltb_irrefl, N.eqb_refl, IH.
Qed.

Lemma str_ltb_trans (a b c : str) :
  str_ltb a b = true -> str_ltb b c = true -> str_ltb a c = true.
Proof.
  revert b c. induction a as [|x a IH]; intros [|y b] [|z c] H1 H2;
    simpl in *; try discriminate; try reflexivity.
  apply orb_true_iff in H1. apply orb_true_iff in H2. apply orb_true_iff.
  destruct H1 as [H1|H1]; destruct H2 as [H2|H2].
  - left. apply N.ltb_lt in H1, H2. apply N.ltb_lt. lia.
  - apply andb_true_iff in H2. destruct H2 as [E _]. apply N.eqb_eq in E. subst.
    now left.
  - apply andb_true_iff in H1. destruct H1 as [E _]. apply N.eqb_eq in E. subst.
    now left.
  - apply andb_true_iff in H1. apply andb_true_iff in H2.
    destruct H1 as [E1 L1]. destruct H2 as [E2 L2].
    apply N.eqb_eq in E1, E2. subst. right.
    rewrite N.eqb_refl. simpl. now apply (IH b c).
Qed.

(** Two strings are equal or one is below the other. *)
Lemma str_ltb_trichotomy (a b : str) :
  str_ltb a b = true \/ a = b \/ str_ltb b a = true.
Proof.
  revert b. induction a as [|x a IH]; intros [|y b]; simpl; auto.
  destruct (N.lt_trichotomy x y) as [L|[E|L]].
  - left. apply N.ltb_lt in L. now rewrite L.
  - subst. rewrite N.ltb_irrefl, N.eqb_refl. simpl.
    destruct (IH b) as [H|[H|H]]; [now left| right; left; congruence | now (right; right)].
  - right. right. apply N.ltb_lt in L. now rewrite L.
Qed.

Lemma str_ltb_asym (a b : str) : str_ltb a b = true -> str_ltb b a = false.
Proof.
  intros H. destruct (str_ltb b a) eqn:E; [|reflexivity].
  pose proof (str_ltb_trans a b a H E) as C. rewrite str_ltb_irrefl in C. discriminate.
Qed.

Lemma str_leb_refl (a : str) : str_leb a a = true.
Proof. unfold str_leb. now rewrite str_ltb_irrefl. Qed.

Lemma str_leb_total (a b : str) : str_leb a b = true \/ str_leb b a = true.
Proof.
  unfold str_leb. destruct (str_ltb_trichotomy a b) as [H|[H|H]].
  - left. now rewrite (str_ltb_asym a b H).
  - subst. left. now rewrite str_ltb_irrefl.
  - right. now rewrite (str_ltb_asym b a H).
Qed.

Lemma str_leb_trans (a b c : str) :
  str_leb a b = true -> str_leb b c = true -> str_leb a c = true.
Proof.
  unfold str_leb. intros H1 H2.
  apply negb_true_iff in H1, H2. apply negb_true_iff.
  destruct (str_ltb c a) eqn:E; [|reflexivity].
  destruct (str_ltb_trichotomy a b) as [H|[H|H]].
  - pose proof (str_ltb_trans c a b E H). congruence.
  - subst. congruence.
  - congruence.
Qed.

Lemma str_leb_antisym (a b : str) :
  str_leb a b = true -> str_leb b a = true -> a = b.
Proof.
  unfold str_leb. intros H1 H2. apply negb_true_iff in H1, H2.
  destruct (str_ltb_trichotomy a b) as [H|[H|H]]; congruence.
Qed.

Section StableSort.
Context {A : Type} (key : A -> str).

Lemma insert_by_perm (x : A) (l : list A) : Permutation (insert_by key x l) (x :: l).
Proof.
  induction l as [|y l IH]; simpl; [reflexivity|].
  destruct (str_leb (key x) (key y)); [reflexivity|].
  rewrite IH. apply perm_swap.
Qed.

Lemma sort_by_perm (l : list A) : Permutation (sort_by key l) l.
Proof.
  induction l as [|x l IH]; simpl; [reflexivity|].
  rewrite insert_by_perm. now constructor.
Qed.

Lemma insert_by_sorted (x : A) (l : list A) :
  StronglySorted (key_le key) l -> StronglySorted (key_le key) (insert_by key x l).
Proof.
  induction l as [|y l IH]; intros Hs; simpl.
  - repeat constructor.
  - destruct (str_leb (key x) (key y)) eqn:E.
    + constructor; [exact Hs|]. constructor; [exact E|].
      inversion Hs; subst. eapply Forall_impl; [|eassumption].
      intros z Hz. unfold key_le in *. now apply (str_leb_trans _ (key y)).
    + inversion Hs as [|? ? Hs' Hall]; subst. constructor; [now apply IH|].
      apply (Permutation_Forall (Permutation_sym (insert_by_perm x l))).
      constructor; [|exact Hall].
      unfold key_le. destruct (str_leb_total (key x) (key y)) as [H|H]; congruence.
Qed.

Lemma sort_by_sorted (l : list A) : StronglySorted (key_le key) (sort_by key l).
Proof.
  induction l as [|x l IH]; simpl; [constructor|]. now apply insert_by_sorted.
Qed.

Lemma sort_by_In (x : A) (l : list A) : In x (sort_by key l) <-> In x l.
Proof.
  split; apply Permutation_in; [apply sort_by_perm|apply Permutation_sym, sort_by_perm].
Qed.

(** The first element of the sorted list is in the list and its key is
    below every other key. *)
Lemma sort_by_head (l : list A) (x : A) :
  hd_error (sort_by key l) = Some x ->
  In x l /\ forall y, In y l -> key_le key x y.
Proof.
  intros H. pose proof (sort_by_sorted l) as Hs.
  destruct (sort_by key l) as [|z r] eqn:E; [discriminate|].
  inversion H; subst z. split.
  - apply sort_by_In. rewrite E. now left.
  - intros y Hy. apply sort_by_In in Hy. rewrite E in Hy.
    inversion Hs as [|? ? _ Hall]; subst. destruct Hy as [<-|Hy].
    + apply str_leb_refl.
    + rewrite Forall_forall in Hall. now apply Hall.
Qed.

Lemma sort_by_head_none (l : list A) : hd_error (sort_by key l) = None -> l = [].
Proof.
  intros H. destruct l as [|x l]; [reflexivity|].
  pose proof (sort_by_perm (x :: l)) as P.
  destruct (sort_by key (x :: l)); [|discriminate].
  apply Permutation_nil in P. discriminate.
Qed.

End StableSort.

(* ================================================================= *)
(** * The content picker *)
(* ================================================================= *)

Lemma str_eqb_sym (a b : str) : str_eqb a b = str_eqb b a.
Proof.
  destruct (str_eqb a b) eqn:E.
  - apply str_eqb_eq in E. subst. symmetry. apply str_eqb_refl.
  - symmetry. apply str_eqb_neq. apply str_eqb_neq in E. congruence.
Qed.

Lemma assoc_get_set {V : Type} (k k' : str) (v : V) (d : list (str * V)) :
  assoc_get k (assoc_set k' v d) = if str_eqb k k' then Some v else assoc_get k d.
Proof.
  induction d as [|[k0 v0] r IH]; simpl; [reflexivity|].
  destruct (str_eqb k' k0) eqn:E0; simpl.
  - apply str_eqb_eq in E0. subst k0.
    destruct (str_eqb k k'); reflexivity.
  - rewrite IH. destruct (str_eqb k k0) eqn:E1; [|reflexivity].
    apply str_eqb_eq in E1. subst k0.
    rewrite str_eqb_sym, E0. reflexivity.
Qed.

Lemma find_app_last {A : Type} (p : A -> bool) (l : list A) (x : A) :
  find p (l ++ [x]) = match find p l with
                      | Some y => Some y
                      | None => if p x then Some x else None
                      end.
Proof.
  induction l as [|y l IH]; simpl; [reflexivity|].
  destruct (p y); [reflexivity|exact IH].
Qed.

Section Picker.
Variable I : Interp.

(** The dictionary of [find_name] maps a lower-cased name to the last file
    of the listing that has it. *)
Lemma lower_map_get (k : str) (files : list dict) :
  forall m,
    assoc_get k (fold_left (fun m it => assoc_set (lower_name I it) it m) files m)
    = match find (fun it => str_eqb k (lower_name I it)) (rev files) with
      | Some it => Some it
      | None => assoc_get k m
      end.
Proof.
  induction files as [|x files IH]; intros m; simpl; [reflexivity|].
  rewrite IH, find_app_last, assoc_get_set.
  destruct (find _ (rev files)); [reflexivity|].
  destruct (str_eqb k (lower_name I x)); reflexivity.
Qed.

Lemma lower_map_hit (k : str) (files : list dict) :
  has_name I files k ->
  exists it,
    assoc_get k (fold_left (fun m it => assoc_set (lower_name I it) it m) files [])
    = Some it /\ In it files /\ lower_name I it = k.
Proof.
  intros [f [Hin Hk]]. rewrite lower_map_get.
  destruct (find (fun it => str_eqb k (lower_name I it)) (rev files)) as [it|] eqn:E.
  - apply find_some in E. destruct E as [Hi He].
    exists it. repeat split; [now apply in_rev|].
    apply str_eqb_eq in He. congruence.
  - exfalso.
    pose proof (find_none _ _ E f) as Hn. rewrite <- in_rev in Hn.
    specialize (Hn Hin). simpl in Hn. rewrite <- Hk, str_eqb_refl in Hn. discriminate.
Qed.

Lemma lower_map_miss (k : str) (files : list dict) :
  ~ has_name I files k ->
  assoc_get k (fold_left (fun m it => assoc_set (lower_name I it) it m) files [])
  = None.
Proof.
  intros Hno. rewrite lower_map_get.
  destruct (find (fun it => str_eqb k (lower_name I it)) (rev files)) as [it|] eqn:E;
    [|reflexivity].
  apply find_some in E. destruct E as [Hi He].
  exfalso. apply Hno. exists it. split; [now apply in_rev|].
  apply str_eqb_eq in He. congruence.
Qed.

Lemma lower_of_names :
  lower I (lit "SKILL.md") = lit "skill.md"
  /\ lower I (lit "README.md") = lit "readme.md"
  /\ lower I (lit "readme.md") = lit "readme.md".
Proof. repeat split; reflexivity. Qed.

(** C5, as amended.  Names are compared lower-cased.  A file whose
    lower-cased name is [skill.md] is picked first; failing that, one whose
    lower-cased name is [readme.md]; failing that, among the files whose
    lower-cased name ends in [.md], one whose lower-cased name is the
    smallest; and nothing when there is no such file.  In particular
    [SKILL.md] is picked from [README.md, SKILL.md, other.md], [readme.md]
    from [readme.md, notes.md] and [guide.md] from [guide.md, manual.md]. *)
Theorem pick_candidate_prefers :
  (forall files,
      (has_name I files (lit "skill.md") ->
       exists it, pick_candidate I files = Some it /\ In it files
                  /\ lower_name I it = lit "skill.md")
      /\ (~ has_name I files (lit "skill.md") -> has_name I files (lit "readme.md") ->
          exists it, pick_candidate I files = Some it /\ In it files
                     /\ lower_name I it = lit "readme.md")
      /\ (~ has_name I files (lit "skill.md") -> ~ has_name I files (lit "readme.md") ->
          (exists f, In f files /\ is_markdown I f) ->
          exists it, pick_candidate I files = Some it /\ In it files /\ is_markdown I it
                     /\ forall f, In f files -> is_markdown I f ->
                                  str_leb (lower_name I it) (lower_name I f) = true)
      /\ (~ has_name I files (lit "skill.md") -> ~ has_name I files (lit "readme.md") ->
          (forall f, In f files -> ~ is_markdown I f) ->
          pick_candidate I files = None))
  /\ picked_name I (map file_named [lit "README.md"; lit "SKILL.md"; lit "other.md"])
     = Some (lit "SKILL.md")
  /\ picked_name I (map file_named [lit "readme.md"; lit "notes.md"])
     = Some (lit "readme.md")
  /\ picked_name I (map file_named [lit "guide.md"; lit "manual.md"])
     = Some (lit "guide.md").
Proof.
  destruct lower_of_names as [L1 [L2 L3]].
  split; [|repeat split; reflexivity].
  intros files. unfold pick_candidate, find_name. simpl first_known.
  rewrite L1, L2, L3.
  split; [|split; [|split]].
  - intros H. destruct (lower_map_hit _ _ H) as [it [E [Hi Hk]]].
    rewrite E. now exists it.
  - intros H1 H2. rewrite (lower_map_miss _ _ H1).
    destruct (lower_map_hit _ _ H2) as [it [E [Hi Hk]]].
    rewrite E. now exists it.
  - intros H1 H2 [f [Hf Hm]].
    rewrite (lower_map_miss _ _ H1), (lower_map_miss _ _ H2).
    destruct (hd_error (sort_by (lower_name I)
                (filter (fun it => endswith (lower_name I it) (lit ".md")) files)))
      as [it|] eqn:E.
    + apply sort_by_head in E. destruct E as [Hin Hmin].
      apply filter_In in Hin. destruct Hin as [Hin Hmd].
      exists it. repeat split; [exact Hin|exact Hmd|].
      intros g Hg Hgm. apply Hmin. apply filter_In. now split.
    + apply sort_by_head_none in E. exfalso.
      assert (Hx : In f (filter (fun it => endswith (lower_name I it) (lit ".md")) files))
        by (apply filter_In; now split).
      rewrite E in Hx. contradiction.
  - intros H1 H2 Hno.
    rewrite (lower_map_miss _ _ H1), (lower_map_miss _ _ H2).
    destruct (filter (fun it => endswith (lower_name I it) (lit ".md")) files)
      as [|g r] eqn:E; [reflexivity|].
    exfalso. assert (Hg : In g (g :: r)) by now left.
    rewrite <- E in Hg. apply filter_In in Hg. destruct Hg as [Hg Hm].
    exact (Hno g Hg Hm).
Qed.

End Picker.

(** C5 as stated fails: the names are not matched exactly and the fallback
    is not ordered by the names themselves.  [skill.md] wins over
    [README.md], and [a.md] is picked before [Z.md]. *)
Lemma pick_ignores_case :
  picked_name ascii_interp (map file_named [lit "README.md"; lit "skill.md"])
  = Some (lit "skill.md")
  /\ claimed_pick [lit "README.md"; lit "skill.md"] = Some (lit "README.md")
  /\ picked_name ascii_interp (map file_named [lit "Z.md"; lit "a.md"])
     = Some (lit "a.md")
  /\ claimed_pick [lit "Z.md"; lit "a.md"] = Some (lit "Z.md").
Proof. vm_compute. repeat split; reflexivity. Qed.

Ltac no_such_name :=
  let f := fresh "f" in
  let Hin := fresh "Hin" in
  let Hk := fresh "Hk" in
  intros [f [Hin Hk]]; simpl in Hin;
  repeat (destruct Hin as [Hin|Hin]; [subst f; vm_compute in Hk; discriminate|]);
  contradiction.

(** C5 (amended) on four concrete listings, one for each case. *)
Lemma pick_candidate_prefers_witness :
  let l1 := map file_named [lit "README.md"; lit "Skill.MD"] in
  let l2 := map file_named [lit "notes.md"; lit "ReadMe.md"] in
  let l3 := map file_named [lit "b.MD"; lit "A.md"; lit "LICENSE"] in
  let l4 := map file_named [lit "LICENSE"; lit "run.py"] in
  (exists it, pick_candidate ascii_interp l1 = Some it /\ In it l1
              /\ lower_name ascii_interp it = lit "skill.md")
  /\ (exists it, pick_candidate ascii_interp l2 = Some it /\ In it l2
                 /\ lower_name ascii_interp it = lit "readme.md")
  /\ (exists it, pick_candidate ascii_interp l3 = Some it /\ In it l3
                 /\ is_markdown ascii_interp it
                 /\ forall f, In f l3 -> is_markdown ascii_interp f ->
                              str_leb (lower_name ascii_interp it)
                                      (lower_name ascii_interp f) = true)
  /\ pick_candidate ascii_interp l4 = None.
Proof.
  intros l1 l2 l3 l4.
  destruct (pick_candidate_prefers ascii_interp) as [H _].
  split; [|split; [|split]].
  - apply (proj1 (H l1)).
    exists (file_named (lit "Skill.MD")). split; [right; left; reflexivity|reflexivity].
  - apply (proj1 (proj2 (H l2))).
    + no_such_name.
    + exists (file_named (lit "ReadMe.md")). split; [right; left; reflexivity|reflexivity].
  - apply (proj1 (proj2 (proj2 (H l3)))).
    + no_such_name.
    + no_such_name.
    + exists (file_named (lit "A.md")). split; [right; left; reflexivity|reflexivity].
  - apply (proj2 (proj2 (proj2 (H l4)))).
    + no_such_name.
    + no_such_name.
    + intros f Hin Hm. simpl in Hin.
      repeat (destruct Hin as [Hin|Hin]; [subst f; vm_compute in Hm; discriminate|]).
      contradiction.
Defined.

(** The picker end to end: the listing is requested, [SKILL.md] is chosen
    and its raw content is downloaded. *)
Example pick_skill_markdown_run :
  let listing :=
    ok_answer (qlit "[{'type':'file','name':'README.md','download_url':'https://raw.example/README.md'},{'type':'file','name':'SKILL.md','download_url':'https://raw.example/SKILL.md'},{'type':'dir','name':'skill.md'}]") in
  let w := world_of [listing; raw_file] in
  let r := _pick_skill_markdown ascii_interp default_api_base (lit "anthropics/skills")
             (lit "main") (lit "skills/pdf") (lit "t") (_build_ssl_context false false) w in
  fst r = Ok (lit "SKILL.md", lit "# A skill")
  /\ map rq_url (requests_of (trace (snd r)))
     = [ lit "https://api.github.com/repos/anthropics/skills/contents/skills/pdf?ref=main";
         lit "https://raw.example/SKILL.md" ].
Proof. vm_compute. repeat split; reflexivity. Qed.

(* ================================================================= *)
(** * Duplicate names *)
(* ================================================================= *)

Lemma assoc_get_In {V : Type} (k : str) (v : V) (d : list (str * V)) :
  assoc_get k d = Some v -> In (k, v) d.
Proof.
  induction d as [|[k0 v0] r IH]; simpl; [discriminate|].
  destruct (str_eqb k k0) eqn:E.
  - intros H. inversion H; subst. apply str_eqb_eq in E. subst. now left.
  - intros H. right. now apply IH.
Qed.

Lemma In_assoc_get {V : Type} (k : str) (v : V) (d : list (str * V)) :
  NoDup (map fst d) -> In (k, v) d -> assoc_get k d = Some v.
Proof.
  induction d as [|[k0 v0] r IH]; simpl; [contradiction|].
  intros Hnd [H|H].
  - inversion H; subst. now rewrite str_eqb_refl.
  - inversion Hnd as [|? ? Hni Hnd']; subst.
    destruct (str_eqb k k0) eqn:E.
    + apply str_eqb_eq in E. subst. exfalso. apply Hni.
      change k0 with (fst (k0, v)). now apply in_map.
    + now apply IH.
Qed.

Lemma assoc_set_keys {V : Type} (k k' : str) (v : V) (d : list (str * V)) :
  In k' (map fst (assoc_set k v d)) <-> k' = k \/ In k' (map fst d).
Proof.
  induction d as [|[k0 v0] r IH]; simpl.
  - split; [intros [H|[]]; auto | intros [H|[]]; auto].
  - destruct (str_eqb k k0) eqn:E; simpl.
    + apply str_eqb_eq in E. subst. intuition congruence.
    + rewrite IH. intuition congruence.
Qed.

Lemma assoc_set_NoDup {V : Type} (k : str) (v : V) (d : list (str * V)) :
  NoDup (map fst d) -> NoDup (map fst (assoc_set k v d)).
Proof.
  induction d as [|[k0 v0] r IH]; simpl; intros Hnd.
  - repeat constructor. intros [].
  - inversion Hnd as [|? ? Hni Hnd']; subst.
    destruct (str_eqb k k0) eqn:E; simpl.
    + now constructor.
    + constructor; [|now apply IH].
      rewrite assoc_set_keys. intros [H|H]; [|contradiction].
      subst. rewrite str_eqb_refl in E. discriminate.
Qed.

Section Duplicates.

Lemma name_counts_keys skills :
  forall m, NoDup (map fst m) -> NoDup (map fst (fold_left count_step skills m)).
Proof.
  induction skills as [|s skills IH]; intros m H; simpl; [exact H|].
  apply IH. now apply assoc_set_NoDup.
Qed.

Lemma name_counts_get (n : str) skills :
  forall m,
    assoc_get n (fold_left count_step skills m)
    = match occurrences n skills with
      | O => assoc_get n m
      | S c => Some (match assoc_get n m with Some v => v | None => 0 end + S c)%nat
      end.
Proof.
  induction skills as [|s skills IH]; intros m; [reflexivity|].
  simpl fold_left. rewrite IH. unfold count_step at 1 2. rewrite !assoc_get_set.
  unfold occurrences. simpl filter. rewrite (str_eqb_sym (name s) n).
  destruct (str_eqb n (name s)) eqn:E.
  - apply str_eqb_eq in E. subst n. simpl length.
    destruct (length (filter _ skills)); f_equal; lia.
  - reflexivity.
Qed.

(** The names reported as duplicates are exactly the names that two or more
    items have, each once, in increasing order. *)
Lemma duplicate_names_spec skills :
  StronglySorted (fun a b => str_ltb a b = true) (duplicate_names skills)
  /\ forall n, In n (duplicate_names skills) <-> (2 <= occurrences n skills)%nat.
Proof.
  unfold duplicate_names, name_counts_of.
  set (counts := fold_left count_step skills []).
  assert (Hnd : NoDup (map fst counts)) by (apply name_counts_keys; constructor).
  assert (Hget : forall n, assoc_get n counts
                           = match occurrences n skills with
                             | O => None | S c => Some (S c) end).
  { intros n. unfold counts. rewrite name_counts_get. reflexivity. }
  set (big := filter (fun kv : str * nat => (1 <? snd kv)%nat) counts).
  assert (Hbig : NoDup (map fst big)).
  { unfold big. clear Hget. induction counts as [|[k v] r IH]; simpl; [constructor|].
    inversion Hnd as [|? ? Hni Hnd']; subst.
    destruct (1 <? v)%nat; simpl; [|now apply IH].
    constructor; [|now apply IH].
    intros Hin. apply Hni. apply in_map_iff in Hin. destruct Hin as [[k' v'] [E Hin]].
    simpl in E. subst k'. apply filter_In in Hin. destruct Hin as [Hin _].
    change k with (fst (k, v')). now apply in_map. }
  split.
  - unfold sorted.
    pose proof (sort_by_sorted (fun x : str => x) (map fst big)) as Hs.
    pose proof (Permutation_NoDup (Permutation_sym (sort_by_perm (fun x : str => x) (map fst big))) Hbig) as Hn.
    induction Hs as [|x l Hs IH Hall]; [constructor|].
    inversion Hn as [|? ? Hni Hn']; subst. constructor; [now apply IH|].
    rewrite Forall_forall in Hall |- *. intros y Hy.
    specialize (Hall y Hy). unfold key_le, str_leb in Hall.
    apply negb_true_iff in Hall.
    destruct (str_ltb_trichotomy x y) as [H|[H|H]]; [exact H| |congruence].
    subst. contradiction.
  - intros n. unfold sorted. rewrite sort_by_In, in_map_iff. split.
    + intros [[k v] [E Hin]]. simpl in E. subst k. unfold big in Hin.
      apply filter_In in Hin. destruct Hin as [Hin Hv]. simpl in Hv.
      apply Nat.ltb_lt in Hv. apply (In_assoc_get _ _ _ Hnd) in Hin.
      rewrite Hget in Hin. destruct (occurrences n skills); [discriminate|].
      inversion Hin. lia.
    + intros H. exists (n, occurrences n skills). split; [reflexivity|].
      unfold big. apply filter_In. split.
      * apply assoc_get_In. rewrite Hget.
        destruct (occurrences n skills); [lia|reflexivity].
      * simpl. apply Nat.ltb_lt. lia.
Qed.


End Duplicates.

Section DuplicateCheck.
Variable I : Interp.

(** With its settings in order, [main] prepares, discovers and processes. *)
Lemma main_configured args environ w :
  configured args environ ->
  main I args environ w
  = (r <- prepare_of I args environ ;;
     found <- discover I r ;;
     match found with
     | inr code => ret code
     | inl skills => run_skills I r skills
     end) w.
Proof.
  intros [Hu [Hk [Ht [Hr Hc]]]]. unfold main, run_configured, prepare_of.
  apply is_empty_false in Hu, Hk, Hr. rewrite Hu, Hk, Hr, Hc.
  destruct Ht as [Ht|Ht].
  - apply is_empty_false in Ht. rewrite Ht. reflexivity.
  - rewrite Ht, andb_false_r. reflexivity.
Qed.

Lemma warn_truncated_logged args truncated w :
  warn_truncated args truncated w
  = (Ok tt, logged (warning_events args truncated) (script w) w).
Proof.
  unfold warn_truncated, warning_events.
  destruct (arg_verbose args && arg_recursive args && truncated)%bool;
    destruct w; reflexivity.
Qed.

Lemma select_skills_duplicates args skills w :
  arg_allow_duplicate_ids args = false ->
  (exists n, 2 <= occurrences n skills)%nat ->
  select_skills args skills w
  = (Ok (inr 2%Z),
     logged [EvPrint (duplicates_message (duplicate_names skills))] (script w) w).
Proof.
  intros Ha [n Hn]. unfold select_skills. rewrite Ha. simpl negb. cbv iota.
  apply (proj2 (duplicate_names_spec skills)) in Hn.
  destruct (duplicate_names skills) as [|d ds]; [contradiction|].
  reflexivity.
Qed.

(** C6, as amended.  (1) The names reported are exactly the names that two
    or more of the discovered items have, each once, in increasing order.
    (2) When the override is not set and two items share a name, [main]
    returns 2 right after discovery: nothing is requested after the
    discovery, and the last line printed is the message about the
    duplicates.  (3) That message lists the names, cut to the first 50 and
    followed by [ ...] when there are more than 50; up to 50 names it lists
    them all.  (4) For items named a, b, a the names reported are exactly
    [a].  (5) With the override set the check is not made: the items go on
    to the filters and to the main loop. *)
Theorem duplicate_names_abort_the_run :
  (forall skills,
      StronglySorted (fun a b => str_ltb a b = true) (duplicate_names skills)
      /\ forall n, In n (duplicate_names skills) <-> (2 <= occurrences n skills)%nat)
  /\
  (forall args environ w r w1 skills truncated w2,
      configured args environ ->
      prepare_of I args environ w = (Ok r, w1) ->
      find_skills I r w1 = (Ok (skills, truncated), w2) ->
      arg_allow_duplicate_ids args = false ->
      (exists n, 2 <= occurrences n skills)%nat ->
      main I args environ w
      = (Ok 2%Z,
         logged (warning_events (run_args r) truncated
                 ++ [EvPrint (duplicates_message (duplicate_names skills))])
                (script w2) w2))
  /\
  (forall dups,
      duplicates_message dups
      = duplicates_header ++ join (lit ", ") (firstn 50 dups)
        ++ (if (50 <? length dups)%nat then lit " ..." else [])
      /\ ((length dups <= 50)%nat ->
          duplicates_message dups = duplicates_header ++ join (lit ", ") dups))
  /\
  duplicate_names [skill_named (lit "x") (lit "a"); skill_named (lit "y") (lit "b");
                   skill_named (lit "z") (lit "a")] = [lit "a"]
  /\
  (forall args skills,
      arg_allow_duplicate_ids args = true ->
      select_skills args skills = filter_skills args skills).
Proof.
  split; [exact duplicate_names_spec|].
  split; [|split; [|split]].
  - intros args environ w r w1 skills truncated w2 Hc Hp Hf Ha Hd.
    rewrite (main_configured args environ w Hc).
    unfold bind at 1. rewrite Hp. unfold bind at 1. unfold discover. unfold bind at 1.
    rewrite Hf. cbn [fst snd]. unfold bind at 1. rewrite warn_truncated_logged.
    assert (Hargs : run_args r = args).
    { revert Hp. unfold prepare_of, prepare. unfold bind.
      destruct (announce args w) as [[[]|e] wa]; [|discriminate].
      destruct (arg_skip_existing args).
      - destruct (_iter_issues _ _ _ _ _ _ _ wa) as [[issues|e] wb]; [|discriminate].
        intros H. inversion H. reflexivity.
      - intros H. inversion H. reflexivity. }
    rewrite Hargs in *.
    rewrite (select_skills_duplicates args skills _ Ha Hd).
    rewrite logged_logged. reflexivity.
  - intros dups. split.
    + unfold duplicates_message, duplicates_header. now rewrite <- !app_assoc.
    + intros Hl. unfold duplicates_message, duplicates_header.
      rewrite (firstn_all2 dups Hl).
      destruct (Nat.ltb_spec 50 (length dups)) as [H|_]; [lia|].
      now rewrite <- !app_assoc, app_nil_r.
  - vm_compute. reflexivity.
  - intros args skills Ha. unfold select_skills. now rewrite Ha.
Qed.

End DuplicateCheck.

(** C6 as stated fails beyond 50 names: of the 51 colliding names [s10] to
    [s60], the message names the first 50 only; [s60] is not reported. *)
Lemma duplicates_beyond_fifty_are_cut :
  let dups := duplicate_names many_duplicates in
  let w := world_of [] in
  length dups = 51%nat
  /\ In (lit "s60") dups
  /\ select_skills default_args many_duplicates w
     = (Ok (inr 2%Z), logged [EvPrint (duplicates_message dups)] (script w) w)
  /\ contains (lit "s60") (duplicates_message dups) = false
  /\ duplicates_message dups <> duplicates_header ++ join (lit ", ") dups.
Proof.
  intros dups w.
  assert (Hc : contains (lit "s60") (duplicates_message dups) = false)
    by (vm_compute; reflexivity).
  split; [vm_compute; reflexivity|].
  split; [vm_compute; tauto|].
  split; [vm_compute; reflexivity|].
  split; [exact Hc|].
  intros E. rewrite E in Hc. revert Hc. vm_compute. discriminate.
Qed.

(** C6 (amended) on a recursive discovery that finds [a] in two folders. *)
Lemma duplicate_names_abort_the_run_witness :
  let args := recursive_args false false in
  let w := world_of [commit_answer; tree_answer; folder_listing] in
  let skills := [skill_of_dir (lit "anthropics/skills") (lit "main") (lit "skills/x/a");
                 skill_of_dir (lit "anthropics/skills") (lit "main") (lit "skills/z/a");
                 skill_of_dir (lit "anthropics/skills") (lit "main") (lit "skills/y/b")] in
  exists r w2,
    find_skills ascii_interp r w = (Ok (skills, false), w2)
    /\ script w2 = [folder_listing]
    /\ main ascii_interp args example_environ w
       = (Ok 2%Z,
          logged (warning_events (run_args r) false
                  ++ [EvPrint (duplicates_message (duplicate_names skills))])
                 (script w2) w2)
    /\ duplicate_names skills = [lit "a"].
Proof.
  intros args w skills.
  destruct (prepare_of ascii_interp args example_environ w) as [[r|e] w1] eqn:Hp;
    [|vm_compute in Hp; discriminate].
  assert (Hw : w1 = w) by (vm_compute in Hp; now inversion Hp).
  subst w1.
  destruct (find_skills ascii_interp r w) as [[[sk tr]|e] w2] eqn:Hf;
    [|vm_compute in Hp; inversion Hp; subst r; vm_compute in Hf; discriminate].
  assert (Hv : sk = skills /\ tr = false /\ script w2 = [folder_listing]).
  { vm_compute in Hp. inversion Hp; subst r. vm_compute in Hf. inversion Hf.
    repeat split; reflexivity. }
  destruct Hv as [-> [-> Hs]].
  exists r, w2. split; [exact Hf|]. split; [exact Hs|]. split.
  - apply (proj1 (proj2 (duplicate_names_abort_the_run ascii_interp))
             args example_environ w r w skills false w2).
    + unfold configured. repeat split; try (vm_compute; discriminate).
      left. vm_compute. discriminate.
    + exact Hp.
    + exact Hf.
    + reflexivity.
    + exists (lit "a"). vm_compute. lia.
  - vm_compute. reflexivity.
Defined.

(* ================================================================= *)
(** * Strings through [json.dumps] and [json.loads] *)
(* ================================================================= *)

Lemma below_32 (c : N) :
  (c < 32)%N -> In c (map N.of_nat (seq 0 32)).
Proof.
  intros H. apply in_map_iff. exists (N.to_nat c). split; [apply N2Nat.id|].
  apply in_seq. lia.
Qed.

Lemma escape_chr_shape (c : N) : escape_shape c.
Proof.
  destruct (N.ltb_spec c 32) as [Hlt|Hge].
  - apply below_32 in Hlt. revert c Hlt. apply Forall_forall.
    repeat (constructor;
            [eapply shape_escaped; [vm_compute; reflexivity|];
             repeat (constructor; [discriminate|]); constructor|]).
    constructor.
  - destruct (N.eqb_spec c 34) as [E|N34].
    + subst. eapply shape_escaped; [reflexivity|].
      repeat (constructor; [discriminate|]); constructor.
    + destruct (N.eqb_spec c 92) as [E|N92].
      * subst. eapply shape_escaped; [reflexivity|].
        repeat (constructor; [discriminate|]); constructor.
      * apply shape_plain; try assumption.
        unfold escape_chr.
        destruct (N.eqb_spec c 34); [contradiction|].
        destruct (N.eqb_spec c 92); [contradiction|].
        destruct (N.eqb_spec c 10); [lia|].
        destruct (N.eqb_spec c 13); [lia|].
        destruct (N.eqb_spec c 9); [lia|].
        destruct (N.eqb_spec c 8); [lia|].
        destruct (N.eqb_spec c 12); [lia|].
        destruct (N.ltb_spec c 32); [lia|reflexivity].
Qed.

(** Reading back what was written for one character. *)
Lemma scanstring_escape_chr (c : N) (rest : str) :
  scanstring (escape_chr c ++ rest) = push_chr c (scanstring rest).
Proof.
  destruct (N.ltb_spec c 32) as [Hlt|Hge].
  - apply below_32 in Hlt. revert c Hlt. apply Forall_forall.
    repeat (constructor; [reflexivity|]). constructor.
  - destruct (N.eqb_spec c 34) as [E|N34]; [subst; reflexivity|].
    destruct (N.eqb_spec c 92) as [E|N92]; [subst; reflexivity|].
    destruct (escape_chr_shape c) as [Hp _ _ _|x r He _].
    + rewrite Hp. simpl.
      destruct (N.eqb_spec c 34); [contradiction|].
      destruct (N.eqb_spec c 92); [contradiction|].
      destruct (N.ltb_spec c 32); [lia|reflexivity].
    + exfalso. revert He. unfold escape_chr.
      destruct (N.eqb_spec c 34); [contradiction|].
      destruct (N.eqb_spec c 92); [contradiction|].
      destruct (N.eqb_spec c 10); [lia|].
      destruct (N.eqb_spec c 13); [lia|].
      destruct (N.eqb_spec c 9); [lia|].
      destruct (N.eqb_spec c 8); [lia|].
      destruct (N.eqb_spec c 12); [lia|].
      destruct (N.ltb_spec c 32); [lia|].
      intros Hx. discriminate Hx.
Qed.

(** [scanstring] reads back the string that [encode_basestring] wrote. *)
Lemma scanstring_encode (s rest : str) :
  scanstring (flat_map escape_chr s ++ chr_quote :: rest) = Some (s, rest).
Proof.
  induction s as [|c s IH]; [reflexivity|].
  simpl flat_map. rewrite <- app_assoc, scanstring_escape_chr, IH. reflexivity.
Qed.

(** ** Objects whose members are strings *)

Lemma assoc_set_fresh {V : Type} (k : str) (v : V) (d : list (str * V)) :
  ~ In k (map fst d) -> assoc_set k v d = d ++ [(k, v)].
Proof.
  induction d as [|[k0 v0] r IH]; simpl; intros H; [reflexivity|].
  destruct (str_eqb k k0) eqn:E.
  - apply str_eqb_eq in E. subst. exfalso. apply H. now left.
  - f_equal. apply IH. tauto.
Qed.

Lemma app_cons_assoc {A : Type} (a : list A) (x : A) (b c : list A) :
  (a ++ x :: b) ++ c = a ++ x :: (b ++ c).
Proof. now rewrite <- app_assoc. Qed.

Lemma members_text_cons (k v : str) (more : list (str * str)) :
  members_text ((k, v) :: more) = chr_quote :: members_tail k v more.
Proof.
  unfold members_text. revert k v.
  induction more as [|[k' v'] more IH]; intros k v.
  - change (map member_text [(k, v)]) with [member_text (k, v)].
    change (join (lit ",") [member_text (k, v)]) with (member_text (k, v)).
    unfold member_text, encode_basestring. cbn [fst snd members_tail].
    change (lit ":") with [58%N].
    rewrite <- !app_comm_cons, !app_cons_assoc. reflexivity.
  - change (join (lit ",") (map member_text ((k, v) :: (k', v') :: more)))
      with (member_text (k, v) ++ lit ","
            ++ join (lit ",") (map member_text ((k', v') :: more))).
    rewrite IH. unfold member_text, encode_basestring. cbn [fst snd members_tail].
    change (lit ":") with [58%N]. change (lit ",") with [44%N].
    rewrite <- !app_comm_cons, !app_cons_assoc. reflexivity.
Qed.

Lemma parse_members_step (fuel : nat) (acc : dict) (s : str) :
  parse_members (S fuel) acc s
  = match scanstring s with
    | None => None
    | Some (key, r) =>
        match skip_ws r with
        | colon :: r1 =>
            if (colon =? 58)%N then
              match parse_value fuel (skip_ws r1) with
              | None => None
              | Some (v, r2) =>
                  let acc' := dict_set key v acc in
                  match skip_ws r2 with
                  | c :: r3 =>
                      if (c =? 125)%N then Some (JObj acc', r3)
                      else if (c =? 44)%N then
                        match skip_ws r3 with
                        | q :: r4 =>
                            if (q =? 34)%N then parse_members fuel acc' r4
                            else None
                        | [] => None
                        end
                      else None
                  | [] => None
                  end
              end
            else None
        | [] => None
        end
    end.
Proof. reflexivity. Qed.

Lemma parse_value_string (fuel : nat) (r : str) :
  parse_value (S fuel) (chr_quote :: r)
  = match scanstring r with
    | Some (t, r') => Some (JStr t, r')
    | None => None
    end.
Proof. reflexivity. Qed.

Lemma skip_ws_stop (c : N) (r : str) :
  is_json_ws c = false -> skip_ws (c :: r) = c :: r.
Proof. intros H. unfold skip_ws. simpl. now rewrite H. Qed.

(** One member, from the first character of its key to the character that
    follows its value. *)
Lemma parse_one_member (fuel : nat) (acc : dict) (k v x : str) :
  ~ In k (map fst acc) ->
  parse_members (S (S fuel)) acc
    (flat_map escape_chr k
     ++ chr_quote :: 58%N :: chr_quote :: flat_map escape_chr v ++ chr_quote :: x)
  = match skip_ws x with
    | c :: r3 =>
        if (c =? 125)%N then Some (JObj (acc ++ [(k, JStr v)]), r3)
        else if (c =? 44)%N then
          match skip_ws r3 with
          | q :: r4 =>
              if (q =? 34)%N then parse_members (S fuel) (acc ++ [(k, JStr v)]) r4
              else None
          | [] => None
          end
        else None
    | [] => None
    end.
Proof.
  intros Hk. rewrite parse_members_step, scanstring_encode.
  rewrite (skip_ws_stop 58 _ eq_refl). change (58 =? 58)%N with true. cbv iota.
  rewrite (skip_ws_stop chr_quote _ eq_refl).
  rewrite parse_value_string, scanstring_encode. cbv zeta.
  unfold dict_set. rewrite (assoc_set_fresh k (JStr v) acc Hk). reflexivity.
Qed.

Lemma members_tail_app (k v : str) (more : list (str * str)) (tail : str) :
  members_tail k v more ++ tail
  = flat_map escape_chr k
    ++ chr_quote :: 58%N :: chr_quote :: flat_map escape_chr v
    ++ chr_quote :: (match more with
                     | [] => []
                     | (k', v') :: more' => 44%N :: chr_quote :: members_tail k' v' more'
                     end ++ tail).
Proof.
  destruct more as [|[k' v'] more']; cbn [members_tail];
    rewrite app_cons_assoc; cbn [app]; rewrite app_cons_assoc; reflexivity.
Qed.

(** The loop of the decoder reads the members back, in order. *)
Lemma parse_members_tail :
  forall more k v fuel acc rest,
    (2 * S (length more) <= fuel)%nat ->
    NoDup (map fst acc ++ k :: map fst more) ->
    parse_members fuel acc (members_tail k v more ++ 125%N :: rest)
    = Some (JObj (acc ++ map (fun kv => (fst kv, JStr (snd kv))) ((k, v) :: more)), rest).
Proof.
  induction more as [|[k' v'] more IH]; intros k v fuel acc rest Hf Hnd;
    (destruct fuel as [|[|fuel]]; [simpl in Hf; lia|simpl in Hf; lia|]);
    rewrite members_tail_app;
    (rewrite parse_one_member;
     [|apply NoDup_remove_2 in Hnd; intros H; apply Hnd; apply in_or_app; now left]).
  - reflexivity.
  - cbn [app]. rewrite (skip_ws_stop 44 _ eq_refl).
    change (44 =? 125)%N with false. change (44 =? 44)%N with true. cbv iota.
    rewrite (skip_ws_stop chr_quote _ eq_refl).
    change (chr_quote =? 34)%N with true. cbv iota.
    rewrite IH.
    + rewrite <- app_assoc. reflexivity.
    + simpl in Hf |- *. lia.
    + cbn [map fst] in Hnd |- *. rewrite map_app. cbn [map fst].
      rewrite <- app_assoc. exact Hnd.
Qed.

Lemma members_tail_length (more : list (str * str)) :
  forall k v, (2 * S (length more) <= length (members_tail k v more))%nat.
Proof.
  induction more as [|[k' v'] more IH]; intros k v; cbn [members_tail];
    rewrite length_app; cbn [length]; rewrite length_app; cbn [length].
  - lia.
  - specialize (IH k' v'). lia.
Qed.

(** [json.loads] reads back the object that [json.dumps] wrote for an
    object of strings with distinct keys. *)
Lemma loads_dumps_string_object (I : Interp) (ms : list (str * str)) :
  NoDup (map fst ms) ->
  json_dumps_compact I (string_object ms) = lit "{" ++ members_text ms ++ lit "}"
  /\ json_loads (lit "{" ++ members_text ms ++ lit "}") = Some (string_object ms).
Proof.
  intros Hnd. split.
  - unfold string_object, members_text. cbn [json_dumps_compact].
    rewrite map_map. reflexivity.
  - destruct ms as [|[k v] more].
    + reflexivity.
    + rewrite members_text_cons. unfold json_loads.
      change (lit "{" ++ (chr_quote :: members_tail k v more) ++ lit "}")
        with (123%N :: chr_quote :: (members_tail k v more ++ [125%N])).
      rewrite (skip_ws_stop 123 _ eq_refl).
      cbn [parse_value length].
      change (123 =? 34)%N with false. change (123 =? 123)%N with true. cbv iota.
      rewrite (skip_ws_stop chr_quote _ eq_refl).
      change (chr_quote =? 125)%N with false. change (chr_quote =? 34)%N with true.
      cbv iota.
      rewrite (parse_members_tail more k v _ [] []).
      * reflexivity.
      * rewrite length_app. pose proof (members_tail_length more k v). lia.
      * exact Hnd.
Qed.

(* ================================================================= *)
(** * The metadata comment is found again *)
(* ================================================================= *)

Lemma closes_space (c : N) (s : str) :
  is_space c = true -> closes (c :: s) = closes s.
Proof.
  intros H. unfold closes, after_ws, lstrip, lstrip_by. simpl. now rewrite H.
Qed.

Lemma closes_nonspace (c : N) (s : str) :
  is_space c = false ->
  closes (c :: s) = match strip_prefix html_comment_close (c :: s) with
                    | Some _ => true
                    | None => false
                    end.
Proof.
  intros H. unfold closes, after_ws, lstrip, lstrip_by.
  change (drop_while is_space (c :: s))
    with (if is_space c then drop_while is_space s else c :: s).
  now rewrite H.
Qed.

(** A text without quote and backslash that starts the written form of
    [u] followed by a quote starts [u] itself. *)
Lemma prefix_through_escape (p : str) :
  Forall (fun x => x <> 34%N /\ x <> 92%N) p ->
  forall u tail,
    strip_prefix p (flat_map escape_chr u ++ chr_quote :: tail) <> None ->
    strip_prefix p u <> None.
Proof.
  induction p as [|x p IH]; intros Hp u tail H; [discriminate|].
  apply Forall_cons_iff in Hp. destruct Hp as [[Hq Hb] Hp].
  destruct u as [|c u].
  - simpl in H. destruct (N.eqb_spec x chr_quote) as [E|_]; [contradiction|].
    now apply H.
  - simpl flat_map in H. rewrite <- app_assoc in H.
    destruct (escape_chr_shape c) as [Hc _ _ _|y r Hc _]; rewrite Hc in H.
    + simpl in H |- *. destruct (x =? c)%N; [|exact H]. now apply (IH Hp u tail).
    + simpl in H. destruct (N.eqb_spec x 92) as [E|_]; [contradiction|].
      now exfalso.
Qed.

Lemma closes_through_escape (u tail : str) :
  closes (flat_map escape_chr u ++ chr_quote :: tail) = true -> closes u = true.
Proof.
  induction u as [|c u IH]; intros H.
  - discriminate.
  - simpl flat_map in H. rewrite <- app_assoc in H.
    destruct (escape_chr_shape c) as [Hc _ _ _|y r Hc _]; rewrite Hc in H.
    + cbn [app] in H. destruct (is_space c) eqn:Es.
      * rewrite (closes_space c _ Es) in H. rewrite (closes_space c u Es). now apply IH.
      * rewrite (closes_nonspace c _ Es) in H. rewrite (closes_nonspace c u Es).
        destruct (strip_prefix html_comment_close (c :: u)) eqn:E; [reflexivity|].
        exfalso.
        apply (prefix_through_escape html_comment_close) with (u := c :: u) (tail := tail) in E;
          [exact E| | ].
        -- repeat (constructor; [split; discriminate|]). constructor.
        -- simpl flat_map. rewrite <- app_assoc, Hc. cbn [app].
           destruct (strip_prefix html_comment_close
                       (c :: flat_map escape_chr u ++ chr_quote :: tail));
             [discriminate|discriminate H].
    + discriminate.
Qed.

Lemma lazy_body_plain (c : N) (s : str) :
  c <> 125%N ->
  lazy_body (c :: s) = match lazy_body s with Some t => Some (c :: t) | None => None end.
Proof.
  intros H. simpl. destruct (N.eqb_spec c 125) as [E|_]; [contradiction|reflexivity].
Qed.

Lemma lazy_body_plains (pre s : str) :
  Forall (fun y => y <> 125%N) pre ->
  lazy_body (pre ++ s)
  = match lazy_body s with Some t => Some (pre ++ t) | None => None end.
Proof.
  induction pre as [|c pre IH]; intros H.
  - simpl. destruct (lazy_body s); reflexivity.
  - apply Forall_cons_iff in H. destruct H as [Hc H].
    cbn [app]. rewrite (lazy_body_plain c _ Hc), (IH H).
    destruct (lazy_body s); reflexivity.
Qed.

(** The written form of a string that does not close the comment is
    skipped by the lazy match. *)
Lemma lazy_body_escaped (u s : str) :
  has_close u = false ->
  lazy_body (flat_map escape_chr u ++ chr_quote :: s)
  = match lazy_body (chr_quote :: s) with
    | Some t => Some (flat_map escape_chr u ++ t)
    | None => None
    end.
Proof.
  remember (lazy_body (chr_quote :: s)) as L eqn:EL.
  induction u as [|c u IH]; intros H.
  - simpl flat_map. cbn [app]. rewrite <- EL. destruct L; reflexivity.
  - simpl in H. apply orb_false_iff in H. destruct H as [Hc Hu].
    simpl flat_map. rewrite <- app_assoc.
    destruct (escape_chr_shape c) as [Ec _ _ _|y r Ec Hall].
    + rewrite Ec. cbn [app]. cbn [lazy_body].
      destruct (N.eqb_spec c 125) as [E|Hn].
      * simpl in Hc.
        destruct (closes (flat_map escape_chr u ++ chr_quote :: s)) eqn:Cl.
        -- apply closes_through_escape in Cl. congruence.
        -- cbn [andb]. rewrite (IH Hu). destruct L; reflexivity.
      * cbn [andb]. rewrite (IH Hu). destruct L; reflexivity.
    + rewrite (lazy_body_plains _ _ Hall), (IH Hu).
      destruct L; [|reflexivity].
      now rewrite <- app_assoc.
Qed.

Lemma lazy_body_end (tail : str) :
  closes tail = true -> lazy_body (125%N :: tail) = Some [].
Proof. intros H. simpl. now rewrite H. Qed.

(** Group 1 of the pattern ends at the brace that [json.dumps] wrote last,
    when no key and no value closes the comment earlier. *)
Lemma lazy_body_members :
  forall more k v tail,
    closes tail = true ->
    has_close k = false -> has_close v = false ->
    Forall (fun kv => has_close (fst kv) = false /\ has_close (snd kv) = false) more ->
    lazy_body (members_tail k v more ++ 125%N :: tail) = Some (members_tail k v more).
Proof.
  induction more as [|[k' v'] more IH]; intros k v tail Hc Hk Hv Hm;
    rewrite members_tail_app; cbn [members_tail];
    rewrite (lazy_body_escaped k _ Hk);
    rewrite (lazy_body_plain chr_quote _ ltac:(discriminate));
    rewrite (lazy_body_plain 58 _ ltac:(discriminate));
    rewrite (lazy_body_plain chr_quote _ ltac:(discriminate));
    rewrite (lazy_body_escaped v _ Hv);
    rewrite (lazy_body_plain chr_quote _ ltac:(discriminate)).
  - cbn [app]. rewrite (lazy_body_end tail Hc). reflexivity.
  - apply Forall_cons_iff in Hm. destruct Hm as [[Hk' Hv'] Hm]. cbn [fst snd] in *.
    cbn [app].
    rewrite (lazy_body_plain 44 _ ltac:(discriminate)).
    rewrite (lazy_body_plain chr_quote _ ltac:(discriminate)).
    rewrite (IH k' v' tail Hc Hk' Hv' Hm). reflexivity.
Qed.

(* ================================================================= *)
(** * The issue body and its metadata *)
(* ================================================================= *)

Section RoundTrip.
Variable I : Interp.

Lemma search_skill_json_here (s g : str) :
  match_skill_json s = Some g -> search_skill_json s = Some g.
Proof.
  intros H. destruct s as [|c s]; [discriminate H|].
  cbn [search_skill_json]. now rewrite H.
Qed.

(** The pattern matched at the start of the first line of a body. *)
Lemma match_skill_json_first_line (y : str) :
  match_skill_json (lit "<!-- operit-skill-json: " ++ 123%N :: y)
  = match lazy_body y with
    | Some t => Some (lit "{" ++ t ++ lit "}")
    | None => None
    end.
Proof. reflexivity. Qed.

Lemma metadata_is_string_object (url version : str) :
  metadata_of url version
  = string_object [ (lit "repositoryUrl", url); (lit "category", []);
                    (lit "tags", []); (lit "version", version) ].
Proof. reflexivity. Qed.

Lemma metadata_keys_distinct (url version : str) :
  NoDup (map fst [ (lit "repositoryUrl", url); (lit "category", @nil N);
                   (lit "tags", []); (lit "version", version) ]).
Proof.
  cbn [map fst].
  repeat (constructor; [cbn [In]; intros H; repeat (destruct H as [H|H]; [revert H; vm_compute; discriminate|]); exact H|]).
  constructor.
Qed.

Lemma join_cons2 (sep a b : str) (r : list str) :
  join sep (a :: b :: r) = a ++ sep ++ join sep (b :: r).
Proof. reflexivity. Qed.

(** The body starts with the metadata comment. *)
Lemma issue_body_shape (description url version now : str) :
  exists rest,
    join nl (issue_body_lines I description url version now)
    = lit "<!-- operit-skill-json: "
      ++ 123%N :: chr_quote
         :: (members_tail (lit "repositoryUrl") url
               [ (lit "category", []); (lit "tags", []); (lit "version", version) ]
             ++ 125%N :: (lit " -->" ++ nl ++ rest)).
Proof.
  unfold issue_body_lines. cbn [app]. rewrite join_cons2.
  match goal with
  | |- context [join nl (?l1 :: ?more)] => exists (join nl (l1 :: more))
  end.
  rewrite metadata_is_string_object.
  rewrite (proj1 (loads_dumps_string_object I _ (metadata_keys_distinct url version))).
  rewrite members_text_cons.
  rewrite <- !app_assoc. cbn [app].
  change (lit "{") with [123%N]. change (lit "}") with [125%N]. cbn [app].
  reflexivity.
Qed.


(** C7, as amended.  For every description, and for every repository URL
    and version that hold no closing brace followed by optional white space
    and [-->], the URL having no white space at either end: the body is
    built, and the extractor finds in it exactly the URL that was passed
    in. *)
Theorem issue_body_round_trip :
  forall description url version w,
    strip url = url ->
    has_close url = false ->
    has_close version = false ->
    exists body w',
      _build_operit_issue_body I description url version w = (Ok body, w')
      /\ _extract_skill_metadata_repo_url I body = url.
Proof.
  intros description url version w Hstrip Hu Hv.
  destruct (issue_body_shape description url version (clock w (ticks w)))
    as [rest Hshape].
  eexists _, _. split; [reflexivity|].
  rewrite Hshape.
  set (members := [ (lit "repositoryUrl", url); (lit "category", []);
                    (lit "tags", []); (lit "version", version) ]).
  set (more := [ (lit "category", @nil N); (lit "tags", []); (lit "version", version) ]).
  assert (Hsearch :
            search_skill_json
              (lit "<!-- operit-skill-json: "
               ++ 123%N :: chr_quote
                  :: (members_tail (lit "repositoryUrl") url more
                      ++ 125%N :: (lit " -->" ++ nl ++ rest)))
            = Some (lit "{" ++ members_text members ++ lit "}")).
  { apply search_skill_json_here. rewrite match_skill_json_first_line.
    rewrite (lazy_body_plain chr_quote _ ltac:(discriminate)).
    rewrite (lazy_body_members more (lit "repositoryUrl") url (lit " -->" ++ nl ++ rest)).
    - unfold members. now rewrite members_text_cons.
    - reflexivity.
    - reflexivity.
    - exact Hu.
    - unfold more. repeat constructor; cbn [fst snd]; try reflexivity. exact Hv. }
  rewrite (extract_unfold I _ _ Hsearch).
  rewrite (proj2 (loads_dumps_string_object I members (metadata_keys_distinct url version))).
  unfold string_object, members. cbn [map fst snd].
  change (py_get (lit "repositoryUrl")
            [ (lit "repositoryUrl", JStr url); (lit "category", JStr []);
              (lit "tags", JStr []); (lit "version", JStr version) ])
    with (JStr url).
  change (py_get (lit "repoUrl")
            [ (lit "repositoryUrl", JStr url); (lit "category", JStr []);
              (lit "tags", JStr []); (lit "version", JStr version) ])
    with JNull.
  destruct url as [|c url']; [reflexivity|exact Hstrip].
Qed.

End RoundTrip.

(** C7 as stated fails: a URL with white space at an end comes back
    stripped, and a closing brace followed by [-->] in the URL or in the
    version ends the metadata early, so that nothing is read back. *)
Lemma round_trip_loses_some_urls :
  read_back ascii_interp (lit "d") (lit "https://github.com/o/r ") (lit "v1") (world_of [])
  = Some (lit "https://github.com/o/r")
  /\ lit "https://github.com/o/r" <> lit "https://github.com/o/r "
  /\ read_back ascii_interp (lit "d") (lit "https://github.com/o/r/tree/main/}-->")
       (lit "v1") (world_of [])
     = Some []
  /\ read_back ascii_interp (lit "d") (lit "https://github.com/o/r") (lit "1} -->")
       (world_of [])
     = Some [].
Proof. vm_compute. repeat split; try reflexivity. discriminate. Qed.

(** C7 (amended) on the URL of the [pdf] skill. *)
Lemma issue_body_round_trip_witness :
  exists body w',
    _build_operit_issue_body ascii_interp (lit "Reads tables.") pdf_url (lit "v1")
      (world_of []) = (Ok body, w')
    /\ _extract_skill_metadata_repo_url ascii_interp body = pdf_url.
Proof.
  apply (issue_body_round_trip ascii_interp (lit "Reads tables.") pdf_url (lit "v1")
           (world_of [])); vm_compute; reflexivity.
Defined.

(* ================================================================= *)
(** * The fuel of the pagination loops is never used up *)
(* ================================================================= *)

Section Fuel.
Variable I : Interp.

Lemma backoff_script (attempt : nat) (w w1 : World) (r : res unit) :
  backoff attempt w = (r, w1) -> script w1 = script w.
Proof.
  unfold backoff. destruct (1024 <=? attempt)%nat; intros H; inversion H; reflexivity.
Qed.

(** A call of [_http_json] that returns has read an answer of the script. *)
Lemma http_attempts_consumes req retries :
  forall remaining attempt last_error w r w1,
    http_attempts I req retries remaining attempt last_error w = (Ok r, w1) ->
    (length (script w1) < length (script w))%nat.
Proof.
  induction remaining as [|remaining IH]; intros attempt last_error w r w1 H.
  - discriminate.
  - simpl in H. unfold bind at 1 in H. unfold urlopen in H.
    destruct (script w) as [|o rest] eqn:Es.
    + (* connections are refused from now on *)
      unfold refused in H.
      destruct (Z.of_nat attempt + 1 <? retries)%Z; [|discriminate].
      unfold bind in H.
      match type of H with
      | context [backoff attempt ?w0] =>
          destruct (backoff attempt w0) as [[[]|e] w2] eqn:Eb; [|discriminate];
          apply backoff_script in Eb
      end.
      apply IH in H. rewrite Eb in H. simpl in H. lia.
    + destruct o as [a|e e_repr|e].
      * destruct (is_success (status a)).
        -- destruct (is_empty (strip (_decode_output a))).
           ++ inversion H. simpl. lia.
           ++ destruct (json_loads (_decode_output a)); [|discriminate].
              inversion H. simpl. lia.
        -- destruct (retryable (status a) && (Z.of_nat attempt + 1 <? retries)%Z)%bool;
             [|discriminate].
           unfold bind in H.
           match type of H with
           | context [backoff attempt ?w0] =>
               destruct (backoff attempt w0) as [[[]|e] w2] eqn:Eb; [|discriminate];
               apply backoff_script in Eb
           end.
           apply IH in H. rewrite Eb in H. simpl in H |- *. lia.
      * destruct (Z.of_nat attempt + 1 <? retries)%Z; [|discriminate].
        unfold bind in H.
        match type of H with
        | context [backoff attempt ?w0] =>
            destruct (backoff attempt w0) as [[[]|e'] w2] eqn:Eb; [|discriminate];
            apply backoff_script in Eb
        end.
        apply IH in H. rewrite Eb in H. simpl in H |- *. lia.
      * discriminate.
Qed.

(** With more fuel than there are answers left, the result of the loop of
    [_iter_issues] does not depend on the fuel: the loop ends before the
    fuel does. *)
Lemma iter_pages_fuel token ctx :
  forall fuel1 fuel2 url out w,
    (length (script w) < fuel1)%nat ->
    (length (script w) < fuel2)%nat ->
    iter_pages I fuel1 token ctx url out w = iter_pages I fuel2 token ctx url out w.
Proof.
  induction fuel1 as [|fuel1 IH]; intros fuel2 url out w H1 H2; [lia|].
  destruct fuel2 as [|fuel2]; [lia|].
  simpl. destruct (is_empty url); [reflexivity|].
  unfold bind.
  destruct (_http_json I url (lit "GET") token ctx None None default_timeout_s
              default_retries w) as [[r|e] w1] eqn:E; [|reflexivity].
  apply http_attempts_consumes in E.
  destruct (fst r); try reflexivity.
  apply IH; lia.
Qed.

Lemma request_json_consumes url token w r w1 :
  List_issues._request_json I url token w = (Ok r, w1) ->
  (length (script w1) < length (script w))%nat.
Proof.
  unfold List_issues._request_json, bind, urlopen.
  destruct (script w) as [|o rest] eqn:Es; [discriminate|].
  destruct o as [a|e e_repr|e]; try discriminate.
  destruct (is_success (status a)); [|discriminate].
  destruct (utf8 a); [|discriminate].
  destruct (json_loads (text a)) as [[]|]; try discriminate.
  intros H. inversion H. simpl. lia.
Qed.

Lemma lister_iter_pages_fuel token :
  forall fuel1 fuel2 url out w,
    (length (script w) < fuel1)%nat ->
    (length (script w) < fuel2)%nat ->
    List_issues.iter_pages I fuel1 token url out w
    = List_issues.iter_pages I fuel2 token url out w.
Proof.
  induction fuel1 as [|fuel1 IH]; intros fuel2 url out w H1 H2; [lia|].
  destruct fuel2 as [|fuel2]; [lia|].
  simpl. destruct (is_empty url); [reflexivity|].
  unfold bind at 1 3.
  destruct (List_issues._request_json I url token w) as [[r|e] w1] eqn:E;
    [|reflexivity].
  apply request_json_consumes in E.
  unfold bind, lift. destruct (List_issues.yield_page I (fst r)); [|reflexivity].
  apply IH; lia.
Qed.

End Fuel.

(* ================================================================= *)
(** * Every run of the client backs off by doubling *)
(* ================================================================= *)

Section Backoff.
Variable I : Interp.

Lemma doubling_backoff_delays (k attempt : nat) : doubling (backoff_delays attempt k).
Proof.
  revert attempt. induction k as [|k IH]; intros attempt; [exact Logic.I|].
  destruct k as [|k]; [exact Logic.I|].
  specialize (IH (S attempt)).
  unfold backoff_delays in *. cbn [seq map doubling] in IH |- *.
  split; [|exact IH].
  rewrite Nat2Z.inj_succ, Z.pow_succ_r by lia.
  assert (0 < 2 ^ Z.of_nat attempt)%Z by (apply Z.pow_pos_nonneg; lia). lia.
Qed.

Lemma sleeps_of_app (a b : list Event) : sleeps_of (a ++ b) = sleeps_of a ++ sleeps_of b.
Proof. unfold sleeps_of. apply flat_map_app. Qed.

Lemma backoff_trace (attempt : nat) (w w1 : World) :
  backoff attempt w = (Ok tt, w1) ->
  sleeps_of (trace w1) = sleeps_of (trace w) ++ [(2 ^ Z.of_nat attempt)%Z].
Proof.
  unfold backoff. destruct (1024 <=? attempt)%nat; [discriminate|].
  intros H. inversion H. unfold trace. simpl. now rewrite sleeps_of_app.
Qed.

Lemma urlopen_sleeps (req : Request) (w : World) :
  sleeps_of (trace (snd (urlopen req w))) = sleeps_of (trace w).
Proof.
  unfold urlopen. destruct (script w); unfold trace; simpl;
    rewrite sleeps_of_app; simpl; now rewrite app_nil_r.
Qed.

(** Whatever the answers, the delays slept by the retry loop started at
    attempt [attempt] are [2^attempt], [2^(attempt+1)], ...: each one is
    twice the one before. *)
Lemma http_attempts_delays req retries :
  forall remaining attempt last_error w,
    exists k,
      sleeps_of (trace (snd (http_attempts I req retries remaining attempt last_error w)))
      = sleeps_of (trace w) ++ backoff_delays attempt k.
Proof.
  induction remaining as [|remaining IH]; intros attempt last_error w.
  - exists 0%nat. simpl. now rewrite app_nil_r.
  - simpl http_attempts. unfold bind at 1.
    pose proof (urlopen_sleeps req w) as Hu.
    destruct (urlopen req w) as [[o|e] w0] eqn:Eo;
      [|exists 0%nat; simpl in *; now rewrite app_nil_r].
    cbn [snd] in Hu.
    assert (Hretry :
              forall le,
              exists k,
                sleeps_of (trace (snd ((backoff attempt ;;;
                                        http_attempts I req retries remaining (S attempt) le) w0)))
                = sleeps_of (trace w) ++ backoff_delays attempt k).
    { intros le. unfold bind.
      destruct (backoff attempt w0) as [[[]|e] w2] eqn:Eb.
      - destruct (IH (S attempt) le w2) as [k Hk]. exists (S k).
        rewrite Hk, (backoff_trace _ _ _ Eb), Hu, <- app_assoc. reflexivity.
      - exists 0%nat. cbn [snd]. unfold backoff in Eb.
        destruct (1024 <=? attempt)%nat; inversion Eb. subst.
        rewrite Hu. simpl. now rewrite app_nil_r. }
    assert (Hstop : forall A (r : res A),
               exists k, sleeps_of (trace (snd (r, w0)))
                         = sleeps_of (trace w) ++ backoff_delays attempt k).
    { intros A r. exists 0%nat. cbn [snd]. rewrite Hu. simpl. now rewrite app_nil_r. }
    destruct o as [a|e e_repr|e].
    + destruct (is_success (status a)).
      * destruct (is_empty (strip (_decode_output a))); [apply Hstop|].
        destruct (json_loads (_decode_output a)); apply Hstop.
      * destruct (retryable (status a) && (Z.of_nat attempt + 1 <? retries)%Z)%bool;
          [apply Hretry|apply Hstop].
    + destruct (Z.of_nat attempt + 1 <? retries)%Z; [apply Hretry|apply Hstop].
    + apply Hstop.
Qed.

(** The delays slept during any call of [_http_json] are 1, 2, 4, ...
    seconds, in this order. *)
Lemma http_json_delays_double url method token ctx payload extra timeout_s retries w :
  exists k,
    sleeps_of (trace (snd (_http_json I url method token ctx payload extra
                             timeout_s retries w)))
    = sleeps_of (trace w) ++ backoff_delays 0 k
    /\ doubling (backoff_delays 0 k).
Proof.
  destruct (http_attempts_delays
              (github_request I url method token ctx payload extra timeout_s)
              retries (Z.to_nat retries) 0 None w) as [k Hk].
  exists k. split; [exact Hk|apply doubling_backoff_delays].
Qed.

End Backoff.

(* ================================================================= *)
(** * The link header *)
(* ================================================================= *)

Lemma startswith_app (s p : str) : startswith s p = true -> exists b, s = p ++ b.
Proof.
  revert s. induction p as [|x p IH]; intros s H.
  - now exists s.
  - destruct s as [|y s]; [discriminate|]. simpl in H.
    apply andb_true_iff in H. destruct H as [E H]. apply N.eqb_eq in E. subst.
    destruct (IH s H) as [b ->]. now exists b.
Qed.

Lemma startswith_refl_app (p b : str) : startswith (p ++ b) p = true.
Proof.
  induction p as [|x p IH]; [now destruct b|]. simpl. now rewrite N.eqb_refl.
Qed.

Lemma contains_infix (n s : str) : contains n s = true <-> infix_of n s.
Proof.
  split.
  - induction s as [|c s IH]; intros H; cbn [contains] in H;
      apply orb_true_iff in H.
    + destruct H as [H|H]; [|discriminate].
      apply startswith_app in H. destruct H as [b Hb]. now exists [], b.
    + destruct H as [H|H].
      * apply startswith_app in H. destruct H as [b Hb]. now exists [], b.
      * destruct (IH H) as [a [b ->]]. now exists (c :: a), b.
  - intros [a [b ->]]. induction a as [|c a IH].
    + change ([] ++ n ++ b) with (n ++ b).
      pose proof (startswith_refl_app n b) as Hs.
      destruct (n ++ b); cbn [contains]; now rewrite Hs.
    + simpl. rewrite IH. apply orb_true_r.
Qed.

Lemma infix_of_trans (x y z : str) : infix_of x y -> infix_of y z -> infix_of x z.
Proof.
  intros [a [b ->]] [c [d ->]]. exists (c ++ a), (b ++ d).
  now rewrite <- !app_assoc.
Qed.

Lemma drop_while_suffix (p : N -> bool) (s : str) :
  exists a, s = a ++ drop_while p s.
Proof.
  induction s as [|c s [a IH]]; [now exists []|].
  simpl. destruct (p c); [|now exists []].
  exists (c :: a). simpl. now rewrite <- IH.
Qed.

Lemma strip_infix (s : str) : infix_of (strip s) s.
Proof.
  unfold strip, strip_by, rstrip_by, lstrip_by.
  destruct (drop_while_suffix is_space s) as [a Ha].
  destruct (drop_while_suffix is_space (rev (drop_while is_space s))) as [b Hb].
  exists a, (rev b).
  rewrite Ha at 1. f_equal.
  rewrite <- (rev_involutive (drop_while is_space s)) at 1.
  rewrite Hb at 1. now rewrite rev_app_distr.
Qed.

Lemma split_head_prefix (sep : N) (s h : str) (t : list str) :
  split sep s = h :: t -> exists b, s = h ++ b.
Proof.
  revert h t. induction s as [|d s IH]; intros h t E; simpl in E.
  - inversion E. now exists [].
  - destruct (d =? sep)%N.
    + inversion E. now exists (d :: s).
    + destruct (split sep s) as [|h' t'] eqn:E'.
      * inversion E. now exists s.
      * inversion E; subst. destruct (IH _ _ eq_refl) as [b ->]. now exists b.
Qed.

Lemma split_infix (sep : N) (s x : str) : In x (split sep s) -> infix_of x s.
Proof.
  revert x. induction s as [|c s IH]; intros x H.
  - simpl in H. destruct H as [<-|[]]. now exists [], [].
  - simpl in H. destruct (c =? sep)%N.
    + destruct H as [<-|H]; [now exists [], (c :: s)|].
      destruct (IH x H) as [a [b ->]]. now exists (c :: a), b.
    + destruct (split sep s) as [|h t] eqn:E.
      * destruct H as [<-|[]]. exists [], s. reflexivity.
      * destruct H as [<-|H].
        -- destruct (split_head_prefix _ _ _ _ E) as [b ->]. now exists [], b.
        -- destruct (IH x (or_intror H)) as [a [b ->]]. now exists (c :: a), b.
Qed.

Lemma first_next_none (parts : list str) :
  (forall p, In p parts ->
             contains rel_next_quoted p = false /\ contains rel_next_bare p = false) ->
  first_next parts = [].
Proof.
  induction parts as [|p parts IH]; intros H; [reflexivity|].
  simpl. destruct (H p (or_introl eq_refl)) as [-> ->]. simpl.
  apply IH. intros q Hq. apply H. now right.
Qed.

(** A link header that holds neither [rel="next"] nor [rel=next] names no
    next page: the loop of [_iter_issues] stops there. *)
Lemma parse_link_next_without_rel (link_header : str) :
  contains rel_next_quoted link_header = false ->
  contains rel_next_bare link_header = false ->
  _parse_link_next link_header = [].
Proof.
  intros Hq Hb. unfold _parse_link_next.
  destruct (is_empty link_header); [reflexivity|].
  apply first_next_none. intros p Hp.
  apply in_map_iff in Hp. destruct Hp as [x [<- Hx]].
  apply split_infix in Hx.
  pose proof (infix_of_trans _ _ _ (strip_infix x) Hx) as Hi.
  split.
  - destruct (contains rel_next_quoted (strip x)) eqn:E; [|reflexivity].
    apply contains_infix in E.
    pose proof (proj2 (contains_infix _ _) (infix_of_trans _ _ _ E Hi)). congruence.
  - destruct (contains rel_next_bare (strip x)) eqn:E; [|reflexivity].
    apply contains_infix in E.
    pose proof (proj2 (contains_infix _ _) (infix_of_trans _ _ _ E Hi)). congruence.
Qed.

Lemma split_no_sep (sep : N) (a : str) : ~ In sep a -> split sep a = [a].
Proof.
  induction a as [|c a IH]; intros H; [reflexivity|].
  simpl. destruct (N.eqb_spec c sep) as [->|_]; [destruct H; now left|].
  rewrite IH; [reflexivity|]. intros Hi. apply H. now right.
Qed.

Lemma split_app_sep (sep : N) (a r : str) :
  ~ In sep a -> split sep (a ++ sep :: r) = a :: split sep r.
Proof.
  induction a as [|c a IH]; intros H.
  - simpl. now rewrite N.eqb_refl.
  - simpl. destruct (N.eqb_spec c sep) as [->|_]; [destruct H; now left|].
    rewrite IH; [reflexivity|]. intros Hi. apply H. now right.
Qed.

Lemma until_gt_app (u r : str) :
  ~ In 62%N u -> until_gt (u ++ 62%N :: r) = Some (u, r).
Proof.
  induction u as [|c u IH]; intros H; [reflexivity|].
  simpl. destruct (N.eqb_spec c 62) as [->|_]; [destruct H; now left|].
  rewrite IH; [reflexivity|]. intros Hi. apply H. now right.
Qed.

Lemma strip_between (c d : N) (m : str) :
  is_space c = false -> is_space d = false ->
  strip (c :: m ++ [d]) = c :: m ++ [d].
Proof.
  intros Hc Hd. unfold strip, strip_by, rstrip_by, lstrip_by.
  cbn [drop_while]. rewrite Hc.
  change (c :: m ++ [d]) with ((c :: m) ++ [d]).
  rewrite rev_app_distr. change (rev [d]) with [d].
  change ([d] ++ rev (c :: m)) with (d :: rev (c :: m)).
  cbn [drop_while]. rewrite Hd.
  change (d :: rev (c :: m)) with (rev [d] ++ rev (c :: m)).
  now rewrite <- rev_app_distr, rev_involutive.
Qed.

Lemma next_entry_parts (url : str) :
  next_entry url = 60%N :: (url ++ 62%N :: lit "; rel=" ++ 34%N :: lit "next") ++ [34%N].
Proof. unfold next_entry. now rewrite <- app_assoc. Qed.

Lemma first_next_entry (url : str) (rest : list str) :
  url <> [] -> ~ In 62%N url ->
  first_next (strip (next_entry url) :: rest) = url.
Proof.
  intros Hne Hgt.
  rewrite next_entry_parts, strip_between by reflexivity.
  rewrite <- next_entry_parts.
  cbn [first_next].
  assert (Hc : contains rel_next_quoted (next_entry url) = true).
  { apply contains_infix. exists (60%N :: url ++ 62%N :: lit "; "), [].
    unfold next_entry. rewrite app_nil_r.
    change (60%N :: url ++ 62%N :: lit "; " ++ rel_next_quoted)
      with (60%N :: url ++ (62%N :: lit "; ") ++ rel_next_quoted).
    now rewrite app_comm_cons, app_assoc. }
  rewrite Hc. cbn [orb].
  unfold next_entry. cbn [search_angle]. rewrite N.eqb_refl.
  rewrite until_gt_app by assumption.
  destruct url; [congruence|reflexivity].
Qed.

(** A header whose first entry is [<url>; rel="next"], alone or followed by
    further entries, names [url] as the next page. *)
Lemma parse_link_next_entry (url : str) :
  url <> [] -> ~ In 62%N url -> ~ In chr_comma url ->
  _parse_link_next (next_entry url) = url
  /\ forall more, _parse_link_next (next_entry url ++ chr_comma :: more) = url.
Proof.
  intros Hne Hgt Hcomma.
  assert (Hn : ~ In chr_comma (next_entry url)).
  { unfold next_entry. intros [H|H]; [discriminate|].
    apply in_app_or in H. destruct H as [H|H]; [now apply Hcomma|].
    vm_compute in H. intuition discriminate. }
  split; [|intros more]; unfold _parse_link_next.
  - change (is_empty (next_entry url)) with false. cbn iota.
    rewrite split_no_sep by assumption. now apply first_next_entry.
  - change (is_empty (next_entry url ++ chr_comma :: more)) with false. cbn iota.
    rewrite split_app_sep by assumption. cbn [map]. now apply first_next_entry.
Qed.

(** The issue lister reads the header with the same function. *)
Lemma lister_parse_link_next_same (link_header : str) :
  List_issues._parse_link_next link_header = _parse_link_next link_header.
Proof. reflexivity. Qed.

Example parse_link_next_middle :
  _parse_link_next
    (qlit "<https://api.github.com/r?page=1>; rel='prev', <https://api.github.com/r?page=3>; rel='next', <https://api.github.com/r?page=9>; rel='last'")
  = lit "https://api.github.com/r?page=3".
Proof. vm_compute. reflexivity. Qed.

(** Pages without a next entry end the listing. *)
Lemma page_without_rel_is_last (I : Interp) (a : Answer) :
  let h := headers_get (lit "link") [] (lower_keys I (headers a)) in
  contains rel_next_quoted h = false ->
  contains rel_next_bare h = false ->
  page_next I a = [].
Proof. intros h Hq Hb. now apply parse_link_next_without_rel. Qed.

(* ================================================================= *)
(** * A whole dry run *)
(* ================================================================= *)

(** With the two folders [xlsx] and [pdf] under the source root, a dry run
    with [--limit 1] plans one issue, for [pdf], the first name in sorted
    order, sends no request to the target repository and ends with
    status 0. *)
Example dry_run_limit_one :
  let w := world_of [root_listing; folder_listing; raw_file; completion] in
  let r := main ascii_interp (dry_limit_args 1) example_environ w in
  fst r = Ok 0%Z
  /\ map rq_url (requests_of (trace (snd r)))
     = [ lit "https://api.github.com/repos/anthropics/skills/contents/skills?ref=main";
         lit "https://api.github.com/repos/anthropics/skills/contents/skills/pdf?ref=main";
         lit "https://raw.example/SKILL.md";
         lit "https://ai.example/v1/chat/completions" ]
  /\ prints_of (trace (snd r))
     = [ lit "[dry-run] create issue: pdf | https://github.com/anthropics/skills/tree/main/skills/pdf";
         lit "Done. created=1 skipped=0 failed=0" ].
Proof. vm_compute. repeat split; reflexivity. Qed.

(* ================================================================= *)
(** * Stripping and collapsing white space *)
(* ================================================================= *)

Section Stripping.
Variable p : N -> bool.

Lemma drop_while_app (l m : str) :
  drop_while p (l ++ m)
  = match drop_while p l with
    | [] => drop_while p m
    | c :: u => (c :: u) ++ m
    end.
Proof.
  induction l as [|c l IH]; [reflexivity|].
  simpl. destruct (p c); [exact IH|reflexivity].
Qed.

Lemma drop_while_idem (s : str) : drop_while p (drop_while p s) = drop_while p s.
Proof.
  induction s as [|c s IH]; [reflexivity|].
  simpl. destruct (p c) eqn:E; [exact IH|]. simpl. now rewrite E.
Qed.

Lemma drop_while_head (s : str) (c : N) (r : str) :
  drop_while p s = c :: r -> p c = false.
Proof.
  induction s as [|d s IH]; [discriminate|].
  simpl. destruct (p d) eqn:E; [exact IH|]. intros H. now inversion H; subst.
Qed.

Lemma drop_while_length (s : str) : (length (drop_while p s) <= length s)%nat.
Proof.
  induction s as [|c s IH]; [simpl; lia|].
  simpl. destruct (p c); simpl; lia.
Qed.

(** [rstrip] read from the left. *)
Lemma rstrip_by_cons (c : N) (r : str) :
  rstrip_by p (c :: r)
  = if (is_empty (rstrip_by p r) && p c)%bool then [] else c :: rstrip_by p r.
Proof.
  unfold rstrip_by. cbn [rev]. rewrite drop_while_app.
  destruct (drop_while p (rev r)) as [|d u] eqn:E.
  - cbn [rev is_empty andb drop_while]. now destruct (p c).
  - rewrite rev_app_distr. change (rev [c]) with [c].
    remember (rev (d :: u)) as x eqn:E2. destruct x as [|x y].
    + apply (f_equal (@length N)) in E2. rewrite length_rev in E2. discriminate.
    + reflexivity.
Qed.

Lemma rstrip_by_nil : rstrip_by p [] = [].
Proof. reflexivity. Qed.

Lemma rstrip_by_solid_head (c : N) (r : str) :
  p c = false -> rstrip_by p (c :: r) = c :: rstrip_by p r.
Proof. intros H. rewrite rstrip_by_cons, H. now rewrite andb_false_r. Qed.

Lemma rstrip_by_length (s : str) : (length (rstrip_by p s) <= length s)%nat.
Proof.
  unfold rstrip_by. rewrite length_rev.
  etransitivity; [apply drop_while_length|]. now rewrite length_rev.
Qed.

Lemma rstrip_by_idem (s : str) : rstrip_by p (rstrip_by p s) = rstrip_by p s.
Proof.
  unfold rstrip_by. now rewrite rev_involutive, drop_while_idem.
Qed.

Lemma strip_by_solid_head (c : N) (r : str) :
  p c = false -> strip_by p (c :: r) = c :: rstrip_by p r.
Proof.
  intros H. unfold strip_by, lstrip_by. cbn [drop_while]. rewrite H.
  now apply rstrip_by_solid_head.
Qed.

(** What [strip] returns is empty or starts with a character that is kept. *)
Lemma strip_by_head (s : str) (c : N) (r : str) :
  strip_by p s = c :: r -> p c = false.
Proof.
  unfold strip_by, lstrip_by.
  destruct (drop_while p s) as [|d u] eqn:E; [discriminate|].
  pose proof (drop_while_head _ _ _ E) as Hd.
  rewrite (rstrip_by_solid_head _ _ Hd). intros H. now inversion H; subst.
Qed.

Lemma strip_by_idem (s : str) : strip_by p (strip_by p s) = strip_by p s.
Proof.
  destruct (strip_by p s) as [|c r] eqn:E; [reflexivity|].
  pose proof (strip_by_head _ _ _ E) as Hc.
  rewrite (strip_by_solid_head _ _ Hc).
  assert (H : rstrip_by p (strip_by p s) = strip_by p s)
    by (unfold strip_by; apply rstrip_by_idem).
  rewrite E, (rstrip_by_solid_head _ _ Hc) in H. exact H.
Qed.

Lemma strip_by_length (s : str) : (length (strip_by p s) <= length s)%nat.
Proof.
  unfold strip_by, lstrip_by.
  etransitivity; [apply rstrip_by_length|apply drop_while_length].
Qed.

End Stripping.

Lemma strip_idem (s : str) : strip (strip s) = strip s.
Proof. apply strip_by_idem. Qed.

(** ** Runs of white space *)

Lemma spaced_collapse (s : str) :
  forall b,
    match s with [] => b = false | _ :: _ => rstrip s = s end ->
    spaced_from b (collapse_ws_from b s) = true.
Proof.
  induction s as [|c r IH]; intros b H.
  - subst b. reflexivity.
  - assert (Hr : match r with [] => is_space c = false | _ :: _ => rstrip r = r end).
    { unfold rstrip in *. rewrite rstrip_by_cons in H.
      destruct (is_empty (rstrip_by is_space r) && is_space c)%bool eqn:E;
        [discriminate|].
      destruct r as [|d r']; [exact E|].
      injection H as H1. exact H1. }
    cbn [collapse_ws_from]. destruct (is_space c) eqn:Ec.
    + destruct r as [|d r']; [discriminate|].
      destruct b.
      * apply IH. exact Hr.
      * cbn [spaced_from]. change (is_space chr_space) with true. cbn iota.
        change (chr_space =? 32)%N with true. cbn [andb negb].
        apply IH. exact Hr.
    + cbn [spaced_from]. rewrite Ec. apply IH.
      destruct r as [|d r']; [reflexivity|exact Hr].
Qed.

Lemma evenly_spaced_collapse_strip (s : str) :
  evenly_spaced (collapse_ws (strip s)) = true.
Proof.
  destruct (strip s) as [|c r] eqn:E; [reflexivity|].
  pose proof (strip_by_head _ _ _ _ E) as Hc.
  assert (Hs : rstrip (c :: r) = c :: r).
  { rewrite <- E. unfold strip, strip_by, rstrip. apply rstrip_by_idem. }
  unfold collapse_ws. cbn [collapse_ws_from]. rewrite Hc.
  unfold evenly_spaced. cbn [spaced_from]. rewrite Hc.
  apply spaced_collapse.
  unfold rstrip in *. rewrite (rstrip_by_solid_head _ _ _ Hc) in Hs.
  inversion Hs as [H1]. rewrite H1.
  destruct r; [reflexivity|]. exact H1.
Qed.

(** A prefix of an evenly spaced text, once stripped on the right, is
    evenly spaced. *)
Lemma spaced_prefix (t : str) :
  forall b n,
    spaced_from b t = true ->
    rstrip (firstn n t) = [] \/ spaced_from b (rstrip (firstn n t)) = true.
Proof.
  induction t as [|c r IH]; intros b n H.
  - left. now destruct n.
  - destruct n as [|n]; [now left|].
    cbn [firstn]. unfold rstrip. rewrite rstrip_by_cons.
    fold (rstrip (firstn n r)).
    cbn [spaced_from] in H. destruct (is_space c) eqn:Ec.
    + apply andb_true_iff in H. destruct H as [H Hr].
      apply andb_true_iff in H. destruct H as [H32 Hb].
      destruct (IH true n Hr) as [E|E].
      * left. rewrite E. reflexivity.
      * right. destruct (rstrip (firstn n r)) as [|d u] eqn:Eu; [discriminate|].
        cbn [is_empty andb spaced_from]. rewrite Ec, H32, Hb. exact E.
    + right. rewrite andb_false_r. cbn [spaced_from]. rewrite Ec.
      destruct (IH false n H) as [E|E]; [now rewrite E|exact E].
Qed.

Lemma collapse_ws_length (s : str) :
  forall b, (length (collapse_ws_from b s) <= length s)%nat.
Proof.
  induction s as [|c r IH]; intros b; [simpl; lia|].
  pose proof (IH true). pose proof (IH false).
  cbn [collapse_ws_from]. destruct (is_space c); [destruct b|]; cbn [length]; lia.
Qed.

Lemma spaced_rstrip (t : str) :
  forall b, spaced_from b t = true -> t <> [] -> rstrip t = t.
Proof.
  induction t as [|c r IH]; intros b H Hne; [congruence|].
  unfold rstrip. rewrite rstrip_by_cons. fold (rstrip r).
  cbn [spaced_from] in H.
  destruct r as [|d r'].
  - destruct (is_space c) eqn:Ec; [|now rewrite andb_false_r].
    cbn [spaced_from] in H. rewrite andb_false_r in H. discriminate.
  - assert (Hr : rstrip (d :: r') = d :: r').
    { destruct (is_space c).
      - apply andb_true_iff in H. destruct H as [_ H]. now apply (IH true).
      - now apply (IH false). }
    rewrite Hr. reflexivity.
Qed.

Lemma spaced_replace (a : N) (t : str) :
  is_space a = true ->
  forall b, spaced_from b t = true -> replace_chr a chr_space t = t.
Proof.
  intros Ha. induction t as [|c r IH]; intros b H; [reflexivity|].
  cbn [spaced_from] in H. unfold replace_chr in *. cbn [map].
  destruct (is_space c) eqn:Ec.
  - apply andb_true_iff in H. destruct H as [H Hr].
    apply andb_true_iff in H. destruct H as [H32 _]. apply N.eqb_eq in H32.
    rewrite (IH true Hr). subst c. now destruct (32 =? a)%N.
  - rewrite (IH false H).
    destruct (N.eqb_spec c a) as [->|_]; [congruence|reflexivity].
Qed.

Lemma spaced_collapse_fixed (t : str) :
  forall b, spaced_from b t = true -> collapse_ws_from b t = t.
Proof.
  induction t as [|c r IH]; intros b H; [reflexivity|].
  cbn [spaced_from] in H. cbn [collapse_ws_from].
  destruct (is_space c) eqn:Ec.
  - apply andb_true_iff in H. destruct H as [H Hr].
    apply andb_true_iff in H. destruct H as [H32 Hb]. apply N.eqb_eq in H32.
    destruct b; [discriminate|]. rewrite (IH true Hr). now subst c.
  - now rewrite (IH false H).
Qed.

(* ================================================================= *)
(** * Issue titles *)
(* ================================================================= *)

Lemma replace_solid_head (a c : N) (r : str) :
  is_space a = true -> is_space c = false ->
  replace_chr a chr_space (c :: r) = c :: replace_chr a chr_space r.
Proof.
  intros Ha Hc. unfold replace_chr. cbn [map].
  destruct (N.eqb_spec c a) as [->|_]; [congruence|reflexivity].
Qed.

(** The title before it is cut to 120 characters starts with a character
    that is not white space, and is evenly spaced. *)
Lemma safe_title_uncut (base suffix : str) :
  let t := strip base in
  let t := if is_empty t then lit "Untitled Skill" else t in
  let t := if is_empty suffix then t
           else if endswith t suffix then t else t ++ suffix in
  let t := collapse_ws (strip (replace_chr chr_newline chr_space
                                 (replace_chr chr_cr chr_space t))) in
  (exists c r, t = c :: r /\ is_space c = false) /\ evenly_spaced t = true.
Proof.
  intros t0 t1 t2 t3. split; [|apply evenly_spaced_collapse_strip].
  assert (H1 : exists c r, t1 = c :: r /\ is_space c = false).
  { subst t1. destruct t0 as [|c r] eqn:E.
    - cbn [is_empty]. now exists 85%N, (lit "ntitled Skill").
    - exists c, r. split; [reflexivity|]. exact (strip_by_head _ _ _ _ E). }
  assert (H2 : exists c r, t2 = c :: r /\ is_space c = false).
  { destruct H1 as [c [r [E Hc]]]. subst t2. rewrite E.
    destruct (is_empty suffix); [now exists c, r|].
    destruct (endswith (c :: r) suffix); [now exists c, r|].
    now exists c, (r ++ suffix). }
  destruct H2 as [c [r [E Hc]]]. subst t3. rewrite E.
  rewrite (replace_solid_head chr_cr c r eq_refl Hc).
  rewrite (replace_solid_head chr_newline c _ eq_refl Hc).
  unfold strip. rewrite (strip_by_solid_head _ _ _ Hc).
  unfold collapse_ws. cbn [collapse_ws_from]. rewrite Hc.
  eexists _, _. split; [reflexivity|exact Hc].
Qed.

Lemma safe_title_shape (base suffix : str) :
  exists c r,
    _safe_title base suffix = c :: r /\ is_space c = false
    /\ (length (c :: r) <= 120)%nat /\ spaced_from true (c :: r) = true.
Proof.
  unfold _safe_title.
  destruct (safe_title_uncut base suffix) as [[c [r [E Hc]]] Hs].
  cbv zeta in E, Hs. rewrite E in *. clear E.
  destruct (120 <? length (c :: r))%nat eqn:El.
  - change (firstn 120 (c :: r)) with (c :: firstn 119 r).
    unfold rstrip. rewrite (rstrip_by_solid_head _ _ _ Hc).
    exists c, (rstrip_by is_space (firstn 119 r)).
    split; [reflexivity|]. split; [exact Hc|]. split.
    + cbn [length]. pose proof (rstrip_by_length is_space (firstn 119 r)).
      pose proof (firstn_le_length 119 r). lia.
    + destruct (spaced_prefix (c :: r) true 120 Hs) as [H|H].
      * change (firstn 120 (c :: r)) with (c :: firstn 119 r) in H.
        unfold rstrip in H. rewrite (rstrip_by_solid_head _ _ _ Hc) in H.
        discriminate.
      * change (firstn 120 (c :: r)) with (c :: firstn 119 r) in H.
        unfold rstrip in H. now rewrite (rstrip_by_solid_head _ _ _ Hc) in H.
  - apply Nat.ltb_ge in El. now exists c, r.
Qed.

(** X1: the title is never empty, has at most 120 characters, no white
    space at its ends, and no white space inside other than single
    spaces; in particular it holds no line break. *)
Theorem safe_title_is_tidy :
  forall base suffix,
    let t := _safe_title base suffix in
    t <> [] /\ (length t <= 120)%nat /\ evenly_spaced t = true.
Proof.
  intros base suffix t. subst t.
  destruct (safe_title_shape base suffix) as [c [r [E [Hc [Hl Hs]]]]].
  rewrite E. split; [discriminate|]. split; [exact Hl|exact Hs].
Qed.

(** X2: a title is left as it is when it is made into a title again. *)
Theorem safe_title_is_idempotent :
  forall base suffix,
    _safe_title (_safe_title base suffix) [] = _safe_title base suffix.
Proof.
  intros base suffix.
  destruct (safe_title_shape base suffix) as [c [r [E [Hc [Hl Hs]]]]].
  rewrite E. unfold _safe_title.
  assert (Hr : rstrip (c :: r) = c :: r)
    by (apply (spaced_rstrip _ true Hs); discriminate).
  assert (Hst : strip (c :: r) = c :: r).
  { unfold strip. rewrite (strip_by_solid_head _ _ _ Hc).
    unfold rstrip in Hr. now rewrite (rstrip_by_solid_head _ _ _ Hc) in Hr. }
  rewrite Hst. cbn [is_empty].
  rewrite (spaced_replace chr_cr (c :: r) eq_refl true Hs).
  rewrite (spaced_replace chr_newline (c :: r) eq_refl true Hs).
  rewrite Hst.
  assert (Hcw : collapse_ws (c :: r) = c :: r).
  { unfold collapse_ws. cbn [collapse_ws_from]. rewrite Hc.
    cbn [spaced_from] in Hs. rewrite Hc in Hs.
    now rewrite (spaced_collapse_fixed r false Hs). }
  rewrite Hcw. apply Nat.ltb_ge in Hl. now rewrite Hl.
Qed.

(* ================================================================= *)
(** * The summary request *)
(* ================================================================= *)

Section Summary.
Variable I : Interp.

Lemma urlopen_log (req : Request) (w : World) :
  exists o, urlopen req w = (Ok o, snd (urlopen req w))
            /\ log (snd (urlopen req w)) = EvRequest req :: log w.
Proof. unfold urlopen. destruct (script w); eexists; split; reflexivity. Qed.

(** [_openai_chat_completion] sends its request once and does nothing
    else, whatever the answer. *)
Lemma chat_completion_log (base_url api_key : str) (payload : json) (w : World) :
  log (snd (_openai_chat_completion I base_url api_key payload w))
  = EvRequest {| rq_url := rstrip_chars (lit "/") base_url
                           ++ lit "/v1/chat/completions";
                 rq_method := lit "POST";
                 rq_headers := [ (lit "Content-Type", lit "application/json");
                                 (lit "Authorization", lit "Bearer " ++ api_key) ];
                 rq_data := Some payload;
                 rq_timeout := 120;
                 rq_context := None |} :: log w.
Proof.
  unfold _openai_chat_completion, bind.
  match goal with |- context [urlopen ?r w] =>
    destruct (urlopen_log r w) as [o [E El]]; rewrite E end.
  destruct o as [a|e er|e]; [|exact El|exact El].
  destruct (is_success (status a)); [|exact El].
  destruct (utf8 a); [|exact El].
  destruct (json_loads (text a)); exact El.
Qed.

Lemma generate_description_steps ai_base_url ai_api_key ai_model ai_temperature
    skill_name source_repo_url md_file_name md_content w :
  exists user_prompt,
    log (snd (_ai_generate_description I ai_base_url ai_api_key ai_model ai_temperature
                skill_name source_repo_url md_file_name md_content w))
    = EvRequest (summary_request ai_base_url ai_api_key ai_model ai_temperature
                   user_prompt) :: log w
    /\ _ai_generate_description I ai_base_url ai_api_key ai_model ai_temperature
         skill_name source_repo_url md_file_name md_content w
       = (out <- (resp <- _openai_chat_completion I ai_base_url ai_api_key
                            (JObj [ (lit "model", JStr ai_model);
                                    (lit "temperature", ai_temperature);
                                    (lit "messages",
                                     JArr [ JObj [(lit "role", JStr (lit "system"));
                                                  (lit "content", JStr system_prompt)];
                                            JObj [(lit "role", JStr (lit "user"));
                                                  (lit "content", JStr user_prompt)] ]) ]) ;;
                  lift (_extract_ai_text I resp)) ;;
          ret (collapse_ws (strip (replace_chr chr_newline chr_space
                                     (replace_chr chr_cr chr_space out))))) w.
Proof.
  unfold _ai_generate_description. cbv zeta.
  match goal with |- context [TPrompt ?a ?b ?c ?d] =>
    exists (strip (text_of I (TPrompt a b c d))) end.
  split.
  - match goal with |- context [_openai_chat_completion I ?b ?k ?p] =>
      pose proof (chat_completion_log b k p w) as Hl;
      destruct (_openai_chat_completion I b k p w) as [[resp|e] w1] eqn:E end;
      unfold bind; rewrite E; cbn [snd] in Hl |- *; [|exact Hl].
    unfold lift. destruct (_extract_ai_text I resp) as [out|e]; exact Hl.
  - unfold bind.
    match goal with |- context [_openai_chat_completion I ?b ?k ?p w] =>
      destruct (_openai_chat_completion I b k p w) as [[resp|e] w1] end;
      [|reflexivity].
    unfold lift. destruct (_extract_ai_text I resp); reflexivity.
Qed.


(** X3: when a description is returned, it has no white space at its ends
    and none inside other than single spaces (so no line break). *)
Theorem description_is_evenly_spaced :
  forall ai_base_url ai_api_key ai_model ai_temperature
         skill_name source_repo_url md_file_name md_content w d w',
    _ai_generate_description I ai_base_url ai_api_key ai_model ai_temperature
      skill_name source_repo_url md_file_name md_content w = (Ok d, w') ->
    evenly_spaced d = true.
Proof.
  intros b k m t n u f c w d w' H.
  destruct (generate_description_steps b k m t n u f c w) as [p [_ E]].
  rewrite E in H. unfold bind at 1 in H.
  match type of H with
  | (match ?x with _ => _ end) = _ => destruct x as [[out|e] w1]
  end; [|discriminate].
  injection H as <- _. apply evenly_spaced_collapse_strip.
Qed.


End Summary.

Lemma description_is_evenly_spaced_witness :
  let r := _ai_generate_description ascii_interp (lit "https://ai.example/")
             (lit "k3y") (lit "gpt-4o-mini") (JFloat (lit "0.2"))
             (lit "xlsx") (lit "https://github.com/anthropics/skills/tree/main/skills/xlsx")
             (lit "SKILL.md") (lit "# A skill") (world_of [completion]) in
  fst r = Ok (lit "Reads tables.")
  /\ evenly_spaced (lit "Reads tables.") = true.
Proof.
  intros r. split; [vm_compute; reflexivity|].
  apply (description_is_evenly_spaced ascii_interp (lit "https://ai.example/")
           (lit "k3y") (lit "gpt-4o-mini") (JFloat (lit "0.2"))
           (lit "xlsx") (lit "https://github.com/anthropics/skills/tree/main/skills/xlsx")
           (lit "SKILL.md") (lit "# A skill") (world_of [completion])
           (lit "Reads tables.") (snd r)).
  vm_compute. reflexivity.
Defined.


(* ================================================================= *)
(** * The labels of the command line *)
(* ================================================================= *)

Lemma split_pieces_without_sep (sep : N) (s x : str) :
  In x (split sep s) -> ~ In sep x.
Proof.
  revert x. induction s as [|c s IH]; intros x H.
  - simpl in H. destruct H as [<-|[]]. intros [].
  - simpl in H. destruct (N.eqb_spec c sep) as [->|Hne].
    + destruct H as [<-|H]; [intros []|now apply IH].
    + destruct (split sep s) as [|h t] eqn:E.
      * destruct H as [<-|[]]. intros [Hc|[]]. congruence.
      * destruct H as [<-|H].
        -- intros [Hc|Hc]; [congruence|]. revert Hc. apply IH. now left.
        -- apply IH. now right.
Qed.

Lemma infix_of_In (x s : str) (c : N) : infix_of x s -> In c x -> In c s.
Proof.
  intros [a [b ->]] H. apply in_or_app. right. apply in_or_app. now left.
Qed.

(** X5: every label taken from [--labels] is non-empty, has no white space
    at its ends and holds no comma. *)
Theorem labels_are_clean :
  forall args l,
    In l (labels_of args) ->
    l <> [] /\ strip l = l /\ ~ In chr_comma l.
Proof.
  intros args l H. unfold labels_of in H.
  apply filter_In in H. destruct H as [H Hne].
  apply in_map_iff in H. destruct H as [x [<- Hx]].
  split; [|split].
  - intros E. rewrite E in Hne. discriminate.
  - apply strip_idem.
  - intros Hc. apply (split_pieces_without_sep _ _ _ Hx).
    exact (infix_of_In _ _ _ (strip_infix x) Hc).
Qed.

Lemma labels_are_clean_witness :
  let args := only_limit_args [] 0 in
  labels_of args = [lit "skill-plugin"; lit "imported"]
  /\ lit "imported" <> [] /\ strip (lit "imported") = lit "imported"
  /\ ~ In chr_comma (lit "imported").
Proof.
  intros args. split; [reflexivity|].
  apply (labels_are_clean args (lit "imported")).
  right. left. reflexivity.
Defined.

(* ================================================================= *)
(** * The retry loop on network failures, and its budget *)
(* ================================================================= *)

Section RetryBudget.
Variable I : Interp.

Lemma http_attempts_last_net req retries remaining attempt last_error e e_repr rest w :
  script w = NetFail e e_repr :: rest ->
  (Z.of_nat attempt + 1 <? retries)%Z = false ->
  http_attempts I req retries (S remaining) attempt last_error w
  = (Raise (network_error (Some e_repr)), logged [EvRequest req] rest w).
Proof.
  intros Hs Hr. cbn [http_attempts]. unfold bind.
  rewrite (urlopen_next req _ _ w Hs). now rewrite Hr.
Qed.

Lemma http_attempts_net_exhausted req retries :
  forall failures attempt last_error rest w,
    failures <> [] ->
    Z.of_nat (attempt + length failures) = retries ->
    (attempt + length failures <= 1024)%nat ->
    script w = map (fun f => NetFail (fst f) (snd f)) failures ++ rest ->
    http_attempts I req retries (length failures) attempt last_error w
    = (Raise (network_error (Some (snd (last failures (RuntimeError [], []))))),
       logged (retry_events req attempt (length failures)) rest w).
Proof.
  induction failures as [|f failures IH]; intros attempt last_error rest w Hne Hn Hb Hs.
  - congruence.
  - destruct failures as [|f' failures'].
    + change (length [f]) with 1%nat. simpl in Hs, Hn, Hb.
      rewrite (http_attempts_last_net req _ 0 attempt last_error _ _ rest w Hs).
      * reflexivity.
      * apply Z.ltb_ge. lia.
    + change (length (f :: f' :: failures')) with (S (length (f' :: failures'))).
      rewrite (http_attempts_retry_net I req _ _ attempt last_error _ _
                 (map (fun f => NetFail (fst f) (snd f)) (f' :: failures') ++ rest)
                 w Hs).
      * rewrite (IH (S attempt) (Some (snd f)) rest).
        -- rewrite logged_logged. reflexivity.
        -- discriminate.
        -- simpl in *. lia.
        -- simpl in *. lia.
        -- apply script_logged.
      * simpl in *. lia.
      * simpl in *. lia.
Qed.

Lemma retry_events_requests (req : Request) (n : nat) :
  forall attempt, requests_of (retry_events req attempt n) = repeat req n.
Proof.
  induction n as [|n IH]; intros attempt; [reflexivity|].
  destruct n as [|n]; [reflexivity|].
  change (retry_events req attempt (S (S n)))
    with (EvRequest req :: EvSleep (2 ^ Z.of_nat attempt)
            :: retry_events req (S attempt) (S n)).
  cbn [requests_of flat_map app]. fold (requests_of (retry_events req (S attempt) (S n))).
  now rewrite IH.
Qed.

Lemma retry_events_sleeps (req : Request) (n : nat) :
  forall attempt,
    sleeps_of (retry_events req attempt n) = backoff_delays attempt (n - 1).
Proof.
  induction n as [|n IH]; intros attempt; [reflexivity|].
  destruct n as [|n]; [reflexivity|].
  change (retry_events req attempt (S (S n)))
    with (EvRequest req :: EvSleep (2 ^ Z.of_nat attempt)
            :: retry_events req (S attempt) (S n)).
  cbn [sleeps_of flat_map app]. fold (sleeps_of (retry_events req (S attempt) (S n))).
  rewrite IH. replace (S (S n) - 1)%nat with (S (S n - 1)) by lia.
  reflexivity.
Qed.

(** X6: when every attempt of the budget fails at the network level, all
    the attempts are made, with the back-off sleeps in between, and the
    error raised at the end quotes the last failure.  The budget is at
    most 35: the longest delay is then [2^33] seconds, the last one that
    [time.sleep] accepts. *)
Theorem http_json_network_failures :
  forall url method token ctx payload extra timeout_s retries failures rest w,
    (0 < retries <= 35)%Z ->
    length failures = Z.to_nat retries ->
    script w = map (fun f => NetFail (fst f) (snd f)) failures ++ rest ->
    let req := github_request I url method token ctx payload extra timeout_s in
    let evs := retry_events req 0 (length failures) in
    _http_json I url method token ctx payload extra timeout_s retries w
    = (Raise (network_error (Some (snd (last failures (RuntimeError [], []))))),
       logged evs rest w)
    /\ requests_of evs = repeat req (Z.to_nat retries)
    /\ sleeps_of evs = backoff_delays 0 (Z.to_nat retries - 1).
Proof.
  intros url method token ctx payload extra timeout_s retries failures rest w
         Hr Hlen Hs req evs.
  split; [|split].
  - unfold _http_json. fold req. rewrite <- Hlen.
    apply http_attempts_net_exhausted.
    + intros E. rewrite E in Hlen. simpl in Hlen. lia.
    + simpl. lia.
    + simpl. lia.
    + exact Hs.
  - subst evs. rewrite Hlen. apply retry_events_requests.
  - subst evs. rewrite Hlen. apply retry_events_sleeps.
Qed.

End RetryBudget.

Lemma http_json_network_failures_witness :
  let down := (RuntimeError (lit "timed out"), lit "TimeoutError('timed out')") in
  let w := world_of [NetFail (fst down) (snd down); NetFail (fst down) (snd down);
                     NetFail (fst down) (snd down)] in
  let ctx := _build_ssl_context false false in
  let r := _http_json ascii_interp (lit "https://api.github.com/x") (lit "GET")
             (lit "t") ctx None None 60 3 w in
  fst r = Raise (network_error (Some (lit "TimeoutError('timed out')")))
  /\ length (requests_of (trace (snd r))) = 3%nat
  /\ sleeps_of (trace (snd r)) = [1; 2]%Z.
Proof.
  intros down w ctx r.
  destruct (http_json_network_failures ascii_interp (lit "https://api.github.com/x")
              (lit "GET") (lit "t") ctx None None 60 3 [down; down; down] [] w)
    as [H _]; [lia|reflexivity|reflexivity|].
  subst r. rewrite H. vm_compute. repeat split; reflexivity.
Defined.

Section Budget.
Variable I : Interp.

Lemma urlopen_adds (req : Request) (w : World) :
  exists o w1, urlopen req w = (Ok o, w1) /\ log w1 = EvRequest req :: log w.
Proof. unfold urlopen. destruct (script w); eexists _, _; split; reflexivity. Qed.

Lemma backoff_adds (attempt : nat) (w : World) :
  (exists w1, backoff attempt w = (Ok tt, w1)
              /\ log w1 = EvSleep (2 ^ Z.of_nat attempt) :: log w)
  \/ (exists e, backoff attempt w = (Raise e, w)).
Proof.
  unfold backoff. destruct (1024 <=? attempt)%nat.
  - right. eexists. reflexivity.
  - left. eexists. split; reflexivity.
Qed.

(** The events of the retry loop: some attempts, at most as many as are
    left, with the back-off sleeps between them. *)
Lemma http_attempts_events req retries :
  forall remaining attempt last_error w,
    (remaining = 0%nat \/ Z.of_nat (remaining + attempt) = retries) ->
    exists n,
      (n <= remaining)%nat /\ (1 <= remaining -> 1 <= n)%nat
      /\ log (snd (http_attempts I req retries remaining attempt last_error w))
         = rev (retry_events req attempt n) ++ log w.
Proof.
  induction remaining as [|remaining IH]; intros attempt last_error w Hinv.
  - exists 0%nat. repeat split; try lia.
  - destruct Hinv as [Hinv|Hinv]; [discriminate|].
    cbn [http_attempts]. unfold bind at 1.
    destruct (urlopen_adds req w) as [o [w0 [Eo Hl0]]]. rewrite Eo.
    assert (Hstop : forall r : res (json * str_headers),
               exists n, (n <= S remaining)%nat /\ (1 <= S remaining -> 1 <= n)%nat
                         /\ log (snd (r, w0)) = rev (retry_events req attempt n) ++ log w).
    { intros r. exists 1%nat. repeat split; try lia. exact Hl0. }
    assert (Hretry :
              forall le,
                (Z.of_nat attempt + 1 <? retries)%Z = true ->
                exists n,
                  (n <= S remaining)%nat /\ (1 <= S remaining -> 1 <= n)%nat
                  /\ log (snd ((backoff attempt ;;;
                                http_attempts I req retries remaining (S attempt) le) w0))
                     = rev (retry_events req attempt n) ++ log w).
    { intros le Hlt. apply Z.ltb_lt in Hlt. unfold bind.
      destruct (backoff_adds attempt w0) as [[w1 [Eb Hl1]]|[e Eb]]; rewrite Eb.
      - destruct (IH (S attempt) le w1) as [n [Hn [Hpos Hl]]]; [right; lia|].
        assert (1 <= n)%nat by (apply Hpos; lia).
        exists (S n). repeat split; try lia.
        rewrite Hl, Hl1, Hl0. destruct n as [|n]; [lia|].
        change (retry_events req attempt (S (S n)))
          with (EvRequest req :: EvSleep (2 ^ Z.of_nat attempt)
                  :: retry_events req (S attempt) (S n)).
        cbn [rev]. now rewrite <- !app_assoc.
      - apply (Hstop (Raise e)). }
    destruct o as [a|e e_repr|e].
    + destruct (is_success (status a)).
      * destruct (is_empty (strip (_decode_output a))); [apply Hstop|].
        destruct (json_loads (_decode_output a)); apply Hstop.
      * destruct (retryable (status a)); cbn [andb]; [|apply Hstop].
        destruct (Z.of_nat attempt + 1 <? retries)%Z eqn:E;
          [now apply Hretry|apply Hstop].
    + destruct (Z.of_nat attempt + 1 <? retries)%Z eqn:E;
        [now apply Hretry|apply Hstop].
    + apply Hstop.
Qed.

(** X7: whatever the answers, one call sends the same request at most
    [retries] times, sleeps 1, 2, 4, ... seconds between two attempts, and
    does nothing else. *)
Theorem http_json_stays_within_budget :
  forall url method token ctx payload extra timeout_s retries w,
    let req := github_request I url method token ctx payload extra timeout_s in
    exists n,
      (n <= Z.to_nat retries)%nat
      /\ trace (snd (_http_json I url method token ctx payload extra
                       timeout_s retries w))
         = trace w ++ retry_events req 0 n
      /\ requests_of (retry_events req 0 n) = repeat req n
      /\ sleeps_of (retry_events req 0 n) = backoff_delays 0 (n - 1)
      /\ prints_of (retry_events req 0 n) = [].
Proof.
  intros url method token ctx payload extra timeout_s retries w req.
  destruct (http_attempts_events req retries (Z.to_nat retries) 0 None w)
    as [n [Hn [_ Hl]]].
  { destruct (Z.to_nat retries) eqn:E; [now left|right]. lia. }
  exists n. split; [exact Hn|]. split; [|split; [|split]].
  - unfold trace, _http_json. fold req. rewrite Hl, rev_app_distr.
    now rewrite rev_involutive.
  - apply retry_events_requests.
  - apply retry_events_sleeps.
  - generalize 0%nat. clear. induction n as [|n IH]; intros attempt; [reflexivity|].
    destruct n as [|n]; [reflexivity|].
    change (retry_events req attempt (S (S n)))
      with (EvRequest req :: EvSleep (2 ^ Z.of_nat attempt)
              :: retry_events req (S attempt) (S n)).
    cbn [prints_of flat_map app]. apply IH.
Qed.

End Budget.

(* ================================================================= *)
(** * The request of the issue lister *)
(* ================================================================= *)

Section ListerRequest.
Variable I : Interp.


End ListerRequest.


(* ================================================================= *)
(** * Creating an issue, with its fallback *)
(* ================================================================= *)

Section Creation.
Variable I : Interp.

Lemma http_json_answer url method token ctx payload extra timeout_s a v rest w :
  script w = Answered a :: rest ->
  is_success (status a) = true ->
  body_value a = Some v ->
  _http_json I url method token ctx payload extra timeout_s default_retries w
  = (Ok (v, lower_keys I (headers a)),
     logged [EvRequest (github_request I url method token ctx payload extra
                          timeout_s)] rest w).
Proof.
  intros Hs Hok Hv. unfold _http_json.
  change (Z.to_nat default_retries) with 5%nat.
  now apply http_attempts_success.
Qed.

Lemma http_json_refusal url method token ctx payload extra timeout_s a rest w :
  script w = Answered a :: rest ->
  is_success (status a) = false ->
  retryable (status a) = false ->
  _http_json I url method token ctx payload extra timeout_s default_retries w
  = (Raise (api_error a (text a)),
     logged [EvRequest (github_request I url method token ctx payload extra
                          timeout_s)] rest w).
Proof.
  intros Hs Hok Hr. unfold _http_json.
  change (Z.to_nat default_retries) with 5%nat.
  rewrite (http_attempts_raise I _ _ _ _ _ a rest w Hs Hok).
  - now rewrite (error_body_plain a Hr).
  - now rewrite Hr.
Qed.

Lemma create_issue_refused (r : Run) owner name title body labels a rest w :
  split_repo (arg_target_repo (run_args r)) = Ok (owner, name) ->
  script w = Answered a :: rest ->
  is_success (status a) = false ->
  retryable (status a) = false ->
  _create_issue I (github_api_base r) (arg_target_repo (run_args r))
    (github_token r) (github_ctx r) title body labels w
  = (Raise (api_error a (text a)),
     logged [EvRequest (create_request I r owner name title body labels)] rest w).
Proof.
  intros Hr Hs Hok Hn. unfold _create_issue, bind at 1, lift. rewrite Hr.
  cbn [fst snd]. unfold bind.
  now rewrite (http_json_refusal _ _ _ _ _ _ _ a rest w Hs Hok Hn).
Qed.

Lemma create_issue_accepted (r : Run) owner name title body labels a d rest w :
  split_repo (arg_target_repo (run_args r)) = Ok (owner, name) ->
  script w = Answered a :: rest ->
  is_success (status a) = true ->
  body_value a = Some (JObj d) ->
  _create_issue I (github_api_base r) (arg_target_repo (run_args r))
    (github_token r) (github_ctx r) title body labels w
  = (Ok d, logged [EvRequest (create_request I r owner name title body labels)] rest w).
Proof.
  intros Hr Hs Hok Hv. unfold _create_issue, bind at 1, lift. rewrite Hr.
  cbn [fst snd]. unfold bind.
  now rewrite (http_json_answer _ _ _ _ _ _ _ a _ rest w Hs Hok Hv).
Qed.

Lemma error_422_is_recognised (a : Answer) (body : str) :
  status a = 422%Z -> contains (lit "422") (exn_text (api_error a body)) = true.
Proof.
  intros H. apply contains_infix. unfold api_error, RuntimeError. cbn [exn_text].
  rewrite H. exists (lit "GitHub API error: HTTP "), (lit " " ++ reason a ++ nl ++ body).
  reflexivity.
Qed.

(** X9: when the creation is answered 422, the issue is submitted a second
    time, without labels, and the outcome of that second request is the
    outcome of the creation; an error whose text does not hold 422 is
    raised as it is, after one request. *)
Theorem create_issue_falls_back_on_422 :
  forall r title body owner name a rest w,
    split_repo (arg_target_repo (run_args r)) = Ok (owner, name) ->
    script w = Answered a :: rest ->
    let first := create_request I r owner name title body (labels r) in
    let second := create_request I r owner name title body [] in
    (status a = 422%Z ->
     create_with_fallback I r title body w
     = _create_issue I (github_api_base r) (arg_target_repo (run_args r))
         (github_token r) (github_ctx r) title body []
         (logged [EvRequest first] rest w)
     /\ forall b d rest',
         rest = Answered b :: rest' ->
         is_success (status b) = true ->
         body_value b = Some (JObj d) ->
         create_with_fallback I r title body w
         = (Ok d, logged [EvRequest first; EvRequest second] rest' w))
    /\
    (is_success (status a) = false ->
     retryable (status a) = false ->
     contains (lit "422") (exn_text (api_error a (text a))) = false ->
     create_with_fallback I r title body w
     = (Raise (api_error a (text a)), logged [EvRequest first] rest w)).
Proof.
  intros r title body owner name a rest w Hr Hs first second. split.
  - intros H422.
    assert (Hok : is_success (status a) = false) by now rewrite H422.
    assert (Hn : retryable (status a) = false) by now rewrite H422.
    assert (E : create_with_fallback I r title body w
                = _create_issue I (github_api_base r) (arg_target_repo (run_args r))
                    (github_token r) (github_ctx r) title body []
                    (logged [EvRequest first] rest w)).
    { unfold create_with_fallback, try_except.
      rewrite (create_issue_refused r owner name title body (labels r) a rest w
                 Hr Hs Hok Hn).
      now rewrite (error_422_is_recognised a (text a) H422). }
    split; [exact E|].
    intros b d rest' -> Hb Hd. rewrite E.
    rewrite (create_issue_accepted r owner name title body [] b d rest'
               (logged [EvRequest first] (Answered b :: rest') w)
               Hr (script_logged _ _ _) Hb Hd).
    now rewrite logged_logged.
  - intros Hok Hn Hc. unfold create_with_fallback, try_except.
    rewrite (create_issue_refused r owner name title body (labels r) a rest w
               Hr Hs Hok Hn).
    now rewrite Hc.
Qed.

End Creation.

Lemma create_issue_falls_back_on_422_witness :
  let r := example_run default_args [] in
  let unknown := answer 422 (lit "Unprocessable Entity")
                   (qlit "{'message':'Validation Failed'}") in
  let made := answer 201 (lit "Created") (qlit "{'number':12,'html_url':'u'}") in
  let w := world_of [Answered unknown; Answered made] in
  let run := create_with_fallback ascii_interp r (lit "pdf") (lit "body") w in
  fst run = Ok [(lit "number", JInt 12); (lit "html_url", JStr (lit "u"))]
  /\ map rq_data (requests_of (trace (snd run)))
     = [ Some (JObj [ (lit "title", JStr (lit "pdf")); (lit "body", JStr (lit "body"));
                      (lit "labels", JArr [JStr (lit "skill-plugin")]) ]);
         Some (JObj [ (lit "title", JStr (lit "pdf")); (lit "body", JStr (lit "body"));
                      (lit "labels", JArr []) ]) ].
Proof.
  intros r unknown made w run.
  destruct (create_issue_falls_back_on_422 ascii_interp r (lit "pdf") (lit "body")
              (lit "AAswordman") (lit "OperitSkillMarket") unknown [Answered made] w
              eq_refl eq_refl) as [H _].
  destruct (H eq_refl) as [_ H2].
  subst run.
  rewrite (H2 made [(lit "number", JInt 12); (lit "html_url", JStr (lit "u"))] []
              eq_refl eq_refl eq_refl).
  split; reflexivity.
Defined.

(* ================================================================= *)
(** * Discovery of the source items *)
(* ================================================================= *)

Section Discovery.
Variable I : Interp.

Lemma json_eq_str_spec (v : json) (s : str) :
  json_eq_str v s = true <-> v = JStr s.
Proof.
  destruct v; simpl; try (split; [discriminate|intros H; discriminate]).
  rewrite str_eqb_eq. split; [now intros ->|now intros [= ->]].
Qed.

Lemma skill_of_entry_In (s : SourceSkill) (it : json) :
  In s (skill_of_entry I it) <->
  is_dir_entry it /\ skill_of_entry I it = [s].
Proof.
  unfold is_dir_entry. split.
  - destruct it as [| | | | | |d]; try (intros []).
    unfold skill_of_entry.
    destruct (json_eq_str (py_get (lit "type") d) (lit "dir")) eqn:E;
      cbn [negb]; [|intros []].
    intros [<-|[]]. split; [|reflexivity].
    exists d. split; [reflexivity|]. now apply json_eq_str_spec.
  - intros [_ ->]. now left.
Qed.

(** X10: the flat discovery returns the folders of the listing that have a
    name, each once per entry, sorted by name; files and other entries are
    left out. *)
Theorem source_skills_are_sorted_folders :
  forall api_base repo owner name_ ref root_path token ctx a data rest w,
    split_repo repo = Ok (owner, name_) ->
    script w = Answered a :: rest ->
    is_success (status a) = true ->
    body_value a = Some (JArr data) ->
    exists skills,
      _list_source_skills I api_base repo ref root_path token ctx w
      = (Ok skills,
         logged [EvRequest (contents_request I api_base owner name_ root_path ref
                              token ctx)] rest w)
      /\ StronglySorted (key_le name) skills
      /\ Permutation skills
           (filter (fun s => negb (is_empty (name s)))
                   (flat_map (skill_of_entry I) data))
      /\ forall s, In s skills ->
                   name s <> []
                   /\ exists it, In it data /\ is_dir_entry it
                                 /\ skill_of_entry I it = [s].
Proof.
  intros api_base repo owner name_ ref root_path token ctx a data rest w
         Hr Hs Hok Hv.
  eexists. split; [|split; [|split]].
  - unfold _list_source_skills, bind at 1, lift. rewrite Hr. cbn [fst snd].
    unfold bind.
    rewrite (http_json_page I _ token ctx a (JArr data) rest w Hs Hok Hv).
    cbn [fst]. reflexivity.
  - apply sort_by_sorted.
  - apply sort_by_perm.
  - intros s H. apply sort_by_In in H. apply filter_In in H. destruct H as [H Hn].
    split.
    + intros E. rewrite E in Hn. discriminate.
    + apply in_flat_map in H. destruct H as [it [Hin Hit]].
      exists it. split; [exact Hin|]. now apply skill_of_entry_In.
Qed.

Lemma set_of_NoDup (l : list str) : NoDup (set_of l).
Proof.
  induction l as [|x r IH]; [constructor|].
  simpl. destruct (str_mem x r) eqn:E; [exact IH|].
  constructor; [|exact IH].
  rewrite set_of_In. intros H. apply str_mem_In in H. congruence.
Qed.

Lemma endswith_app (d s : str) : endswith (d ++ s) s = true.
Proof. unfold endswith. rewrite rev_app_distr. apply startswith_refl_app. Qed.

Lemma endswith_cut (p s : str) :
  endswith p s = true -> p = firstn (length p - length s) p ++ s.
Proof.
  unfold endswith. intros H. apply startswith_app in H. destruct H as [b Hb].
  apply (f_equal (@rev N)) in Hb. rewrite rev_involutive, rev_app_distr in Hb.
  rewrite rev_involutive in Hb. rewrite Hb at 2.
  rewrite Hb, length_app, Nat.add_sub, firstn_app, Nat.sub_diag, firstn_all.
  cbn [firstn]. now rewrite app_nil_r.
Qed.

Lemma skill_dir_of_In (root_prefix dir : str) (it : json) :
  In dir (skill_dir_of I root_prefix it) <-> marks_skill_dir I root_prefix dir it.
Proof.
  unfold marks_skill_dir. split.
  - destruct it as [| | | | | |d]; try (intros []).
    unfold skill_dir_of.
    destruct (str_eqb (py_str I (py_or I (py_get (lit "type") d) (JStr [])))
                      (lit "blob")) eqn:Et; cbn [negb]; [|intros []].
    apply str_eqb_eq in Et.
    destruct (endswith (py_str I (py_or I (py_get (lit "path") d) (JStr [])))
                       skill_md_suffix) eqn:Ee; cbn [negb]; [|intros []].
    apply endswith_cut in Ee.
    destruct (negb (is_empty root_prefix)
              && negb (startswith (py_str I (py_or I (py_get (lit "path") d) (JStr [])))
                                  root_prefix))%bool eqn:Ep; [intros []|].
    match goal with |- In _ (if is_empty ?x then _ else _) -> _ =>
      destruct x as [|c0 r0] eqn:Ed; cbn [is_empty]; [intros []|] end.
    intros [<-|[]]. exists d. rewrite <- Ee.
    split; [reflexivity|]. split; [exact Et|]. split; [reflexivity|].
    split; [discriminate|].
    apply andb_false_iff in Ep. destruct Ep as [Ep|Ep].
    + left. apply negb_false_iff in Ep. now apply is_empty_true.
    + right. now apply negb_false_iff in Ep.
  - intros [d [-> [Ht [Hp [Hne Hpre]]]]].
    unfold skill_dir_of. rewrite Ht, Hp. rewrite str_eqb_refl, endswith_app.
    cbn [negb].
    assert (Ep : (negb (is_empty root_prefix)
                  && negb (startswith (dir ++ skill_md_suffix) root_prefix))%bool
                 = false).
    { destruct Hpre as [-> | ->]; [reflexivity|apply andb_false_r]. }
    rewrite Ep, length_app, Nat.add_sub, firstn_app, Nat.sub_diag, firstn_all.
    cbn [firstn]. rewrite app_nil_r.
    destruct dir; [congruence|]. now left.
Qed.

Lemma tree_sha_resolved api_base repo owner name_ ref token ctx a d commit tree_obj
    rest w :
  split_repo repo = Ok (owner, name_) ->
  script w = Answered a :: rest ->
  is_success (status a) = true ->
  body_value a = Some (JObj d) ->
  py_get (lit "commit") d = JObj commit ->
  py_get (lit "tree") commit = JObj tree_obj ->
  _get_tree_sha_for_ref I api_base repo token ctx ref w
  = (Ok (strip (py_str I (py_or I (py_get (lit "sha") tree_obj) (JStr [])))),
     logged [EvRequest (commit_request I api_base owner name_ ref token ctx)] rest w).
Proof.
  intros Hr Hs Hok Hv Hc Ht.
  unfold _get_tree_sha_for_ref, bind at 1, lift. rewrite Hr. cbn [fst snd].
  unfold bind.
  rewrite (http_json_page I _ token ctx a (JObj d) rest w Hs Hok Hv).
  cbn [fst]. now rewrite Hc, Ht.
Qed.

(** X11: the recursive discovery asks for the commit of the ref, then for
    its whole tree, and returns one item for each folder that holds a blob
    [SKILL.md] under the root path: no folder twice, items sorted by name,
    the name being the last component of the folder; the truncation flag
    of the answer is passed on. *)
Theorem recursive_discovery_finds_marked_folders :
  forall api_base repo owner name_ ref root_path token ctx
         a1 d1 commit tree_obj a2 d2 tree rest w,
    split_repo repo = Ok (owner, name_) ->
    script w = Answered a1 :: Answered a2 :: rest ->
    is_success (status a1) = true ->
    body_value a1 = Some (JObj d1) ->
    py_get (lit "commit") d1 = JObj commit ->
    py_get (lit "tree") commit = JObj tree_obj ->
    let sha := strip (py_str I (py_or I (py_get (lit "sha") tree_obj) (JStr []))) in
    sha <> [] ->
    is_success (status a2) = true ->
    body_value a2 = Some (JObj d2) ->
    py_get (lit "tree") d2 = JArr tree ->
    exists skills,
      _list_source_skills_recursive I api_base repo ref root_path token ctx w
      = (Ok (skills, truthy I (py_get (lit "truncated") d2)),
         logged [EvRequest (commit_request I api_base owner name_ ref token ctx);
                 EvRequest (tree_request I api_base owner name_ sha token ctx)]
                rest w)
      /\ NoDup (map path skills)
      /\ StronglySorted (key_le name) skills
      /\ forall s,
          In s skills <->
          s = skill_of_dir repo ref (path s)
          /\ exists it, In it tree
                        /\ marks_skill_dir I (root_prefix_of root_path) (path s) it.
Proof.
  intros api_base repo owner name_ ref root_path token ctx
         a1 d1 commit tree_obj a2 d2 tree rest w
         Hr Hs Hok1 Hv1 Hc Ht sha Hsha Hok2 Hv2 Htree.
  eexists. split; [|split; [|split]].
  - unfold _list_source_skills_recursive, bind at 1, lift. rewrite Hr.
    cbn [fst snd]. unfold bind at 1.
    rewrite (tree_sha_resolved api_base repo owner name_ ref token ctx a1 d1 commit
               tree_obj (Answered a2 :: rest) w Hr Hs Hok1 Hv1 Hc Ht).
    fold sha. destruct sha as [|c0 r0] eqn:Esha; [congruence|].
    cbn [is_empty]. unfold bind.
    unfold _http_json. change (Z.to_nat default_retries) with 5%nat.
    rewrite (http_attempts_success I _ _ _ _ _ a2 (JObj d2) rest _
               (script_logged _ _ _) Hok2 Hv2).
    cbn [fst]. rewrite Htree, logged_logged. reflexivity.
  - rewrite (Permutation_map path (sort_by_perm name _)).
    rewrite map_map. cbn [skill_of_dir path]. rewrite map_id.
    apply (Permutation_NoDup (Permutation_sym (sort_by_perm (fun x => x) _))).
    apply set_of_NoDup.
  - apply sort_by_sorted.
  - intros s. rewrite sort_by_In, in_map_iff.
    fold (root_prefix_of root_path).
    split.
    + intros [d [<- Hd]]. unfold sorted in Hd.
      apply (proj1 (sort_by_In _ _ _)) in Hd.
      apply (proj1 (set_of_In _ _)) in Hd.
      apply (proj1 (in_flat_map _ _ _)) in Hd.
      destruct Hd as [it [Hin Hit]].
      split; [reflexivity|]. exists it. split; [exact Hin|].
      exact (proj1 (skill_dir_of_In _ _ _) Hit).
    + intros [E [it [Hin Hit]]]. exists (path s). split; [now symmetry|].
      unfold sorted. apply (proj2 (sort_by_In _ _ _)).
      apply (proj2 (set_of_In _ _)). apply (proj2 (in_flat_map _ _ _)).
      exists it. split; [exact Hin|].
      exact (proj2 (skill_dir_of_In _ _ _) Hit).
Qed.

(** X12: when the answer about the ref names no commit object, the
    recursive discovery stops after that one request and reports that the
    ref could not be resolved. *)
Theorem unresolved_ref_stops_discovery :
  forall api_base repo owner name_ ref root_path token ctx a v rest w,
    split_repo repo = Ok (owner, name_) ->
    script w = Answered a :: rest ->
    is_success (status a) = true ->
    body_value a = Some v ->
    names_no_commit v ->
    _list_source_skills_recursive I api_base repo ref root_path token ctx w
    = (Raise (RuntimeError (lit "Failed to resolve tree sha for ref: " ++ ref)),
       logged [EvRequest (commit_request I api_base owner name_ ref token ctx)] rest w).
Proof.
  intros api_base repo owner name_ ref root_path token ctx a v rest w
         Hr Hs Hok Hv Hn.
  unfold _list_source_skills_recursive, bind at 1, lift. rewrite Hr.
  cbn [fst snd]. unfold bind at 1.
  assert (E : _get_tree_sha_for_ref I api_base repo token ctx ref w
              = (Ok [], logged [EvRequest (commit_request I api_base owner name_ ref
                                             token ctx)] rest w)).
  { unfold _get_tree_sha_for_ref, bind at 1, lift. rewrite Hr. cbn [fst snd].
    unfold bind.
    rewrite (http_json_page I _ token ctx a v rest w Hs Hok Hv).
    cbn [fst]. unfold names_no_commit in Hn.
    destruct v as [| | | | | |d]; try reflexivity.
    destruct (py_get (lit "commit") d); try reflexivity. contradiction. }
  rewrite E. reflexivity.
Qed.

End Discovery.

Lemma source_skills_are_sorted_folders_witness :
  let listing :=
    answer 200 (lit "OK")
      (qlit "[{'type':'dir','name':'xlsx','path':'skills/xlsx'},{'type':'file','name':'README.md','path':'skills/README.md'},{'type':'dir','name':'pdf','path':'skills/pdf'},{'type':'dir','name':'  ','path':'skills/blank'}]") in
  let w := world_of [Answered listing] in
  exists skills,
    fst (_list_source_skills ascii_interp default_api_base (lit "anthropics/skills")
           (lit "main") (lit "skills") (lit "t") (_build_ssl_context false false) w)
    = Ok skills
    /\ map name skills = [lit "pdf"; lit "xlsx"]
    /\ StronglySorted (key_le name) skills.
Proof.
  intros listing w.
  destruct (source_skills_are_sorted_folders ascii_interp default_api_base
              (lit "anthropics/skills") (lit "anthropics") (lit "skills")
              (lit "main") (lit "skills") (lit "t") (_build_ssl_context false false)
              listing
              [ JObj [(lit "type", JStr (lit "dir")); (lit "name", JStr (lit "xlsx"));
                      (lit "path", JStr (lit "skills/xlsx"))];
                JObj [(lit "type", JStr (lit "file")); (lit "name", JStr (lit "README.md"));
                      (lit "path", JStr (lit "skills/README.md"))];
                JObj [(lit "type", JStr (lit "dir")); (lit "name", JStr (lit "pdf"));
                      (lit "path", JStr (lit "skills/pdf"))];
                JObj [(lit "type", JStr (lit "dir")); (lit "name", JStr (lit "  "));
                      (lit "path", JStr (lit "skills/blank"))] ]
              [] w eq_refl eq_refl eq_refl)
    as [skills [E [Hsorted _]]]; [vm_compute; reflexivity|].
  exists skills. split; [now rewrite E|]. split; [|exact Hsorted].
  assert (E2 : fst (_list_source_skills ascii_interp default_api_base
                      (lit "anthropics/skills") (lit "main") (lit "skills") (lit "t")
                      (_build_ssl_context false false) w) = Ok skills)
    by now rewrite E.
  vm_compute in E2. injection E2 as <-. vm_compute. reflexivity.
Defined.

Lemma recursive_discovery_finds_marked_folders_witness :
  let w := world_of [commit_answer; tree_answer] in
  let run := _list_source_skills_recursive ascii_interp default_api_base
               (lit "anthropics/skills") (lit "main") (lit "skills") (lit "t")
               (_build_ssl_context false false) w in
  exists skills,
    fst run = Ok (skills, false)
    /\ map path skills = [lit "skills/x/a"; lit "skills/z/a"; lit "skills/y/b"]
    /\ NoDup (map path skills)
    /\ StronglySorted (key_le name) skills.
Proof.
  intros w run.
  destruct (recursive_discovery_finds_marked_folders ascii_interp default_api_base
              (lit "anthropics/skills") (lit "anthropics") (lit "skills")
              (lit "main") (lit "skills") (lit "t") (_build_ssl_context false false)
              (answer 200 (lit "OK") (qlit "{'commit':{'tree':{'sha':'abc123'}}}"))
              [(lit "commit", JObj [(lit "tree", JObj [(lit "sha", JStr (lit "abc123"))])])]
              [(lit "tree", JObj [(lit "sha", JStr (lit "abc123"))])]
              [(lit "sha", JStr (lit "abc123"))]
              (answer 200 (lit "OK") (qlit "{'truncated':false,'tree':[{'type':'blob','path':'skills/x/a/SKILL.md'},{'type':'blob','path':'skills/y/b/SKILL.md'},{'type':'blob','path':'skills/z/a/SKILL.md'},{'type':'tree','path':'skills/x'}]}"))
              [ (lit "truncated", JBool false);
                (lit "tree",
                 JArr [ JObj [(lit "type", JStr (lit "blob"));
                              (lit "path", JStr (lit "skills/x/a/SKILL.md"))];
                        JObj [(lit "type", JStr (lit "blob"));
                              (lit "path", JStr (lit "skills/y/b/SKILL.md"))];
                        JObj [(lit "type", JStr (lit "blob"));
                              (lit "path", JStr (lit "skills/z/a/SKILL.md"))];
                        JObj [(lit "type", JStr (lit "tree"));
                              (lit "path", JStr (lit "skills/x"))] ]) ]
              [ JObj [(lit "type", JStr (lit "blob"));
                      (lit "path", JStr (lit "skills/x/a/SKILL.md"))];
                JObj [(lit "type", JStr (lit "blob"));
                      (lit "path", JStr (lit "skills/y/b/SKILL.md"))];
                JObj [(lit "type", JStr (lit "blob"));
                      (lit "path", JStr (lit "skills/z/a/SKILL.md"))];
                JObj [(lit "type", JStr (lit "tree"));
                      (lit "path", JStr (lit "skills/x"))] ]
              [] w eq_refl eq_refl eq_refl)
    as [skills [E [Hn [Hsorted _]]]];
    try (vm_compute; reflexivity); try (vm_compute; discriminate).
  exists skills.
  assert (E2 : fst run = Ok (skills, false)) by (subst run; now rewrite E).
  split; [exact E2|]. split; [|split; [exact Hn|exact Hsorted]].
  vm_compute in E2. injection E2 as <-. vm_compute. reflexivity.
Defined.

Lemma unresolved_ref_stops_discovery_witness :
  let w := world_of [ok_answer (qlit "{'message':'moved'}"); tree_answer] in
  _list_source_skills_recursive ascii_interp default_api_base
    (lit "anthropics/skills") (lit "gone") (lit "skills") (lit "t")
    (_build_ssl_context false false) w
  = (Raise (RuntimeError (lit "Failed to resolve tree sha for ref: " ++ lit "gone")),
     logged [EvRequest (commit_request ascii_interp default_api_base
                          (lit "anthropics") (lit "skills") (lit "gone") (lit "t")
                          (_build_ssl_context false false))]
            [tree_answer] w).
Proof.
  intros w.
  apply (unresolved_ref_stops_discovery ascii_interp default_api_base
           (lit "anthropics/skills") (lit "anthropics") (lit "skills") (lit "gone")
           (lit "skills") (lit "t") (_build_ssl_context false false)
           (answer 200 (lit "OK") (qlit "{'message':'moved'}"))
           (JObj [(lit "message", JStr (lit "moved"))]) [tree_answer] w);
    [reflexivity|reflexivity|reflexivity|reflexivity|exact Logic.I].
Defined.

(* ================================================================= *)
(** * The filters of the command line *)
(* ================================================================= *)

Lemma is_empty_list_true {A : Type} (l : list A) : is_empty_list l = true <-> l = [].
Proof. destruct l; simpl; split; intros H; try discriminate; reflexivity. Qed.

(** X13: [--only-skill] keeps the items of that name and ends the run with
    status 2 when there is none; [--limit n] with [n > 0] then keeps the
    first [n] of them, and a limit of zero or less keeps them all. *)
Theorem filters_select_then_limit :
  forall args skills w,
    let only := strip (arg_only_skill args) in
    (only <> [] ->
     (forall s, In s skills -> name s <> only) ->
     filter_skills args skills w
     = (Ok (inr 2%Z), logged [EvPrint (no_such_skill_line args)] (script w) w))
    /\
    (forall l w',
        filter_skills args skills w = (Ok (inl l), w') ->
        w' = w
        /\ (exists rest,
               l ++ rest = if is_empty only then skills
                           else filter (fun s => str_eqb (name s) only) skills)
        /\ (forall s, In s l -> In s skills /\ (only <> [] -> name s = only))
        /\ ((0 < arg_limit args)%Z -> (Z.of_nat (length l) <= arg_limit args)%Z)
        /\ ((arg_limit args <= 0)%Z ->
            forall s, In s skills -> (only = [] \/ name s = only) -> In s l)).
Proof.
  intros args skills w only. split.
  - intros Hne Hnone. unfold filter_skills. fold only.
    apply is_empty_false in Hne. rewrite Hne. cbn [negb andb].
    assert (E : filter (fun s => str_eqb (name s) only) skills = []).
    { clear - Hnone. induction skills as [|s skills IH]; [reflexivity|].
      simpl. destruct (str_eqb (name s) only) eqn:E.
      - apply str_eqb_eq in E. exfalso. apply (Hnone s); [now left|exact E].
      - apply IH. intros s' Hs'. apply Hnone. now right. }
    rewrite E. cbn [is_empty_list]. rewrite print_then_ret.
    unfold no_such_skill_line. fold only. reflexivity.
  - intros l w' H. unfold filter_skills in H. fold only in H.
    set (named := if is_empty only then skills
                  else filter (fun s => str_eqb (name s) only) skills) in *.
    assert (Hnamed : forall s, In s named <->
                               In s skills /\ (only = [] \/ name s = only)).
    { intros s. subst named. destruct (is_empty only) eqn:E.
      - apply is_empty_true in E. tauto.
      - apply is_empty_false in E. rewrite filter_In, str_eqb_eq. tauto. }
    destruct (negb (is_empty only) && is_empty_list named)%bool; [discriminate|].
    unfold ret in H. injection H as Hl Hw.
    split; [now symmetry|].
    destruct (0 <? arg_limit args)%Z eqn:El.
    + apply Z.ltb_lt in El. subst l.
      split; [eexists; apply firstn_skipn|].
      split; [|split; [|intros; lia]].
      * intros s Hs.
        assert (Hin : In s named).
        { rewrite <- (firstn_skipn (Z.to_nat (arg_limit args)) named).
          apply in_or_app. now left. }
        apply Hnamed in Hin. destruct Hin as [Hin Hor].
        split; [exact Hin|]. intros Hne. destruct Hor; [contradiction|assumption].
      * intros _. pose proof (firstn_le_length (Z.to_nat (arg_limit args)) named).
        rewrite length_firstn. lia.
    + apply Z.ltb_ge in El. subst l.
      split; [exists []; apply app_nil_r|].
      split; [|split; [intros; lia|]].
      * intros s Hs. apply Hnamed in Hs. destruct Hs as [Hin Hor].
        split; [exact Hin|]. intros Hne. destruct Hor; [contradiction|assumption].
      * intros _ s Hin Hor. apply Hnamed. now split.
Qed.

Lemma filters_select_then_limit_witness :
  let skills := [skill_named (lit "x") (lit "a"); skill_named (lit "y") (lit "b");
                 skill_named (lit "z") (lit "a"); skill_named (lit "v") (lit "a")] in
  let w := world_of [] in
  filter_skills (only_limit_args (lit " a ") 2) skills w
  = (Ok (inl [skill_named (lit "x") (lit "a"); skill_named (lit "z") (lit "a")]), w)
  /\ filter_skills (only_limit_args (lit "c") 0) skills w
     = (Ok (inr 2%Z),
        logged [EvPrint (no_such_skill_line (only_limit_args (lit "c") 0))]
               (script w) w).
Proof.
  intros skills w. split; [vm_compute; reflexivity|].
  destruct (filters_select_then_limit (only_limit_args (lit "c") 0) skills w)
    as [H _].
  apply H; [vm_compute; discriminate|].
  intros s Hs. simpl in Hs.
  repeat (destruct Hs as [<-|Hs]; [vm_compute; discriminate|]). contradiction.
Defined.

(* ================================================================= *)
(** * The counters and the exit status *)
(* ================================================================= *)

Section Counters.
Variable I : Interp.

(** An item that is processed to the end moves one counter by one. *)
Lemma process_skill_counts r idx total skill c w c' w' :
  process_skill I r idx total skill c w = (Ok c', w') ->
  c' = count_created c \/ c' = count_skipped c \/ c' = count_failed c.
Proof.
  intros H.
  destruct (arg_skip_existing (run_args r)
            && str_mem (repo_url_of (run_args r) skill) (existing_repo_urls r))%bool
    eqn:Hskip.
  - right. left. revert H. unfold process_skill. unfold bind at 1.
    rewrite when_logged, Hskip. rewrite print_then_ret. now intros [= <- _].
  - destruct (_pick_skill_markdown I (github_api_base r) (arg_source_repo (run_args r))
                (arg_source_ref (run_args r)) (path skill) (github_token r)
                (github_ctx r) (at_pick (run_args r) idx total skill w))
      as [[md|e] w1] eqn:Hpick.
    + destruct (process_skill_after_pick I r idx total skill c w md w1 Hskip Hpick)
        as [c1 [w2 [E Hc]]].
      rewrite E in H. injection H as <- _. tauto.
    + rewrite (process_skill_pick_raises I r idx total skill c w e w1 Hskip Hpick) in H.
      discriminate.
Qed.

Lemma main_loop_counts r :
  forall skills idx total c w c' w',
    main_loop I r idx total skills c w = (Ok c', w') ->
    (created c' + skipped c' + failed c'
     = created c + skipped c + failed c + length skills)%nat
    /\ (created c <= created c')%nat /\ (skipped c <= skipped c')%nat
    /\ (failed c <= failed c')%nat.
Proof.
  induction skills as [|skill rest IH]; intros idx total c w c' w' H.
  - injection H as <- _. simpl. lia.
  - cbn [main_loop] in H. unfold bind at 1 in H.
    destruct (process_skill I r idx total skill c w) as [[c1|e] w1] eqn:E;
      [|discriminate].
    apply IH in H. apply process_skill_counts in E.
    destruct E as [->|[->| ->]]; simpl in *; lia.
Qed.

(** X14: when the loop over the items ends, every item has been counted
    exactly once, as created, skipped or failed; the summary line reports
    these counters, and the status is 0 when none failed and 1 otherwise. *)
Theorem every_item_is_counted_once :
  forall r skills w code w',
    run_skills I r skills w = (Ok code, w') ->
    exists c,
      (created c + skipped c + failed c = length skills)%nat
      /\ hd_error (log w') = Some (EvPrint (done_line c))
      /\ (code = 0%Z /\ failed c = 0%nat \/ code = 1%Z /\ (0 < failed c)%nat).
Proof.
  intros r skills w code w' H. unfold run_skills in H. unfold bind at 1 in H.
  destruct (main_loop I r 1 (length skills) skills
              {| created := 0; skipped := 0; failed := 0 |} w) as [[c|e] w1] eqn:E;
    [|discriminate].
  apply main_loop_counts in E. cbn [created skipped failed] in E.
  rewrite print_then_ret in H. injection H as <- <-.
  exists c. split; [lia|]. split; [reflexivity|].
  destruct (failed c); simpl; [left|right]; split; try reflexivity; lia.
Qed.

(** ** The exit status *)

Lemma filter_skills_code args skills w code w' :
  filter_skills args skills w = (Ok (inr code), w') -> code = 2%Z.
Proof.
  unfold filter_skills.
  destruct (negb (is_empty (strip (arg_only_skill args))) && _)%bool.
  - rewrite print_then_ret. now intros [= <- _].
  - discriminate.
Qed.

Lemma select_skills_code args skills w code w' :
  select_skills args skills w = (Ok (inr code), w') -> code = 2%Z.
Proof.
  unfold select_skills.
  destruct (negb (arg_allow_duplicate_ids args)); [|apply filter_skills_code].
  destruct (negb (is_empty_list (duplicate_names skills)));
    [|apply filter_skills_code].
  rewrite print_then_ret. now intros [= <- _].
Qed.

Lemma run_skills_code r skills w code w' :
  run_skills I r skills w = (Ok code, w') -> code = 0%Z \/ code = 1%Z.
Proof.
  unfold run_skills. unfold bind at 1.
  destruct (main_loop I r 1 (length skills) skills _ w) as [[c|e] w1];
    [|discriminate].
  rewrite print_then_ret. intros [= <- _]. destruct (failed c =? 0)%nat; tauto.
Qed.

(** X15: when [main] returns, its status is 0, 1 or 2. *)
Theorem main_returns_a_known_status :
  forall args environ w code w',
    main I args environ w = (Ok code, w') ->
    code = 0%Z \/ code = 1%Z \/ code = 2%Z.
Proof.
  intros args environ w code w' H. unfold main in H.
  destruct (is_empty (env_ai_base_url environ) || is_empty (env_ai_api_key environ))%bool.
  { rewrite print_then_ret in H. injection H as <- _. tauto. }
  destruct (is_empty (env_github_token environ) && negb (arg_dry_run args))%bool.
  { rewrite print_then_ret in H. injection H as <- _. tauto. }
  unfold run_configured in H.
  destruct (is_empty (arg_target_repo args)
            || negb (contains (lit "/") (arg_target_repo args)))%bool.
  { rewrite print_then_ret in H. injection H as <- _. tauto. }
  unfold bind at 1 in H.
  destruct (prepare I args _ _ _ _ _ _ w) as [[r|e] w1]; [|discriminate].
  unfold bind at 1 in H.
  destruct (discover I r w1) as [[[skills|c]|e] w2] eqn:Ed; [| |discriminate].
  - apply run_skills_code in H. tauto.
  - injection H as <- _. right. right.
    unfold discover in Ed. unfold bind at 1 in Ed.
    destruct (find_skills I r w1) as [[found|e] w3]; [|discriminate].
    unfold bind in Ed. rewrite warn_truncated_logged in Ed.
    now apply select_skills_code in Ed.
Qed.

End Counters.

Lemma every_item_is_counted_once_witness :
  let r := example_run (dry_limit_args 0) [] in
  let w := world_of [folder_listing; raw_file; not_found;
                     folder_listing; raw_file; completion] in
  exists c,
    (created c + skipped c + failed c = 2)%nat
    /\ prints_of (trace (snd (run_skills ascii_interp r [pdf_skill; xlsx_skill] w)))
       = [ lit "[fail] pdf: AI request failed: HTTP 404 Not Found" ++ nl
             ++ qlit "{'message':'Not Found'}";
           lit "[dry-run] create issue: xlsx | https://github.com/anthropics/skills/tree/main/skills/xlsx";
           done_line c ]
    /\ fst (run_skills ascii_interp r [pdf_skill; xlsx_skill] w) = Ok 1%Z.
Proof.
  intros r w.
  destruct (every_item_is_counted_once ascii_interp r [pdf_skill; xlsx_skill] w 1%Z
              (snd (run_skills ascii_interp r [pdf_skill; xlsx_skill] w)))
    as [c [Hsum [Hlast Hcode]]]; [vm_compute; reflexivity|].
  exists c. split; [exact Hsum|]. split; [|vm_compute; reflexivity].
  vm_compute in Hlast. injection Hlast as Hlast.
  vm_compute. rewrite <- Hlast. reflexivity.
Defined.

Lemma main_returns_a_known_status_witness :
  let w := world_of [root_listing; folder_listing; raw_file; completion] in
  fst (main ascii_interp (dry_limit_args 1) example_environ w) = Ok 0%Z
  /\ (0 = 0 \/ 0 = 1 \/ 0 = 2)%Z.
Proof.
  intros w. split; [vm_compute; reflexivity|].
  apply (main_returns_a_known_status ascii_interp (dry_limit_args 1) example_environ w
           0%Z (snd (main ascii_interp (dry_limit_args 1) example_environ w))).
  vm_compute. reflexivity.
Defined.

(* ================================================================= *)
(** * What a run adds to the log *)
(* ================================================================= *)

Section RunAdds.
Variable P : Event -> Prop.

Lemma run_adds_ret {A : Type} (Q : A -> Prop) (a : A) : Q a -> run_adds P Q (ret a).
Proof.
  intros H w. exists []. split; [reflexivity|]. split; [constructor|].
  intros a' [= <-]. exact H.
Qed.

Lemma run_adds_raise {A : Type} (Q : A -> Prop) (e : exn) : run_adds P Q (raise e).
Proof.
  intros w. exists []. split; [reflexivity|]. split; [constructor|]. discriminate.
Qed.

Lemma run_adds_lift {A : Type} (Q : A -> Prop) (r : res A) :
  (forall a, r = Ok a -> Q a) -> run_adds P Q (lift r).
Proof.
  intros H w. exists []. split; [reflexivity|]. split; [constructor|exact H].
Qed.

Lemma run_adds_bind {A B : Type} (Q : A -> Prop) (R : B -> Prop)
    (c : M A) (k : A -> M B) :
  run_adds P Q c -> (forall a, Q a -> run_adds P R (k a)) -> run_adds P R (bind c k).
Proof.
  intros Hc Hk w. destruct (Hc w) as [evs [Hl [Hp Hq]]]. unfold bind.
  destruct (c w) as [[a|e] w1]; cbn [fst snd] in *.
  - destruct (Hk a (Hq a eq_refl) w1) as [evs' [Hl' [Hp' Hq']]].
    exists (evs ++ evs'). split; [|split].
    + rewrite Hl', Hl, rev_app_distr. now rewrite app_assoc.
    + apply Forall_app. now split.
    + exact Hq'.
  - exists evs. split; [exact Hl|]. split; [exact Hp|]. discriminate.
Qed.

Lemma run_adds_try {A : Type} (Q : A -> Prop) (c : M A) (h : exn -> M A) :
  run_adds P Q c -> (forall e, run_adds P Q (h e)) -> run_adds P Q (try_except c h).
Proof.
  intros Hc Hh w. destruct (Hc w) as [evs [Hl [Hp Hq]]]. unfold try_except.
  destruct (c w) as [[a|e] w1]; cbn [fst snd] in *.
  - exists evs. split; [exact Hl|]. split; [exact Hp|]. exact Hq.
  - destruct (Hh e w1) as [evs' [Hl' [Hp' Hq']]].
    exists (evs ++ evs'). split; [|split].
    + rewrite Hl', Hl, rev_app_distr. now rewrite app_assoc.
    + apply Forall_app. now split.
    + exact Hq'.
Qed.

Lemma run_adds_weaken {A : Type} (Q R : A -> Prop) (c : M A) :
  run_adds P Q c -> (forall a, Q a -> R a) -> run_adds P R c.
Proof.
  intros Hc H w. destruct (Hc w) as [evs [Hl [Hp Hq]]].
  exists evs. split; [exact Hl|]. split; [exact Hp|]. intros a Ha. apply H, Hq, Ha.
Qed.

Lemma run_adds_emit (Q : unit -> Prop) (e : Event) :
  P e -> Q tt -> run_adds P Q (emit e).
Proof.
  intros He Hq w. exists [e]. split; [reflexivity|]. split; [now constructor|].
  now intros [] _.
Qed.

Lemma run_adds_urlopen (Q : Outcome -> Prop) (req : Request) :
  P (EvRequest req) -> (forall o, Q o) -> run_adds P Q (urlopen req).
Proof.
  intros He Hq w. exists [EvRequest req]. unfold urlopen.
  destruct (script w); (split; [reflexivity|]); (split; [now constructor|]);
    intros; apply Hq.
Qed.

Lemma run_adds_now (Q : str -> Prop) : (forall s, Q s) -> run_adds P Q now_str.
Proof.
  intros Hq w. exists []. split; [reflexivity|]. split; [constructor|].
  intros; apply Hq.
Qed.

Lemma run_adds_at {A : Type} (Q : A -> Prop) (f : World -> M A) :
  (forall w0, run_adds P Q (f w0)) -> run_adds P Q (fun w => f w w).
Proof. intros H w. exact (H w w). Qed.

End RunAdds.

(* ================================================================= *)
(** * A dry run creates nothing *)
(* ================================================================= *)

(** One step of the analysis of a computation: its binds, branches and
    basic actions. *)
Ltac adds_step :=
  lazymatch goal with
  | |- run_adds _ _ (bind _ _) =>
      apply run_adds_bind with (Q := fun _ => True); [|intros ? _]
  | |- run_adds _ _ (ret _) => apply run_adds_ret
  | |- run_adds _ _ (raise _) => apply run_adds_raise
  | |- run_adds _ _ (lift _) => apply run_adds_lift; intros
  | |- run_adds _ _ (print _) => apply run_adds_emit
  | |- run_adds _ _ (emit _) => apply run_adds_emit
  | |- run_adds _ _ (when ?b _) => unfold when; destruct b
  | |- run_adds _ _ (try_except _ _) => apply run_adds_try; [|intros ?]
  | |- run_adds _ _ (if ?b then _ else _) => destruct b
  | |- run_adds _ _ (match ?x with _ => _ end) => destruct x
  | |- True => exact Logic.I
  | |- creates_nothing _ (EvPrint _) => exact Logic.I
  | |- creates_nothing _ (EvSleep _) => exact Logic.I
  end.

Section DryRun.
Variable I : Interp.
Variable chat : str.

Notation quiet := (creates_nothing chat).

Lemma backoff_quiet (attempt : nat) : run_adds quiet (fun _ => True) (backoff attempt).
Proof. unfold backoff. repeat adds_step. Qed.

Lemma http_attempts_quiet req retries :
  quiet (EvRequest req) ->
  forall remaining attempt last_error,
    run_adds quiet (fun _ => True)
      (http_attempts I req retries remaining attempt last_error).
Proof.
  intros Hreq. induction remaining as [|remaining IH]; intros attempt last_error.
  - cbn [http_attempts]. adds_step.
  - cbn [http_attempts].
    apply run_adds_bind with (Q := fun _ => True);
      [now apply run_adds_urlopen|intros o _].
    destruct o as [a|e er|e].
    + destruct (is_success (status a)).
      * repeat adds_step.
      * destruct (retryable (status a) && (Z.of_nat attempt + 1 <? retries)%Z)%bool;
          [|adds_step].
        apply run_adds_bind with (Q := fun _ => True);
          [apply backoff_quiet|intros _ _; apply IH].
    + destruct (Z.of_nat attempt + 1 <? retries)%Z; [|adds_step].
      apply run_adds_bind with (Q := fun _ => True);
        [apply backoff_quiet|intros _ _; apply IH].
    + adds_step.
Qed.

(** A GET sent through the client. *)
Lemma http_get_quiet url token ctx timeout_s :
  run_adds quiet (fun _ => True)
    (_http_json I url (lit "GET") token ctx None None timeout_s default_retries).
Proof. unfold _http_json. apply http_attempts_quiet. now left. Qed.

Lemma iter_pages_quiet token ctx :
  forall fuel url out,
    run_adds quiet (fun _ => True) (iter_pages I fuel token ctx url out).
Proof.
  induction fuel as [|fuel IH]; intros url out; cbn [iter_pages].
  - repeat adds_step.
  - destruct (is_empty url); [adds_step; exact Logic.I|].
    apply run_adds_bind with (Q := fun _ => True);
      [apply http_get_quiet|intros r _].
    destruct (fst r); try adds_step. apply IH.
Qed.

Lemma iter_issues_quiet api_base repo token ctx state labels :
  run_adds quiet (fun _ => True) (_iter_issues I api_base repo token ctx state labels).
Proof.
  unfold _iter_issues. adds_step; [adds_step; exact Logic.I|].
  apply (run_adds_at quiet (fun _ => True)
           (fun w0 => iter_pages I (S (length (script w0))) token ctx _ [])).
  intros w0. apply iter_pages_quiet.
Qed.

Lemma get_tree_sha_quiet api_base repo token ctx ref :
  run_adds quiet (fun _ => True) (_get_tree_sha_for_ref I api_base repo token ctx ref).
Proof.
  unfold _get_tree_sha_for_ref. adds_step; [adds_step; exact Logic.I|].
  apply run_adds_bind with (Q := fun _ => True);
    [apply http_get_quiet|intros r _].
  repeat adds_step.
Qed.

Lemma list_recursive_quiet api_base repo ref root_path token ctx :
  run_adds quiet (fun _ => True)
    (_list_source_skills_recursive I api_base repo ref root_path token ctx).
Proof.
  unfold _list_source_skills_recursive. adds_step; [adds_step; exact Logic.I|].
  apply run_adds_bind with (Q := fun _ => True);
    [apply get_tree_sha_quiet|intros sha _].
  destruct (is_empty sha); [adds_step|].
  apply run_adds_bind with (Q := fun _ => True);
    [apply http_get_quiet|intros r _].
  cbv zeta. repeat adds_step.
Qed.

Lemma list_source_skills_quiet api_base repo ref root_path token ctx :
  run_adds quiet (fun _ => True)
    (_list_source_skills I api_base repo ref root_path token ctx).
Proof.
  unfold _list_source_skills. adds_step; [adds_step; exact Logic.I|].
  apply run_adds_bind with (Q := fun _ => True);
    [apply http_get_quiet|intros r _].
  cbv zeta. repeat adds_step.
Qed.

Lemma pick_skill_markdown_quiet api_base repo ref skill_path token ctx :
  run_adds quiet (fun _ => True)
    (_pick_skill_markdown I api_base repo ref skill_path token ctx).
Proof.
  unfold _pick_skill_markdown. adds_step; [adds_step; exact Logic.I|].
  apply run_adds_bind with (Q := fun _ => True);
    [apply http_get_quiet|intros r _].
  destruct (fst r); try (adds_step; exact Logic.I).
  destruct (pick_candidate I (files_of items)); [|adds_step; exact Logic.I].
  destruct (negb (truthy I (JObj d))); [adds_step; exact Logic.I|].
  cbv zeta.
  match goal with |- run_adds _ _ (if ?b then _ else _) => destruct b end;
    [adds_step; exact Logic.I|].
  apply run_adds_bind with (Q := fun _ => True).
  - apply run_adds_urlopen; [now left|trivial].
  - intros o _. repeat adds_step.
Qed.

Lemma chat_completion_quiet base_url api_key payload :
  chat_url_of base_url = chat ->
  run_adds quiet (fun _ => True) (_openai_chat_completion I base_url api_key payload).
Proof.
  intros Hc. unfold _openai_chat_completion. cbv zeta.
  apply run_adds_bind with (Q := fun _ => True).
  - apply run_adds_urlopen; [now right|trivial].
  - intros o _. repeat adds_step.
Qed.

Lemma generate_description_quiet base_url api_key model temperature
    skill_name source_repo_url md_file_name md_content :
  chat_url_of base_url = chat ->
  run_adds quiet (fun _ => True)
    (_ai_generate_description I base_url api_key model temperature
       skill_name source_repo_url md_file_name md_content).
Proof.
  intros Hc. unfold _ai_generate_description. cbv zeta.
  apply run_adds_bind with (Q := fun _ => True);
    [now apply chat_completion_quiet|intros resp _].
  repeat adds_step.
Qed.

Lemma build_body_quiet description url version :
  run_adds quiet (fun _ => True) (_build_operit_issue_body I description url version).
Proof.
  unfold _build_operit_issue_body.
  apply run_adds_bind with (Q := fun _ => True); [now apply run_adds_now|intros n _].
  now adds_step.
Qed.

Lemma summarize_quiet r skill repo_url md_file_name md_content title c :
  arg_dry_run (run_args r) = true ->
  chat_url_of (ai_base_url r) = chat ->
  run_adds quiet (fun _ => True)
    (summarize_and_create I r skill repo_url md_file_name md_content title c).
Proof.
  intros Hdry Hc. unfold summarize_and_create. cbv zeta. rewrite Hdry.
  apply run_adds_bind with (Q := fun _ => True);
    [now apply generate_description_quiet|intros description _].
  adds_step; [repeat adds_step|].
  destruct (is_empty description); [adds_step|].
  apply run_adds_bind with (Q := fun _ => True);
    [apply build_body_quiet|intros body _].
  repeat adds_step.
Qed.

Lemma process_skill_quiet r idx total skill c :
  arg_dry_run (run_args r) = true ->
  chat_url_of (ai_base_url r) = chat ->
  run_adds quiet (fun _ => True) (process_skill I r idx total skill c).
Proof.
  intros Hdry Hc. unfold process_skill. cbv zeta.
  adds_step; [repeat adds_step|].
  match goal with |- run_adds _ _ (if ?b then _ else _) => destruct b end;
    [repeat adds_step|].
  apply run_adds_bind with (Q := fun _ => True);
    [apply pick_skill_markdown_quiet|intros md _].
  adds_step; [repeat adds_step|].
  apply run_adds_try; [now apply summarize_quiet|intros e].
  repeat adds_step.
Qed.

Lemma main_loop_quiet r :
  arg_dry_run (run_args r) = true ->
  chat_url_of (ai_base_url r) = chat ->
  forall skills idx total c,
    run_adds quiet (fun _ => True) (main_loop I r idx total skills c).
Proof.
  intros Hdry Hc. induction skills as [|skill rest IH]; intros idx total c;
    cbn [main_loop].
  - now adds_step.
  - apply run_adds_bind with (Q := fun _ => True);
      [now apply process_skill_quiet|intros c' _; apply IH].
Qed.

Lemma run_skills_quiet r skills :
  arg_dry_run (run_args r) = true ->
  chat_url_of (ai_base_url r) = chat ->
  run_adds quiet (fun _ => True) (run_skills I r skills).
Proof.
  intros Hdry Hc. unfold run_skills.
  apply run_adds_bind with (Q := fun _ => True);
    [now apply main_loop_quiet|intros c _].
  repeat adds_step.
Qed.

Lemma discover_quiet r : run_adds quiet (fun _ => True) (discover I r).
Proof.
  unfold discover.
  apply run_adds_bind with (Q := fun _ => True).
  - unfold find_skills. cbv zeta. destruct (arg_recursive (run_args r)).
    + apply list_recursive_quiet.
    + apply run_adds_bind with (Q := fun _ => True);
        [apply list_source_skills_quiet|intros s _; now adds_step].
  - intros found _.
    apply run_adds_bind with (Q := fun _ => True).
    + unfold warn_truncated. repeat adds_step.
    + intros _ _. unfold select_skills, filter_skills. cbv zeta. repeat adds_step.
Qed.

Lemma prepare_quiet args token api_base ai_url ai_key model temperature :
  run_adds quiet
    (fun r => run_args r = args /\ ai_base_url r = ai_url)
    (prepare I args token api_base ai_url ai_key model temperature).
Proof.
  unfold prepare. cbv zeta.
  apply run_adds_bind with (Q := fun _ => True).
  - unfold announce. cbv zeta. repeat adds_step.
  - intros _ _. apply run_adds_bind with (Q := fun _ => True).
    + destruct (arg_skip_existing args); [|now adds_step].
      apply run_adds_bind with (Q := fun _ => True);
        [apply iter_issues_quiet|intros issues _; now adds_step].
    + intros existing _. apply run_adds_ret. now split.
Qed.

(** X16: in a dry run every request is a GET, or the request of a summary
    sent to the chat-completion address: nothing is posted to GitHub, so
    no issue is created. *)
Theorem dry_run_creates_nothing :
  forall args environ w,
    arg_dry_run args = true ->
    chat_url_of (env_ai_base_url environ) = chat ->
    exists evs,
      trace (snd (main I args environ w)) = trace w ++ evs
      /\ Forall (creates_nothing chat) evs.
Proof.
  intros args environ w Hdry Hc.
  assert (H : run_adds quiet (fun _ => True) (main I args environ)).
  { unfold main. cbv zeta.
    destruct (is_empty (env_ai_base_url environ) || is_empty (env_ai_api_key environ))%bool;
      [repeat adds_step|].
    destruct (is_empty (env_github_token environ) && negb (arg_dry_run args))%bool;
      [repeat adds_step|].
    unfold run_configured.
    destruct (is_empty (arg_target_repo args)
              || negb (contains (lit "/") (arg_target_repo args)))%bool;
      [repeat adds_step|].
    apply run_adds_bind
      with (Q := fun r => run_args r = args /\ ai_base_url r = env_ai_base_url environ);
      [apply prepare_quiet|intros r [Hr Hu]].
    apply run_adds_bind with (Q := fun _ => True);
      [apply discover_quiet|intros found _].
    destruct found as [skills|code]; [|now adds_step].
    apply run_skills_quiet; [now rewrite Hr|now rewrite Hu]. }
  destruct (H w) as [evs [Hl [Hp _]]].
  exists evs. split; [|exact Hp].
  unfold trace. rewrite Hl, rev_app_distr. now rewrite rev_involutive.
Qed.

End DryRun.

Lemma dry_run_creates_nothing_witness :
  let w := world_of [existing_issues; root_listing; folder_listing; raw_file; completion] in
  let run := main ascii_interp skip_dry_args example_environ w in
  map (fun r => (rq_method r, rq_url r)) (requests_of (trace (snd run)))
  = [ (lit "GET", lit "https://api.github.com/repos/AAswordman/OperitSkillMarket/issues?state=all&per_page=100&sort=updated&direction=desc");
      (lit "GET", lit "https://api.github.com/repos/anthropics/skills/contents/skills?ref=main");
      (lit "GET", lit "https://api.github.com/repos/anthropics/skills/contents/skills/xlsx?ref=main");
      (lit "GET", lit "https://raw.example/SKILL.md");
      (lit "POST", lit "https://ai.example/v1/chat/completions") ]
  /\ exists evs,
      trace (snd run) = trace w ++ evs
      /\ Forall (creates_nothing (lit "https://ai.example/v1/chat/completions")) evs.
Proof.
  intros w run. split; [vm_compute; reflexivity|].
  apply (dry_run_creates_nothing ascii_interp
           (lit "https://ai.example/v1/chat/completions")
           skip_dry_args example_environ w); reflexivity.
Defined.

(* ================================================================= *)
(** * Loading the environment file *)
(* ================================================================= *)

Lemma assoc_get_none {V : Type} (k : str) (d : list (str * V)) :
  assoc_get k d = None <-> ~ In k (map fst d).
Proof.
  induction d as [|[k0 v0] r IH]; simpl; [tauto|].
  destruct (str_eqb k k0) eqn:E.
  - apply str_eqb_eq in E. subst. split; [discriminate|]. intros H. exfalso. tauto.
  - apply str_eqb_neq in E. rewrite IH. split; [|tauto].
    intros H [H1|H1]; [congruence|tauto].
Qed.

Lemma assoc_get_app {V : Type} (k : str) (d e : list (str * V)) :
  assoc_get k (d ++ e)
  = match assoc_get k d with Some v => Some v | None => assoc_get k e end.
Proof.
  induction d as [|[k0 v0] r IH]; simpl; [reflexivity|].
  destruct (str_eqb k k0); [reflexivity|exact IH].
Qed.

(** One line adds at most one variable, which was not set. *)
Lemma env_line_extends (environ environ' : Environ) (raw_line : str) :
  env_line environ raw_line = Ok environ' ->
  exists added,
    environ' = environ ++ added
    /\ forall k, In k (map fst added) -> assoc_get k environ = None.
Proof.
  unfold env_line.
  assert (Hsame : Ok environ = Ok environ' ->
                  exists added, environ' = environ ++ added
                                /\ forall k, In k (map fst added) ->
                                             assoc_get k environ = None).
  { intros [= <-]. exists []. split; [now rewrite app_nil_r|]. intros k []. }
  destruct (is_empty (strip raw_line) || startswith (strip raw_line) (lit "#"))%bool;
    [exact Hsame|].
  destruct (split_once 61 (strip raw_line)) as [[k v]|]; [|exact Hsame].
  cbv zeta. destruct (is_empty (strip k)); [exact Hsame|].
  destruct (assoc_get (strip k) environ) eqn:Eg; [exact Hsame|].
  destruct (has_null (strip k) || has_null _)%bool; [discriminate|].
  intros [= <-]. eexists. split.
  - apply assoc_set_fresh. now apply assoc_get_none.
  - intros k' [<-|[]]. exact Eg.
Qed.

Lemma env_lines_extends (lines : list str) :
  forall environ environ',
    env_lines lines environ = Ok environ' ->
    exists added,
      environ' = environ ++ added
      /\ forall k, In k (map fst added) -> assoc_get k environ = None.
Proof.
  induction lines as [|l lines IH]; intros environ environ' H.
  - injection H as <-. exists []. split; [now rewrite app_nil_r|]. intros k [].
  - cbn [env_lines] in H.
    destruct (env_line environ l) as [e1|e] eqn:E; [|discriminate].
    apply env_line_extends in E. destruct E as [a1 [-> H1]].
    apply IH in H. destruct H as [a2 [-> H2]].
    exists (a1 ++ a2). split; [now rewrite app_assoc|].
    intros k Hk. rewrite map_app in Hk. apply in_app_or in Hk.
    destruct Hk as [Hk|Hk]; [now apply H1|].
    apply H2 in Hk. rewrite assoc_get_app in Hk.
    destruct (assoc_get k environ); [discriminate|reflexivity].
Qed.

(** X17: loading the file never changes or removes a variable that is
    already set; it only adds variables, after the existing ones, each
    under a name that was not set.  The lister loads its file with the
    same function. *)
Theorem load_env_keeps_what_is_set :
  forall env_path environ environ',
    _load_env env_path environ = Ok environ' ->
    List_issues._load_env env_path environ = Ok environ'
    /\ exists added,
        environ' = environ ++ added
        /\ (forall k, In k (map fst added) -> assoc_get k environ = None)
        /\ (forall k v, assoc_get k environ = Some v -> assoc_get k environ' = Some v).
Proof.
  intros env_path environ environ' H. split; [exact H|].
  assert (Hx : exists added,
             environ' = environ ++ added
             /\ forall k, In k (map fst added) -> assoc_get k environ = None).
  { destruct env_path as [|e|text]; cbn [_load_env] in H.
    - injection H as <-. exists []. split; [now rewrite app_nil_r|]. intros k [].
    - discriminate.
    - now apply env_lines_extends in H. }
  destruct Hx as [added [-> Ha]]. exists added. split; [reflexivity|].
  split; [exact Ha|]. intros k v Hk. now rewrite assoc_get_app, Hk.
Qed.

Lemma load_env_keeps_what_is_set_witness :
  let text := lit "# settings" ++ nl ++ lit "GITHUB_TOKEN=from-file" ++ nl
              ++ qlit "AI_MODEL = 'gpt-4o' " ++ nl ++ lit "no assignment here" in
  let environ := [(lit "GITHUB_TOKEN", lit "from-shell")] in
  let environ' := [(lit "GITHUB_TOKEN", lit "from-shell");
                   (lit "AI_MODEL", lit "gpt-4o")] in
  _load_env (EnvText text) environ = Ok environ'
  /\ assoc_get (lit "GITHUB_TOKEN") environ' = Some (lit "from-shell").
Proof.
  intros text environ environ'.
  assert (H : _load_env (EnvText text) environ = Ok environ')
    by (vm_compute; reflexivity).
  split; [exact H|].
  destruct (load_env_keeps_what_is_set (EnvText text) environ environ' H)
    as [_ [added [_ [_ Hkeep]]]].
  apply Hkeep. reflexivity.
Defined.

(** ** Reading one assignment *)

Section Ends.
Variable p : N -> bool.

Lemma drop_while_all (pad x : str) :
  forallb p pad = true -> drop_while p (pad ++ x) = drop_while p x.
Proof.
  induction pad as [|c pad IH]; [reflexivity|].
  simpl. intros H. apply andb_true_iff in H. destruct H as [-> H]. now apply IH.
Qed.

Lemma rstrip_by_app_all (x pad : str) :
  forallb p pad = true -> rstrip_by p (x ++ pad) = rstrip_by p x.
Proof.
  intros H. unfold rstrip_by. rewrite rev_app_distr, drop_while_all; [reflexivity|].
  rewrite forallb_forall in *. intros c Hc. apply H. now apply in_rev.
Qed.

Lemma rstrip_by_app_solid (a : str) (d : N) (b : str) :
  p d = false -> rstrip_by p (a ++ d :: b) = a ++ d :: rstrip_by p b.
Proof.
  intros Hd. induction a as [|c a IH].
  - apply rstrip_by_solid_head. exact Hd.
  - cbn [app]. rewrite rstrip_by_cons, IH.
    destruct a; reflexivity.
Qed.

Lemma rstrip_by_solid_last (x : str) :
  x <> [] -> p (last x 0%N) = false -> rstrip_by p x = x.
Proof.
  intros Hne Hl. destruct (exists_last Hne) as [m [d E]]. subst x.
  rewrite last_last in Hl.
  replace (m ++ [d]) with (m ++ d :: []) by reflexivity.
  now rewrite rstrip_by_app_solid.
Qed.

Lemma lstrip_by_solid_first (x : str) :
  p (hd 0%N x) = false -> x <> [] -> lstrip_by p x = x.
Proof. destruct x as [|c r]; [congruence|]. simpl. now intros ->. Qed.

Lemma strip_by_solid_ends (x : str) :
  x = [] \/ (p (hd 0%N x) = false /\ p (last x 0%N) = false) ->
  strip_by p x = x.
Proof.
  intros [->|[Hh Hl]]; [reflexivity|].
  destruct x as [|c r]; [reflexivity|].
  unfold strip_by. rewrite lstrip_by_solid_first by (assumption || discriminate).
  apply rstrip_by_solid_last; [discriminate|assumption].
Qed.

End Ends.

Lemma splitlines_single (s : str) :
  s <> [] -> forallb (fun c => negb (is_linebreak c)) s = true -> splitlines s = [s].
Proof.
  induction s as [|c r IH]; [congruence|]. intros _ H.
  cbn [forallb] in H. apply andb_true_iff in H. destruct H as [Hc Hr].
  apply negb_true_iff in Hc. cbn [splitlines]. rewrite Hc.
  destruct r as [|d r']; [reflexivity|].
  rewrite IH by (discriminate || assumption). reflexivity.
Qed.

Lemma split_once_at (sep : N) (k rest : str) :
  ~ In sep k -> split_once sep (k ++ sep :: rest) = Some (k, rest).
Proof.
  induction k as [|c k IH]; intros H.
  - simpl. now rewrite N.eqb_refl.
  - simpl. destruct (N.eqb_spec c sep) as [->|_]; [exfalso; apply H; now left|].
    rewrite IH; [reflexivity|]. intros Hi. apply H. now right.
Qed.

Lemma linebreak_is_space (c : N) : is_linebreak c = true -> is_space c = true.
Proof.
  unfold is_linebreak. rewrite !orb_true_iff, !N.eqb_eq.
  intros H. repeat destruct H as [H|H]; subst; reflexivity.
Qed.

Lemma bare_ends_kept (p : N -> bool) (v : str) :
  (forall c, p c = true -> is_edge c = true) ->
  bare_ends v = true -> strip_by p v = v.
Proof.
  intros Hp Hv. apply strip_by_solid_ends.
  destruct v as [|c r]; [now left|right].
  unfold bare_ends in Hv. apply andb_true_iff in Hv. destruct Hv as [H1 H2].
  apply negb_true_iff in H1, H2. cbn [hd].
  split.
  - destruct (p c) eqn:E; [|reflexivity]. apply Hp in E. congruence.
  - destruct (p (last (c :: r) 0%N)) eqn:E; [|reflexivity]. apply Hp in E. congruence.
Qed.

(** The quotes around a value are removed, and only them. *)
Lemma unquote_value (q v : str) :
  is_quoting q -> bare_ends v = true ->
  strip_chars (lit "'") (strip_chars (qlit "'") (strip (q ++ v ++ q))) = v.
Proof.
  intros Hq Hv.
  assert (Hsp : strip v = v).
  { apply bare_ends_kept; [|exact Hv]. intros c Hc. unfold is_edge. now rewrite Hc. }
  assert (Hdq : strip_chars (qlit "'") v = v).
  { apply bare_ends_kept; [|exact Hv]. intros c Hc. unfold is_edge.
    change (in_chars (qlit "'") c) with ((c =? 34)%N || false)%bool in Hc.
    rewrite orb_false_r in Hc. rewrite Hc. now rewrite orb_true_r. }
  assert (Hsq : strip_chars (lit "'") v = v).
  { apply bare_ends_kept; [|exact Hv]. intros c Hc. unfold is_edge.
    change (in_chars (lit "'") c) with ((c =? 39)%N || false)%bool in Hc.
    rewrite orb_false_r in Hc. rewrite Hc. now rewrite orb_true_r. }
  assert (Hquoted :
            forall (c : N) (p : N -> bool),
              p c = true -> (forall x, p x = true -> is_edge x = true) ->
              strip_by p (c :: v ++ [c]) = v).
  { intros c p Hc Hp. pose proof (bare_ends_kept p v Hp Hv) as Hk.
    unfold strip_by, lstrip_by. cbn [drop_while]. rewrite Hc.
    destruct v as [|x r].
    - cbn [app drop_while]. rewrite Hc. reflexivity.
    - assert (Hx : p x = false).
      { destruct (p x) eqn:E; [|reflexivity]. apply Hp in E.
        unfold bare_ends in Hv. apply andb_true_iff in Hv. destruct Hv as [H1 _].
        apply negb_true_iff in H1. congruence. }
      cbn [app drop_while]. rewrite Hx.
      change (x :: r ++ [c]) with ((x :: r) ++ [c]).
      rewrite rstrip_by_app_all by (cbn [forallb]; now rewrite Hc).
      unfold strip_by, lstrip_by in Hk. cbn [drop_while] in Hk.
      now rewrite Hx in Hk. }
  destruct Hq as [->|[->| ->]].
  - cbn [app]. rewrite app_nil_r. now rewrite Hsp, Hdq, Hsq.
  - assert (E : strip (34%N :: v ++ [34%N]) = 34%N :: v ++ [34%N]).
    { apply strip_by_solid_ends. right. cbn [hd].
      change (34%N :: v ++ [34%N]) with ((34%N :: v) ++ [34%N]).
      rewrite last_last. now split. }
    change ([34%N] ++ v ++ [34%N]) with (34%N :: v ++ [34%N]). rewrite E.
    unfold strip_chars at 2. rewrite (Hquoted 34%N (in_chars (qlit "'"))).
    + exact Hsq.
    + reflexivity.
    + intros x Hx. unfold is_edge.
      change (in_chars (qlit "'") x) with ((x =? 34)%N || false)%bool in Hx.
      rewrite orb_false_r in Hx. rewrite Hx. now rewrite orb_true_r.
  - assert (E : strip (39%N :: v ++ [39%N]) = 39%N :: v ++ [39%N]).
    { apply strip_by_solid_ends. right. cbn [hd].
      change (39%N :: v ++ [39%N]) with ((39%N :: v) ++ [39%N]).
      rewrite last_last. now split. }
    change ([39%N] ++ v ++ [39%N]) with (39%N :: v ++ [39%N]). rewrite E.
    assert (E2 : strip_chars (qlit "'") (39%N :: v ++ [39%N]) = 39%N :: v ++ [39%N]).
    { apply strip_by_solid_ends. right. cbn [hd].
      change (39%N :: v ++ [39%N]) with ((39%N :: v) ++ [39%N]).
      rewrite last_last. now split. }
    rewrite E2. unfold strip_chars. apply (Hquoted 39%N (in_chars (lit "'"))).
    + reflexivity.
    + intros x Hx. unfold is_edge.
      change (in_chars (lit "'") x) with ((x =? 39)%N || false)%bool in Hx.
      rewrite orb_false_r in Hx. rewrite Hx. now rewrite orb_true_r.
Qed.

Lemma quoted_value_ends (q v : str) :
  is_quoting q -> bare_ends v = true ->
  q ++ v ++ q = []
  \/ (is_space (hd 0%N (q ++ v ++ q)) = false
      /\ is_space (last (q ++ v ++ q) 0%N) = false).
Proof.
  intros Hq Hv. destruct Hq as [->|[->| ->]].
  - cbn [app]. rewrite app_nil_r. destruct v as [|c r]; [now left|right].
    unfold bare_ends in Hv. apply andb_true_iff in Hv. destruct Hv as [H1 H2].
    apply negb_true_iff in H1, H2. unfold is_edge in H1, H2.
    apply orb_false_iff in H1, H2. destruct H1 as [H1 _], H2 as [H2 _].
    apply orb_false_iff in H1, H2. destruct H1 as [H1 _], H2 as [H2 _].
    now split.
  - right. change ([34%N] ++ v ++ [34%N]) with ((34%N :: v) ++ [34%N]).
    rewrite last_last. now split.
  - right. change ([39%N] ++ v ++ [39%N]) with ((39%N :: v) ++ [39%N]).
    rewrite last_last. now split.
Qed.

Lemma blank_is_space (pad : str) : is_blank pad = true -> forallb is_space pad = true.
Proof.
  unfold is_blank. rewrite !forallb_forall. intros H c Hc.
  apply H in Hc. now apply andb_true_iff in Hc.
Qed.

Lemma blank_has_no_linebreak (pad : str) :
  is_blank pad = true -> forallb (fun c => negb (is_linebreak c)) pad = true.
Proof.
  unfold is_blank. rewrite !forallb_forall. intros H c Hc.
  apply H in Hc. now apply andb_true_iff in Hc.
Qed.

Lemma last_is_in {A : Type} (l : list A) (d : A) : l <> [] -> In (last l d) l.
Proof.
  induction l as [|x l IH]; [congruence|]. intros _.
  destruct l as [|y l']; [now left|].
  right. apply IH. discriminate.
Qed.

Lemma plain_name_facts (k : str) :
  plain_name k = true ->
  exists c r,
    k = c :: r /\ is_space c = false /\ c <> 35%N
    /\ is_space (last k 0%N) = false
    /\ ~ In 61%N k /\ has_null k = false
    /\ forallb (fun c => negb (is_linebreak c)) k = true.
Proof.
  unfold plain_name. intros H.
  apply andb_true_iff in H. destruct H as [H Hc].
  apply andb_true_iff in H. destruct H as [Hne Hall].
  destruct k as [|c r]; [discriminate|]. exists c, r.
  rewrite forallb_forall in Hall.
  assert (Hx : forall x, In x (c :: r) ->
                         is_space x = false /\ x <> 61%N /\ x <> 0%N).
  { intros x Hin. apply Hall in Hin. apply negb_true_iff in Hin.
    apply orb_false_iff in Hin. destruct Hin as [Hin H0].
    apply orb_false_iff in Hin. destruct Hin as [Hs H61].
    apply N.eqb_neq in H61, H0. now repeat split. }
  split; [reflexivity|]. split; [apply Hx; now left|].
  split.
  { intros E. subst c. destruct r; discriminate Hc. }
  split.
  { apply Hx. apply last_is_in. discriminate. }
  split.
  { intros Hin. now apply Hx in Hin. }
  split.
  { unfold has_null. destruct (existsb (N.eqb 0) (c :: r)) eqn:E; [|reflexivity].
    apply existsb_exists in E. destruct E as [x [Hin E]]. apply N.eqb_eq in E.
    subst x. now apply Hx in Hin. }
  apply forallb_forall. intros x Hin. apply Hx in Hin. destruct Hin as [Hs _].
  destruct (is_linebreak x) eqn:E; [|reflexivity].
  apply linebreak_is_space in E. congruence.
Qed.

(** X18: a line [NAME=VALUE], with blanks around the name and the value and
    the value bare or in double or single quotes, sets the variable
    [NAME], when it is not set yet, to the value without its quotes. *)
Theorem load_env_reads_assignment :
  forall environ k v q pad1 pad2 pad3 pad4,
    plain_name k = true ->
    plain_value v = true ->
    is_quoting q ->
    is_blank pad1 = true -> is_blank pad2 = true ->
    is_blank pad3 = true -> is_blank pad4 = true ->
    assoc_get k environ = None ->
    _load_env (EnvText (pad1 ++ k ++ pad2 ++ lit "=" ++ pad3 ++ (q ++ v ++ q) ++ pad4))
              environ
    = Ok (environ ++ [(k, v)]).
Proof.
  intros environ k v q pad1 pad2 pad3 pad4 Hk Hv Hq Hp1 Hp2 Hp3 Hp4 Hfree.
  destruct (plain_name_facts k Hk) as [c [r [Ek [Hc [H35 [Hlast [H61 [Hnull Hlb]]]]]]]].
  unfold plain_value in Hv. apply andb_true_iff in Hv. destruct Hv as [Hvall Hbare].
  set (val := q ++ v ++ q).
  set (rest := pad3 ++ val ++ pad4).
  change (lit "=") with [61%N]. cbn [app].
  assert (Hvlb : forallb (fun c => negb (is_linebreak c)) v = true).
  { rewrite forallb_forall in *. intros x Hx. apply Hvall in Hx.
    apply negb_true_iff in Hx. apply orb_false_iff in Hx. now rewrite (proj1 Hx). }
  assert (Hvnull : has_null v = false).
  { unfold has_null. destruct (existsb (N.eqb 0) v) eqn:E; [|reflexivity].
    apply existsb_exists in E. destruct E as [x [Hin E]]. apply N.eqb_eq in E.
    subst x. rewrite forallb_forall in Hvall. apply Hvall in Hin.
    apply negb_true_iff in Hin. apply orb_false_iff in Hin. now destruct Hin. }
  assert (Hqlb : forallb (fun c => negb (is_linebreak c)) q = true)
    by (destruct Hq as [->|[->| ->]]; reflexivity).
  (* the file has one line *)
  assert (Hlines : splitlines (pad1 ++ k ++ pad2 ++ 61%N :: rest)
                   = [pad1 ++ k ++ pad2 ++ 61%N :: rest]).
  { apply splitlines_single.
    - rewrite Ek. destruct pad1; discriminate.
    - subst rest val. rewrite !forallb_app. cbn [forallb].
      rewrite !forallb_app.
      rewrite (blank_has_no_linebreak _ Hp1), (blank_has_no_linebreak _ Hp2),
        (blank_has_no_linebreak _ Hp3), (blank_has_no_linebreak _ Hp4),
        Hlb, Hvlb, Hqlb. reflexivity. }
  (* the stripped line *)
  assert (Hline : strip (pad1 ++ k ++ pad2 ++ 61%N :: rest)
                  = (k ++ pad2) ++ 61%N :: rstrip rest).
  { unfold strip, strip_by, lstrip_by.
    rewrite (drop_while_all is_space pad1 _ (blank_is_space _ Hp1)).
    rewrite Ek. cbn [app drop_while]. rewrite Hc.
    replace (c :: r ++ pad2 ++ 61%N :: rest)
      with (((c :: r) ++ pad2) ++ 61%N :: rest) by (now rewrite <- app_assoc).
    now apply rstrip_by_app_solid. }
  (* the name *)
  assert (Hname : strip (k ++ pad2) = k).
  { unfold strip, strip_by, lstrip_by. rewrite Ek at 1. cbn [app drop_while].
    rewrite Hc. change (c :: r ++ pad2) with ((c :: r) ++ pad2). rewrite <- Ek.
    rewrite (rstrip_by_app_all is_space k pad2 (blank_is_space _ Hp2)).
    apply rstrip_by_solid_last; [rewrite Ek; discriminate|exact Hlast]. }
  (* the value *)
  assert (Hvalue : strip (rstrip rest) = strip val).
  { subst rest. rewrite app_assoc.
    unfold rstrip. rewrite (rstrip_by_app_all is_space _ pad4 (blank_is_space _ Hp4)).
    pose proof (quoted_value_ends q v Hq Hbare) as Hends. fold val in Hends.
    destruct val as [|x y].
    - rewrite app_nil_r.
      rewrite <- (app_nil_l pad3), (rstrip_by_app_all is_space [] pad3 (blank_is_space _ Hp3)).
      reflexivity.
    - destruct Hends as [E|[_ Hl]]; [discriminate|].
      destruct (exists_last (l := x :: y)) as [m [d Em]]; [discriminate|].
      rewrite Em in *. rewrite last_last in Hl.
      rewrite app_assoc.
      replace ((pad3 ++ m) ++ [d]) with ((pad3 ++ m) ++ d :: []) by reflexivity.
      rewrite (rstrip_by_app_solid is_space (pad3 ++ m) d [] Hl).
      change (rstrip_by is_space []) with (@nil N).
      rewrite <- app_assoc.
      unfold strip, strip_by, lstrip_by.
      now rewrite (drop_while_all is_space pad3 _ (blank_is_space _ Hp3)). }
  cbn [_load_env]. rewrite Hlines. cbn [env_lines]. unfold env_line.
  rewrite Hline.
  assert (Hhead : (is_empty ((k ++ pad2) ++ 61%N :: rstrip rest)
                   || startswith ((k ++ pad2) ++ 61%N :: rstrip rest) (lit "#"))%bool
                  = false).
  { rewrite Ek. cbn [app is_empty orb]. change (lit "#") with [35%N].
    cbn [startswith]. apply N.eqb_neq in H35. rewrite N.eqb_sym, H35. reflexivity. }
  rewrite Hhead.
  rewrite split_once_at.
  - cbv zeta. rewrite Hname, Hvalue.
    subst val. rewrite (unquote_value q v Hq Hbare).
    rewrite Ek at 1. cbn [is_empty]. rewrite Hfree, Hnull, Hvnull. cbn [orb].
    rewrite assoc_set_fresh; [reflexivity|]. now apply assoc_get_none.
  - intros Hin. apply in_app_or in Hin. destruct Hin as [Hin|Hin]; [now apply H61|].
    apply blank_is_space in Hp2. rewrite forallb_forall in Hp2.
    apply Hp2 in Hin. discriminate.
Qed.

Lemma load_env_reads_assignment_witness :
  _load_env (EnvText (qlit "  AI_API_KEY = 'sk-123 456'  ")) [(lit "HOME", lit "/root")]
  = Ok ([(lit "HOME", lit "/root")] ++ [(lit "AI_API_KEY", lit "sk-123 456")]).
Proof.
  apply (load_env_reads_assignment [(lit "HOME", lit "/root")] (lit "AI_API_KEY")
           (lit "sk-123 456") [34%N] (lit "  ") (lit " ") (lit " ") (lit "  "));
    try reflexivity.
  right. now left.
Defined.

(* ================================================================= *)
(** * The first heading of a Markdown text *)
(* ================================================================= *)

Lemma rstrip_fixed_last (p : N -> bool) (m : str) (d : N) :
  rstrip_by p (m ++ [d]) = m ++ [d] -> p d = false.
Proof.
  destruct (p d) eqn:E; [|reflexivity]. intros H.
  rewrite (rstrip_by_app_all p m [d]) in H by (cbn [forallb]; now rewrite E).
  apply (f_equal (@length N)) in H. pose proof (rstrip_by_length p m).
  rewrite length_app in H. cbn [length] in H. lia.
Qed.

Lemma splitlines_line (l rest : str) :
  forallb (fun c => negb (is_linebreak c)) l = true ->
  splitlines (l ++ chr_newline :: rest) = l :: splitlines rest.
Proof.
  induction l as [|c l IH]; intros H; [reflexivity|].
  cbn [forallb] in H. apply andb_true_iff in H. destruct H as [Hc Hl].
  apply negb_true_iff in Hc. cbn [app splitlines]. rewrite Hc.
  now rewrite (IH Hl).
Qed.

Lemma splitlines_lines (before : list str) (rest : str) :
  Forall (fun l => forallb (fun c => negb (is_linebreak c)) l = true) before ->
  splitlines (flat_map (fun l => l ++ nl) before ++ rest) = before ++ splitlines rest.
Proof.
  induction 1 as [|l before Hl _ IH]; [reflexivity|].
  cbn [flat_map]. rewrite <- !app_assoc. unfold nl at 1. cbn [app].
  rewrite (splitlines_line _ _ Hl). now rewrite IH.
Qed.

Lemma first_heading_skips (before more : list str) :
  Forall (fun l => startswith (strip l) (lit "#") = false) before ->
  first_heading (before ++ more) = first_heading more.
Proof.
  induction 1 as [|l before Hl _ IH]; [reflexivity|].
  cbn [app first_heading]. rewrite Hl. now destruct (is_empty (strip l)).
Qed.

(** X19: the heading returned is the text of the first line that starts
    with ['#'], without its leading ['#'] characters and the white space
    around it; the lines before it and the text after it do not matter. *)
Theorem first_heading_is_found :
  forall before level pad title rest,
    Forall (fun l => forallb (fun c => negb (is_linebreak c)) l = true
                     /\ startswith (strip l) (lit "#") = false) before ->
    is_blank pad = true ->
    forallb (fun c => negb (is_linebreak c)) title = true ->
    strip title = title ->
    startswith title (lit "#") = false ->
    _extract_first_heading
      (flat_map (fun l => l ++ nl) before
       ++ repeat 35%N (S level) ++ pad ++ title ++ nl ++ rest)
    = title.
Proof.
  intros before level pad title rest Hbefore Hpad Htlb Hstrip Hhash.
  unfold _extract_first_heading.
  assert (Hne : is_empty (flat_map (fun l => l ++ nl) before
                          ++ repeat 35%N (S level) ++ pad ++ title ++ nl ++ rest)
                = false).
  { apply is_empty_false. cbn [repeat app]. now destruct (flat_map _ before). }
  rewrite Hne.
  rewrite splitlines_lines
    by (eapply Forall_impl; [|exact Hbefore]; now intros l [H _]).
  rewrite first_heading_skips
    by (eapply Forall_impl; [|exact Hbefore]; now intros l [_ H]).
  replace (repeat 35%N (S level) ++ pad ++ title ++ nl ++ rest)
    with ((repeat 35%N (S level) ++ pad ++ title) ++ chr_newline :: rest)
    by (unfold nl; now rewrite <- !app_assoc).
  rewrite splitlines_line.
  2:{ rewrite !forallb_app, (blank_has_no_linebreak _ Hpad), Htlb, andb_true_r.
      apply forallb_forall. intros x Hx. apply repeat_spec in Hx. now subst x. }
  cbn [first_heading].
  assert (Hhashes : forallb (in_chars (lit "#")) (repeat 35%N (S level)) = true).
  { apply forallb_forall. intros x Hx. apply repeat_spec in Hx. now subst x. }
  (* the title has nothing to strip *)
  assert (Htitle : title = []
                   \/ exists c r, title = c :: r /\ is_space c = false /\ c <> 35%N
                                  /\ rstrip title = title).
  { destruct title as [|c r]; [now left|right]. exists c, r.
    pose proof (strip_by_head _ _ _ _ Hstrip) as Hc.
    split; [reflexivity|]. split; [exact Hc|]. split.
    - intros E. subst c. change (lit "#") with [35%N] in Hhash. cbn in Hhash.
      destruct r; discriminate.
    - unfold strip, strip_by, lstrip_by in Hstrip. cbn [drop_while] in Hstrip.
      now rewrite Hc in Hstrip. }
  assert (Hline : exists tail,
             strip (repeat 35%N (S level) ++ pad ++ title)
             = repeat 35%N (S level) ++ tail
             /\ strip (lstrip_chars (lit "#") tail) = title).
  { destruct Htitle as [->|[c [r [E [Hc [H35 Hr]]]]]].
    - exists []. split; [|reflexivity].
      rewrite !app_nil_r. unfold strip, strip_by, lstrip_by. cbn [repeat app drop_while].
      change (is_space 35) with false. cbn iota.
      change (35%N :: repeat 35%N level ++ pad) with (repeat 35%N (S level) ++ pad).
      rewrite (rstrip_by_app_all is_space _ pad (blank_is_space _ Hpad)).
      apply rstrip_by_solid_last; [discriminate|].
      clear. induction level as [|n IH]; [reflexivity|].
      cbn [repeat] in *. destruct (repeat 35%N n); [reflexivity|exact IH].
    - exists (pad ++ title). split.
      + unfold strip, strip_by, lstrip_by. cbn [repeat app drop_while].
        change (is_space 35) with false. cbn iota.
        change (35%N :: repeat 35%N level ++ pad ++ title)
          with (repeat 35%N (S level) ++ pad ++ title).
        destruct (exists_last (l := title)) as [m [d Em]]; [rewrite E; discriminate|].
        assert (Hd : is_space d = false).
        { unfold rstrip in Hr. rewrite Em in Hr.
          exact (rstrip_fixed_last is_space m d Hr). }
        rewrite Em, !app_assoc.
        replace (((repeat 35%N (S level) ++ pad) ++ m) ++ [d])
          with (((repeat 35%N (S level) ++ pad) ++ m) ++ d :: []) by reflexivity.
        now rewrite (rstrip_by_app_solid is_space _ d [] Hd).
      + unfold lstrip_chars, lstrip_by.
        assert (Hkeep : drop_while (in_chars (lit "#")) (pad ++ title) = pad ++ title).
        { destruct pad as [|x pad'].
          - rewrite E. cbn [app drop_while].
            change (in_chars (lit "#") c) with ((c =? 35)%N || false)%bool.
            apply N.eqb_neq in H35. now rewrite H35.
          - cbn [app drop_while].
            change (in_chars (lit "#") x) with ((x =? 35)%N || false)%bool.
            unfold is_blank in Hpad. cbn [forallb] in Hpad.
            apply andb_true_iff in Hpad. destruct Hpad as [Hx _].
            apply andb_true_iff in Hx. destruct Hx as [Hx _].
            destruct (N.eqb_spec x 35) as [->|_]; [discriminate|reflexivity]. }
        rewrite Hkeep. unfold strip, strip_by, lstrip_by.
        rewrite (drop_while_all is_space pad _ (blank_is_space _ Hpad)).
        exact Hstrip. }
  destruct Hline as [tail [El Et]]. rewrite El.
  cbn [repeat app is_empty]. change (lit "#") with [35%N]. cbn [startswith].
  change (35 =? 35)%N with true. cbn [andb].
  assert (Hs : startswith (repeat 35%N level ++ tail) [] = true)
    by (destruct (repeat 35%N level ++ tail); reflexivity).
  rewrite Hs.
  change (35%N :: repeat 35%N level ++ tail) with (repeat 35%N (S level) ++ tail).
  unfold lstrip_chars, lstrip_by in *.
  change [35%N] with (lit "#").
  now rewrite (drop_while_all (in_chars (lit "#")) _ tail Hhashes).
Qed.

Lemma first_heading_is_found_witness :
  _extract_first_heading
    (lit "Notes about the folder" ++ nl ++ nl
     ++ lit "##  Usage guide" ++ nl ++ lit "text" ++ nl ++ lit "# Other")
  = lit "Usage guide".
Proof.
  apply (first_heading_is_found [lit "Notes about the folder"; []] 1 (lit "  ")
           (lit "Usage guide") (lit "text" ++ nl ++ lit "# Other"));
    try reflexivity.
  repeat constructor.
Defined.

(* ================================================================= *)
(** * The repository named by the origin of the clone *)
(* ================================================================= *)

Section OriginRepo.
Import List_issues.

Lemma split_once_parts (sep : N) (s a b : str) :
  split_once sep s = Some (a, b) -> s = a ++ sep :: b /\ ~ In sep a.
Proof.
  revert a b. induction s as [|c s IH]; intros a b H; [discriminate|].
  simpl in H. destruct (N.eqb_spec c sep) as [->|Hne].
  - injection H as <- <-. split; [reflexivity|intros []].
  - destruct (split_once sep s) as [[a' b']|]; [|discriminate].
    injection H as <- <-. destruct (IH a' b' eq_refl) as [-> Hn].
    split; [reflexivity|]. intros [E|Hin]; [congruence|contradiction].
Qed.

Lemma strip_prefix_parts (p s r : str) : strip_prefix p s = Some r -> s = p ++ r.
Proof.
  revert s. induction p as [|x p IH]; intros s H.
  - destruct s; now injection H as <-.
  - destruct s as [|y s]; [discriminate|]. simpl in H.
    destruct (N.eqb_spec x y) as [->|_]; [|discriminate].
    now rewrite (IH s H).
Qed.

Lemma strip_prefix_app (p r : str) : strip_prefix p (p ++ r) = Some r.
Proof.
  induction p as [|x p IH]; [now destruct r|].
  simpl. now rewrite N.eqb_refl.
Qed.

Lemma lazy_name_parts (slash : bool) (s n : str) :
  lazy_name slash s = Some n ->
  n <> [] /\ ~ In 47%N n /\ exists tail, s = n ++ tail /\ git_tail slash tail = true.
Proof.
  revert n. induction s as [|c s IH]; intros n H; [discriminate|].
  cbn [lazy_name] in H. destruct (N.eqb_spec c 47) as [->|Hc]; [discriminate|].
  destruct (git_tail slash s) eqn:Et.
  - injection H as <-. split; [discriminate|]. split.
    + intros [E|[]]. congruence.
    + now exists s.
  - destruct (lazy_name slash s) as [t|]; [|discriminate]. injection H as <-.
    destruct (IH t eq_refl) as [_ [Hn [tail [-> Ht]]]].
    split; [discriminate|]. split.
    + intros [E|Hin]; [congruence|contradiction].
    + now exists tail.
Qed.

Lemma match_remote_parts (prefix : str) (slash : bool) (s owner name : str) :
  match_remote prefix slash s = Some (owner, name) ->
  owner <> [] /\ ~ In 47%N owner /\ name <> [] /\ ~ In 47%N name
  /\ exists tail,
      s = prefix ++ owner ++ lit "/" ++ name ++ tail /\ git_tail slash tail = true.
Proof.
  unfold match_remote. intros H.
  destruct (strip_prefix prefix s) as [r|] eqn:Ep; [|discriminate].
  apply strip_prefix_parts in Ep. subst s.
  destruct (split_once chr_slash r) as [[[|c o] rest]|] eqn:Es; try discriminate.
  apply split_once_parts in Es. destruct Es as [-> Ho].
  destruct (lazy_name slash rest) as [n|] eqn:En; [|discriminate].
  injection H as <- <-.
  apply lazy_name_parts in En. destruct En as [Hne [Hn [tail [-> Ht]]]].
  split; [discriminate|]. split; [exact Ho|]. split; [exact Hne|].
  split; [exact Hn|]. exists tail. split; [reflexivity|exact Ht].
Qed.

(** X20: what is inferred from the origin is either nothing, or
    [owner/name] read from a URL that starts as a GitHub remote does: both
    parts are non-empty and hold no slash, so the result has exactly one
    slash. *)
Theorem inferred_repo_is_owner_and_name :
  forall origin_url,
    let repo := _infer_repo_from_origin origin_url in
    repo = []
    \/ exists prefix owner name tail,
        In prefix [ssh_prefix; https_prefix; http_prefix]
        /\ strip origin_url = prefix ++ owner ++ lit "/" ++ name ++ tail
        /\ repo = owner ++ lit "/" ++ name
        /\ owner <> [] /\ ~ In 47%N owner /\ name <> [] /\ ~ In 47%N name.
Proof.
  intros origin_url repo. subst repo. unfold _infer_repo_from_origin. cbv zeta.
  destruct (is_empty (strip origin_url)); [now left|].
  assert (Hfound : forall prefix slash owner name,
             In prefix [ssh_prefix; https_prefix; http_prefix] ->
             match_remote prefix slash (strip origin_url) = Some (owner, name) ->
             owner ++ lit "/" ++ name = []
             \/ exists prefix owner' name' tail,
                 In prefix [ssh_prefix; https_prefix; http_prefix]
                 /\ strip origin_url = prefix ++ owner' ++ lit "/" ++ name' ++ tail
                 /\ owner ++ lit "/" ++ name = owner' ++ lit "/" ++ name'
                 /\ owner' <> [] /\ ~ In 47%N owner'
                 /\ name' <> [] /\ ~ In 47%N name').
  { intros prefix slash owner name Hin H. right.
    apply match_remote_parts in H.
    destruct H as [Ho [Hos [Hn [Hns [tail [E _]]]]]].
    exists prefix, owner, name, tail. repeat split; assumption. }
  destruct (match_remote (lit "git@github.com:") false (strip origin_url))
    as [[owner name]|] eqn:E1.
  { apply (Hfound ssh_prefix false); [now left|exact E1]. }
  destruct (match_remote (lit "https://github.com/") true (strip origin_url))
    as [[owner name]|] eqn:E2.
  { apply (Hfound https_prefix true); [right; now left|exact E2]. }
  destruct (match_remote (lit "http://github.com/") true (strip origin_url))
    as [[owner name]|] eqn:E3.
  { apply (Hfound http_prefix true); [right; right; now left|exact E3]. }
  now left.
Qed.

(** ** The usual forms of a remote *)

Lemma opt_slash_end_solid (slash : bool) (c : N) (x : str) :
  c <> 47%N -> c <> 10%N -> opt_slash_end slash (c :: x) = false.
Proof.
  intros H47 H10. unfold opt_slash_end, at_end.
  apply N.eqb_neq in H47, H10. rewrite H47.
  destruct x; [rewrite H10|]; now destruct slash.
Qed.

(** After a part of the name, the end of the pattern does not match yet. *)
Lemma git_tail_after (slash : bool) (q tail : str) :
  q <> [] ->
  Forall (fun c => c <> 47%N /\ c <> 10%N) q ->
  q <> lit ".git" ->
  In tail [ []; lit ".git"; lit "/"; lit ".git/" ] ->
  git_tail slash (q ++ tail) = false.
Proof.
  intros Hne Hall Hgit Htail. unfold git_tail.
  destruct q as [|c0 q]; [congruence|].
  apply Forall_cons_iff in Hall. destruct Hall as [[H0 H0'] Hall].
  cbn [app]. rewrite (opt_slash_end_solid slash c0 _ H0 H0'). cbn [orb].
  change (lit ".git") with [46; 103; 105; 116]%N in *.
  change (lit "/") with [47%N] in *. change (lit ".git/") with [46; 103; 105; 116; 47]%N in *.
  assert (Hshort : forall x : str,
             (length x < 3)%nat ->
             match strip_prefix [103; 105; 116]%N (x ++ tail) with
             | Some r => opt_slash_end slash r
             | None => false
             end = false).
  { intros x Hx.
    destruct x as [|x0 [|x1 [|x2 x3]]]; [| | |simpl in Hx; lia];
      cbn [In] in Htail;
      destruct Htail as [<-|[<-|[<-|[<-|[]]]]]; cbn [app strip_prefix];
      repeat match goal with
             | |- context [(?a =? ?b)%N] => destruct (N.eqb_spec a b); subst
             end; try reflexivity; try discriminate. }
  cbn [strip_prefix].
  destruct (N.eqb_spec 46 c0) as [<-|_]; [|reflexivity].
  destruct q as [|c1 [|c2 [|c3 q4]]].
  - apply (Hshort []). simpl. lia.
  - apply (Hshort [c1]). simpl. lia.
  - apply (Hshort [c1; c2]). simpl. lia.
  - cbn [app strip_prefix].
    destruct (N.eqb_spec 103 c1) as [<-|_]; [|reflexivity].
    destruct (N.eqb_spec 105 c2) as [<-|_]; [|reflexivity].
    destruct (N.eqb_spec 116 c3) as [<-|_]; [|reflexivity].
    destruct q4 as [|c4 q5]; [congruence|].
    apply Forall_cons_iff in Hall. destruct Hall as [_ Hall].
    apply Forall_cons_iff in Hall. destruct Hall as [_ Hall].
    apply Forall_cons_iff in Hall. destruct Hall as [_ Hall].
    apply Forall_cons_iff in Hall. destruct Hall as [[H4 H4'] _].
    cbn [app]. destruct (q5 ++ tail); apply opt_slash_end_solid; assumption.
Qed.

Lemma lazy_name_found (slash : bool) (tail : str) :
  git_tail slash tail = true ->
  forall name,
    name <> [] ->
    ~ In 47%N name ->
    (forall p q, name = p ++ q -> p <> [] -> q <> [] ->
                 git_tail slash (q ++ tail) = false) ->
    lazy_name slash (name ++ tail) = Some name.
Proof.
  intros Ht nm. induction nm as [|c name IH]; intros Hne Hs Hsplit; [congruence|].
  cbn [app lazy_name].
  destruct (N.eqb_spec c 47) as [->|_]; [exfalso; apply Hs; now left|].
  destruct name as [|c' name'].
  - cbn [app]. now rewrite Ht.
  - rewrite (Hsplit [c] (c' :: name') eq_refl) by discriminate.
    rewrite IH; [reflexivity|discriminate| |].
    + intros Hin. apply Hs. now right.
    + intros p q E Hp Hq. apply (Hsplit (c :: p) q); [|discriminate|exact Hq].
      cbn [app]. now rewrite E.
Qed.

Lemma repo_segment_facts (s : str) :
  repo_segment s = true ->
  s <> [] /\ ~ In 47%N s
  /\ Forall (fun c => c <> 47%N /\ c <> 10%N /\ is_space c = false) s.
Proof.
  unfold repo_segment. intros H. apply andb_true_iff in H. destruct H as [Hne Hall].
  assert (Hx : Forall (fun c => c <> 47%N /\ c <> 10%N /\ is_space c = false) s).
  { apply Forall_forall. intros x Hin. rewrite forallb_forall in Hall.
    apply Hall in Hin. apply negb_true_iff, orb_false_iff in Hin.
    destruct Hin as [H47 Hsp]. apply N.eqb_neq in H47.
    split; [exact H47|]. split; [|exact Hsp]. intros ->. discriminate. }
  split; [now destruct s|]. split; [|exact Hx].
  intros Hin. rewrite Forall_forall in Hx. now apply Hx in Hin.
Qed.

Lemma match_remote_found (prefix : str) (slash : bool) (owner name tail : str) :
  repo_segment owner = true ->
  repo_segment name = true ->
  endswith name (lit ".git") = false ->
  In tail [ []; lit ".git"; lit "/"; lit ".git/" ] ->
  git_tail slash tail = true ->
  match_remote prefix slash (prefix ++ owner ++ lit "/" ++ name ++ tail)
  = Some (owner, name).
Proof.
  intros Ho Hn Hgit Htail Ht.
  apply repo_segment_facts in Ho, Hn.
  destruct Ho as [Hone [Hos _]], Hn as [Hnne [Hns Hnall]].
  unfold match_remote. rewrite strip_prefix_app.
  change (lit "/") with [47%N]. cbn [app].
  rewrite (split_once_at chr_slash owner _ Hos).
  destruct owner as [|c o]; [congruence|].
  rewrite (lazy_name_found slash tail Ht name Hnne Hns); [reflexivity|].
  intros p q E Hp Hq. apply git_tail_after; [exact Hq| | |exact Htail].
  - rewrite E in Hnall. apply Forall_app in Hnall. destruct Hnall as [_ Hq'].
    eapply Forall_impl; [|exact Hq']. intros x [H1 [H2 _]]. now split.
  - intros Eq. subst q. rewrite E, endswith_app in Hgit. discriminate.
Qed.

Lemma last_app_ne {A : Type} (a b : list A) (d : A) :
  b <> [] -> last (a ++ b) d = last b d.
Proof.
  intros Hb. induction a as [|x a IH]; [reflexivity|].
  cbn [app]. destruct (a ++ b) eqn:E.
  - destruct a; [cbn in E; congruence|discriminate].
  - rewrite <- IH. reflexivity.
Qed.

Lemma remote_is_stripped (prefix owner name tail : str) :
  In prefix [ssh_prefix; https_prefix; http_prefix] ->
  repo_segment name = true ->
  In tail [ []; lit ".git"; lit "/"; lit ".git/" ] ->
  strip (prefix ++ owner ++ lit "/" ++ name ++ tail)
  = prefix ++ owner ++ lit "/" ++ name ++ tail.
Proof.
  intros Hp Hn Htail. apply strip_by_solid_ends. right. split.
  - cbn [In] in Hp. destruct Hp as [<-|[<-|[<-|[]]]]; reflexivity.
  - apply repo_segment_facts in Hn. destruct Hn as [Hne [_ Hall]].
    rewrite !app_assoc, <- (app_assoc _ name tail).
    rewrite last_app_ne by (destruct name; [congruence|discriminate]).
    cbn [In] in Htail. destruct Htail as [<-|[<-|[<-|[<-|[]]]]].
    + rewrite app_nil_r. rewrite Forall_forall in Hall.
      now apply Hall, last_is_in.
    + now rewrite last_app_ne by discriminate.
    + now rewrite last_app_ne by discriminate.
    + now rewrite last_app_ne by discriminate.
Qed.

(** X21: every usual URL of the repository [owner/name] on GitHub, over
    SSH, HTTPS or HTTP, with or without [.git] and a final slash, yields
    [owner/name]. *)
Theorem usual_remotes_are_inferred :
  forall owner name origin_url,
    repo_segment owner = true ->
    repo_segment name = true ->
    endswith name (lit ".git") = false ->
    In origin_url (remote_forms owner name) ->
    _infer_repo_from_origin origin_url = owner ++ lit "/" ++ name.
Proof.
  intros owner name origin_url Ho Hn Hgit Hin.
  assert (Hform : exists prefix slash tail,
             origin_url = prefix ++ owner ++ lit "/" ++ name ++ tail
             /\ In tail [ []; lit ".git"; lit "/"; lit ".git/" ]
             /\ git_tail slash tail = true
             /\ (prefix = ssh_prefix /\ slash = false
                 \/ prefix = https_prefix /\ slash = true
                 \/ prefix = http_prefix /\ slash = true)).
  { unfold remote_forms in Hin. cbn [map app In] in Hin.
    destruct Hin as [<-|[<-|[<-|[<-|[<-|[<-|[<-|[<-|[<-|[<-|[]]]]]]]]]]].
    - exists ssh_prefix, false, []. cbn [In]. tauto.
    - exists ssh_prefix, false, (lit ".git"). cbn [In]. tauto.
    - exists https_prefix, true, []. cbn [In]. tauto.
    - exists https_prefix, true, (lit ".git"). cbn [In]. tauto.
    - exists https_prefix, true, (lit "/"). cbn [In]. tauto.
    - exists https_prefix, true, (lit ".git/"). cbn [In]. tauto.
    - exists http_prefix, true, []. cbn [In]. tauto.
    - exists http_prefix, true, (lit ".git"). cbn [In]. tauto.
    - exists http_prefix, true, (lit "/"). cbn [In]. tauto.
    - exists http_prefix, true, (lit ".git/"). cbn [In]. tauto. }
  destruct Hform as [prefix [slash [tail [-> [Htail [Ht Hp]]]]]].
  unfold _infer_repo_from_origin. cbv zeta.
  rewrite remote_is_stripped; [|destruct Hp as [[-> _]|[[-> _]|[-> _]]]; cbn [In]; tauto
                               |exact Hn|exact Htail].
  assert (Hne : is_empty (prefix ++ owner ++ lit "/" ++ name ++ tail) = false)
    by (destruct Hp as [[-> _]|[[-> _]|[-> _]]]; reflexivity).
  rewrite Hne.
  destruct Hp as [[-> ->]|[[-> ->]|[-> ->]]].
  - change (lit "git@github.com:") with ssh_prefix.
    now rewrite (match_remote_found ssh_prefix false owner name tail Ho Hn Hgit Htail Ht).
  - assert (E : match_remote (lit "git@github.com:") false
                  (https_prefix ++ owner ++ lit "/" ++ name ++ tail) = None)
      by reflexivity.
    rewrite E. change (lit "https://github.com/") with https_prefix.
    now rewrite (match_remote_found https_prefix true owner name tail Ho Hn Hgit Htail Ht).
  - assert (E : match_remote (lit "git@github.com:") false
                  (http_prefix ++ owner ++ lit "/" ++ name ++ tail) = None)
      by reflexivity.
    assert (E2 : match_remote (lit "https://github.com/") true
                   (http_prefix ++ owner ++ lit "/" ++ name ++ tail) = None)
      by reflexivity.
    rewrite E, E2. change (lit "http://github.com/") with http_prefix.
    now rewrite (match_remote_found http_prefix true owner name tail Ho Hn Hgit Htail Ht).
Qed.

End OriginRepo.

(** Remotes that are not the usual ones: another host, a path of three
    parts, a name that ends in [.git] twice. *)
Example unusual_remotes :
  List_issues._infer_repo_from_origin (lit "  https://gitlab.com/o/r.git ") = []
  /\ List_issues._infer_repo_from_origin (lit "git@github.com:o/a/b.git") = []
  /\ (List_issues._infer_repo_from_origin (lit "https://github.com/o/r.git.git")
      = lit "o/r.git").
Proof. vm_compute. repeat split; reflexivity. Qed.

Lemma usual_remotes_are_inferred_witness :
  List_issues._infer_repo_from_origin (lit "https://github.com/AAswordman/Operit.Market.git/")
  = lit "AAswordman/Operit.Market".
Proof.
  apply (usual_remotes_are_inferred (lit "AAswordman") (lit "Operit.Market")
           (lit "https://github.com/AAswordman/Operit.Market.git/")
           eq_refl eq_refl eq_refl).
  do 5 right. left. reflexivity.
Defined.

(* ================================================================= *)
(** * The report of the issue lister *)
(* ================================================================= *)

Lemma one_line_app (a b : str) : one_line a -> one_line b -> one_line (a ++ b).
Proof. unfold one_line. intros Ha Hb H. apply in_app_or in H. tauto. Qed.

Lemma one_line_join (sep : str) (parts : list str) :
  one_line sep -> Forall one_line parts -> one_line (join sep parts).
Proof.
  intros Hs. induction 1 as [|p parts Hp _ IH]; [intros []|].
  destruct parts as [|q parts']; [exact Hp|].
  change (join sep (p :: q :: parts')) with (p ++ sep ++ join sep (q :: parts')).
  now repeat apply one_line_app.
Qed.

Lemma uint_digits (d : Decimal.uint) :
  Forall (fun c => (48 <= c <= 57)%N) (str_of_uint d).
Proof. induction d; cbn [str_of_uint]; constructor; try assumption; lia. Qed.

Lemma one_line_dec_of_N (n : N) : one_line (dec_of_N n).
Proof.
  unfold one_line, dec_of_N. intros H.
  pose proof (uint_digits (N.to_uint n)) as Hd. rewrite Forall_forall in Hd.
  apply Hd in H. unfold chr_newline in H. lia.
Qed.

Lemma one_line_dec_of_Z (z : Z) : one_line (dec_of_Z z).
Proof.
  unfold dec_of_Z. destruct (z <? 0)%Z; [|apply one_line_dec_of_N].
  intros [H|H]; [discriminate|]. now apply one_line_dec_of_N in H.
Qed.

Lemma one_line_title (t : str) :
  one_line (strip (replace_chr chr_newline chr_space
                     (replace_chr chr_cr chr_space t))).
Proof.
  intros H. apply (infix_of_In _ _ _ (strip_infix _)) in H.
  unfold replace_chr in H at 1. apply in_map_iff in H.
  destruct H as [x [E _]].
  destruct (N.eqb_spec x chr_newline) as [Heq|Hne]; [discriminate|].
  congruence.
Qed.

Lemma split_join_lines (lines : list str) :
  lines <> [] -> Forall one_line lines -> split chr_newline (join nl lines) = lines.
Proof.
  intros Hne H. induction H as [|p lines Hp _ IH]; [congruence|].
  destruct lines as [|q lines'].
  - cbn [join]. now apply split_no_sep.
  - change (join nl (p :: q :: lines')) with (p ++ chr_newline :: join nl (q :: lines')).
    rewrite (split_app_sep chr_newline p _ Hp). f_equal. apply IH. discriminate.
Qed.

Lemma one_line_lit (s : string) :
  forallb (fun c => negb (c =? chr_newline)%N) (lit s) = true -> one_line (lit s).
Proof.
  intros Hf H. rewrite forallb_forall in Hf. apply Hf in H.
  now rewrite N.eqb_refl in H.
Qed.

(** The parts of a line, one by one. *)
Ltac line_parts :=
  repeat match goal with
         | |- one_line (_ ++ _) => apply one_line_app
         | |- one_line (lit _) => apply one_line_lit; vm_compute; reflexivity
         | |- one_line (dec_of_Z _) => apply one_line_dec_of_Z
         | |- one_line (dec_of_N _) => apply one_line_dec_of_N
         | |- one_line (dec_of_nat _) => apply one_line_dec_of_N
         | |- one_line (strip _) => apply one_line_title
         | |- one_line [] => intros []
         | |- one_line _ => assumption
         end.

Section Report.
Variable I : Interp.

Lemma issue_lines_one_line (it : List_issues.IssueItem) :
  one_line_issue it -> Forall one_line (List_issues.issue_lines it).
Proof.
  intros [Hu [Hs [Hup [Hl Ha]]]]. unfold List_issues.issue_lines. cbv zeta.
  constructor; [|constructor; [|constructor]].
  - line_parts.
  - apply one_line_app; [line_parts|].
    apply one_line_join; [line_parts|].
    apply Forall_app. split; [|apply Forall_app; split].
    + destruct (is_empty _); constructor; [|constructor].
      apply one_line_app; [line_parts|].
      destruct (is_empty_list _); [intros []|].
      apply one_line_join; [line_parts|exact Hl].
    + destruct (is_empty _); constructor; [|constructor].
      apply one_line_app; [line_parts|].
      destruct (is_empty_list _); [intros []|].
      apply one_line_join; [line_parts|exact Ha].
    + constructor; [line_parts|]. constructor; [line_parts|constructor].
Qed.

(** X22: whatever the titles hold, the report has five lines of header,
    two lines for each issue, in order, and an empty last line: a line
    break in a title cannot break the list. *)
Theorem report_has_two_lines_per_issue :
  forall issues repo state,
    one_line repo -> one_line state ->
    Forall one_line_issue issues ->
    split chr_newline (List_issues._to_markdown issues repo state)
    = List_issues.report_lines issues repo state
    /\ length (List_issues.report_lines issues repo state)
       = (2 * length issues + 6)%nat
    /\ forall i it,
        nth_error issues i = Some it ->
        nth_error (List_issues.report_lines issues repo state) (5 + 2 * i)
        = nth_error (List_issues.issue_lines it) 0
        /\ nth_error (List_issues.report_lines issues repo state) (6 + 2 * i)
           = nth_error (List_issues.issue_lines it) 1.
Proof.
  intros issues repo state Hr Hs Hall.
  split; [|split].
  - unfold List_issues._to_markdown. apply split_join_lines.
    + unfold List_issues.report_lines. discriminate.
    + unfold List_issues.report_lines.
      apply Forall_app. split; [|apply Forall_app; split].
      * constructor; [line_parts|]. constructor; [line_parts|].
        constructor; [line_parts|]. constructor; [line_parts|].
        constructor; [line_parts|constructor].
      * clear - Hall. induction Hall as [|it issues Hit _ IH]; [constructor|].
        cbn [flat_map]. apply Forall_app. split; [|exact IH].
        now apply issue_lines_one_line.
      * constructor; [line_parts|constructor].
  - unfold List_issues.report_lines. rewrite !length_app. cbn [length].
    assert (E : length (flat_map List_issues.issue_lines issues) = (2 * length issues)%nat).
    { clear. induction issues as [|it issues IH]; [reflexivity|].
      cbn [flat_map]. rewrite length_app, IH.
      change (length (List_issues.issue_lines it)) with 2%nat. cbn [length]. lia. }
    rewrite E. lia.
  - intros i it Hi. unfold List_issues.report_lines.
    change (5 + 2 * i)%nat with (S (S (S (S (S (2 * i)))))).
    change (6 + 2 * i)%nat with (S (S (S (S (S (S (2 * i))))))).
    cbn [app nth_error].
    assert (Hgo : forall l : list str,
               nth_error (flat_map List_issues.issue_lines issues ++ l) (2 * i)
               = nth_error (List_issues.issue_lines it) 0
               /\ nth_error (flat_map List_issues.issue_lines issues ++ l) (S (2 * i))
                  = nth_error (List_issues.issue_lines it) 1).
    { intros l. clear - Hi. revert i Hi.
      induction issues as [|x issues IH]; intros i Hi; [destruct i; discriminate|].
      destruct i as [|i].
      - injection Hi as ->. cbn [flat_map].
        change (List_issues.issue_lines it)
          with [hd [] (List_issues.issue_lines it);
                hd [] (tl (List_issues.issue_lines it))].
        split; reflexivity.
      - cbn [nth_error] in Hi. specialize (IH i Hi).
        replace (2 * S i)%nat with (S (S (2 * i))) by lia.
        cbn [flat_map].
        change (List_issues.issue_lines x)
          with [hd [] (List_issues.issue_lines x);
                hd [] (tl (List_issues.issue_lines x))].
        cbn [app nth_error]. exact IH. }
    apply Hgo.
Qed.

End Report.

Lemma report_has_two_lines_per_issue_witness :
  let it := {| List_issues.number := 7;
               List_issues.title := lit " Crash" ++ nl ++ lit "on start ";
               List_issues.html_url := lit "https://github.com/o/r/issues/7";
               List_issues.state := lit "open";
               List_issues.created_at := lit "2024-01-01T00:00:00Z";
               List_issues.updated_at := lit "2024-01-02T00:00:00Z";
               List_issues.labels := [lit "bug"; lit "ui"];
               List_issues.assignees := [];
               List_issues.comments := 3 |} in
  split chr_newline (List_issues._to_markdown [it] (lit "o/r") (lit "all"))
  = [ lit "# GitHub Issues (o/r)"; []; lit "State: `all`"; lit "Count: `1`"; [];
      lit "- #7 [Crash on start](https://github.com/o/r/issues/7) (open)";
      lit "  - labels: bug, ui | comments: 3 | updated: 2024-01-02T00:00:00Z";
      [] ].
Proof.
  intros it.
  destruct (report_has_two_lines_per_issue [it] (lit "o/r") (lit "all")) as [H _].
  - vm_compute. intuition discriminate.
  - vm_compute. intuition discriminate.
  - constructor; [|constructor]. unfold one_line_issue, one_line.
    repeat split; try (vm_compute; intuition discriminate).
    + repeat constructor; vm_compute; intuition discriminate.
    + constructor.
  - rewrite H. vm_compute. reflexivity.
Defined.

(* ================================================================= *)
(** * The items of the issue lister *)
(* ================================================================= *)

Section Items.
Variable I : Interp.

Lemma int_field_read (it : dict) (key : str) :
  int_or_absent (py_get key it) ->
  List_issues.int_field I it key = Ok (int_or_zero (py_get key it)).
Proof.
  unfold List_issues.int_field, int_or_absent. intros [->|[z ->]]; [reflexivity|].
  unfold py_or, truthy. destruct (z =? 0)%Z eqn:E; [|reflexivity].
  apply Z.eqb_eq in E. now subst z.
Qed.

Lemma names_in_read (it : dict) (key field : str) :
  list_or_absent (py_get key it) ->
  List_issues.names_in I it key field = Ok (names_of I field (py_get key it)).
Proof.
  unfold List_issues.names_in, list_or_absent. intros [->|[l ->]]; [reflexivity|].
  unfold py_or, truthy. now destruct l.
Qed.

(** X23: an issue object whose number and comment count are integers (or
    missing) and whose labels and assignees are lists (or missing) is
    always turned into an item: missing numbers count as 0, missing lists
    as empty, a missing title as the empty text; labels and assignees are
    the [name] and [login] of the objects of their lists. *)
Theorem well_typed_issue_is_listed :
  forall it,
    int_or_absent (py_get (lit "number") it) ->
    int_or_absent (py_get (lit "comments") it) ->
    list_or_absent (py_get (lit "labels") it) ->
    list_or_absent (py_get (lit "assignees") it) ->
    exists item,
      List_issues.issue_item_of I it = Ok item
      /\ List_issues.number item = int_or_zero (py_get (lit "number") it)
      /\ List_issues.comments item = int_or_zero (py_get (lit "comments") it)
      /\ List_issues.labels item = names_of I (lit "name") (py_get (lit "labels") it)
      /\ List_issues.assignees item
         = names_of I (lit "login") (py_get (lit "assignees") it)
      /\ (py_get (lit "title") it = JNull -> List_issues.title item = [])
      /\ (forall s, py_get (lit "title") it = JStr s -> List_issues.title item = s).
Proof.
  intros it Hn Hc Hl Ha. unfold List_issues.issue_item_of.
  rewrite (int_field_read it (lit "number") Hn).
  rewrite (names_in_read it (lit "labels") (lit "name") Hl).
  rewrite (names_in_read it (lit "assignees") (lit "login") Ha).
  rewrite (int_field_read it (lit "comments") Hc).
  eexists. split; [reflexivity|]. cbn [List_issues.number List_issues.comments
    List_issues.labels List_issues.assignees List_issues.title].
  repeat split.
  - intros E. unfold List_issues.str_field. now rewrite E.
  - intros s E. unfold List_issues.str_field. rewrite E.
    unfold py_or, truthy. now destruct s.
Qed.

End Items.

Lemma well_typed_issue_is_listed_witness :
  let it := [ (lit "number", JInt 12);
              (lit "title", JStr (lit "Import fails"));
              (lit "labels", JArr [JObj [(lit "name", JStr (lit "bug"))]; JStr (lit "x")]);
              (lit "assignees", JNull) ] in
  exists item,
    List_issues.issue_item_of ascii_interp it = Ok item
    /\ List_issues.number item = 12%Z
    /\ List_issues.comments item = 0%Z
    /\ List_issues.labels item = [lit "bug"]
    /\ List_issues.assignees item = []
    /\ List_issues.title item = lit "Import fails".
Proof.
  intros it.
  destruct (well_typed_issue_is_listed ascii_interp it) as [item [E [Hn [Hc [Hl [Ha [_ Ht]]]]]]].
  - right. now exists 12%Z.
  - now left.
  - right. eexists. reflexivity.
  - now left.
  - exists item. split; [exact E|]. split; [exact Hn|]. split; [exact Hc|].
    split; [exact Hl|]. split; [exact Ha|]. now apply Ht.
Defined.

(* ================================================================= *)
(** * The next page of a link header *)
(* ================================================================= *)

Lemma split_not_nil (sep : N) (s : str) : split sep s <> [].
Proof.
  destruct s as [|c s]; [discriminate|]. simpl.
  destruct (c =? sep)%N; [discriminate|]. now destruct (split sep s).
Qed.

Lemma split_at_sep (sep : N) (a b : str) :
  split sep (a ++ sep :: b) = split sep a ++ split sep b.
Proof.
  induction a as [|c a IH].
  - simpl. now rewrite N.eqb_refl.
  - simpl. destruct (c =? sep)%N.
    + now rewrite IH.
    + rewrite IH. pose proof (split_not_nil sep a) as Hn.
      now destruct (split sep a).
Qed.

Lemma first_next_skips (xs ys : list str) :
  Forall names_no_next xs -> first_next (xs ++ ys) = first_next ys.
Proof.
  induction 1 as [|x xs [Hq Hb] _ IH]; [reflexivity|].
  simpl. now rewrite Hq, Hb.
Qed.

Lemma no_next_in_parts (s : str) :
  names_no_next s -> Forall names_no_next (map strip (split chr_comma s)).
Proof.
  intros [Hq Hb]. apply Forall_forall. intros p Hp.
  apply in_map_iff in Hp. destruct Hp as [x [<- Hx]].
  apply split_infix in Hx.
  pose proof (infix_of_trans _ _ _ (strip_infix x) Hx) as Hi.
  split.
  - destruct (contains rel_next_quoted (strip x)) eqn:E; [|reflexivity].
    apply contains_infix in E.
    pose proof (proj2 (contains_infix _ _) (infix_of_trans _ _ _ E Hi)). congruence.
  - destruct (contains rel_next_bare (strip x)) eqn:E; [|reflexivity].
    apply contains_infix in E.
    pose proof (proj2 (contains_infix _ _) (infix_of_trans _ _ _ E Hi)). congruence.
Qed.

Lemma strip_leading_space (s : str) : strip (32%N :: s) = strip s.
Proof. reflexivity. Qed.

Lemma next_entry_no_comma (url : str) :
  ~ In chr_comma url -> ~ In chr_comma (next_entry url).
Proof.
  intros Hcomma. unfold next_entry. intros [H|H]; [discriminate|].
  apply in_app_or in H. destruct H as [H|H]; [now apply Hcomma|].
  vm_compute in H. intuition discriminate.
Qed.

Lemma first_of_entry (url rest : str) :
  url <> [] -> ~ In 62%N url -> ~ In chr_comma url -> ends_entry rest ->
  first_next (map strip (split chr_comma (next_entry url ++ rest))) = url.
Proof.
  intros Hne Hgt Hcomma Hrest.
  pose proof (next_entry_no_comma url Hcomma) as Hn.
  destruct rest as [|c more].
  - rewrite app_nil_r, split_no_sep by assumption. now apply first_next_entry.
  - simpl in Hrest. subst c.
    rewrite split_app_sep by assumption. cbn [map]. now apply first_next_entry.
Qed.

(** X24: a link header without [rel="next"] and without [rel=next] names no
    next page, in the importer and in the issue lister. *)
Theorem link_without_next_names_no_page :
  forall link_header,
    names_no_next link_header ->
    _parse_link_next link_header = []
    /\ List_issues._parse_link_next link_header = [].
Proof.
  intros link_header H.
  assert (E : _parse_link_next link_header = []).
  { unfold _parse_link_next. destruct (is_empty link_header); [reflexivity|].
    rewrite <- (app_nil_r (map strip (split chr_comma link_header))).
    now rewrite first_next_skips by now apply no_next_in_parts. }
  split; [exact E|]. rewrite <- E. reflexivity.
Qed.

Lemma link_without_next_names_no_page_witness :
  _parse_link_next
    (qlit "<https://api.github.com/r?page=1>; rel='prev', <https://api.github.com/r?page=1>; rel='first'")
  = []
  /\ List_issues._parse_link_next
       (qlit "<https://api.github.com/r?page=1>; rel='prev', <https://api.github.com/r?page=1>; rel='first'")
     = [].
Proof.
  apply (link_without_next_names_no_page
           (qlit "<https://api.github.com/r?page=1>; rel='prev', <https://api.github.com/r?page=1>; rel='first'")).
  split; vm_compute; reflexivity.
Defined.

(** X25: the address of the entry marked [rel="next"] is what both parsers
    return, whether the entry opens the header or follows, after a comma
    and a space, entries none of which is marked next; the address is any
    non-empty text without ['>'] and without a comma, and further entries
    may follow. *)
Theorem link_next_is_found :
  forall url rest,
    url <> [] -> ~ In 62%N url -> ~ In chr_comma url -> ends_entry rest ->
    (_parse_link_next (next_entry url ++ rest) = url
     /\ List_issues._parse_link_next (next_entry url ++ rest) = url)
    /\ forall before,
        names_no_next before ->
        _parse_link_next (before ++ lit ", " ++ next_entry url ++ rest) = url
        /\ List_issues._parse_link_next (before ++ lit ", " ++ next_entry url ++ rest)
           = url.
Proof.
  intros url rest Hne Hgt Hcomma Hrest.
  pose proof (first_of_entry url rest Hne Hgt Hcomma Hrest) as Hfirst.
  split.
  - assert (E : _parse_link_next (next_entry url ++ rest) = url) by exact Hfirst.
    split; [exact E|]. rewrite <- E at 2. reflexivity.
  - intros before Hb.
    assert (E : _parse_link_next (before ++ lit ", " ++ next_entry url ++ rest) = url).
    { unfold _parse_link_next.
      replace (is_empty (before ++ lit ", " ++ next_entry url ++ rest)) with false
        by now destruct before.
      change (before ++ lit ", " ++ next_entry url ++ rest)
        with (before ++ chr_comma :: 32%N :: next_entry url ++ rest).
      rewrite split_at_sep, map_app.
      rewrite first_next_skips by now apply no_next_in_parts.
      change (32%N :: next_entry url ++ rest) with (32%N :: (next_entry url ++ rest)).
      destruct rest as [|c more].
      - rewrite app_nil_r. rewrite app_nil_r in Hfirst.
        pose proof (next_entry_no_comma url Hcomma) as Hn.
        rewrite split_no_sep in Hfirst by assumption.
        rewrite split_no_sep.
        + cbn [map]. rewrite strip_leading_space. exact Hfirst.
        + intros [H|H]; [discriminate|now apply Hn].
      - simpl in Hrest. subst c.
        pose proof (next_entry_no_comma url Hcomma) as Hn.
        rewrite split_app_sep in Hfirst by assumption.
        change (32%N :: (next_entry url ++ chr_comma :: more))
          with ((32%N :: next_entry url) ++ chr_comma :: more).
        rewrite split_app_sep.
        + cbn [map]. cbn [map] in Hfirst. rewrite strip_leading_space. exact Hfirst.
        + intros [H|H]; [discriminate|now apply Hn]. }
    split; [exact E|]. rewrite <- E at 2. reflexivity.
Qed.

Lemma link_next_is_found_witness :
  _parse_link_next
    (qlit "<https://api.github.com/r?page=1>; rel='prev', <https://api.github.com/r?page=3>; rel='next', <https://api.github.com/r?page=9>; rel='last'")
  = lit "https://api.github.com/r?page=3".
Proof.
  assert (Eh : qlit "<https://api.github.com/r?page=1>; rel='prev', <https://api.github.com/r?page=3>; rel='next', <https://api.github.com/r?page=9>; rel='last'"
               = qlit "<https://api.github.com/r?page=1>; rel='prev'" ++ lit ", "
                 ++ next_entry (lit "https://api.github.com/r?page=3")
                 ++ qlit ", <https://api.github.com/r?page=9>; rel='last'")
    by (vm_compute; reflexivity).
  rewrite Eh.
  destruct (link_next_is_found (lit "https://api.github.com/r?page=3")
              (qlit ", <https://api.github.com/r?page=9>; rel='last'")) as [_ H].
  - discriminate.
  - vm_compute. intuition discriminate.
  - vm_compute. intuition discriminate.
  - reflexivity.
  - destruct (H (qlit "<https://api.github.com/r?page=1>; rel='prev'")) as [E _].
    + split; vm_compute; reflexivity.
    + exact E.
Defined.

(* ================================================================= *)
(** * A run with [--skip-existing] *)
(* ================================================================= *)

Section SkipExistingRun.
Variable I : Interp.

Lemma announce_logged (args : Args) (w : World) :
  announce args w = (Ok tt, logged (announce_events args) (script w) w).
Proof.
  unfold announce, announce_events. cbv zeta.
  destruct (arg_verbose args); destruct w; reflexivity.
Qed.

(** The importer's listing over a chain of pages. *)
Lemma iter_issues_pages api repo owner name token ctx state labels pages items rest w :
  split_repo repo = Ok (owner, name) ->
  linked_pages I pages ->
  Forall2 page_ok pages items ->
  script w = map Answered pages ++ rest ->
  _iter_issues I api repo token ctx state labels w
  = (Ok (flat_map without_pull_requests items),
     logged (map (fun u => EvRequest (github_request I u (lit "GET") token ctx
                                        None None default_timeout_s))
                 (page_urls I (issues_url I api owner name state labels) pages))
            rest w).
Proof.
  intros Hr Hl Hok Hs.
  assert (Hlen : (length pages <= S (length (script w)))%nat).
  { rewrite Hs, length_app, length_map. lia. }
  unfold _iter_issues. unfold bind at 1. unfold lift. rewrite Hr. cbn [fst snd].
  apply (iter_pages_linked I token ctx pages items _ _ [] rest w
           (issues_url_nonempty I _ _ _ _ _) Hlen Hok Hl Hs).
Qed.

(** With the flag, [prepare] lists the issues of the target and keeps the
    URLs found in them. *)
Lemma prepare_fetches args environ owner name pages items rest w :
  arg_skip_existing args = true ->
  split_repo (arg_target_repo args) = Ok (owner, name) ->
  linked_pages I pages ->
  Forall2 page_ok pages items ->
  script w = map Answered pages ++ rest ->
  prepare_of I args environ w
  = (Ok (run_with I args environ (flat_map without_pull_requests items)),
     logged (announce_events args ++ fetch_events I args environ owner name pages)
            rest w).
Proof.
  intros Hf Hr Hl Hok Hs. unfold prepare_of, prepare. cbv zeta.
  unfold bind at 1. rewrite announce_logged. rewrite Hf.
  unfold bind at 1. unfold bind at 1.
  rewrite (iter_issues_pages _ _ owner name _ _ _ _ pages items rest
             (logged (announce_events args) (script w) w) Hr Hl Hok);
    [|rewrite script_logged; exact Hs].
  rewrite logged_logged. reflexivity.
Qed.

Lemma is_known_In (r : Run) (skill : SourceSkill) :
  is_known r skill = true <-> In (repo_url_of (run_args r) skill) (existing_repo_urls r).
Proof. apply str_mem_In. Qed.

(** With the flag, an item that is processed to the end is counted as
    skipped when its URL is known, and as created or failed otherwise. *)
Lemma process_skill_tally r idx total skill c w c' w' :
  arg_skip_existing (run_args r) = true ->
  process_skill I r idx total skill c w = (Ok c', w') ->
  if is_known r skill then c' = count_skipped c
  else c' = count_created c \/ c' = count_failed c.
Proof.
  intros Hf H. destruct (is_known r skill) eqn:Hk.
  - rewrite (process_skill_known I r idx total skill c w Hf
               (proj1 (is_known_In r skill) Hk)) in H.
    now injection H as <- _.
  - assert (Hskip : (arg_skip_existing (run_args r)
                     && str_mem (repo_url_of (run_args r) skill)
                          (existing_repo_urls r))%bool = false).
    { unfold is_known in Hk. rewrite Hk. apply andb_false_r. }
    destruct (_pick_skill_markdown I (github_api_base r) (arg_source_repo (run_args r))
                (arg_source_ref (run_args r)) (path skill) (github_token r)
                (github_ctx r) (at_pick (run_args r) idx total skill w))
      as [[md|e] w1] eqn:Hpick.
    + destruct (process_skill_after_pick I r idx total skill c w md w1 Hskip Hpick)
        as [c1 [w2 [E Hc]]].
      rewrite E in H. injection H as <- _. exact Hc.
    + rewrite (process_skill_pick_raises I r idx total skill c w e w1 Hskip Hpick) in H.
      discriminate.
Qed.

Lemma main_loop_tally r :
  arg_skip_existing (run_args r) = true ->
  forall skills idx total c w c' w',
    main_loop I r idx total skills c w = (Ok c', w') ->
    skipped c' = (skipped c + length (filter (is_known r) skills))%nat
    /\ (created c' + failed c'
        = created c + failed c
          + length (filter (fun s => negb (is_known r s)) skills))%nat.
Proof.
  intros Hf. induction skills as [|skill rest IH]; intros idx total c w c' w' H.
  - injection H as <- _. simpl. lia.
  - cbn [main_loop] in H. unfold bind at 1 in H.
    destruct (process_skill I r idx total skill c w) as [[c1|e] w1] eqn:E;
      [|discriminate].
    apply IH in H. apply (process_skill_tally r idx total skill c w c1 w1 Hf) in E.
    cbn [filter]. destruct (is_known r skill); cbn [negb length].
    + subst c1. simpl in H. lia.
    + destruct E as [-> | ->]; simpl in H; lia.
Qed.

Lemma fetch_urls args environ owner name pages :
  map rq_url (requests_of (fetch_events I args environ owner name pages))
  = page_urls I (issues_url I (env_github_api_base environ) owner name (lit "all") [])
              pages.
Proof.
  unfold fetch_events.
  induction (page_urls I (issues_url I (env_github_api_base environ) owner name
                            (lit "all") []) pages) as [|u l IH];
    [reflexivity|].
  cbn [map requests_of flat_map app]. fold (requests_of
    (map (fun u0 => EvRequest
                      (github_request I u0 (lit "GET") (env_github_token environ)
                         (_build_ssl_context (arg_github_tls12 args)
                                             (arg_github_insecure args))
                         None None default_timeout_s)) l)).
  rewrite IH. reflexivity.
Qed.

(** C8.  Let the settings be in order, [--skip-existing] be given, and the
    answers to come start with the pages of the issues of the target
    repository.  Then [main] first requests those pages, and nothing else
    before them: the listing with state [all] and without a [labels]
    parameter, then the pages it links to.  It goes on to the discovery
    with, as set of existing URLs, the non-empty URLs that the extractor
    finds in the bodies of the listed issues (pull requests left out).  In
    its loop, an item whose repository URL is in the set only prints its
    skip line (after the progress line when verbose) and moves the skipped
    counter: no request is sent for it, so it is neither summarized nor
    submitted; an item whose URL is not in the set is processed exactly as
    it is without the flag.  When the run ends, the skipped counter of the
    summary line is the number of items whose URL is in the set, and the
    others are all counted as created or failed. *)
Theorem skip_existing_skips_known_urls :
  forall args environ owner name pages items rest w,
    configured args environ ->
    arg_skip_existing args = true ->
    split_repo (arg_target_repo args) = Ok (owner, name) ->
    linked_pages I pages ->
    Forall2 page_ok pages items ->
    script w = map Answered pages ++ rest ->
    let issues := flat_map without_pull_requests items in
    let r := run_with I args environ issues in
    let fetched := fetch_events I args environ owner name pages in
    let w1 := logged (announce_events args ++ fetched) rest w in
    main I args environ w
    = (found <- discover I r ;;
       match found with
       | inr code => ret code
       | inl skills => run_skills I r skills
       end) w1
    /\ map rq_url (requests_of fetched)
       = page_urls I
           (rstrip_chars (lit "/") (env_github_api_base environ) ++ lit "/repos/"
            ++ quote I owner ++ lit "/" ++ quote I name ++ lit "/issues" ++ lit "?"
            ++ urlencode I [ (lit "state", lit "all"); (lit "per_page", lit "100");
                             (lit "sort", lit "updated");
                             (lit "direction", lit "desc") ])
           pages
    /\ (forall u,
           In u (existing_repo_urls r) <->
           exists d, In (JObj d) issues
                     /\ u = _extract_skill_metadata_repo_url I
                              (py_str I (py_or I (py_get (lit "body") d) (JStr [])))
                     /\ u <> [])
    /\ (forall idx total skill after c w',
           In (repo_url_of args skill) (existing_repo_urls r) ->
           main_loop I r idx total (skill :: after) c w'
           = main_loop I r (S idx) total after (count_skipped c)
               (logged (skip_events r idx total skill) (script w') w'))
    /\ (forall idx total skill after c w',
           ~ In (repo_url_of args skill) (existing_repo_urls r) ->
           main_loop I r idx total (skill :: after) c w'
           = (c' <- process_skill I (run_without_skip_existing r) idx total skill c ;;
              main_loop I r (S idx) total after c') w')
    /\ (forall skills w2 code w3,
           discover I r w1 = (Ok (inl skills), w2) ->
           main I args environ w = (Ok code, w3) ->
           exists c,
             hd_error (log w3) = Some (EvPrint (done_line c))
             /\ skipped c = length (filter (is_known r) skills)
             /\ (created c + failed c
                 = length (filter (fun s => negb (is_known r s)) skills))%nat).
Proof.
  intros args environ owner name pages items rest w Hc Hf Hr Hl Hok Hs
         issues r fetched w1.
  assert (Hmain : main I args environ w
                  = (found <- discover I r ;;
                     match found with
                     | inr code => ret code
                     | inl skills => run_skills I r skills
                     end) w1).
  { rewrite (main_configured I args environ w Hc). unfold bind at 1.
    rewrite (prepare_fetches args environ owner name pages items rest w Hf Hr Hl Hok Hs).
    reflexivity. }
  split; [exact Hmain|].
  split; [apply fetch_urls|].
  split; [intros u; apply known_urls_In|].
  split; [|split].
  - intros idx total skill after c w' Hin.
    cbn [main_loop]. unfold bind at 1.
    rewrite (process_skill_known I r idx total skill c w' Hf Hin). reflexivity.
  - intros idx total skill after c w' Hnot.
    cbn [main_loop]. unfold bind at 1.
    rewrite (process_skill_unknown I r idx total skill c w' Hnot). reflexivity.
  - intros skills w2 code w3 Hd Hrun. rewrite Hmain in Hrun.
    unfold bind at 1 in Hrun. rewrite Hd in Hrun.
    unfold run_skills in Hrun. unfold bind at 1 in Hrun.
    destruct (main_loop I r 1 (length skills) skills
                {| created := 0; skipped := 0; failed := 0 |} w2)
      as [[c|e] w4] eqn:E; [|discriminate].
    apply (main_loop_tally r Hf) in E. cbn [created skipped failed] in E.
    rewrite print_then_ret in Hrun. injection Hrun as _ <-.
    exists c. split; [reflexivity|]. lia.
Qed.

End SkipExistingRun.

(** C8 on a whole run: the target repository holds an issue for [pdf] (and
    a pull request); of the two folders found, [pdf] is counted as skipped
    and [xlsx] goes on to be summarized. *)
Lemma skip_existing_skips_known_urls_witness :
  let w := world_of [existing_issues; root_listing; folder_listing; raw_file;
                     completion] in
  let run := main ascii_interp skip_dry_args example_environ w in
  fst run = Ok 0%Z
  /\ exists c,
      hd_error (log (snd run)) = Some (EvPrint (done_line c))
      /\ skipped c = 1%nat
      /\ (created c + failed c = 1)%nat.
Proof.
  intros w run.
  pose (page := match existing_issues with
                | Answered a => a
                | _ => answer 0 [] []
                end).
  pose (pages := [page]).
  pose (items := [match body_value page with Some (JArr l) => l | _ => [] end]).
  destruct (skip_existing_skips_known_urls ascii_interp skip_dry_args example_environ
              (lit "AAswordman") (lit "OperitSkillMarket") pages items
              [root_listing; folder_listing; raw_file; completion] w)
    as [_ [_ [_ [_ [_ Htally]]]]].
  - unfold configured.
    split; [vm_compute; discriminate|].
    split; [vm_compute; discriminate|].
    split; [right; reflexivity|].
    split; [vm_compute; discriminate|vm_compute; reflexivity].
  - reflexivity.
  - vm_compute. reflexivity.
  - vm_compute. reflexivity.
  - constructor; [split; vm_compute; reflexivity|constructor].
  - reflexivity.
  - split; [vm_compute; reflexivity|].
    destruct (Htally [pdf_skill; xlsx_skill]
                (snd (discover ascii_interp
                        (run_with ascii_interp skip_dry_args example_environ
                           (flat_map without_pull_requests items))
                        (logged (announce_events skip_dry_args
                                 ++ fetch_events ascii_interp skip_dry_args
                                      example_environ (lit "AAswordman")
                                      (lit "OperitSkillMarket") pages)
                                [root_listing; folder_listing; raw_file; completion]
                                w)))
                0%Z (snd run))
      as [c [Hd [Hs Hc]]].
    + vm_compute. reflexivity.
    + vm_compute. reflexivity.
    + exists c. split; [exact Hd|]. split; [exact Hs|exact Hc].
Defined.
